(* ===== verification/_CoqProject ===== *)
-Q . S2P
Prelude.v
CBuf.v
Numeral.v
NumToA.v
Float.v
Ftoa.v
Streams.v
Printf.v
SysTime.v
Fw.v
CanFrame.v
CanDriver.v
CanSim.v
Platform.v
Logging.v
Api.v
Adc.v
Serial.v
Main.v
AppSim.v
Queues.v
VTimers.v
Memory.v
Heap.v
Kernel.v
Sync.v
Threads.v
Events.v
Mailboxes.v
System.v
Osal.v
Sched.v
KInv.v
KOps.v
KWake.v
KSafe.v
KCalls.v
KMtx.v
Inherit.v
Safety.v
Preempt.v
KSpecs.v
MbxSpecs.v
EvtSpecs.v
CanKernel.v
Mmio.v
CanWake.v
Typing.v
KSim.v
Dma.v
AdcDrv.v
AdcSpecs.v
AdcSim.v
SerialDrv.v
SerialSpecs.v
SerialKernel.v
SerialSim.v
Pal.v
Spi.v
SpiSpecs.v
SpiSim.v
St.v
Wdg.v
Hal.v
BoardSim.v
Boot.v
BootSim.v
Tickless.v
TickKernel.v
TickSim.v
Sampling.v
SampleSim.v
CanApp.v
CanAppSim.v
