(* ===== verification/Prelude.v ===== *)
(** * AnalogX firmware: verification library (root file)

    AnalogX is the firmware of a CAN device that samples four analog inputs
    (src/firmware). It runs on the ChibiOS kernel and drivers kept with it
    (src/firmware/ChibiOS/os/rt and os/hal), on a Cortex-M0. This library models
    the application, the drivers and the run-time library it is built on, and the
    kernel, and proves what they do.

    ** The program's parts and the files that model them

    Libraries. util/modp_numtoa.c is NumToA.v (integers) and Ftoa.v (floating
    point, on the arithmetic of Float.v); os/hal/lib/streams is Streams.v (memory
    and null streams behind a class of stream operations) and Printf.v
    (chprintf.c); the time conversions of chvt.h are SysTime.v. CBuf.v holds C
    arrays, Numeral.v the positional numerals the printers are proved against.

    CAN driver. CanFrame.v has the frames and their register encoding; CanDriver.v
    has os/hal/src/can.c and the bxCAN driver CANv1/can_lld.c, over a class of
    register operations ([CanHw]) and one of kernel services ([Osal]). CanSim.v
    is a concrete peripheral.

    Application. Platform.v is its state and the class of services it calls;
    Logging.v is logging.c, Api.v is system_CAN.c, analogx_api.c and system.c,
    Adc.v is system_ADC.c, Serial.v is system_serial.c, Main.v is main.c.
    AppSim.v is a concrete platform. CanApp.v puts the receive worker on the CAN
    driver and its interrupt handler (CanAppSim.v a concrete world), Sampling.v
    the sampling on the ADC driver, the DMA stream and the converter
    (SampleSim.v). Two worker threads and the main loop
    interact through the globals of the [app] record: the receive worker applies
    configuration messages, the sampling worker reads the rate they set, the main
    loop reports statistics.

    Kernel. Queues.v is chqueues.c, VTimers.v is chvt.c, Memory.v is
    chmemcore.c, chheap.c and chmempools.c. Kernel.v has the kernel's state and
    scheduler (chschd.c, chschd.h); on it are Sync.v (chsem.c, chbsem.h, chmtx.c,
    chcond.c), Threads.v (chthreads.c, chregistry.c, chmsg.c), Events.v
    (chevents.c), Mailboxes.v (chmboxes.c) and System.v (chdynamic.c, chsys.c).
    Osal.v is os/hal/osal/rt/osal.h, the kernel as the drivers see it; CanKernel.v
    implements the [Osal] interface of the CAN driver's handlers with it, CanWake.v
    runs the whole interrupt on that. VTimers.v
    has the timers of a periodic tick; Tickless.v has them as this build compiles
    them (CH_CFG_ST_TIMEDELTA above zero): on the alarm of St.v, with the counter
    moving at every access; TickKernel.v is that with the kernel's time limits as
    the timers' callbacks, TickSim.v a concrete counter.

    Drivers on memory-mapped registers. Mmio.v has the registers as a class of
    reads and writes, a driver's variables as objects beside them, the interrupt
    controller (nvic.c), the clock gates (stm32_rcc.h) and the weakest
    preconditions the drivers' proofs use. Dma.v is DMAv1/stm32_dma.c with this
    processor's three DMA handlers (hal_lld.c). On its streams are AdcDrv.v (adc.c,
    ADCv1/adc_lld.c; specifications in AdcSpecs.v) and Spi.v (spi.c,
    SPIv2/spi_lld.c; SpiSpecs.v). SerialDrv.v is serial.c and USARTv2/serial_lld.c
    over the queues of Queues.v, SerialSpecs.v its specification as a pair of
    FIFOs, SerialKernel.v the same driver over the kernel's threads and events.
    Pal.v is the pins (pal.c, GPIOv2/pal_lld.c), Wdg.v the watchdog (wdg.c,
    xWDGv1/wdg_lld.c), St.v the system timer (st.c, TIMv1/st_lld.c), Hal.v the
    clocks and the platform's start (hal_lld.c), Boot.v the start of all drivers
    (hal.c). AdcSim.v, SerialSim.v, SpiSim.v, BoardSim.v and BootSim.v are concrete
    hardware for them.

    ** How state and operations correspond to the code

    A C integer is a [Z] with its wrap-around written out ([u32], [chk_s32]...).
    Code that cannot give up the processor is a computation [fw W A], which
    passes a state [W] and may fail with what C leaves undefined ([cerr]). The
    kernel's state is the record [kernel]: thread records, the queue headed by
    each kernel object (the list of threads linked in it), counters, owners,
    references, the timers' list and the memory. The union in a thread record
    carries the member last written, and reading another is an error. A kernel
    call that may switch is [kern A]: it ends, fails, or stops at
    [chSysSwitch] with the state it leaves and what it goes on with when its
    thread is current again ([Switch]). Priority loops of the scheduler end, as in
    the code, at the header's null priority. Memory.v reads and writes block
    headers and links by address. A driver on registers is a computation [fw W A]
    over any world [W] with a class of laws for the hardware it uses ([DmaHw],
    [CoreHw], [TimHw], [IwdgHw], [GpioHw], [ClockHw], [SerialWorld]...): what the
    reference manual says a read or a write does, and no more, so time may pass and
    flags may come up at any access. A callback is a computation of the same type,
    which may call the driver again.

    ** The theorems

    The kernel at work (Safety.v). [step] is the system: the running thread makes
    a call or goes on inside one, an interrupt handler runs while interrupts are
    enabled, time passes. [kernel_safety] proves that from the state [chSysInit]
    makes no reachable step fails and the invariant [kinv] holds: each thread is
    in the queue its state and union say and in no other, queues are in priority
    order, exactly one thread is current, semaphore counters agree with their
    waiters, armed timers belong to waiting threads, mutexes are in their owners'
    lists. [legal] and [ilegal] state what callers must do: the idle thread never
    waits, the counters do not reach the limits of [int32_t], mutexes are unlocked
    in the reverse order of locking, a thread exits with none, threads are created
    once and with a priority above zero, messages are released by the receiver,
    and the tick comes before the time counter has gone a whole turn. The proof is
    in layers: Sched.v (the scheduler's part of the invariant), KInv.v (the
    invariant, and [safe] executions up to each switch), KOps.v (sleeping, waking,
    rescheduling), KWake.v (operations of interrupt handlers, the tick), KSafe.v,
    KCalls.v and KMtx.v (the calls of threads).

    On that base: priority inheritance through chains of owners, that it ends, and
    where it is lost (Inherit.v); the typing of threads' unions (Typing.v);
    priority scheduling, round robin and the threads a tick wakes (Preempt.v);
    semaphores as a count or a queue (KSpecs.v); mailboxes as bounded queues
    (MbxSpecs.v); events as sets of bits (EvtSpecs.v); the threads the CAN
    interrupt wakes, those that wait for a mailbox, for a frame or for an event, through
    driver, events and scheduler (CanWake.v). KSim.v drives a
    concrete kernel to the states the theorems are evaluated at, and shows a
    mailbox reset overtaken by a waking thread.

    Data structures: the I/O queues refine a bounded queue (Queues.v), timers keep
    their expiry times through insertion and removal and the tick fires those
    expired (VTimers.v), the heap refines a sorted list of free blocks in which
    none are adjacent (Heap.v).

    From hardware to threads and back. Time limits (Tickless.v, TickKernel.v): a
    limit that a call to the kernel sets never ends early, and from one tick past
    it on the timer's interrupt is pending and makes the thread ready, whatever
    the counter does between and during the accesses, as long as an access takes at
    most [ACCESS_CYCLES] cycles; while a limit is set the alarm is never missed. Settings
    (CanApp.v): in every run of arrivals, interrupts and worker steps the settings
    are those the configuration messages on the bus ask for, in order, and no queued
    frame is left with the worker asleep. Samples (Sampling.v): what a broadcast
    carries is what the converter measured on each pin, in the sequence the
    call started or the one before; a sample torn between two sequences
    is possible, and SampleSim.v has one. The hypotheses are classes: what the
    counter, the converter and the CAN controller do, bus errors of the DMA excepted.

    Driver and application: no frame arrives without waking the reader, frames
    survive the registers, transmissions return what their waits end with
    (CanDriver.v, CanFrame.v); messages are drained and applied in order, the
    frames sent are well formed, jumpers choose disjoint identifiers (Api.v); the
    scaling is exact and the period kept while the work fits (Adc.v); formatted
    output prints what the format specifies, within the buffer (Printf.v, Logging.v).

    Drivers on registers: the streams claimed and released are a map, and the
    clock and the vectors they share follow it (Dma.v); in every run of the ADC
    and SPI drivers, callbacks that call them included, no call fails - but for the
    halt the SPI driver asks for when a stream reports an error - and state,
    configuration, streams and interrupts agree (AdcDrv.v, SpiSpecs.v); each
    conversion and each transfer is programmed and completed as the group or the
    call asks (AdcSpecs.v, SpiSpecs.v); no byte given to the serial driver is lost,
    reordered or left behind, and the threads that wait for its bytes are woken
    (SerialSpecs.v, SerialKernel.v); pins change mode without a glitch through
    another function (Pal.v), an alarm set ahead of the counter is signalled when the counter reaches it (St.v), nothing stops the
    watchdog (Wdg.v), the clocks start (Hal.v), and the start-up establishes what
    the theorems above assume (Boot.v). Where an error path or an order of flags
    goes wrong, a lemma says how (Dma.v, AdcSpecs.v, SerialSpecs.v, Wdg.v).

    ** Fuel

    Value loops have the digits of the widest value; walks over a list have its
    length; the heap's walks the number of free blocks; the tick one round more
    than there are timers; priority inheritance one round more than registered
    threads, since each round raises one; the event dispatcher 33 rounds; a loop
    that polls a register more rounds than the bound in the hardware's law. Each is
    proved enough where a theorem states that the operation returns.

    ** Not modelled

    Interrupt entry and exit, context switching and start-up code (assembly; what
    is relied on is that a switch resumes the thread that gave up the processor);
    the drivers halconf.h leaves out (USB, I2C, timers and the others); the
    application's files call the drivers through [Platform], and of these only the
    receive worker and the sampling are composed with the drivers' files; the serial
    console and the main loop stay over that interface; the kernel's debug checks, statistics and time
    measurement, which chconf.h turns off; boards, demos and tests of the operating system. Thread records not in
    use are in state [WTSTART]; the stack of a thread is not modelled. Waiting for
    a thread's end, threads in dynamic memory and mailboxes are defined but are
    not among the calls of [step]: a mailbox call waits with its message in the
    thread's own frame, and its theorems are those of MbxSpecs.v. *)

From Stdlib Require Export ZArith Lia.
From Stdlib Require Export String Ascii.
From stdpp Require Export base tactics list numbers option.

#[global] Open Scope Z_scope.
#[global] Set Default Goal Selector "!".

(** ** C integer types

    A w-bit integer is a [Z]; each C conversion to a fixed-width type is
    written out with the function of its name. *)

Definition u8 (z : Z) : Z := z mod 256.
Definition u16 (z : Z) : Z := z mod 65536.
Definition u32 (z : Z) : Z := z mod 4294967296.
Definition u64 (z : Z) : Z := z mod 18446744073709551616.
Definition s32 (z : Z) : Z := (z + 2147483648) mod 4294967296 - 2147483648.

Definition UINT32_MAX : Z := 4294967295.
Definition INT32_MIN : Z := -2147483648.
Definition INT32_MAX : Z := 2147483647.
Definition INT64_MIN : Z := -9223372036854775808.
Definition INT64_MAX : Z := 9223372036854775807.

Definition in_s32 (z : Z) : bool := (INT32_MIN <=? z) && (z <=? INT32_MAX).
Definition in_s64 (z : Z) : bool := (INT64_MIN <=? z) && (z <=? INT64_MAX).

Create HintDb cint.
Create Rewrite HintDb cint.

(** Unfolds the integer types and closes the goal with [lia]; [Z.mod] and
    [Z.div] are linearised by [Z.to_euclidean_division_equations]. *)
Ltac cint :=
  unfold u8, u16, u32, u64, s32, in_s32, in_s64, UINT32_MAX, INT32_MIN,
    INT32_MAX, INT64_MIN, INT64_MAX in *;
  Z.to_euclidean_division_equations; lia.

Lemma u8_id z : 0 <= z < 256 → u8 z = z.
Proof. apply Z.mod_small. Qed.
Lemma u16_id z : 0 <= z < 65536 → u16 z = z.
Proof. apply Z.mod_small. Qed.
Lemma u32_id z : 0 <= z < 4294967296 → u32 z = z.
Proof. apply Z.mod_small. Qed.
Lemma u64_id z : 0 <= z < 18446744073709551616 → u64 z = z.
Proof. apply Z.mod_small. Qed.
Lemma s32_id z : INT32_MIN <= z <= INT32_MAX → s32 z = z.
Proof. cint. Qed.
Lemma u8_range z : 0 <= u8 z < 256.
Proof. by apply Z.mod_pos_bound. Qed.
Lemma u16_range z : 0 <= u16 z < 65536.
Proof. by apply Z.mod_pos_bound. Qed.
Lemma u32_range z : 0 <= u32 z < 4294967296.
Proof. by apply Z.mod_pos_bound. Qed.
Lemma s32_range z : INT32_MIN <= s32 z <= INT32_MAX.
Proof. cint. Qed.
Lemma u32_idemp z : u32 (u32 z) = u32 z.
Proof. apply u32_id, u32_range. Qed.
Lemma u32_s32 z : u32 (s32 z) = u32 z.
Proof. cint. Qed.
Lemma u32_add_l a b : u32 (u32 a + b) = u32 (a + b).
Proof. unfold u32. by rewrite Zplus_mod_idemp_l. Qed.
Lemma u32_add_r a b : u32 (a + u32 b) = u32 (a + b).
Proof. unfold u32. by rewrite Zplus_mod_idemp_r. Qed.
Lemma u32_sub_l a b : u32 (u32 a - b) = u32 (a - b).
Proof. unfold u32. by rewrite Zminus_mod_idemp_l. Qed.
Lemma u32_sub_r a b : u32 (a - u32 b) = u32 (a - b).
Proof. unfold u32. by rewrite Zminus_mod_idemp_r. Qed.

#[export] Hint Rewrite u32_add_l u32_add_r u32_sub_l u32_sub_r u32_idemp u32_s32 : cint.
#[export] Hint Resolve u8_range u16_range u32_range s32_range : cint.

(** ** Run-time errors

    What the C abstract machine leaves undefined is an error of the model, so
    a theorem that an operation returns [Ok] includes that it is free of
    out-of-bounds accesses, signed overflow, division by zero and conversions
    out of range. [Misuse] is a call that the documentation of the called function
    rules out, where the model does not follow what the code would then do.
    [OutOfFuel] is the model's own: a loop ran longer than its fuel. [Halted] is
    no error of the program: it asked for the system to be halted. *)

Inductive cerr :=
  | OutOfBounds
  | SignedOverflow
  | DivByZero
  | BadConversion
  | BadVarArg
  | NullPointer
  | BadUnion
  | Misuse
  | OutOfFuel
  | Halted.

#[global] Instance cerr_eq_dec : EqDecision cerr.
Proof. solve_decision. Defined.

Inductive res (A : Type) :=
  | Ok (a : A)
  | Err (e : cerr).
Arguments Ok {A} a.
Arguments Err {A} e.

#[global] Instance res_ret : MRet res := λ A a, Ok a.
#[global] Instance res_bind : MBind res :=
  λ A B f r, match r with Ok a => f a | Err e => Err e end.
#[global] Instance res_fmap : FMap res :=
  λ A B f r, match r with Ok a => Ok (f a) | Err e => Err e end.

#[global] Instance res_eq_dec {A} `{EqDecision A} : EqDecision (res A).
Proof. solve_decision. Defined.

Definition is_Ok {A} (r : res A) : Prop := ∃ a, r = Ok a.

Lemma res_bind_Ok {A B} (f : A → res B) (r : res A) b :
  (r ≫= f) = Ok b ↔ ∃ a, r = Ok a ∧ f a = Ok b.
Proof.
  destruct r as [x|]; simpl; split; [by eauto|by intros (?&[= <-]&?)|done|by intros (?&?&?)].
Qed.

Lemma res_bind_assoc {A B C} (r : res A) (f : A → res B) (g : B → res C) :
  (r ≫= f) ≫= g = r ≫= (λ a, f a ≫= g).
Proof. by destruct r. Qed.

(** Inverts the [Ok] results of monadic code in the context. *)
Ltac inv_res :=
  repeat match goal with
  | H : _ ≫= _ = Ok _ |- _ => apply res_bind_Ok in H as (?&?&?)
  end; simplify_eq/=.

(** Case analysis on every comparison of [Z] in the goal or the context. *)
Ltac zcases :=
  repeat match goal with
  | |- context [(?a =? ?b)%Z] => destruct (Z.eqb_spec a b)
  | |- context [(?a <? ?b)%Z] => destruct (Z.ltb_spec a b)
  | |- context [(?a <=? ?b)%Z] => destruct (Z.leb_spec a b)
  | H : context [(?a =? ?b)%Z] |- _ => destruct (Z.eqb_spec a b)
  | H : context [(?a <? ?b)%Z] |- _ => destruct (Z.ltb_spec a b)
  | H : context [(?a <=? ?b)%Z] |- _ => destruct (Z.leb_spec a b)
  end.

(** Splits a [Forall] on a concrete list, and conjunctions. *)
Ltac forall_list :=
  repeat match goal with
  | |- Forall _ (_ :: _) => constructor
  | |- Forall _ [] => constructor
  | |- _ ∧ _ => split
  end.

(** Signed 32-bit arithmetic: the value, or an error when it overflows. *)
Definition chk_s32 (z : Z) : res Z :=
  if in_s32 z then Ok z else Err SignedOverflow.
Definition chk_s64 (z : Z) : res Z :=
  if in_s64 z then Ok z else Err SignedOverflow.

Lemma chk_s32_ok z : INT32_MIN <= z <= INT32_MAX → chk_s32 z = Ok z.
Proof.
  intros [H1 H2]. unfold chk_s32, in_s32.
  by rewrite (proj2 (Z.leb_le _ _) H1), (proj2 (Z.leb_le _ _) H2).
Qed.
Lemma chk_s64_ok z : INT64_MIN <= z <= INT64_MAX → chk_s64 z = Ok z.
Proof.
  intros [H1 H2]. unfold chk_s64, in_s64.
  by rewrite (proj2 (Z.leb_le _ _) H1), (proj2 (Z.leb_le _ _) H2).
Qed.

(** ** Strings

    The bytes of a C string literal. *)
Definition bytes_of (s : string) : list Z :=
  (λ c, Z.of_N (N_of_ascii c)) <$> list_ascii_of_string s.

(** A literal with its terminator. *)
Definition cstr (s : string) : list Z := bytes_of s ++ [0].

(** Function update. *)
Definition upd {A B} `{EqDecision A} (f : A → B) (a : A) (b : B) : A → B :=
  λ a', if decide (a' = a) then b else f a'.

Lemma upd_eq {A B} `{EqDecision A} (f : A → B) a b : upd f a b a = b.
Proof. unfold upd. by rewrite decide_True. Qed.
Lemma upd_ne {A B} `{EqDecision A} (f : A → B) a a' b : a' ≠ a → upd f a b a' = f a'.
Proof. intros. unfold upd. by rewrite decide_False. Qed.

(** ** Lists *)

Lemma list_insert_middle {A} (pre post : list A) x y :
  <[length pre := y]> (pre ++ x :: post) = pre ++ y :: post.
Proof.
  rewrite insert_app_r_alt by lia. by rewrite Nat.sub_diag.
Qed.

Lemma drop_nonempty {A} (l : list A) n :
  (n < length l)%nat → ∃ x, l !! n = Some x ∧ drop n l = x :: drop (S n) l.
Proof.
  intros H. destruct (lookup_lt_is_Some_2 l n H) as [x Hx].
  exists x. split; [done|]. by rewrite (drop_S l x n Hx).
Qed.

(** ** Little-endian words *)

Fixpoint le_split (n : nat) (z : Z) : list Z :=
  match n with O => [] | S n => z mod 256 :: le_split n (z / 256) end.

Fixpoint le_combine (bs : list Z) : Z :=
  match bs with [] => 0 | b :: bs => b + 256 * le_combine bs end.

Lemma le_split_length n z : length (le_split n z) = n.
Proof. revert z. induction n as [|n IH]; intros z; simpl; [done|by rewrite IH]. Qed.

Lemma le_split_range n z : Forall (λ b, 0 <= b < 256) (le_split n z).
Proof.
  revert z. induction n as [|n IH]; intros z; simpl; constructor; [|done].
  by apply Z.mod_pos_bound.
Qed.

Lemma le_combine_split n z : le_combine (le_split n z) = z mod 256 ^ Z.of_nat n.
Proof.
  revert z. induction n as [|n IH]; intros z; simpl le_split; simpl le_combine.
  - by rewrite Z.mod_1_r.
  - rewrite IH, Nat2Z.inj_succ, Z.pow_succ_r, Z.rem_mul_r by lia. lia.
Qed.

Lemma le_split_combine bs :
  Forall (λ b, 0 <= b < 256) bs → le_split (length bs) (le_combine bs) = bs.
Proof.
  induction 1 as [|b bs Hb _ IH]; [done|]. cbn [le_combine length le_split].
  rewrite (Z.mul_comm 256), Z_mod_plus_full, Z.div_add by lia.
  rewrite Z.mod_small, Z.div_small, Z.add_0_l by lia. by rewrite IH.
Qed.

Lemma le_combine_range bs :
  Forall (λ b, 0 <= b < 256) bs → 0 <= le_combine bs < 256 ^ Z.of_nat (length bs).
Proof.
  induction 1 as [|b bs Hb _ IH]; cbn [le_combine length]; [done|].
  rewrite Nat2Z.inj_succ, Z.pow_succ_r by lia. lia.
Qed.

(** ** Checking every integer of a range

    [range_all n z P] tests [P] on the [n] integers from [z] on; a theorem on a
    finite range follows by evaluation. *)
Fixpoint range_all (n : nat) (z : Z) (P : Z → bool) : bool :=
  match n with
  | O => true
  | S n' => P z && range_all n' (z + 1) P
  end.

Lemma range_all_spec n z P :
  range_all n z P = true → ∀ x, z <= x < z + Z.of_nat n → P x = true.
Proof.
  revert z. induction n as [|n IH]; intros z H x Hx; [lia|].
  cbn [range_all] in H. apply andb_prop in H as [Hz H].
  destruct (Z.eq_dec x z) as [->|Hne]; [done|]. apply (IH (z + 1) H). lia.
Qed.
