(* ===== verification/CBuf.v ===== *)
(** * C buffers: arrays accessed through an index

    A buffer is a list; a pointer into it is an index. A read or a write
    outside the buffer is [Err OutOfBounds]. *)

From S2P Require Import Prelude.

Notation buf := (list Z) (only parsing).

Section buffers.
Context {A : Type}.
Implicit Types b pre post : list A.

(** [*p] and [*p = c]. *)
Definition brd (b : list A) (p : nat) : res A :=
  match b !! p with Some c => Ok c | None => Err OutOfBounds end.
Definition bwr (b : list A) (p : nat) (c : A) : res (list A) :=
  if decide (p < length b)%nat then Ok (<[p := c]> b) else Err OutOfBounds.

Lemma bwr_ok b p c : (p < length b)%nat → bwr b p c = Ok (<[p := c]> b).
Proof. intros. unfold bwr. by rewrite decide_True. Qed.

Lemma bwr_oob b p c : (length b <= p)%nat → bwr b p c = Err OutOfBounds.
Proof. intros. unfold bwr. by rewrite decide_False by lia. Qed.

Lemma bwr_mid pre x post c :
  bwr (pre ++ x :: post) (length pre) c = Ok (pre ++ c :: post).
Proof.
  rewrite bwr_ok by (rewrite length_app; simpl; lia).
  by rewrite list_insert_middle.
Qed.

Lemma brd_mid pre x post : brd (pre ++ x :: post) (length pre) = Ok x.
Proof. unfold brd. by rewrite list_lookup_middle. Qed.

Lemma brd_ok b p x : b !! p = Some x → brd b p = Ok x.
Proof. unfold brd. by intros ->. Qed.

Lemma bwr_length b p c b' : bwr b p c = Ok b' → length b' = length b.
Proof. unfold bwr. intros. case_decide; simplify_eq. by rewrite length_insert. Qed.
End buffers.

(** C's [strcpy]: the bytes of [s] and the terminator, the rest untouched. *)
Definition strcpy (b s : buf) : res buf :=
  if decide (S (length s) <= length b)%nat
  then Ok (s ++ 0 :: drop (S (length s)) b) else Err OutOfBounds.

Lemma strcpy_ok b s :
  (S (length s) <= length b)%nat → strcpy b s = Ok (s ++ 0 :: drop (S (length s)) b).
Proof. intros. unfold strcpy. by rewrite decide_True. Qed.

Lemma strcpy_oob b s : (length b <= length s)%nat → strcpy b s = Err OutOfBounds.
Proof. intros. unfold strcpy. by rewrite decide_False by lia. Qed.

(** Overwriting a prefix that [s] covers changes nothing. *)
Lemma strcpy_over pre b s :
  (length pre <= length s)%nat → (length pre <= length b)%nat →
  strcpy (pre ++ drop (length pre) b) s = strcpy b s.
Proof.
  intros Hs Hb. unfold strcpy. rewrite length_app, length_drop.
  repeat case_decide; try lia; [|done]. do 3 f_equal.
  rewrite drop_app_ge by lia. rewrite drop_drop. f_equal. lia.
Qed.
