(* ===== verification/Numeral.v ===== *)
(** * Positional numerals: the reference the number printers are proved against

    [rnum base fuel v] are the digits of [v], least significant first; [num]
    is the canonical numeral, most significant first. [parse_num] reads a
    string of digit characters back. *)

From S2P Require Import Prelude.

Fixpoint rnum (base : Z) (fuel : nat) (v : Z) : list Z :=
  match fuel with
  | O => []
  | S f => v mod base :: (if v / base =? 0 then [] else rnum base f (v / base))
  end.

Definition num_fuel (v : Z) : nat := S (Z.to_nat (Z.log2 v)).
Definition num (base v : Z) : list Z := reverse (rnum base (num_fuel v) v).

(** Value of a digit list, least significant digit first. *)
Fixpoint of_rdigits (base : Z) (ds : list Z) : Z :=
  match ds with
  | [] => 0
  | d :: ds => d + base * of_rdigits base ds
  end.

(** Digit characters: 0..9, then letters from [alpha] on ('a' or 'A'). *)
Definition digit_char (alpha d : Z) : Z := if d <? 10 then 48 + d else alpha + (d - 10).
Definition char_digit (base c : Z) : option Z :=
  let d := if (48 <=? c) && (c <=? 57) then c - 48
           else if (97 <=? c) && (c <=? 122) then c - 87
           else if (65 <=? c) && (c <=? 90) then c - 55 else base in
  if d <? base then Some d else None.

(** Reads a numeral, most significant digit first; [None] on any other
    character. *)
Fixpoint parse_num_acc (base acc : Z) (s : list Z) : option Z :=
  match s with
  | [] => Some acc
  | c :: s => d ← char_digit base c; parse_num_acc base (acc * base + d) s
  end.
Definition parse_num (base : Z) (s : list Z) : option Z :=
  match s with [] => None | _ => parse_num_acc base 0 s end.

(** [num_str alpha base v]: the numeral of [v] as characters. *)
Definition num_str (alpha base v : Z) : list Z := digit_char alpha <$> num base v.

Lemma of_rdigits_app base xs ys :
  of_rdigits base (xs ++ ys) =
  of_rdigits base xs + base ^ Z.of_nat (length xs) * of_rdigits base ys.
Proof.
  induction xs as [|x xs IH]; [simpl; lia|].
  cbn [app of_rdigits length]. rewrite IH, Nat2Z.inj_succ, Z.pow_succ_r by lia. lia.
Qed.

Section numerals.
Context (base : Z) (Hbase : 2 <= base).

Lemma div_pow_step f v :
  0 <= v < base ^ Z.of_nat (S f) → 0 <= v / base < base ^ Z.of_nat f.
Proof using Hbase.
  intros [H1 H2]. split; [apply Z.div_pos; lia|].
  apply Z.div_lt_upper_bound; [lia|].
  by rewrite <-Z.pow_succ_r, <-Nat2Z.inj_succ by lia.
Qed.

Lemma rnum_fuel_irrel f1 f2 v :
  0 <= v < base ^ Z.of_nat (S f1) → 0 <= v < base ^ Z.of_nat (S f2) →
  rnum base (S f1) v = rnum base (S f2) v.
Proof using Hbase.
  revert f2 v. induction f1 as [|f1 IH]; intros f2 v H1 H2;
    apply div_pow_step in H1; pose proof (div_pow_step _ _ H2) as H2';
    cbn [rnum]; f_equal; destruct (Z.eqb_spec (v / base) 0) as [E|E]; try done.
  - simpl in H1. lia.
  - destruct f2 as [|f2]; [simpl in H2'; lia|]. by apply IH.
Qed.

Lemma pow_num_fuel v : 0 <= v → v < base ^ Z.of_nat (num_fuel v).
Proof using Hbase.
  intros Hv. unfold num_fuel. rewrite Nat2Z.inj_succ, Z2Nat.id by apply Z.log2_nonneg.
  destruct (Z.eq_dec v 0) as [->|Hne].
  { apply Z.pow_pos_nonneg; simpl; lia. }
  apply Z.lt_le_trans with (2 ^ Z.succ (Z.log2 v)).
  - apply Z.log2_spec. lia.
  - apply Z.pow_le_mono_l. pose proof (Z.log2_nonneg v). lia.
Qed.

(** Any fuel that covers [v] gives the canonical digits. *)
Lemma rnum_enough fuel v :
  (0 < fuel)%nat → 0 <= v < base ^ Z.of_nat fuel → rnum base fuel v = reverse (num base v).
Proof using Hbase.
  intros Hf Hv. unfold num. rewrite reverse_involutive.
  destruct fuel as [|f]; [lia|]. unfold num_fuel at 1.
  apply rnum_fuel_irrel; [done|]. split; [lia|]. apply pow_num_fuel. lia.
Qed.

Lemma rnum_value fuel v :
  0 <= v < base ^ Z.of_nat fuel → of_rdigits base (rnum base fuel v) = v.
Proof using Hbase.
  revert v. induction fuel as [|f IH]; intros v Hv; [simpl in *; lia|].
  cbn [rnum of_rdigits]. apply div_pow_step in Hv.
  destruct (Z.eqb_spec (v / base) 0) as [E|E]; cbn [of_rdigits].
  - pose proof (Z.div_mod v base). lia.
  - rewrite IH by done. pose proof (Z.div_mod v base). lia.
Qed.

Lemma rnum_digits fuel v : Forall (λ d, 0 <= d < base) (rnum base fuel v).
Proof using Hbase.
  revert v. induction fuel as [|f IH]; intros v; cbn [rnum]; constructor.
  - apply Z.mod_pos_bound. lia.
  - case_match; [constructor|apply IH].
Qed.

Lemma rnum_length_le fuel k v :
  (0 < k)%nat → 0 <= v < base ^ Z.of_nat k → (length (rnum base fuel v) <= k)%nat.
Proof using Hbase.
  revert k v. induction fuel as [|f IH]; intros k v Hk Hv; cbn [rnum length]; [lia|].
  destruct k as [|k]; [lia|]. apply div_pow_step in Hv.
  destruct (Z.eqb_spec (v / base) 0) as [E|E]; cbn [length]; [lia|].
  destruct k as [|k]; [simpl in Hv; lia|].
  specialize (IH (S k) (v / base)). lia.
Qed.

Lemma rnum_length_ge fuel k v :
  0 <= v < base ^ Z.of_nat fuel → base ^ Z.of_nat k <= v →
  (S k <= length (rnum base fuel v))%nat.
Proof using Hbase.
  revert k v. induction fuel as [|f IH]; intros k v Hv Hk.
  { pose proof (Z.pow_pos_nonneg base (Z.of_nat k)). simpl in Hv. lia. }
  cbn [rnum length]. apply div_pow_step in Hv.
  destruct k as [|k]; [lia|].
  assert (base ^ Z.of_nat k <= v / base) as Hk'.
  { apply Z.div_le_lower_bound; [lia|].
    by rewrite <-Z.pow_succ_r, <-Nat2Z.inj_succ by lia. }
  pose proof (Z.pow_pos_nonneg base (Z.of_nat k)).
  destruct (Z.eqb_spec (v / base) 0) as [E|E]; [lia|].
  specialize (IH k (v / base)). lia.
Qed.

Lemma rnum_nonempty fuel v : (0 < fuel)%nat → rnum base fuel v ≠ [].
Proof. by destruct fuel; [lia|]. Qed.

Lemma rnum_top fuel v :
  0 < v < base ^ Z.of_nat fuel → list.last (rnum base fuel v) ≠ Some 0.
Proof using Hbase.
  revert v. induction fuel as [|f IH]; intros v Hv; [simpl in *; lia|].
  assert (0 <= v < base ^ Z.of_nat (S f)) as Hv' by lia. apply div_pow_step in Hv'.
  cbn [rnum]. destruct (Z.eqb_spec (v / base) 0) as [E|E].
  - simpl. intros [= E']. pose proof (Z.div_mod v base). lia.
  - specialize (IH (v / base)). destruct (rnum base f (v / base)) eqn:E2.
    + destruct f; [simpl in Hv'; lia|discriminate].
    + cbn [list.last] in *. apply IH. lia.
Qed.

Lemma num_digits v : Forall (λ d, 0 <= d < base) (num base v).
Proof using Hbase. unfold num. apply Forall_reverse, rnum_digits. Qed.

Lemma num_value v : 0 <= v → of_rdigits base (reverse (num base v)) = v.
Proof using Hbase.
  intros Hv. unfold num. rewrite reverse_involutive.
  apply rnum_value. split; [done|]. by apply pow_num_fuel.
Qed.

Lemma num_length_le k v :
  (0 < k)%nat → 0 <= v < base ^ Z.of_nat k → (length (num base v) <= k)%nat.
Proof using Hbase. intros. unfold num. rewrite length_reverse. by apply rnum_length_le. Qed.

Lemma num_length_ge k v : base ^ Z.of_nat k <= v → (S k <= length (num base v))%nat.
Proof using Hbase.
  intros H. unfold num. rewrite length_reverse. apply rnum_length_ge; [|done].
  pose proof (Z.pow_pos_nonneg base (Z.of_nat k)).
  split; [lia|]. apply pow_num_fuel. lia.
Qed.

Lemma num_nonempty v : num base v ≠ [].
Proof.
  unfold num. rewrite <-reverse_nil. intros H%(inj reverse). by apply rnum_nonempty in H; [|unfold num_fuel; lia].
Qed.

Lemma num_length_pos v : (0 < length (num base v))%nat.
Proof. pose proof (num_nonempty v). destruct (num base v); simpl; [done|lia]. Qed.

(** The numeral has no leading zero. *)
Lemma num_head v : 0 < v → list.head (num base v) ≠ Some 0.
Proof using Hbase.
  intros Hv. unfold num. rewrite head_reverse. apply rnum_top.
  split; [done|]. apply pow_num_fuel. lia.
Qed.

Lemma char_digit_char alpha d :
  base <= 36 → 0 <= d < base → alpha = 97 ∨ alpha = 65 →
  char_digit base (digit_char alpha d) = Some d.
Proof using Hbase.
  intros Hb Hd Ha. unfold char_digit, digit_char. destruct (Z.ltb_spec d 10) as [L|L].
  - assert ((48 <=? 48 + d) && (48 + d <=? 57) = true) as -> by lia.
    rewrite (proj2 (Z.ltb_lt _ _)) by lia. f_equal. lia.
  - set (c := alpha + (d - 10)).
    assert ((48 <=? c) && (c <=? 57) = false) as -> by lia.
    destruct Ha as [->| ->].
    + assert ((97 <=? c) && (c <=? 122) = true) as -> by lia.
      rewrite (proj2 (Z.ltb_lt _ _)) by lia. f_equal. lia.
    + assert ((97 <=? c) && (c <=? 122) = false) as -> by lia.
      assert ((65 <=? c) && (c <=? 90) = true) as -> by lia.
      rewrite (proj2 (Z.ltb_lt _ _)) by lia. f_equal. lia.
Qed.

Lemma parse_num_acc_spec alpha acc ds :
  base <= 36 → alpha = 97 ∨ alpha = 65 → Forall (λ d, 0 <= d < base) ds →
  parse_num_acc base acc (digit_char alpha <$> ds)
  = Some (acc * base ^ Z.of_nat (length ds) + of_rdigits base (reverse ds)).
Proof using Hbase.
  intros Hb Ha Hds. revert acc. induction Hds as [|d ds Hd Hds IH]; intros acc.
  { simpl. f_equal. lia. }
  rewrite fmap_cons. cbn [parse_num_acc]. rewrite char_digit_char by done. simpl mbind.
  rewrite IH, reverse_cons, of_rdigits_app, length_reverse. f_equal.
  cbn [length of_rdigits]. rewrite Nat2Z.inj_succ, Z.pow_succ_r by lia. lia.
Qed.

(** Parsing the numeral of [v] gives [v] back. *)
Lemma parse_num_str alpha v :
  base <= 36 → alpha = 97 ∨ alpha = 65 → 0 <= v →
  parse_num base (num_str alpha base v) = Some v.
Proof using Hbase.
  intros Hb Ha Hv. unfold parse_num, num_str.
  destruct (digit_char alpha <$> num base v) as [|c s] eqn:E.
  { apply fmap_nil_inv in E. by apply num_nonempty in E. }
  rewrite <-E, parse_num_acc_spec, num_value by (done || apply num_digits). f_equal; lia.
Qed.
End numerals.

Lemma length_num_str alpha base v : length (num_str alpha base v) = length (num base v).
Proof. apply length_fmap. Qed.

(** ** Decimal and signed strings *)

Definition sign_str (neg : bool) : list Z := if neg then [45] else [].
Definition dec_string (v : Z) : list Z := num_str 97 10 v.
Definition int_string (base v : Z) : list Z :=
  sign_str (v <? 0) ++ num_str 97 base (Z.abs v).

(** Reads an optional minus and a numeral. *)
Definition parse_int (base : Z) (s : list Z) : option Z :=
  match s with
  | c :: s' => if c =? 45 then Z.opp <$> parse_num base s' else parse_num base s
  | [] => None
  end.

Lemma parse_dec_string v : 0 <= v → parse_num 10 (dec_string v) = Some v.
Proof. intros. apply parse_num_str; lia. Qed.

Lemma parse_int_string base v :
  2 <= base <= 36 → parse_int base (int_string base v) = Some v.
Proof.
  intros Hb. unfold int_string. destruct (Z.ltb_spec v 0) as [L|L]; cbn [sign_str app parse_int].
  - rewrite parse_num_str by lia. simpl. f_equal. lia.
  - pose proof (parse_num_str base ltac:(lia) 97 (Z.abs v) ltac:(lia) ltac:(lia) ltac:(lia)) as E.
    assert (Forall (λ c, c ≠ 45) (num_str 97 base (Z.abs v))) as F.
    { unfold num_str. apply Forall_fmap.
      pose proof (num_digits base ltac:(lia) (Z.abs v)) as D. eapply Forall_impl; [|exact D].
      intros d Hd. simpl in *. unfold digit_char. zcases; lia. }
    destruct (num_str 97 base (Z.abs v)) as [|c s]; [done|]. inversion F; subst.
    cbn [parse_int]. rewrite (proj2 (Z.eqb_neq c 45)), E by done. f_equal. lia.
Qed.
