(* ===== verification/NumToA.v ===== *)
(** * Integer to string conversion (util/modp_numtoa.c)

    The output buffer is a list of bytes, a pointer into it an index (CBuf.v).
    Value loops carry fuel: 20 iterations cover any 64-bit decimal and 32 any
    32-bit value in base two. *)

From S2P Require Import Prelude CBuf Numeral.

Module NumToA.

(** [strreverse]: swaps from both ends while [end > begin]. *)
Fixpoint strreverse (fuel : nat) (b : buf) (bgn en : nat) : res buf :=
  if decide (bgn < en)%nat then
    match fuel with
    | O => Err OutOfFuel
    | S f =>
        aux ← brd b en;
        c ← brd b bgn;
        b1 ← bwr b en c;
        b2 ← bwr b1 bgn aux;
        strreverse f b2 (S bgn) (pred en)
    end
  else Ok b.

(** [do *wstr++ = 48 + (value % 10); while (value /= 10);] *)
Fixpoint dec_loop (fuel : nat) (value : Z) (wstr : nat) (b : buf) : res (nat * buf) :=
  match fuel with
  | O => Err OutOfFuel
  | S f =>
      b' ← bwr b wstr (48 + Z.rem value 10);
      let value' := Z.quot value 10 in
      if value' =? 0 then Ok (S wstr, b') else dec_loop f value' (S wstr) b'
  end.

(** Iterations that suffice for any 64-bit value. *)
Definition dec_fuel : nat := 20.

(** [if (neg) *wstr++ = '-';] *)
Definition put_sign (neg : bool) (wstr : nat) (b : buf) : res (nat * buf) :=
  if neg then b' ← bwr b wstr 45; Ok (S wstr, b') else Ok (wstr, b).

(** [*wstr = 0; strreverse(str, wstr - 1);] *)
Definition finish (wstr : nat) (b : buf) : res buf :=
  b' ← bwr b wstr 0; strreverse (length b') b' 0 (wstr - 1).

Definition modp_itoa10 (value : Z) (str : buf) : res buf :=
  let sign := value in
  value ← (if sign <? 0 then chk_s32 (- value) else Ok value);
  '(wstr, b) ← dec_loop dec_fuel value 0 str;
  '(wstr, b) ← put_sign (sign <? 0) wstr b;
  finish wstr b.

Definition modp_uitoa10 (value : Z) (str : buf) : res buf :=
  '(wstr, b) ← dec_loop dec_fuel value 0 str;
  finish wstr b.

Definition modp_ltoa10 (value : Z) (str : buf) : res buf :=
  let neg := value <? 0 in
  value ← (if neg then chk_s64 (- value) else Ok value);
  '(wstr, b) ← dec_loop dec_fuel value 0 str;
  '(wstr, b) ← put_sign neg wstr b;
  finish wstr b.

Definition modp_ultoa10 (value : Z) (str : buf) : res buf :=
  '(wstr, b) ← dec_loop dec_fuel value 0 str;
  finish wstr b.

(** [trimLeadingZeros]: the index of the new start; the loop stops at the last
    zero before a point or the terminator. *)
Fixpoint trimLeadingZeros (fuel : nat) (b : buf) (ptr : nat) : res (nat * buf) :=
  match fuel with
  | O => Err OutOfFuel
  | S f =>
      c ← brd b ptr;
      if c =? 48 then
        c1 ← brd b (S ptr);
        if (c1 =? 46) || (c1 =? 0) then Ok (ptr, b)
        else b' ← bwr b ptr 0; trimLeadingZeros f b' (S ptr)
      else Ok (ptr, b)
  end.

(** The literal of [modp_itoaX]. *)
Definition itoaX_table : list Z :=
  bytes_of "zyxwvutsrqponmlkjihgfedcba9876543210123456789abcdefghijklmnopqrstuvwxyz".

(** The [do] loop of [modp_itoaX]; also returns the last [tmp_value]. *)
Fixpoint itoaX_loop (fuel : nat) (base value : Z) (ptr : nat) (b : buf)
    : res (Z * nat * buf) :=
  match fuel with
  | O => Err OutOfFuel
  | S f =>
      let tmp_value := value in
      let value := Z.quot value base in
      c ← brd itoaX_table (Z.to_nat (35 + (tmp_value - value * base)));
      b' ← bwr b ptr c;
      if value =? 0 then Ok (tmp_value, S ptr, b')
      else itoaX_loop f base value (S ptr) b'
  end.

(** Iterations that suffice for any 32-bit value in any base. *)
Definition itoaX_fuel : nat := 32.

(** The closing swap loop is the one of [strreverse], on [result] and the last
    character written. *)
Definition modp_itoaX (value : Z) (result : buf) (base : Z) : res buf :=
  if (base <? 2) || (36 <? base) then bwr result 0 0
  else
    '(tmp_value, ptr, b) ← itoaX_loop itoaX_fuel base value 0 result;
    '(ptr, b) ← put_sign (tmp_value <? 0) ptr b;
    finish ptr b.

(** ** Lemmas *)

Lemma strreverse_swap f pre x mid y post :
  strreverse (S f) (pre ++ x :: mid ++ y :: post) (length pre) (length pre + S (length mid))
  = strreverse f (pre ++ y :: mid ++ x :: post) (S (length pre)) (length pre + length mid).
Proof.
  assert (∀ a c, pre ++ a :: mid ++ c :: post = (pre ++ a :: mid) ++ c :: post) as V
    by (intros; by rewrite <-app_assoc).
  assert (∀ a, length pre + S (length mid) = length (pre ++ a :: mid))%nat as P
    by (intros; by rewrite length_app).
  cbn [strreverse]. rewrite decide_True by lia.
  replace (brd _ (length pre + _)) with (Ok y) by (by rewrite V, (P x), brd_mid). simpl.
  rewrite brd_mid. simpl.
  replace (bwr _ (length pre + _) x) with (Ok (pre ++ x :: mid ++ x :: post))
    by (by rewrite !V, (P x), bwr_mid). simpl.
  rewrite bwr_mid. simpl. f_equal. lia.
Qed.

Lemma strreverse_spec fuel pre seg post :
  (length seg <= fuel)%nat →
  strreverse fuel (pre ++ seg ++ post) (length pre) (length pre + length seg - 1)
  = Ok (pre ++ reverse seg ++ post).
Proof.
  revert pre seg post. induction fuel as [|f IH]; intros pre seg post Hf;
    (destruct seg as [|x seg]; [simpl; by rewrite decide_False by lia|]);
    [simpl in Hf; lia|].
  destruct seg as [|y mid _] using rev_ind.
  { simpl. by rewrite decide_False by lia. }
  cbn [length] in Hf. rewrite length_app in Hf. simpl in Hf.
  specialize (IH (pre ++ [y]) mid (x :: post)).
  rewrite length_app, <-!app_assoc in IH. cbn [length app] in IH.
  replace (length pre + length (x :: mid ++ [y]) - 1)%nat
    with (length pre + S (length mid))%nat by (simpl; rewrite length_app; simpl; lia).
  cbn [app]. rewrite <-app_assoc. cbn [app]. rewrite strreverse_swap.
  replace (S (length pre)) with (length pre + 1)%nat by lia.
  replace (length pre + length mid)%nat with (length pre + 1 + length mid - 1)%nat by lia.
  rewrite IH by lia. by rewrite reverse_cons, reverse_app, <-!app_assoc.
Qed.

(** The decimal loop writes the digits least significant first, or runs off
    the end of the buffer. *)
Lemma dec_loop_spec fuel v pre post :
  (0 < fuel)%nat → 0 <= v < 10 ^ Z.of_nat fuel →
  let ds := digit_char 97 <$> rnum 10 fuel v in
  dec_loop fuel v (length pre) (pre ++ post)
  = if decide (length ds <= length post)%nat
    then Ok ((length pre + length ds)%nat, pre ++ ds ++ drop (length ds) post)
    else Err OutOfBounds.
Proof.
  revert v pre post. induction fuel as [|f IH]; intros v pre post Hf Hv; [lia|].
  cbn [dec_loop rnum]. rewrite fmap_cons.
  rewrite (Z.rem_mod_nonneg v 10), (Z.quot_div_nonneg v 10) by lia.
  pose proof (Z.mod_pos_bound v 10).
  replace (digit_char 97 (v mod 10)) with (48 + v mod 10)
    by (unfold digit_char; by rewrite (proj2 (Z.ltb_lt _ _)) by lia).
  destruct post as [|x post].
  { rewrite bwr_oob by (by rewrite app_nil_r). cbn [mbind res_bind length].
    by rewrite decide_False by lia. }
  rewrite bwr_mid. cbn [mbind res_bind].
  apply div_pow_step in Hv; [|lia].
  destruct (Z.eqb_spec (v / 10) 0) as [E|E].
  { cbn [length fmap list_fmap drop]. rewrite decide_True by lia. cbn [app drop].
    do 2 f_equal. lia. }
  destruct f as [|f]; [simpl in Hv; lia|].
  specialize (IH (v / 10) (pre ++ [48 + v mod 10]) post ltac:(lia) Hv).
  rewrite <-app_assoc, length_app in IH. cbn [app length] in IH.
  replace (S (length pre)) with (length pre + 1)%nat by lia. rewrite IH.
  cbn [length drop]. rewrite <-app_assoc. cbn [app].
  repeat case_decide; try lia; [|done]. do 2 f_equal. lia.
Qed.

Lemma finish_plain ds post :
  finish (length ds) (ds ++ post) = strcpy (ds ++ post) (reverse ds).
Proof.
  unfold finish. destruct post as [|x post].
  { rewrite app_nil_r, bwr_oob by done. by rewrite strcpy_oob by (by rewrite length_reverse). }
  rewrite bwr_mid. cbn [mbind res_bind].
  rewrite (strreverse_spec _ [] ds (0 :: post)) by (rewrite length_app; lia).
  rewrite strcpy_ok by (rewrite length_app, length_reverse; simpl; lia).
  rewrite length_reverse, drop_app_ge by lia.
  by replace (S (length ds) - length ds)%nat with 1%nat by lia.
Qed.

Lemma finish_spec neg ds b :
  (length ds <= length b)%nat →
  ('(wstr, b') ← put_sign neg (length ds) (ds ++ drop (length ds) b); finish wstr b')
  = strcpy b (sign_str neg ++ reverse ds).
Proof.
  intros Hb. unfold put_sign. destruct neg; cbn [sign_str app].
  2: { cbn [mbind res_bind].
       by rewrite finish_plain, strcpy_over by (rewrite ?length_reverse; done). }
  destruct (drop (length ds) b) as [|x post] eqn:E.
  - rewrite app_nil_r, bwr_oob by done.
    apply (f_equal length) in E. rewrite length_drop in E. simpl in E.
    rewrite strcpy_oob by (simpl; rewrite length_reverse; lia). done.
  - rewrite bwr_mid. cbn [mbind res_bind].
    replace (ds ++ 45 :: post) with ((ds ++ [45]) ++ post) by (by rewrite <-app_assoc).
    replace (S (length ds)) with (length (ds ++ [45])) by (rewrite length_app; simpl; lia).
    rewrite finish_plain, reverse_app.
    assert (post = drop (length (ds ++ [45])) b) as ->.
    { rewrite length_app, <-drop_drop, E. done. }
    apply (f_equal length) in E. rewrite length_drop in E. simpl in E.
    by rewrite strcpy_over by (simpl; rewrite ?length_reverse, length_app; simpl; lia).
Qed.

(** The decimal digits of [v], then the rest of the conversion. *)
Lemma dec_finish_spec neg v b :
  0 <= v < 10 ^ 20 →
  ('(wstr, b') ← dec_loop dec_fuel v 0 b;
   '(wstr, b') ← put_sign neg wstr b';
   finish wstr b')
  = strcpy b (sign_str neg ++ num_str 97 10 v).
Proof.
  intros Hv. pose proof (dec_loop_spec dec_fuel v [] b) as Hloop.
  cbv zeta in Hloop. cbn [app length] in Hloop. rewrite Hloop by (unfold dec_fuel; simpl; lia). clear Hloop.
  rewrite (rnum_enough 10 ltac:(lia) dec_fuel) by (unfold dec_fuel; simpl; lia).
  rewrite fmap_reverse. fold (num_str 97 10 v).
  case_decide as Hl.
  - cbn [mbind res_bind]. simpl Nat.add.
    rewrite (finish_spec neg (reverse (num_str 97 10 v))) by done. by rewrite reverse_involutive.
  - rewrite length_reverse in Hl. rewrite strcpy_oob; [done|]. rewrite length_app. lia.
Qed.


Lemma dec_finish_plain v b :
  0 <= v < 10 ^ 20 →
  ('(wstr, b') ← dec_loop dec_fuel v 0 b; finish wstr b') = strcpy b (dec_string v).
Proof.
  intros. change (dec_string v) with (sign_str false ++ num_str 97 10 v).
  rewrite <-dec_finish_spec by done. by destruct (dec_loop _ _ _ _) as [[]|].
Qed.

(** ** Properties *)

(** [modp_uitoa10] writes the decimal numeral of any
    [uint32_t], which reads back as the value, without a run-time error
    exactly when the buffer holds it and its terminator; eleven bytes hold
    every value. *)
Theorem modp_uitoa10_correct (value : Z) (str : buf) :
  0 <= value < 2 ^ 32 →
  modp_uitoa10 value str = strcpy str (dec_string value)
  ∧ parse_num 10 (dec_string value) = Some value
  ∧ ((11 <= length str)%nat → is_Ok (modp_uitoa10 value str)).
Proof.
  intros Hv. unfold modp_uitoa10. rewrite dec_finish_plain by lia.
  split_and!; [done|apply parse_dec_string; lia|]. intros Hl.
  rewrite strcpy_ok; [by eexists|].
  pose proof (num_length_le 10 ltac:(lia) 10 value ltac:(lia) ltac:(lia)).
  unfold dec_string. rewrite length_num_str. lia.
Qed.


(** [modp_itoa10] writes the signed decimal numeral of every
    [int32_t] but [INT32_MIN], whose negation overflows: there, whatever the
    buffer, the conversion is undefined. *)
Theorem modp_itoa10_correct (value : Z) (str : buf) :
  INT32_MIN <= value <= INT32_MAX →
  modp_itoa10 value str
  = (if value =? INT32_MIN then Err SignedOverflow else strcpy str (int_string 10 value))
  ∧ parse_int 10 (int_string 10 value) = Some value.
Proof.
  intros Hv. split; [|by apply parse_int_string]. unfold INT32_MIN, INT32_MAX in Hv.
  unfold modp_itoa10, int_string. destruct (Z.eqb_spec value INT32_MIN) as [->|Hne]; [done|].
  unfold INT32_MIN in Hne. destruct (Z.ltb_spec value 0) as [L|L].
  - rewrite chk_s32_ok by (unfold INT32_MIN, INT32_MAX; lia). cbn [mbind res_bind].
    rewrite Z.abs_neq by lia. apply (dec_finish_spec true). lia.
  - cbn [mbind res_bind]. rewrite Z.abs_eq by lia. apply (dec_finish_spec false). lia.
Qed.

(** The largest [uint64_t] needs 21 bytes: with any shorter
    buffer, the documented 16 among them, [modp_ultoa10] writes past its end,
    and 21 bytes hold the numeral of every value. *)
Theorem modp_ultoa10_bound (value : Z) (str : buf) :
  0 <= value < 2 ^ 64 →
  modp_ultoa10 value str = strcpy str (dec_string value)
  ∧ ((21 <= length str)%nat → is_Ok (modp_ultoa10 value str))
  ∧ (10 ^ 19 <= value → (length str < 21)%nat → modp_ultoa10 value str = Err OutOfBounds).
Proof.
  intros Hv. unfold modp_ultoa10. rewrite dec_finish_plain by lia.
  pose proof (num_length_le 10 ltac:(lia) 20 value ltac:(lia) ltac:(lia)).
  split_and!; [done| |]; intros Hl.
  - rewrite strcpy_ok; [by eexists|]. unfold dec_string. rewrite length_num_str. lia.
  - intros Hs. pose proof (num_length_ge 10 ltac:(lia) 19 value Hl).
    rewrite strcpy_oob; [done|]. unfold dec_string. rewrite length_num_str. lia.
Qed.

(** [modp_ltoa10] is [modp_itoa10] at 64 bits. *)
Lemma modp_ltoa10_spec (value : Z) (str : buf) :
  INT64_MIN < value <= INT64_MAX → modp_ltoa10 value str = strcpy str (int_string 10 value).
Proof.
  unfold INT64_MIN, INT64_MAX. intros Hv. unfold modp_ltoa10, int_string.
  destruct (Z.ltb_spec value 0) as [L|L].
  - rewrite chk_s64_ok by (unfold INT64_MIN, INT64_MAX; lia). cbn [mbind res_bind].
    rewrite Z.abs_neq by lia. apply (dec_finish_spec true). lia.
  - cbn [mbind res_bind]. rewrite Z.abs_eq by lia. apply (dec_finish_spec false). lia.
Qed.


(** ** [modp_itoaX] *)

Lemma itoaX_table_spec d :
  0 <= d < 36 →
  brd itoaX_table (Z.to_nat (35 + d)) = Ok (digit_char 97 d)
  ∧ brd itoaX_table (Z.to_nat (35 - d)) = Ok (digit_char 97 d).
Proof.
  intros Hd.
  assert (bool_decide (brd itoaX_table (Z.to_nat (35 + d)) = Ok (digit_char 97 d)
    ∧ brd itoaX_table (Z.to_nat (35 - d)) = Ok (digit_char 97 d)) = true) as H.
  2: by apply bool_decide_eq_true in H.
  revert d Hd. apply (range_all_spec 36 0 (λ d, bool_decide
    (brd itoaX_table (Z.to_nat (35 + d)) = Ok (digit_char 97 d)
     ∧ brd itoaX_table (Z.to_nat (35 - d)) = Ok (digit_char 97 d)))).
  vm_compute. reflexivity.
Qed.

(** One iteration's character: the digit of the magnitude, either sign. *)
Lemma itoaX_digit base v :
  2 <= base <= 36 →
  brd itoaX_table (Z.to_nat (35 + (v - Z.quot v base * base)))
  = Ok (digit_char 97 (Z.abs v mod base))
  ∧ Z.quot v base = Z.sgn v * (Z.abs v / base).
Proof.
  intros Hb. pose proof (Z.mod_pos_bound (Z.abs v) base ltac:(lia)) as Hm.
  pose proof (Z.div_mod (Z.abs v) base ltac:(lia)) as E.
  pose proof (itoaX_table_spec (Z.abs v mod base) ltac:(lia)) as [T1 T2].
  assert (Z.quot v base = Z.sgn v * (Z.abs v / base)) as Hq.
  { destruct (Z.le_ge_cases 0 v) as [L|L].
    - rewrite Z.quot_div_nonneg, Z.abs_eq by lia.
      destruct (Z.eq_dec v 0) as [->|]; [by rewrite Z.div_0_l by lia|]. rewrite Z.sgn_pos; lia.
    - destruct (Z.eq_dec v 0) as [->|]; [by rewrite Z.quot_0_l by lia|].
      rewrite Z.sgn_neg, Z.abs_neq by lia.
      rewrite <-(Z.opp_involutive v) at 1. rewrite Z.quot_opp_l, Z.quot_div_nonneg; lia. }
  split; [|done]. rewrite Hq.
  destruct (Z.sgn_spec v) as [[L ->]|[[L ->]|[L ->]]].
  - rewrite <-T1. do 2 f_equal. lia.
  - rewrite <-T1. do 2 f_equal. subst v. change (Z.abs 0) with 0. rewrite Z.mod_0_l by lia. lia.
  - rewrite <-T2. do 2 f_equal. lia.
Qed.

Lemma itoaX_loop_spec base fuel v pre post :
  2 <= base <= 36 → (0 < fuel)%nat → Z.abs v < base ^ Z.of_nat fuel →
  let ds := digit_char 97 <$> rnum base fuel (Z.abs v) in
  if decide (length ds <= length post)%nat
  then ∃ tmp, itoaX_loop fuel base v (length pre) (pre ++ post)
      = Ok (tmp, (length pre + length ds)%nat, pre ++ ds ++ drop (length ds) post)
      ∧ (tmp <? 0) = (v <? 0)
  else itoaX_loop fuel base v (length pre) (pre ++ post) = Err OutOfBounds.
Proof.
  intros Hb. revert v pre post. induction fuel as [|f IH]; intros v pre post Hf Hv; [lia|].
  cbn [itoaX_loop rnum]. rewrite fmap_cons.
  pose proof (itoaX_digit base v Hb) as [-> ->]. cbn [mbind res_bind].
  destruct post as [|x post].
  { rewrite bwr_oob by (by rewrite app_nil_r). cbn [mbind res_bind length].
    by rewrite decide_False by lia. }
  rewrite bwr_mid. cbn [mbind res_bind].
  pose proof (div_pow_step base ltac:(lia) f (Z.abs v) ltac:(lia)) as Hd.
  destruct (Z.eqb_spec (Z.abs v / base) 0) as [E|E].
  { rewrite E, Z.mul_0_r. cbn [Z.eqb length fmap list_fmap]. rewrite decide_True by lia.
    exists v. split; [|done]. cbn [app drop]. by rewrite Nat.add_1_r. }
  destruct f as [|f]; [simpl in Hd; lia|].
  assert (v ≠ 0) as Hv0 by (intros ->; by rewrite Z.div_0_l in E by lia).
  set (v' := Z.sgn v * (Z.abs v / base)) in *.
  assert (Z.abs v' = Z.abs v / base ∧ (v' <? 0) = (v <? 0)) as [Ha Hs].
  { unfold v'. generalize dependent (Z.abs v / base). intros q Hd E.
    destruct (Z.sgn_spec v) as [[? ->]|[[? ->]|[? ->]]]; lia. }
  rewrite (proj2 (Z.eqb_neq v' 0)) by lia.
  specialize (IH v' (pre ++ [digit_char 97 (Z.abs v mod base)]) post ltac:(lia) ltac:(lia)).
  rewrite Ha, <-app_assoc, length_app in IH. cbn [app length] in IH.
  replace (S (length pre)) with (length pre + 1)%nat by lia.
  cbn [length]. case_decide; case_decide; try lia; [|done].
  destruct IH as (tmp & -> & Ht). exists tmp. split.
  - cbn [drop app]. rewrite <-app_assoc. cbn [app]. do 2 f_equal. f_equal. lia.
  - by rewrite Ht.
Qed.

Lemma itoaX_spec base v b :
  2 <= base <= 36 → Z.abs v < base ^ 32 →
  modp_itoaX v b base = strcpy b (int_string base v).
Proof.
  intros Hb Hv. unfold modp_itoaX.
  assert ((base <? 2) || (36 <? base) = false) as -> by lia.
  pose proof (itoaX_loop_spec base itoaX_fuel v [] b Hb ltac:(unfold itoaX_fuel; lia) Hv) as Hloop.
  cbv zeta in Hloop. rewrite (rnum_enough base ltac:(lia) itoaX_fuel) in Hloop
    by (split; [lia|done] || (unfold itoaX_fuel; lia)).
  rewrite fmap_reverse in Hloop. fold (num_str 97 base (Z.abs v)) in Hloop.
  cbn [app length] in Hloop. unfold int_string.
  case_decide as Hl.
  - destruct Hloop as (tmp & -> & Hs). cbn [mbind res_bind]. rewrite Hs. simpl Nat.add.
    rewrite finish_spec by done. by rewrite reverse_involutive.
  - rewrite Hloop. rewrite length_reverse in Hl.
    rewrite strcpy_oob; [done|]. rewrite length_app. lia.
Qed.

(** [modp_itoaX] writes the numeral of any [int], the minimum
    included, in any base from 2 to 36, and an empty string in any other base.
    It fails only by running off the buffer: 34 bytes always suffice and, in
    base two, magnitudes from [2^30] of negative values need more than the
    documented 32. *)
Theorem modp_itoaX_correct (value : Z) (result : buf) (base : Z) :
  INT32_MIN <= value <= INT32_MAX →
  if decide (2 <= base <= 36)
  then modp_itoaX value result base = strcpy result (int_string base value)
       ∧ parse_int base (int_string base value) = Some value
       ∧ ((34 <= length result)%nat → is_Ok (modp_itoaX value result base))
       ∧ (base = 2 → value <= - 2 ^ 30 → (length result <= 32)%nat →
          modp_itoaX value result base = Err OutOfBounds)
  else modp_itoaX value result base = strcpy result [].
Proof.
  unfold INT32_MIN, INT32_MAX. intros Hv. case_decide as Hb.
  2: { unfold modp_itoaX. assert ((base <? 2) || (36 <? base) = true) as -> by lia.
       destruct result as [|x r]; [done|].
       by rewrite (bwr_mid [] x r), strcpy_ok by (simpl; lia). }
  assert (Z.abs value < base ^ 32) as Hp.
  { apply Z.lt_le_trans with (2 ^ 32); [lia|]. apply Z.pow_le_mono_l. lia. }
  rewrite itoaX_spec by done. split_and!; [done|by apply parse_int_string| |].
  - intros Hl. rewrite strcpy_ok; [by eexists|]. unfold int_string.
    pose proof (num_length_le base ltac:(lia) 32 (Z.abs value) ltac:(lia) ltac:(lia)).
    rewrite length_app, length_num_str. destruct (value <? 0); simpl; lia.
  - intros -> Hn Hl. apply strcpy_oob. unfold int_string.
    pose proof (num_length_ge 2 ltac:(lia) 30 (Z.abs value) ltac:(lia)).
    rewrite length_app, length_num_str, (proj2 (Z.ltb_lt value 0)) by lia. simpl. lia.
Qed.

(** ** Witnesses *)

Lemma modp_uitoa10_correct_witness :
  modp_uitoa10 4294967295 (replicate 11 99) = Ok (bytes_of "4294967295" ++ [0]).
Proof.
  refine (eq_trans (proj1 (modp_uitoa10_correct 4294967295 (replicate 11 99) _)) _);
    [lia|vm_compute; reflexivity].
Defined.

Lemma modp_itoa10_correct_witness :
  modp_itoa10 (-1203) (replicate 8 99) = Ok (bytes_of "-1203" ++ [0; 99; 99]).
Proof.
  refine (eq_trans (proj1 (modp_itoa10_correct (-1203) (replicate 8 99) _)) _);
    [vm_compute; intuition discriminate|vm_compute; reflexivity].
Defined.

Lemma modp_ultoa10_bound_witness :
  modp_ultoa10 18446744073709551615 (replicate 16 99) = Err OutOfBounds.
Proof.
  apply (modp_ultoa10_bound 18446744073709551615 (replicate 16 99)).
  - lia.
  - vm_compute. discriminate.
  - vm_compute. lia.
Defined.

Lemma modp_itoaX_correct_witness :
  modp_itoaX (-255) (replicate 6 99) 16 = Ok (bytes_of "-ff" ++ [0; 99; 99]).
Proof.
  refine (eq_trans (proj1 (modp_itoaX_correct (-255) (replicate 6 99) 16 _)) _);
    [vm_compute; intuition discriminate|vm_compute; reflexivity].
Defined.

End NumToA.
