(* ===== verification/Float.v ===== *)
(** * IEEE-754 arithmetic as the firmware's C uses it

    [float] and [double] are the Standard Library's [spec_float] at 24/128 and
    53/1024; the operations round to nearest even. The Cortex-M0 has no FPU:
    the run-time library evaluates each operation in its own type, so no
    intermediate has excess precision. *)

From Stdlib Require Export SpecFloat.
From S2P Require Import Prelude.

Definition f32_add : spec_float → spec_float → spec_float := SFadd 24 128.
Definition f32_sub : spec_float → spec_float → spec_float := SFsub 24 128.
Definition f32_mul : spec_float → spec_float → spec_float := SFmul 24 128.
Definition f64_sub : spec_float → spec_float → spec_float := SFsub 53 1024.
Definition f64_mul : spec_float → spec_float → spec_float := SFmul 53 1024.
Definition f64_div : spec_float → spec_float → spec_float := SFdiv 53 1024.

(** Conversions from integers and between the two types. *)
Definition f32_of_Z (z : Z) : spec_float := binary_normalize 24 128 z 0 false.
Definition f64_of_Z (z : Z) : spec_float := binary_normalize 53 1024 z 0 false.
Definition f_convert (prec emax : Z) (x : spec_float) : spec_float :=
  match x with
  | S754_finite s m e => binary_round prec emax s m e
  | _ => x
  end.
Definition f64_of_f32 : spec_float → spec_float := f_convert 53 1024.
Definition f32_of_f64 : spec_float → spec_float := f_convert 24 128.

(** Truncation towards zero; [None] for infinities and NaN. *)
Definition f_trunc (x : spec_float) : option Z :=
  match x with
  | S754_zero _ => Some 0
  | S754_finite s m e =>
      Some (cond_Zopp s (if 0 <=? e then Z.pos m * 2 ^ e else Z.pos m / 2 ^ (- e)))
  | _ => None
  end.

(** A conversion to an integer type whose range excludes the truncated value is
    undefined. *)
Definition f_to_range (lo hi : Z) (x : spec_float) : res Z :=
  match f_trunc x with
  | Some z => if (lo <=? z) && (z <=? hi) then Ok z else Err BadConversion
  | None => Err BadConversion
  end.
Definition f_to_s32 : spec_float → res Z := f_to_range INT32_MIN INT32_MAX.
Definition f_to_u32 : spec_float → res Z := f_to_range 0 4294967295.
Definition f_to_u16 : spec_float → res Z := f_to_range 0 65535.

(** The double nearest to [n / d]: the value of a decimal literal. *)
Definition f64_lit (n d : Z) : spec_float := f64_div (f64_of_Z n) (f64_of_Z d).
