(* ===== verification/Ftoa.v ===== *)
(** * Floating-point to string conversion (util/modp_numtoa.c)

    [modp_ftoa] and [modp_dtoa] are the same code at two types; [xtoa] is that
    code over the operations of the type. *)

From S2P Require Import Prelude CBuf Numeral NumToA Float.
Import NumToA.

Module Ftoa.

Definition aPow10 : list spec_float :=
  f32_of_Z <$> [1; 10; 100; 1000; 10000; 100000; 1000000; 10000000; 100000000; 1000000000].

Definition half : spec_float := f64_lit 1 2.
Definition SFgtb (x y : spec_float) : bool := SFltb y x.
Definition SFgeb (x y : spec_float) : bool := SFleb y x.

(** [while (count-- > 0) *wstr++ = '0';] *)
Fixpoint pad_zeros (count : nat) (wstr : nat) (b : buf) : res (nat * buf) :=
  match count with
  | O => Ok (wstr, b)
  | S c => b' ← bwr b wstr 48; pad_zeros c (S wstr) b'
  end.

Section xtoa.
(** The operations of the type: subtraction, multiplication, conversion from
    an integer, widening to [double], the powers of ten and the threshold. *)
Context (sub mul : spec_float → spec_float → spec_float) (of_Z : Z → spec_float)
        (widen : spec_float → spec_float) (pow10 : Z → spec_float)
        (thres_max : spec_float).

Definition clamp_prec (prec : Z) : Z :=
  if prec <? 0 then 0 else if 9 <? prec then 9 else prec.

(** Rounding of the fraction: the new [frac] and [whole]. [frac >= aPow10]
    compares as [float] in both functions. *)
Definition round_frac (prec frac whole : Z) (diff : spec_float) : res (Z * Z) :=
  if SFgtb (widen diff) half then
    let frac := u32 (frac + 1) in
    if SFgeb (f32_of_Z frac) (nth (Z.to_nat prec) aPow10 S754_nan)
    then whole ← chk_s32 (whole + 1); Ok (0, whole)
    else Ok (frac, whole)
  else if SFeqb (widen diff) half && ((frac =? 0) || Z.testbit frac 0)
  then Ok (u32 (frac + 1), whole)
  else Ok (frac, whole).

(** The [prec == 0] branch. *)
Definition round_whole (value : spec_float) (whole : Z) : res Z :=
  let diff := sub value (of_Z whole) in
  if SFgtb (widen diff) half then chk_s32 (whole + 1)
  else if SFeqb (widen diff) half && Z.testbit whole 0 then chk_s32 (whole + 1)
  else Ok whole.

Definition xtoa (value : spec_float) (str : buf) (prec : Z) : res buf :=
  let prec := clamp_prec prec in
  let neg := SFltb value (of_Z 0) in
  let value := if neg then SFopp value else value in
  whole ← f_to_s32 value;
  let tmp := mul (sub value (of_Z whole)) (pow10 prec) in
  frac ← f_to_u32 tmp;
  let diff := sub tmp (of_Z frac) in
  '(frac, whole) ← round_frac prec frac whole diff;
  if SFgtb value thres_max then strcpy str (bytes_of "3735928559")
  else
    '(whole, wstr, b) ←
      (if prec =? 0 then
         whole ← round_whole value whole; Ok (whole, 0%nat, str)
       else
         '(wstr, b) ← dec_loop dec_fuel frac 0 str;
         '(wstr, b) ← pad_zeros (Z.to_nat prec - wstr) wstr b;
         b ← bwr b wstr 46;
         Ok (whole, S wstr, b));
    '(wstr, b) ← dec_loop dec_fuel whole wstr b;
    '(wstr, b) ← put_sign neg wstr b;
    b ← bwr b wstr 0;
    '(_, b) ← (if 0 <? prec then trimLeadingZeros (length b) b 0 else Ok (0%nat, b));
    strreverse (length b) b 0 (wstr - 1).
End xtoa.

Definition modp_ftoa : spec_float → buf → Z → res buf :=
  xtoa f32_sub f32_mul f32_of_Z f64_of_f32
    (λ prec, nth (Z.to_nat prec) aPow10 S754_nan) (f32_of_Z 2147483647).

Definition modp_dtoa : spec_float → buf → Z → res buf :=
  xtoa f64_sub f64_mul f64_of_Z (λ x, x)
    (λ prec, f64_of_f32 (nth (Z.to_nat prec) aPow10 S754_nan)) (f64_of_Z 9223372036854775807).

(** ** Trimming *)

(** [trimLeadingZeros] overwrites the run of zeros that starts at the pointer
    with terminators, but keeps the last zero when a point or the terminator
    follows it. *)
Definition trimmed (n : nat) (c : Z) : nat * list Z :=
  if (0 <? n)%nat && ((c =? 46) || (c =? 0))
  then (pred n, replicate (pred n) 0 ++ [48]) else (n, replicate n 0).

Lemma trimLeadingZeros_skip f pre d rest :
  (d =? 46) || (d =? 0) = false →
  trimLeadingZeros (S f) (pre ++ 48 :: d :: rest) (length pre)
  = trimLeadingZeros f ((pre ++ [0]) ++ d :: rest) (length (pre ++ [0])).
Proof.
  intros Hd. cbn [trimLeadingZeros]. rewrite brd_mid. cbn [mbind res_bind Z.eqb].
  rewrite Pos.eqb_refl, (brd_ok _ (S (length pre)) d).
  - cbn [mbind res_bind]. rewrite Hd, bwr_mid. cbn [mbind res_bind].
    rewrite <-app_assoc, length_app. cbn [app length]. f_equal. lia.
  - rewrite lookup_app_r by lia. by replace (S (length pre) - length pre)%nat with 1%nat by lia.
Qed.

Lemma trimLeadingZeros_keep f pre d rest :
  (d =? 46) || (d =? 0) = true →
  trimLeadingZeros (S f) (pre ++ 48 :: d :: rest) (length pre)
  = Ok (length pre, pre ++ 48 :: d :: rest).
Proof.
  intros Hd. cbn [trimLeadingZeros]. rewrite brd_mid. cbn [mbind res_bind Z.eqb].
  rewrite Pos.eqb_refl, (brd_ok _ (S (length pre)) d).
  - cbn [mbind res_bind]. by rewrite Hd.
  - rewrite lookup_app_r by lia. by replace (S (length pre) - length pre)%nat with 1%nat by lia.
Qed.

Lemma trimLeadingZeros_stop f pre c rest :
  c ≠ 48 → trimLeadingZeros (S f) (pre ++ c :: rest) (length pre)
           = Ok (length pre, pre ++ c :: rest).
Proof.
  intros Hc. cbn [trimLeadingZeros]. rewrite brd_mid. cbn [mbind res_bind].
  by rewrite (proj2 (Z.eqb_neq c 48)).
Qed.

Lemma trimLeadingZeros_spec fuel pre n c rest :
  c ≠ 48 → (n < fuel)%nat →
  trimLeadingZeros fuel (pre ++ replicate n 48 ++ c :: rest) (length pre)
  = Ok ((length pre + (trimmed n c).1)%nat, pre ++ (trimmed n c).2 ++ c :: rest).
Proof.
  intros Hc. revert fuel pre. induction n as [|n IH]; intros fuel pre Hf;
    (destruct fuel as [|f]; [lia|]).
  { cbn [replicate app]. rewrite trimLeadingZeros_stop by done. simpl. by rewrite Nat.add_0_r. }
  assert (∀ m, (length (pre ++ [0%Z]) + m = length pre + S m)%nat) as HS
    by (intros; rewrite length_app; simpl; lia).
  destruct n as [|n].
  - cbn [replicate app]. unfold trimmed. cbn [Nat.ltb Nat.leb andb pred].
    destruct ((c =? 46) || (c =? 0)) eqn:E.
    + rewrite trimLeadingZeros_keep by done. simpl. by rewrite Nat.add_0_r.
    + rewrite trimLeadingZeros_skip by done. destruct f as [|f]; [lia|].
      rewrite trimLeadingZeros_stop, <-app_assoc by done. simpl. do 2 f_equal.
      rewrite length_app. done.
  - change (replicate (S (S n)) 48) with (48 :: 48 :: replicate n 48). cbn [app].
    rewrite trimLeadingZeros_skip by done.
    change (48 :: replicate n 48 ++ c :: rest) with (replicate (S n) 48 ++ c :: rest).
    rewrite (IH f (pre ++ [0])) by lia. rewrite HS, <-app_assoc. unfold trimmed.
    cbn [Nat.ltb Nat.leb andb pred]. by destruct ((c =? 46) || (c =? 0)).
Qed.

(** ** Reading a fixed-point numeral back *)

(** The bytes before the first [c], as [strchr] or [strlen] sees them. *)
Fixpoint take_while_not (c : Z) (s : list Z) : list Z :=
  match s with
  | [] => []
  | x :: s => if x =? c then [] else x :: take_while_not c s
  end.

Lemma take_while_not_split c s :
  (length (take_while_not c s) < length s)%nat →
  s = take_while_not c s ++ c :: drop (S (length (take_while_not c s))) s.
Proof.
  induction s as [|x s IH]; simpl; [lia|]. destruct (Z.eqb_spec x c) as [->|Hx]; simpl.
  - by rewrite drop_0.
  - intros H. f_equal. apply IH. lia.
Qed.

(** ** Properties *)

(** The conversion [(int) value] comes before the test against
    [thres_max]: a magnitude from [2^31] on, an infinity or a NaN makes both
    functions undefined, so the overflow string is never reached. *)
Theorem ftoa_large_undefined (value : spec_float) (str : buf) (prec : Z) :
  match f_trunc (SFabs value) with Some z => INT32_MAX < z | None => True end →
  modp_ftoa value str prec = Err BadConversion
  ∧ modp_dtoa value str prec = Err BadConversion.
Proof.
  intros H.
  assert (f_to_s32 (if SFltb value (S754_zero false) then SFopp value else value)
          = Err BadConversion) as E.
  { unfold f_to_s32, f_to_range.
    destruct value as [s|[]| |[] m e]; try done; simpl in *; apply Z.leb_gt in H;
      by rewrite H, andb_false_r. }
  unfold modp_ftoa, modp_dtoa, xtoa. change (f32_of_Z 0) with (S754_zero false).
  change (f64_of_Z 0) with (S754_zero false). by rewrite E.
Qed.


(** Reads [whole.frac]: the decimal's numerator and its number of fraction
    digits. *)
Definition parse_fixed (s : list Z) : option (Z * nat) :=
  let whole := take_while_not 46 s in
  let frac := drop (S (length whole)) s in
  w ← parse_int 10 whole; f ← parse_num 10 frac;
  let scale := 10 ^ Z.of_nat (length frac) in
  Some (if bool_decide (list.head s = Some 45) then w * scale - f else w * scale + f,
        length frac).

Definition sixteenth_ok (k : Z) : bool :=
  match modp_ftoa (f_convert 24 128 (binary_normalize 24 128 k (-4) false)) (replicate 32 99) 4 with
  | Ok b =>
      let s := take_while_not 0 b in
      bool_decide (length s < length b)%nat
      && match parse_fixed s with
         | Some (n, d) => n * 16 =? k * 10 ^ Z.of_nat d
         | None => false
         end
  | Err _ => false
  end.

(** On every multiple of 1/16 below 128 in magnitude,
    [modp_ftoa] at precision four prints the exact value: the characters before
    the terminator read back as it. *)
Theorem modp_ftoa_exact_sixteenths (k : Z) :
  -2048 < k < 2048 →
  ∃ s rest n d,
    modp_ftoa (f_convert 24 128 (binary_normalize 24 128 k (-4) false)) (replicate 32 99) 4
    = Ok (s ++ 0 :: rest)
    ∧ parse_fixed s = Some (n, d) ∧ n * 16 = k * 10 ^ Z.of_nat d.
Proof.
  intros Hk. assert (sixteenth_ok k = true) as H.
  { apply (range_all_spec 4095 (-2047) sixteenth_ok); [vm_compute; reflexivity|lia]. }
  unfold sixteenth_ok in H. destruct (modp_ftoa _ _ _) as [b|]; [|done].
  apply andb_prop in H as [Hl H]. apply bool_decide_eq_true in Hl.
  destruct (parse_fixed (take_while_not 0 b)) as [[n d]|] eqn:E; [|done].
  exists (take_while_not 0 b), (drop (S (length (take_while_not 0 b))) b), n, d.
  split_and!; [f_equal; by apply take_while_not_split|done|lia].
Qed.

Lemma SFeqb_not_lt x p q :
  SFeqb x (S754_finite false p q) = true → SFltb (S754_finite false p q) x = false.
Proof.
  unfold SFeqb, SFltb. destruct x as [|[]| |[] m e]; try done. cbn [SFcompare].
  destruct (Z.compare_spec e q) as [->| |]; try done. rewrite Z.compare_refl.
  change (Pos.compare_cont Eq m p) with (m ?= p)%positive.
  change (Pos.compare_cont Eq p m) with (p ?= m)%positive.
  destruct (Pos.compare_spec m p) as [->| |]; try done. by rewrite Pos.compare_refl.
Qed.

Lemma SFeqb_half_not_gt x : SFeqb x half = true → SFgtb x half = false.
Proof.
  assert (∃ p q, half = S754_finite false p q) as (p & q & ->)
    by (vm_compute; eauto). apply SFeqb_not_lt.
Qed.

(** The carry out of a fraction of all nines is propagated to the
    whole part when the discarded part is above one half, but on a tie the
    fraction becomes [10^prec] and the whole part keeps its value: the [float]
    nearest 0.95 prints as 0.1 at precision one, and the [double] nearest
    -0.995 as -0.1 at precision two. *)
Theorem ftoa_carry_lost (widen : spec_float → spec_float) (prec whole : Z) (diff : spec_float) :
  1 <= prec <= 9 → INT32_MIN <= whole < INT32_MAX →
  (SFgtb (widen diff) half = true →
   round_frac widen prec (10 ^ prec - 1) whole diff = Ok (0, whole + 1))
  ∧ (SFeqb (widen diff) half = true →
     round_frac widen prec (10 ^ prec - 1) whole diff = Ok (10 ^ prec, whole))
  ∧ (∃ rest, modp_ftoa (f32_of_f64 (f64_lit 95 100)) (replicate 32 99) 1
             = Ok (bytes_of "0.1" ++ 0 :: rest))
  ∧ (∃ rest, modp_dtoa (f64_lit (-995) 1000) (replicate 32 99) 2
             = Ok (bytes_of "-0.1" ++ 0 :: rest)).
Proof.
  intros Hp Hw. split_and!.
  - intros Hg. unfold round_frac. rewrite Hg, chk_s32_ok by lia.
    assert (SFgeb (f32_of_Z (u32 (10 ^ prec - 1 + 1))) (nth (Z.to_nat prec) aPow10 S754_nan) = true)
      as ->; [|done].
    apply (range_all_spec 9 1
      (λ p, SFgeb (f32_of_Z (u32 (10 ^ p - 1 + 1))) (nth (Z.to_nat p) aPow10 S754_nan)));
      [vm_compute; reflexivity|lia].
  - intros He. unfold round_frac. rewrite SFeqb_half_not_gt, He by done.
    assert (Z.testbit (10 ^ prec - 1) 0 && (u32 (10 ^ prec - 1 + 1) =? 10 ^ prec) = true)
      as [-> ->%Z.eqb_eq]%andb_prop; [|by rewrite orb_true_r].
    apply (range_all_spec 9 1
      (λ p, Z.testbit (10 ^ p - 1) 0 && (u32 (10 ^ p - 1 + 1) =? 10 ^ p)));
      [vm_compute; reflexivity|lia].
  - eexists. vm_compute. reflexivity.
  - eexists. vm_compute. reflexivity.
Qed.

(** ** Witnesses *)

Lemma ftoa_large_undefined_witness :
  modp_ftoa (f32_of_Z 3000000000) (replicate 32 99) 2 = Err BadConversion.
Proof. apply (ftoa_large_undefined (f32_of_Z 3000000000)). vm_compute. reflexivity. Defined.

Lemma modp_ftoa_exact_sixteenths_witness :
  ∃ s rest n d,
    modp_ftoa (f_convert 24 128 (binary_normalize 24 128 (-1001) (-4) false)) (replicate 32 99) 4
    = Ok (s ++ 0 :: rest) ∧ parse_fixed s = Some (n, d) ∧ n * 16 = -1001 * 10 ^ Z.of_nat d.
Proof. apply (modp_ftoa_exact_sixteenths (-1001)). lia. Defined.

Lemma ftoa_carry_lost_witness :
  round_frac f64_of_f32 1 9 0 (f32_of_f64 (f64_lit 1 2)) = Ok (10, 0).
Proof.
  apply (ftoa_carry_lost f64_of_f32 1 0 (f32_of_f64 (f64_lit 1 2))); vm_compute; intuition discriminate.
Defined.

End Ftoa.
