(* ===== verification/Streams.v ===== *)
(** * Sequential streams (hal_streams.h, memstreams.c, nullstreams.c)

    The C code dispatches through a table of methods; here the table is a type
    class. [StreamLaws] is what a client that only puts bytes relies on: a
    ghost history of the accepted bytes and the room left. *)

From S2P Require Import Prelude CBuf.

Definition MSG_OK : Z := 0.
Definition MSG_TIMEOUT : Z := -1.
Definition MSG_RESET : Z := -2.

(** [struct BaseSequentialStreamVMT]: each method takes the instance and
    returns it updated. *)
Class BaseSequentialStream (S : Type) := {
  stream_write : S → list Z → res (S * Z);
  stream_read : S → Z → res (S * list Z);
  stream_put : S → Z → res (S * Z);
  stream_get : S → res (S * Z)
}.

(** A put either appends the byte to what the stream has accepted, or leaves
    the stream as it is when there is no room; [None] is unlimited room. *)
Class StreamLaws (S : Type) `{BaseSequentialStream S} (wf : S → Prop)
    (accepted : S → list Z) (room : S → option nat) := {
  put_room s b : wf s → 0 <= b < 256 → room s ≠ Some O →
    ∃ s', stream_put s b = Ok (s', MSG_OK) ∧ wf s'
      ∧ accepted s' = accepted s ++ [b] ∧ room s' = pred <$> room s;
  put_full s b : wf s → room s = Some O → ∃ m, stream_put s b = Ok (s, m) ∧ m ≠ MSG_OK
}.

(** ** Memory streams *)

Module MemStream.

(** [MemoryStream]: the fields are 32-bit [size_t]. *)
Record MemoryStream := {
  buffer : buf;
  size : Z;
  eos : Z;
  offset : Z
}.

Definition msObjectInit (b : buf) (size eos : Z) : MemoryStream :=
  {| buffer := b; size := size; eos := eos; offset := 0 |}.

Fixpoint memcpy_to (b : buf) (p : nat) (src : list Z) : res buf :=
  match src with
  | [] => Ok b
  | c :: src => b' ← bwr b p c; memcpy_to b' (S p) src
  end.

Fixpoint memcpy_from (b : buf) (p n : nat) : res (list Z) :=
  match n with
  | O => Ok []
  | S n => c ← brd b p; cs ← memcpy_from b (S p) n; Ok (c :: cs)
  end.

Definition writes (msp : MemoryStream) (bp : list Z) : res (MemoryStream * Z) :=
  let n := Z.of_nat (length bp) in
  let room := u32 (size msp - eos msp) in
  let n := if room <? n then room else n in
  b ← memcpy_to (buffer msp) (Z.to_nat (eos msp)) (take (Z.to_nat n) bp);
  Ok ({| buffer := b; size := size msp; eos := u32 (eos msp + n); offset := offset msp |}, n).

Definition reads (msp : MemoryStream) (n : Z) : res (MemoryStream * list Z) :=
  let avail := u32 (eos msp - offset msp) in
  let n := if avail <? n then avail else n in
  bs ← memcpy_from (buffer msp) (Z.to_nat (offset msp)) (Z.to_nat n);
  Ok ({| buffer := buffer msp; size := size msp; eos := eos msp;
         offset := u32 (offset msp + n) |}, bs).

Definition put (msp : MemoryStream) (b : Z) : res (MemoryStream * Z) :=
  if u32 (size msp - eos msp) <=? 0 then Ok (msp, MSG_RESET)
  else
    buf' ← bwr (buffer msp) (Z.to_nat (eos msp)) b;
    Ok ({| buffer := buf'; size := size msp; eos := u32 (eos msp + 1); offset := offset msp |},
        MSG_OK).

Definition get (msp : MemoryStream) : res (MemoryStream * Z) :=
  if u32 (eos msp - offset msp) <=? 0 then Ok (msp, MSG_RESET)
  else
    b ← brd (buffer msp) (Z.to_nat (offset msp));
    Ok ({| buffer := buffer msp; size := size msp; eos := eos msp;
           offset := u32 (offset msp + 1) |}, b).

#[global] Instance mem_stream : BaseSequentialStream MemoryStream := {
  stream_write := writes; stream_read := reads; stream_put := put; stream_get := get
}.

(** [offset <= eos <= size] and the buffer holds [size] bytes. *)
Record wf (msp : MemoryStream) : Prop := mk_wf {
  wf_offset : 0 <= offset msp <= eos msp;
  wf_eos : eos msp <= size msp;
  wf_size : size msp < 4294967296;
  wf_buffer : size msp <= Z.of_nat (length (buffer msp))
}.

(** The bytes written so far and those not yet read. *)
Definition contents (msp : MemoryStream) : list Z := take (Z.to_nat (eos msp)) (buffer msp).
Definition unread (msp : MemoryStream) : list Z := drop (Z.to_nat (offset msp)) (contents msp).
Definition room (msp : MemoryStream) : nat := Z.to_nat (size msp - eos msp).

(** ** Lemmas *)

Lemma memcpy_to_spec pre old post src :
  length old = length src →
  memcpy_to (pre ++ old ++ post) (length pre) src = Ok (pre ++ src ++ post).
Proof.
  revert pre old. induction src as [|c src IH]; intros pre [|o old] Hl; try done.
  cbn [memcpy_to app]. rewrite bwr_mid. cbn [mbind res_bind].
  specialize (IH (pre ++ [c]) old ltac:(simpl in Hl; lia)).
  rewrite length_app, <-!app_assoc in IH. cbn [app length] in IH.
  by rewrite Nat.add_1_r in IH.
Qed.

Lemma memcpy_to_take b p src :
  (p + length src <= length b)%nat →
  memcpy_to b p src = Ok (take p b ++ src ++ drop (p + length src) b).
Proof.
  intros Hl. rewrite <-(memcpy_to_spec (take p b) (take (length src) (drop p b))).
  - rewrite length_take, Nat.min_l by lia. f_equal.
    by rewrite <-drop_drop, take_drop, take_drop.
  - rewrite length_take, length_drop. lia.
Qed.

Lemma memcpy_from_spec b p n :
  (p + n <= length b)%nat → memcpy_from b p n = Ok (take n (drop p b)).
Proof.
  revert p. induction n as [|n IH]; intros p Hl; cbn [memcpy_from]; [by rewrite take_0|].
  destruct (drop_nonempty b p) as (x & Hx & ->); [lia|].
  rewrite (brd_ok _ _ x Hx). cbn [mbind res_bind]. by rewrite IH by lia.
Qed.

Lemma contents_length msp : wf msp → length (contents msp) = Z.to_nat (eos msp).
Proof. intros []. unfold contents. rewrite length_take. lia. Qed.

Lemma unread_length msp : wf msp → length (unread msp) = Z.to_nat (eos msp - offset msp).
Proof. intros H. unfold unread. rewrite length_drop, contents_length by done. destruct H. lia. Qed.

Lemma unread_eq msp :
  wf msp →
  unread msp = take (Z.to_nat (eos msp - offset msp)) (drop (Z.to_nat (offset msp)) (buffer msp)).
Proof.
  intros []. unfold unread, contents. rewrite take_drop_commute. do 2 f_equal. lia.
Qed.

(** A write stores as many bytes as there is room for. *)
Lemma writes_spec msp bp :
  wf msp →
  let n := Nat.min (length bp) (room msp) in
  ∃ msp', writes msp bp = Ok (msp', Z.of_nat n) ∧ wf msp'
    ∧ contents msp' = contents msp ++ take n bp
    ∧ unread msp' = unread msp ++ take n bp
    ∧ drop (Z.to_nat (eos msp')) (buffer msp') = drop (Z.to_nat (eos msp')) (buffer msp)
    ∧ size msp' = size msp.
Proof.
  intros Hwf n. pose proof (contents_length _ Hwf) as Hc. destruct Hwf as [Ho He Hs Hb].
  unfold writes. rewrite (u32_id (size msp - eos msp)) by lia.
  assert ((if size msp - eos msp <? Z.of_nat (length bp) then size msp - eos msp
           else Z.of_nat (length bp)) = Z.of_nat n) as ->
    by (unfold n, room; zcases; lia).
  rewrite Nat2Z.id, memcpy_to_take by (rewrite length_take; unfold n, room; lia).
  cbn [mbind res_bind]. rewrite u32_id by (unfold n, room; lia).
  fold (contents msp). eexists. split; [done|].
  assert (length (take n bp) = n) as Hn by (rewrite length_take; unfold n; lia).
  assert (Z.to_nat (eos msp + Z.of_nat n) = length (contents msp ++ take n bp)) as Hend
    by (rewrite length_app; lia).
  assert (contents {| buffer := contents msp ++ take n bp ++ drop (Z.to_nat (eos msp) + length (take n bp)) (buffer msp);
                      size := size msp; eos := eos msp + Z.of_nat n; offset := offset msp |}
          = contents msp ++ take n bp) as Hcont.
  { unfold contents at 1. cbn [eos buffer]. by rewrite Hend, app_assoc, take_app_length. }
  split_and!; cbn [eos buffer size offset]; try done.
  - constructor; cbn; try (unfold n, room; lia).
    rewrite !length_app, length_drop. unfold n, room in *. lia.
  - unfold unread. rewrite Hcont. cbn [offset]. by rewrite drop_app_le by lia.
  - rewrite Hend, app_assoc, drop_app_length, length_app, Hc. done.
Qed.

(** A read takes the oldest unread bytes. *)
Lemma reads_spec msp n :
  wf msp → 0 <= n →
  ∃ msp', reads msp n = Ok (msp', take (Z.to_nat n) (unread msp)) ∧ wf msp'
    ∧ contents msp' = contents msp ∧ unread msp' = drop (Z.to_nat n) (unread msp)
    ∧ size msp' = size msp.
Proof.
  intros Hwf Hn. pose proof (unread_length _ Hwf) as Hu. pose proof (unread_eq _ Hwf) as Hue.
  destruct Hwf as [Ho He Hs Hb]. unfold reads. rewrite (u32_id (eos msp - offset msp)) by lia.
  set (k := if eos msp - offset msp <? n then eos msp - offset msp else n).
  assert (0 <= k <= eos msp - offset msp ∧ (k = n ∨ (k = eos msp - offset msp ∧ k <= n))) as [Hk Hk']
    by (unfold k; zcases; lia).
  rewrite memcpy_from_spec by lia. cbn [mbind res_bind]. rewrite u32_id by lia.
  eexists. split_and!.
  - do 2 f_equal. rewrite Hue, take_take.
    destruct Hk' as [->|[-> ?]]; f_equal; lia.
  - constructor; cbn; lia.
  - done.
  - unfold unread at 1. unfold contents. cbn [offset buffer eos].
    unfold unread, contents. rewrite drop_drop.
    destruct Hk' as [->|[-> ?]]; [f_equal; lia|].
    by rewrite !drop_ge by (rewrite length_take; lia).
  - done.
Qed.

Lemma put_writes msp b m :
  wf msp → put msp b = Ok m →
  ∃ n, writes msp [b] = Ok (m.1, n) ∧ m.2 = (if n =? 1 then MSG_OK else MSG_RESET).
Proof.
  intros [Ho He Hs Hb]. unfold put, writes. rewrite u32_id by lia. cbn [length].
  destruct (Z.leb_spec (size msp - eos msp) 0) as [L|L].
  - intros [= <-]. rewrite (proj2 (Z.ltb_lt _ _)) by lia.
    replace (size msp - eos msp) with 0 by lia. cbn. rewrite Z.add_0_r, u32_id by lia.
    exists 0. by destruct msp.
  - rewrite (proj2 (Z.ltb_ge _ _)) by lia. intros H.
    destruct (bwr (buffer msp) _ b) as [b'|] eqn:E; simplify_eq/=.
    exists 1. by rewrite E.
Qed.

Lemma put_total msp b : wf msp → is_Ok (put msp b).
Proof.
  intros [Ho He Hs Hb]. unfold put. rewrite u32_id by lia.
  destruct (Z.leb_spec (size msp - eos msp) 0) as [L|L]; [by eexists|].
  rewrite bwr_ok by lia. by eexists.
Qed.

#[global] Instance mem_stream_laws :
  StreamLaws MemoryStream wf contents (λ msp, Some (room msp)).
Proof.
  split; intros s b Hwf.
  - intros Hb Hr. destruct (put_total s b Hwf) as [[s' m] Hp].
    destruct (put_writes _ _ _ Hwf Hp) as (n & Hw & Hm).
    pose proof (writes_spec s [b] Hwf) as W. cbv zeta in W.
    assert (Nat.min (length [b]) (room s) = 1%nat) as E by (simpl; destruct (room s); [done|lia]).
    rewrite E in W. destruct W as (s2 & Hw2 & Hwf2 & Hc & _ & _ & Hsz).
    rewrite Hw in Hw2. simplify_eq/=. exists s2. split_and!; [done|done|done|].
    pose proof (contents_length _ Hwf) as L1. pose proof (contents_length _ Hwf2) as L2.
    rewrite Hc, length_app in L2. simpl in L2. f_equal. unfold room. rewrite Hsz.
    destruct Hwf, Hwf2. lia.
  - intros [= Hr]. exists MSG_RESET. split; [|done]. cbn. unfold put.
    destruct Hwf. rewrite u32_id by lia. by rewrite (proj2 (Z.leb_le _ _)) by (unfold room in Hr; lia).
Qed.

(** The same laws with the frame: the size of the stream and the bytes past its
    end are those of the buffer it started from. *)
Definition wf_frame (b0 : buf) (sz : Z) (msp : MemoryStream) : Prop :=
  wf msp ∧ size msp = sz
  ∧ drop (Z.to_nat (eos msp)) (buffer msp) = drop (Z.to_nat (eos msp)) b0.

Lemma wf_frame_buffer b0 sz msp :
  wf_frame b0 sz msp → buffer msp = contents msp ++ drop (Z.to_nat (eos msp)) b0.
Proof. intros (_ & _ & <-). unfold contents. by rewrite take_drop. Qed.

#[global] Instance mem_stream_frame_laws b0 sz :
  StreamLaws MemoryStream (wf_frame b0 sz) contents (λ msp, Some (room msp)).
Proof.
  split; intros s b (Hwf & Hsz & Hd).
  - intros Hb Hr. destruct (put_room s b Hwf Hb Hr) as (s' & Hp & Hwf' & Hc & Hr').
    exists s'. split_and!; try done. unfold wf_frame.
    destruct (put_writes _ _ _ Hwf Hp) as (n & Hw & _).
    destruct (writes_spec s [b] Hwf) as (s2 & Hw2 & _ & _ & _ & Hd2 & Hsz2).
    rewrite Hw in Hw2. simplify_eq/=. split_and!; [done|congruence|].
    rewrite Hd2. pose proof (contents_length _ Hwf) as L1. pose proof (contents_length _ Hwf') as L2.
    rewrite Hc, length_app, L1 in L2. simpl in L2.
    by rewrite <-L2, <-!drop_drop, Hd.
  - intros H. by apply put_full.
Qed.

(** What is written to a memory stream, as far as it has room,
    is read back in order after what was unread before; neither operation
    leaves the buffer. *)
Theorem write_read (ms : MemoryStream) (bp : list Z) (n : Z) :
  wf ms → 0 <= n →
  let k := Nat.min (length bp) (room ms) in
  ∃ ms1 ms2, writes ms bp = Ok (ms1, Z.of_nat k)
    ∧ reads ms1 n = Ok (ms2, take (Z.to_nat n) (unread ms ++ take k bp))
    ∧ unread ms2 = drop (Z.to_nat n) (unread ms ++ take k bp)
    ∧ contents ms2 = contents ms ++ take k bp ∧ size ms2 = size ms.
Proof.
  intros Hwf Hn k. destruct (writes_spec ms bp Hwf) as (ms1 & E1 & W1 & C1 & U1 & _ & S1).
  destruct (reads_spec ms1 n W1 Hn) as (ms2 & E2 & W2 & C2 & U2 & S2).
  exists ms1, ms2. rewrite U1 in E2, U2. rewrite C1 in C2. split_and!; try done. congruence.
Qed.

Lemma write_read_witness :
  ∃ ms1 ms2, writes (msObjectInit [0; 0; 0] 3 0) [7; 8; 9; 10] = Ok (ms1, 3)
    ∧ reads ms1 2 = Ok (ms2, [7; 8]).
Proof.
  destruct (write_read (msObjectInit [0; 0; 0] 3 0) [7; 8; 9; 10] 2) as (ms1 & ms2 & H1 & H2 & _).
  - split; cbn; lia.
  - lia.
  - exists ms1, ms2. split; [exact H1|exact H2].
Defined.

End MemStream.

(** ** The null stream *)

Module NullStream.

Inductive NullStream := NullStreamObject.
Definition nullObjectInit : NullStream := NullStreamObject.

Definition null_writes (nsp : NullStream) (bp : list Z) : res (NullStream * Z) :=
  Ok (nsp, Z.of_nat (length bp)).
Definition null_reads (nsp : NullStream) (n : Z) : res (NullStream * list Z) := Ok (nsp, []).
Definition null_put (nsp : NullStream) (b : Z) : res (NullStream * Z) := Ok (nsp, MSG_OK).
Definition null_get (nsp : NullStream) : res (NullStream * Z) := Ok (nsp, 4).

#[global] Instance null_stream : BaseSequentialStream NullStream := {
  stream_write := null_writes; stream_read := null_reads;
  stream_put := null_put; stream_get := null_get
}.

End NullStream.
