(* ===== verification/Printf.v ===== *)
(** * Formatted output (chprintf.c)

    [chvprintf] over any sequential stream. The format is the remaining list
    of its bytes, the terminator included; reading past it, or a variadic
    argument that is missing or of the wrong kind, is an error. [long] and
    [int] have 32 bits, [char] is unsigned (ARM EABI); floating point
    conversions are compiled out (CHPRINTF_USE_FLOAT). *)

From S2P Require Import Prelude CBuf Numeral NumToA Streams.

Module Printf.

Definition MAX_FILLER : nat := 11.

(** A variadic argument: a 32-bit word, or a pointer to a string ([None] is the
    null pointer). *)
Inductive varg :=
  | VWord (w : Z)
  | VStr (s : option (list Z)).

Definition va_word (ap : list varg) : res (Z * list varg) :=
  match ap with VWord w :: ap' => Ok (w, ap') | _ => Err BadVarArg end.
Definition va_str (ap : list varg) : res (option (list Z) * list varg) :=
  match ap with VStr s :: ap' => Ok (s, ap') | _ => Err BadVarArg end.

(** The first [do] loop of [long_to_string_with_divisor]: the digits are
    written downwards from [q]; [l] and [ll] are divided as [unsigned]. *)
Fixpoint lts_digits (fuel : nat) (b : buf) (q : nat) (l ll radix : Z) : res (buf * nat) :=
  match fuel with
  | O => Err OutOfFuel
  | S f =>
      let i := u32 l mod radix + 48 in
      let i := if 57 <? i then i + (65 - 48 - 10) else i in
      match q with
      | O => Err OutOfBounds
      | S q' =>
          b' ← bwr b q' i;
          let l := s32 (u32 l / radix) in
          let ll := s32 (u32 ll / radix) in
          if ll =? 0 then Ok (b', q') else lts_digits f b' q' l ll radix
      end
  end.

(** [do *p++ = *q++; while (--i);] *)
Fixpoint lts_copy (i : nat) (b : buf) (p q : nat) : res (buf * nat) :=
  match i with
  | O => Ok (b, p)
  | S i' => c ← brd b q; b' ← bwr b p c; lts_copy i' b' (S p) (S q)
  end.

Definition long_to_string_with_divisor (b : buf) (p : nat) (num radix divisor : Z)
    : res (buf * nat) :=
  let ll := if divisor =? 0 then num else divisor in
  '(b, q) ← lts_digits 32 b (p + MAX_FILLER) num ll radix;
  lts_copy (p + MAX_FILLER - q) b p q.

Definition ch_ltoa (b : buf) (p : nat) (num radix : Z) : res (buf * nat) :=
  long_to_string_with_divisor b p num radix 0.

(** The width and precision loops. *)
Fixpoint num_loop (fmt : list Z) (ap : list varg) (acc : Z)
    : res (Z * list Z * list varg * Z) :=
  match fmt with
  | [] => Err OutOfBounds
  | c :: fmt' =>
      if (48 <=? c) && (c <=? 57) then
        acc ← chk_s32 (acc * 10 + (c - 48)); num_loop fmt' ap acc
      else if c =? 42 then
        '(w, ap') ← va_word ap;
        acc ← chk_s32 (acc * 10 + u8 w); num_loop fmt' ap' acc
      else Ok (c, fmt', ap, acc)
  end.

(** [for (p = s; *p && (--precision >= 0); p++);], the value of [p - s]. *)
Fixpoint str_span (s : list Z) (precision : Z) : res nat :=
  match s with
  | [] => Err OutOfBounds
  | c :: s' =>
      if c =? 0 then Ok O
      else if 0 <=? precision - 1 then n ← str_span s' (precision - 1); Ok (S n)
      else Ok O
  end.

Section output.
Context {S : Type} `{BaseSequentialStream S}.

(** [streamPut(chp, b); n++;] The result of the put is ignored. *)
Definition emit (chp : S) (n b : Z) : res (S * Z) :=
  '(chp, _) ← stream_put chp b; n ← chk_s32 (n + 1); Ok (chp, n).

(** [k] times the filler. *)
Fixpoint emit_filler (k : nat) (chp : S) (n filler : Z) : res (S * Z) :=
  match k with
  | O => Ok (chp, n)
  | Datatypes.S k' => '(chp, n) ← emit chp n filler; emit_filler k' chp n filler
  end.

(** [while (--i >= 0) streamPut(chp, *s++)] *)
Fixpoint emit_bytes (i : nat) (src : buf) (s : nat) (chp : S) (n : Z) : res (S * Z) :=
  match i with
  | O => Ok (chp, n)
  | Datatypes.S i' =>
      c ← brd src s; '(chp, n) ← emit chp n c; emit_bytes i' src (Datatypes.S s) chp n
  end.

(** From [i = (int)(p - s)] to the end of the iteration: [src] is the buffer
    [s] points to, at 0. *)
Definition emit_field (src : buf) (i : nat) (width filler : Z) (left_align : bool)
    (chp : S) (n : Z) : res (S * Z) :=
  let width := width - Z.of_nat i in
  let width := if width <? 0 then 0 else width in
  if negb left_align && (0 <? width) then
    c ← brd src 0;
    '(s, i, chp, n) ←
      (if (c =? 45) && (filler =? 48)
       then '(chp, n) ← emit chp n c; Ok (1%nat, pred i, chp, n)
       else Ok (0%nat, i, chp, n));
    '(chp, n) ← emit_filler (Z.to_nat width) chp n filler;
    emit_bytes i src s chp n
  else
    '(chp, n) ← emit_bytes i src 0 chp n;
    if left_align then emit_filler (Z.to_nat width) chp n filler else Ok (chp, n).

(** The [switch]: the bytes to print, as a buffer and a length, the filler
    and the remaining arguments. *)
Definition command (c precision filler : Z) (ap : list varg)
    : res (buf * nat * Z * list varg) :=
  let tmpbuf := replicate (MAX_FILLER + 1) 0 in
  if c =? 99 then
    '(w, ap) ← va_word ap; b ← bwr tmpbuf 0 (u8 w); Ok (b, 1%nat, 32, ap)
  else if c =? 115 then
    '(s, ap) ← va_str ap;
    let s := match s with Some s => s | None => bytes_of "(null)" ++ [0] end in
    let precision := if precision =? 0 then 32767 else precision in
    i ← str_span s precision; Ok (s, i, 32, ap)
  else if (c =? 68) || (c =? 100) || (c =? 73) || (c =? 105) then
    '(w, ap) ← va_word ap;
    let l := s32 w in
    '(b, p, l) ← (if l <? 0 then b ← bwr tmpbuf 0 45; l ← chk_s32 (- l); Ok (b, 1%nat, l)
                  else Ok (tmpbuf, 0%nat, l));
    '(b, p) ← ch_ltoa b p l 10; Ok (b, p, filler, ap)
  else
    let radix := if (c =? 88) || (c =? 120) then 16
                 else if (c =? 85) || (c =? 117) then 10
                 else if (c =? 79) || (c =? 111) then 8 else 0 in
    if negb (radix =? 0) then
      '(w, ap) ← va_word ap; '(b, p) ← ch_ltoa tmpbuf 0 (s32 w) radix; Ok (b, p, filler, ap)
    else b ← bwr tmpbuf 0 c; Ok (b, 1%nat, filler, ap).

(** One directive, after its percent sign. *)
Definition directive (fmt : list Z) (ap : list varg) (chp : S) (n : Z)
    : res (list Z * list varg * S * Z) :=
  c ← brd fmt 0;
  let '(left_align, fmt) := if c =? 45 then (true, drop 1 fmt) else (false, fmt) in
  c ← brd fmt 0;
  let '(filler, fmt) := if c =? 48 then (48, drop 1 fmt) else (32, fmt) in
  '(c, fmt, ap, width) ← num_loop fmt ap 0;
  '(c, fmt, ap, precision) ← (if c =? 46 then num_loop fmt ap 0 else Ok (c, fmt, ap, 0));
  '(c, fmt) ← (if (c =? 108) || (c =? 76)
               then c' ← brd fmt 0; Ok (if c' =? 0 then (c, fmt) else (c', drop 1 fmt))
               else Ok (c, fmt));
  '(src, i, filler, ap) ← command c precision filler ap;
  '(chp, n) ← emit_field src i width filler left_align chp n;
  Ok (fmt, ap, chp, n).

(** Every iteration consumes a byte of the format: its length is enough
    fuel. *)
Fixpoint chvprintf_loop (fuel : nat) (fmt : list Z) (ap : list varg) (chp : S) (n : Z)
    : res (S * Z) :=
  match fuel with
  | O => Err OutOfFuel
  | Datatypes.S f =>
      match fmt with
      | [] => Err OutOfBounds
      | c :: fmt =>
          if c =? 0 then Ok (chp, n)
          else if negb (c =? 37) then
            '(chp, n) ← emit chp n c; chvprintf_loop f fmt ap chp n
          else
            '(fmt, ap, chp, n) ← directive fmt ap chp n; chvprintf_loop f fmt ap chp n
      end
  end.

Definition chvprintf (chp : S) (fmt : list Z) (ap : list varg) : res (S * Z) :=
  chvprintf_loop (length fmt) fmt ap chp 0.

Definition chprintf (chp : S) (fmt : list Z) (ap : list varg) : res (S * Z) :=
  chvprintf chp fmt ap.
End output.

(** [chsnprintf]: prints into a memory stream that leaves one byte for the
    terminator; the buffer and the length the whole output would have. *)
Definition chsnprintf (str : buf) (size : Z) (fmt : list Z) (ap : list varg) : res (buf * Z) :=
  let size_wo_nul := if 0 <? size then size - 1 else 0 in
  let ms := MemStream.msObjectInit str size_wo_nul 0 in
  '(ms, retval) ← chprintf ms fmt ap;
  b ← (if MemStream.eos ms <? size
       then bwr (MemStream.buffer ms) (Z.to_nat (MemStream.eos ms)) 0
       else Ok (MemStream.buffer ms));
  Ok (b, retval).

(** ** Integers to text *)

Lemma lts_digits_spec radix fuel pre post l :
  2 <= radix → (0 < fuel)%nat → u32 l < radix ^ Z.of_nat fuel →
  let ds := rnum radix fuel (u32 l) in
  (length ds <= length pre)%nat → radix <= 36 →
  lts_digits fuel (pre ++ post) (length pre) l l radix
  = Ok (take (length pre - length ds) pre ++ (digit_char 65 <$> reverse ds) ++ post,
        (length pre - length ds)%nat).
Proof.
  intros Hr Hf Hl ds Hds Hr36. subst ds. revert l pre post Hf Hl Hds.
  induction fuel as [|f IH]; intros l pre post Hf Hl Hds; [lia|].
  cbn [lts_digits rnum] in *. pose proof (u32_range l) as Hul.
  destruct pre as [|x pre _] using rev_ind; [simpl in Hds; lia|].
  rewrite length_app, Nat.add_1_r. rewrite <-app_assoc. cbn [app].
  pose proof (Z.mod_pos_bound (u32 l) radix ltac:(lia)) as Hm.
  assert ((if 57 <? u32 l mod radix + 48 then u32 l mod radix + 48 + (65 - 48 - 10)
           else u32 l mod radix + 48) = digit_char 65 (u32 l mod radix)) as ->
    by (unfold digit_char; zcases; lia).
  rewrite bwr_mid. cbn [mbind res_bind].
  assert (0 <= u32 l / radix <= u32 l) as Hd
    by (split; [apply Z.div_pos; lia|apply Z.div_le_upper_bound; nia]).
  assert (u32 (s32 (u32 l / radix)) = u32 l / radix) as Hu
    by (rewrite u32_s32; apply u32_id; lia).
  assert ((s32 (u32 l / radix) =? 0) = (u32 l / radix =? 0)) as ->
    by (rewrite <-Hu at 2; pose proof (s32_range (u32 l / radix)); cint).
  destruct (Z.eqb_spec (u32 l / radix) 0) as [E|E].
  { cbn [length] . rewrite reverse_singleton.
    replace (S (length pre) - 1)%nat with (length pre) by lia.
    by rewrite take_app_length. }
  pose proof (div_pow_step radix Hr f (u32 l) ltac:(lia)) as Hp.
  destruct f as [|f]; [simpl in Hp; lia|].
  rewrite length_app in Hds. cbn [length] in Hds.
  rewrite IH by (rewrite ?Hu; lia). rewrite Hu. cbn [length]. rewrite Nat.sub_succ.
  rewrite reverse_cons, fmap_app, <-!app_assoc. cbn [app fmap list_fmap].
  by rewrite take_app_le by lia.
Qed.

Lemma lts_copy_spec i b p q :
  (p <= q)%nat → (q + i <= length b)%nat →
  ∃ b', lts_copy i b p q = Ok (b', (p + i)%nat)
    ∧ take (p + i) b' = take p b ++ take i (drop q b) ∧ length b' = length b.
Proof.
  revert b p q. induction i as [|i IH]; intros b p q Hp Hq; cbn [lts_copy].
  { exists b. by rewrite Nat.add_0_r, take_0, app_nil_r. }
  destruct (drop_nonempty b q) as (c & Hc & Hdrop); [lia|].
  rewrite (brd_ok _ _ c Hc). cbn [mbind res_bind]. rewrite bwr_ok by lia. cbn [mbind res_bind].
  destruct (IH (<[p:=c]> b) (S p) (S q)) as (b' & -> & Ht & Hl);
    [lia|rewrite length_insert; lia|].
  exists b'. rewrite <-Nat.add_succ_comm. split_and!; [done| |by rewrite Hl, length_insert].
  rewrite Ht, Hdrop, drop_insert_lt by lia. cbn [take].
  rewrite (take_S_r _ p c) by (apply list_lookup_insert_eq; lia).
  by rewrite take_insert_ge, <-app_assoc by lia.
Qed.

(** [ch_ltoa] prints the word, read as unsigned, from [p] on. *)
Lemma ch_ltoa_spec b p w radix :
  8 <= radix <= 16 → (p + MAX_FILLER <= length b)%nat →
  let ds := num_str 65 radix (u32 w) in
  ∃ b', ch_ltoa b p w radix = Ok (b', (p + length ds)%nat)
    ∧ take (p + length ds) b' = take p b ++ ds ∧ length b' = length b.
Proof.
  intros Hr Hb ds. unfold ch_ltoa, long_to_string_with_divisor. cbn [Z.eqb].
  pose proof (u32_range w) as Hu.
  assert (u32 w < radix ^ 11) as Hu11
    by (apply Z.lt_le_trans with (8 ^ 11); [lia|apply Z.pow_le_mono_l; lia]).
  assert (u32 w < radix ^ 32) as Hu32
    by (apply Z.lt_le_trans with (radix ^ 11); [done|apply Z.pow_le_mono_r; lia]).
  assert (length ds <= 11)%nat as Hlen.
  { unfold ds. rewrite length_num_str. apply num_length_le; lia. }
  assert (rnum radix 32 (u32 w) = reverse (num radix (u32 w))) as Ern
    by (apply rnum_enough; [lia|lia|split; [lia|exact Hu32]]).
  assert (length (num radix (u32 w)) = length ds) as Edl by (unfold ds; by rewrite length_num_str).
  set (pre := take (p + MAX_FILLER) b). set (post := drop (p + MAX_FILLER) b).
  assert (length pre = p + MAX_FILLER)%nat as Hpre by (unfold pre; rewrite length_take; lia).
  rewrite <-Hpre. rewrite <-(take_drop (p + MAX_FILLER) b). fold pre post.
  rewrite (lts_digits_spec radix 32 pre post w ltac:(lia) ltac:(lia) Hu32)
    by (rewrite ?Ern, ?length_reverse, ?Edl; unfold MAX_FILLER in *; lia).
  rewrite Ern, reverse_involutive, length_reverse, Edl. fold (num_str 65 radix (u32 w)). fold ds.
  cbn [mbind res_bind].
  replace (length pre - (length pre - length ds))%nat with (length ds) by (unfold MAX_FILLER in *; lia).
  set (q := (length pre - length ds)%nat). set (b1 := take q pre ++ ds ++ post).
  assert (length (take q pre) = q) as Hq by (rewrite length_take; unfold q; lia).
  assert (length b1 = length (pre ++ post)) as Hb1
    by (unfold b1; rewrite !length_app, Hq; unfold q, MAX_FILLER in *; lia).
  destruct (lts_copy_spec (length ds) b1 p q) as (b' & -> & Ht & Hl).
  { unfold q, MAX_FILLER in *. lia. }
  { unfold b1. rewrite !length_app, Hq. lia. }
  exists b'. split_and!; [done| |by rewrite Hl, Hb1].
  rewrite Ht. unfold b1. rewrite drop_app_length' by done. rewrite take_app_length.
  rewrite take_app_le by (unfold q, MAX_FILLER in *; lia).
  rewrite take_take, Nat.min_l by (unfold q, MAX_FILLER in *; lia).
  by rewrite take_app_le by lia.
Qed.

(** ** Emission *)

Section emission.
Context {S : Type} `{BaseSequentialStream S}.

(** Puts the bytes one after the other. *)
Fixpoint emit_list (bs : list Z) (chp : S) (n : Z) : res (S * Z) :=
  match bs with
  | [] => Ok (chp, n)
  | b :: bs => '(chp, n) ← emit chp n b; emit_list bs chp n
  end.

Lemma emit_list_app xs ys chp n :
  emit_list (xs ++ ys) chp n = ('(chp, n) ← emit_list xs chp n; emit_list ys chp n).
Proof.
  revert chp n. induction xs as [|x xs IH]; intros chp n; [done|].
  cbn [app emit_list]. destruct (emit chp n x) as [[chp' n']|]; [|done]. apply IH.
Qed.

Lemma emit_filler_list k chp n filler :
  emit_filler k chp n filler = emit_list (replicate k filler) chp n.
Proof.
  revert chp n. induction k as [|k IH]; intros chp n; [done|].
  cbn [emit_filler replicate emit_list]. destruct (emit chp n filler) as [[chp' n']|]; [|done].
  apply IH.
Qed.

Lemma emit_bytes_list i src s chp n :
  (s + i <= length src)%nat →
  emit_bytes i src s chp n = emit_list (take i (drop s src)) chp n.
Proof.
  revert s chp n. induction i as [|i IH]; intros s chp n Hl; [by rewrite take_0|].
  destruct (drop_nonempty src s) as (c & Hc & ->); [lia|].
  cbn [emit_bytes take emit_list]. rewrite (brd_ok _ _ c Hc). cbn [mbind res_bind].
  destruct (emit chp n c) as [[chp' n']|]; [|done]. apply IH. lia.
Qed.

(** A field of the given width: right or left aligned, zeros after a minus
    sign. *)
Definition pad (left : bool) (filler width : Z) (body : list Z) : list Z :=
  let w := Z.to_nat (width - Z.of_nat (length body)) in
  if left then body ++ replicate w filler
  else match body with
       | c :: rest => if (c =? 45) && (filler =? 48) then c :: replicate w filler ++ rest
                      else replicate w filler ++ body
       | [] => replicate w filler
       end.

Lemma emit_field_spec src i width filler left chp n :
  (i <= length src)%nat → (0 < length src)%nat →
  (i = 0%nat → src !! 0%nat ≠ Some 45) →
  emit_field src i width filler left chp n
  = emit_list (pad left filler width (take i src)) chp n.
Proof.
  intros Hi Hs H0. unfold emit_field, pad.
  rewrite length_take, Nat.min_l by done.
  set (w := Z.to_nat (width - Z.of_nat i)).
  assert (Z.to_nat (if width - Z.of_nat i <? 0 then 0 else width - Z.of_nat i) = w) as ->
    by (unfold w; zcases; lia).
  destruct left; cbn [negb andb].
  { rewrite emit_bytes_list, emit_list_app, drop_0 by lia.
    destruct (emit_list (take i src) chp n) as [[chp' n']|]; [|done].
    apply emit_filler_list. }
  destruct src as [|c src]; [simpl in Hs; lia|].
  assert ((0 <? (if width - Z.of_nat i <? 0 then 0 else width - Z.of_nat i)) = (0 <? w)%nat) as ->
    by (unfold w; zcases; destruct (Nat.ltb_spec 0 (Z.to_nat (width - Z.of_nat i))); lia).
  assert (∀ s j chp n, (s + j <= length (c :: src))%nat →
    ('(chp, n) ← emit_filler w chp n filler; emit_bytes j (c :: src) s chp n)
    = emit_list (replicate w filler ++ take j (drop s (c :: src))) chp n) as Hpad.
  { intros s j chp' n' Hl. rewrite emit_filler_list, emit_list_app.
    destruct (emit_list (replicate w filler) chp' n') as [[? ?]|]; [|done].
    by apply emit_bytes_list. }
  clearbody w. destruct w as [|w]; cbn [Nat.ltb Nat.leb].
  - replace (emit_bytes i (c :: src) 0 chp n ≫= _) with (emit_bytes i (c :: src) 0 chp n)
      by (by destruct (emit_bytes i (c :: src) 0 chp n) as [[]|]).
    rewrite emit_bytes_list, drop_0 by lia. cbn [replicate app].
    destruct i; [done|]. cbn [take]. by destruct ((c =? 45) && (filler =? 48)).
  - rewrite (brd_ok _ 0 c) by done. cbn [mbind res_bind].
    destruct ((c =? 45) && (filler =? 48)) eqn:E; cbn [mbind res_bind].
    + destruct i as [|i]; [apply andb_prop in E as [->%Z.eqb_eq _]; by destruct (H0 eq_refl)|].
      cbn [take pred]. rewrite E. cbn [emit_list].
      destruct (emit chp n c) as [[chp' n']|]; [|done]. cbn [mbind res_bind].
      rewrite Hpad by (simpl in *; lia). cbn [drop]. by rewrite drop_0.
    + rewrite Hpad, drop_0 by lia. destruct i; cbn [take]; [by rewrite app_nil_r|]. by rewrite E.
Qed.
End emission.

(** ** Formats as data

    A format without [*] and without length modifiers, its arguments, and what
    it prints. *)

Inductive conv :=
  | CChar (c : Z)
  | CStr (precision : Z) (str : list Z)
  | CDec (letter : Z) (z : Z)
  | CUns (letter : Z) (z : Z).

Inductive item :=
  | Lit (c : Z)
  | Dir (ljust zero : bool) (width : Z) (cv : conv).

Definition radix_of (letter : Z) : Z :=
  if (letter =? 88) || (letter =? 120) then 16
  else if (letter =? 85) || (letter =? 117) then 10 else 8.

Definition conv_ok (cv : conv) : Prop :=
  match cv with
  | CChar c => 0 <= c < 256
  | CStr p str => 0 <= p <= INT32_MAX ∧ Forall (λ c, 0 < c < 256) str
  | CDec letter z => (letter = 68 ∨ letter = 100 ∨ letter = 73 ∨ letter = 105)
                     ∧ INT32_MIN < z <= INT32_MAX
  | CUns letter z => (letter = 88 ∨ letter = 120 ∨ letter = 85 ∨ letter = 117
                      ∨ letter = 79 ∨ letter = 111) ∧ 0 <= z < 4294967296
  end.

Definition item_ok (it : item) : Prop :=
  match it with
  | Lit c => 0 < c < 256 ∧ c ≠ 37
  | Dir _ _ width cv => 0 <= width <= INT32_MAX ∧ conv_ok cv
  end.

(** The text of the format. *)
Definition opt_num (w : Z) : list Z := if 0 <? w then dec_string w else [].
Definition conv_fmt (cv : conv) : list Z :=
  match cv with
  | CChar _ => [99]
  | CStr p _ => (if 0 <? p then 46 :: dec_string p else []) ++ [115]
  | CDec letter _ | CUns letter _ => [letter]
  end.
Definition item_fmt (it : item) : list Z :=
  match it with
  | Lit c => [c]
  | Dir ljust zero width cv =>
      37 :: (if ljust then [45] else []) ++ (if zero then [48] else [])
         ++ opt_num width ++ conv_fmt cv
  end.
Definition items_fmt (its : list item) : list Z := concat (item_fmt <$> its).

(** Its arguments. *)
Definition item_arg (it : item) : list varg :=
  match it with
  | Lit _ => []
  | Dir _ _ _ (CChar c) => [VWord c]
  | Dir _ _ _ (CStr _ str) => [VStr (Some (str ++ [0]))]
  | Dir _ _ _ (CDec _ z) | Dir _ _ _ (CUns _ z) => [VWord z]
  end.
Definition items_args (its : list item) : list varg := concat (item_arg <$> its).

(** What it prints. *)
Definition conv_body (cv : conv) : list Z :=
  match cv with
  | CChar c => [c]
  | CStr p str => take (Z.to_nat (if p =? 0 then 32767 else p)) str
  | CDec _ z => sign_str (z <? 0) ++ num_str 65 10 (Z.abs z)
  | CUns letter z => num_str 65 (radix_of letter) z
  end.
Definition conv_filler (cv : conv) (zero : bool) : Z :=
  match cv with CChar _ | CStr _ _ => 32 | _ => if zero then 48 else 32 end.
Definition item_out (it : item) : list Z :=
  match it with
  | Lit c => [c]
  | Dir ljust zero width cv => pad ljust (conv_filler cv zero) width (conv_body cv)
  end.
Definition items_out (its : list item) : list Z := concat (item_out <$> its).

(** ** Parsing a directive *)

Lemma of_rdigits_nonneg base ds :
  0 <= base → Forall (λ d, 0 <= d) ds → 0 <= of_rdigits base ds.
Proof. intros Hb. induction 1; simpl; [lia|]. nia. Qed.

Lemma num_loop_end c fmt ap acc :
  (48 <=? c) && (c <=? 57) = false → c ≠ 42 → num_loop (c :: fmt) ap acc = Ok (c, fmt, ap, acc).
Proof. intros H1 H2. cbn [num_loop]. by rewrite H1, (proj2 (Z.eqb_neq c 42)). Qed.

Lemma num_loop_digits ds rest ap acc :
  Forall (λ d, 0 <= d < 10) ds → 0 <= acc →
  acc * 10 ^ Z.of_nat (length ds) + of_rdigits 10 (reverse ds) <= INT32_MAX →
  num_loop ((digit_char 97 <$> ds) ++ rest) ap acc
  = num_loop rest ap (acc * 10 ^ Z.of_nat (length ds) + of_rdigits 10 (reverse ds)).
Proof.
  intros Hds. revert acc. induction Hds as [|d ds Hd Hds IH]; intros acc Ha Hmax.
  { simpl. f_equal. lia. }
  rewrite reverse_cons, of_rdigits_app, length_reverse in *.
  cbn [length of_rdigits] in *. rewrite Nat2Z.inj_succ, Z.pow_succ_r in * by lia.
  assert (0 <= of_rdigits 10 (reverse ds)) as Hr.
  { apply of_rdigits_nonneg; [lia|]. apply Forall_reverse. eapply Forall_impl; [|exact Hds]. simpl. lia. }
  pose proof (Z.pow_pos_nonneg 10 (Z.of_nat (length ds))) as Hp.
  rewrite fmap_cons. cbn [app num_loop].
  replace (digit_char 97 d) with (48 + d) by (unfold digit_char; by rewrite (proj2 (Z.ltb_lt _ _)) by lia).
  assert ((48 <=? 48 + d) && (48 + d <=? 57) = true) as -> by lia.
  replace (acc * 10 + (48 + d - 48)) with (acc * 10 + d) by lia.
  rewrite chk_s32_ok by (unfold INT32_MIN, INT32_MAX in *; nia). cbn [mbind res_bind].
  rewrite IH by nia. f_equal. lia.
Qed.

Lemma num_loop_num w c fmt ap :
  0 <= w <= INT32_MAX → (48 <=? c) && (c <=? 57) = false → c ≠ 42 →
  num_loop (dec_string w ++ c :: fmt) ap 0 = Ok (c, fmt, ap, w).
Proof.
  intros Hw H1 H2. unfold dec_string, num_str.
  rewrite num_loop_digits; rewrite ?num_value by lia; [|apply num_digits; lia|lia|lia].
  rewrite Z.mul_0_l, Z.add_0_l. by apply num_loop_end.
Qed.

Lemma num_loop_opt w c fmt ap :
  0 <= w <= INT32_MAX → (48 <=? c) && (c <=? 57) = false → c ≠ 42 →
  num_loop (opt_num w ++ c :: fmt) ap 0 = Ok (c, fmt, ap, w).
Proof.
  intros Hw H1 H2. unfold opt_num. destruct (Z.ltb_spec 0 w) as [L|L].
  - by apply num_loop_num.
  - replace w with 0 by lia. by apply num_loop_end.
Qed.

(** ** One directive *)

Definition conv_letter (cv : conv) : Z :=
  match cv with CChar _ => 99 | CStr _ _ => 115 | CDec l _ | CUns l _ => l end.
Definition conv_prec (cv : conv) : Z := match cv with CStr p _ => p | _ => 0 end.
Definition conv_arg (cv : conv) : varg :=
  match cv with
  | CStr _ str => VStr (Some (str ++ [0]))
  | CChar z | CDec _ z | CUns _ z => VWord z
  end.

(** The field [command] hands to [emit_field]. *)
Definition field_ok (src : buf) (i : nat) (body : list Z) : Prop :=
  take i src = body ∧ (i <= length src)%nat ∧ (0 < length src)%nat
  ∧ (i = 0%nat → src !! 0%nat ≠ Some 45).

Lemma str_span_spec str p :
  0 <= p → Forall (λ c, c ≠ 0) str →
  str_span (str ++ [0]) p = Ok (Nat.min (Z.to_nat p) (length str)).
Proof.
  intros Hp Hs. revert p Hp. induction Hs as [|c str Hc Hs IH]; intros p Hp; cbn [app str_span].
  { simpl. f_equal. lia. }
  rewrite (proj2 (Z.eqb_neq c 0)) by done. cbn [length].
  destruct (Z.leb_spec 0 (p - 1)) as [L|L].
  - rewrite IH by lia. cbn [mbind res_bind]. f_equal. lia.
  - f_equal. lia.
Qed.

Lemma num_str_field b i ds :
  take i b = ds → (i = length ds)%nat → ds ≠ [] → field_ok b i ds.
Proof.
  intros Ht Hi Hd. assert (i <= length b)%nat as Hl.
  { apply (f_equal length) in Ht. rewrite length_take in Ht. lia. }
  split_and!; [done|done| |].
  - destruct ds; [done|simpl in *; lia].
  - intros ->. by destruct ds.
Qed.

Lemma num_str_nonempty alpha base v : num_str alpha base v ≠ [].
Proof. unfold num_str. intros H%fmap_nil_inv. by apply num_nonempty in H. Qed.

(** The letters of the two integer conversions. *)
Lemma command_dec letter z prec filler ap :
  conv_ok (CDec letter z) →
  ∃ src i, command letter prec filler (VWord z :: ap) = Ok (src, i, filler, ap)
    ∧ field_ok src i (conv_body (CDec letter z)).
Proof.
  intros [Hl Hz]. unfold INT32_MIN, INT32_MAX in Hz.
  set (tmp := replicate (MAX_FILLER + 1) 0).
  assert (command letter prec filler (VWord z :: ap)
    = '(b, p, l) ← (if z <? 0 then b ← bwr tmp 0 45; l ← chk_s32 (- z); Ok (b, 1%nat, l)
                    else Ok (tmp, 0%nat, z));
      '(b, p) ← ch_ltoa b p l 10; Ok (b, p, filler, ap)) as ->.
  { unfold command. cbn [va_word mbind res_bind].
    rewrite (s32_id z) by (unfold INT32_MIN, INT32_MAX; lia).
    by destruct Hl as [->|[->|[->| ->]]]. }
  cbn [conv_body]. destruct (Z.ltb_spec z 0) as [L|L]; cbn [sign_str app].
  - assert (bwr tmp 0 45 = Ok (45 :: replicate MAX_FILLER 0)) as -> by done. cbn [mbind res_bind].
    rewrite chk_s32_ok by (unfold INT32_MIN, INT32_MAX; lia). cbn [mbind res_bind].
    destruct (ch_ltoa_spec (45 :: replicate MAX_FILLER 0) 1 (- z) 10) as (b & -> & Ht & Hb);
      [lia|unfold MAX_FILLER; simpl; lia|]. rewrite (u32_id (- z)) in * by lia. cbn [mbind res_bind].
    rewrite Z.abs_neq by lia. eexists _, _. split; [done|].
    by apply num_str_field.
  - cbn [mbind res_bind].
    destruct (ch_ltoa_spec tmp 0 z 10) as (b & -> & Ht & Hb);
      [lia|unfold tmp, MAX_FILLER; simpl; lia|]. rewrite (u32_id z) in * by lia. cbn [mbind res_bind].
    rewrite Z.abs_eq by lia. eexists _, _. split; [done|].
    apply num_str_field; [done|done|apply num_str_nonempty].
Qed.

Lemma command_uns letter z prec filler ap :
  conv_ok (CUns letter z) →
  ∃ src i, command letter prec filler (VWord z :: ap) = Ok (src, i, filler, ap)
    ∧ field_ok src i (conv_body (CUns letter z)).
Proof.
  intros [Hl Hz]. set (tmp := replicate (MAX_FILLER + 1) 0).
  assert (command letter prec filler (VWord z :: ap)
    = ('(b, p) ← ch_ltoa tmp 0 (s32 z) (radix_of letter); Ok (b, p, filler, ap))
    ∧ 8 <= radix_of letter <= 16) as [-> Hr].
  { unfold command. cbn [va_word mbind res_bind].
    by destruct Hl as [->|[->|[->|[->|[->| ->]]]]]. }
  destruct (ch_ltoa_spec tmp 0 (s32 z) (radix_of letter) Hr) as (b & -> & Ht & Hb);
    [unfold tmp, MAX_FILLER; simpl; lia|].
  rewrite u32_s32, (u32_id z) in * by lia. cbn [mbind res_bind]. eexists _, _. split; [done|].
  apply num_str_field; [done|done|apply num_str_nonempty].
Qed.

Lemma command_spec cv (zero : bool) ap :
  conv_ok cv →
  ∃ src i, command (conv_letter cv) (conv_prec cv) (if zero then 48 else 32) (conv_arg cv :: ap)
           = Ok (src, i, conv_filler cv zero, ap)
    ∧ field_ok src i (conv_body cv).
Proof.
  intros Hok. destruct cv as [c|p str|letter z|letter z].
  - simpl in Hok. unfold command. cbn [conv_letter Z.eqb Pos.eqb conv_arg va_word mbind res_bind].
    rewrite u8_id by lia.
    assert (bwr (replicate (MAX_FILLER + 1) 0) 0 c = Ok (c :: replicate MAX_FILLER 0)) as -> by done.
    eexists _, _. split; [done|]. split_and!; simpl; try done; lia.
  - destruct Hok as [Hp Hs]. unfold command.
    cbn [conv_letter conv_prec Z.eqb Pos.eqb conv_arg va_str mbind res_bind].
    rewrite str_span_spec.
    2: { zcases; lia. }
    2: { eapply Forall_impl; [|exact Hs]. simpl. lia. }
    eexists _, _. split; [done|].
    split_and!; rewrite ?length_app; simpl; try lia.
    + rewrite take_app_le by lia. by rewrite <-take_take, (take_ge str (length str)).
    + intros H0. destruct str as [|c str]; [done|]. exfalso. simpl in H0. zcases; lia.
  - apply command_dec. done.
  - apply command_uns. done.
Qed.

(** The text after the flags starts neither with a minus nor with a zero. *)
Lemma field_head width cv rest :
  0 <= width → conv_ok cv →
  ∃ c t, opt_num width ++ conv_fmt cv ++ rest = c :: t ∧ c ≠ 45 ∧ c ≠ 48.
Proof.
  intros Hw Hok. unfold opt_num. destruct (Z.ltb_spec 0 width) as [L|L].
  - unfold dec_string, num_str. pose proof (num_head 10 ltac:(lia) width L) as Hh.
    pose proof (num_digits 10 ltac:(lia) width) as Hd. pose proof (num_nonempty 10 width) as Hn.
    destruct (num 10 width) as [|d ds]; [done|]. inversion_clear Hd as [|? ? Hd0 _].
    eexists _, _. split; [done|]. assert (d ≠ 0) by (intros ->; by apply Hh).
    unfold digit_char. simpl in Hd0. rewrite (proj2 (Z.ltb_lt d 10)) by lia. lia.
  - destruct cv as [c|p str|letter z|letter z]; simpl in *.
    + by eexists _, _.
    + destruct (0 <? p); by eexists _, _.
    + destruct Hok as [Hl _]. eexists _, _. split; [done|]. lia.
    + destruct Hok as [Hl _]. eexists _, _. split; [done|]. lia.
Qed.

(** After the width: the precision and the conversion letter. *)
Lemma parse_conv width cv rest ap :
  0 <= width <= INT32_MAX → conv_ok cv →
  ('(c, fmt, ap, width) ← num_loop (opt_num width ++ conv_fmt cv ++ rest) ap 0;
   '(c, fmt, ap, precision) ← (if c =? 46 then num_loop fmt ap 0 else Ok (c, fmt, ap, 0));
   Ok (c, fmt, ap, width, precision))
  = Ok (conv_letter cv, rest, ap, width, conv_prec cv).
Proof.
  intros Hw Hok. destruct cv as [c|p str|letter z|letter z]; simpl in Hok.
  - cbn [conv_fmt app]. by rewrite num_loop_opt.
  - destruct Hok as [Hp _]. unfold conv_fmt. destruct (Z.ltb_spec 0 p) as [L|L].
    + cbn [app]. rewrite <-app_assoc. rewrite num_loop_opt by done. cbn [mbind res_bind app Z.eqb].
      rewrite Pos.eqb_refl, num_loop_num by done. done.
    + cbn [app]. rewrite num_loop_opt by done. cbn. do 2 f_equal. lia.
  - destruct Hok as [Hl _]. cbn [conv_fmt app].
    rewrite num_loop_opt by (lia || destruct Hl as [->|[->|[->| ->]]]; done).
    cbn [mbind res_bind]. rewrite (proj2 (Z.eqb_neq letter 46)) by lia. done.
  - destruct Hok as [Hl _]. cbn [conv_fmt app].
    rewrite num_loop_opt by (lia || destruct Hl as [->|[->|[->|[->|[->| ->]]]]]; done).
    cbn [mbind res_bind]. rewrite (proj2 (Z.eqb_neq letter 46)) by lia. done.
Qed.

Lemma conv_letter_not_long cv : conv_ok cv → (conv_letter cv =? 108) || (conv_letter cv =? 76) = false.
Proof. destruct cv; simpl; try done; intros [Hl _]; lia. Qed.

Section directives.
Context {S : Type} `{BaseSequentialStream S}.

Lemma directive_spec (ljust zero : bool) width cv rest ap (chp : S) n :
  item_ok (Dir ljust zero width cv) →
  directive ((if ljust then [45] else []) ++ (if zero then [48] else [])
             ++ opt_num width ++ conv_fmt cv ++ rest) (conv_arg cv :: ap) chp n
  = ('(chp, n) ← emit_list (item_out (Dir ljust zero width cv)) chp n; Ok (rest, ap, chp, n)).
Proof.
  intros [Hw Hok]. destruct (field_head width cv rest ltac:(lia) Hok) as (c & t & Ht & H45 & H48).
  pose proof (parse_conv width cv rest (conv_arg cv :: ap) Hw Hok) as Hparse.
  rewrite Ht in *. unfold directive.
  assert (∀ z : bool, brd ((if z then [48] else []) ++ c :: t) 0 = Ok (if z then 48 else c)) as Hz
    by (by intros []).
  assert ((c0 ← brd ((if ljust then [45] else []) ++ (if zero then [48] else []) ++ c :: t) 0;
           Ok (if c0 =? 45 then (true, drop 1 ((if ljust then [45] else []) ++ (if zero then [48] else []) ++ c :: t))
               else (false, (if ljust then [45] else []) ++ (if zero then [48] else []) ++ c :: t)))
          = Ok (ljust, (if zero then [48] else []) ++ c :: t)) as H1.
  { destruct ljust; cbn; [done|]. rewrite Hz. cbn [mbind res_bind].
    destruct zero; [done|]. by rewrite (proj2 (Z.eqb_neq c 45)). }
  assert ((c0 ← brd ((if zero then [48] else []) ++ c :: t) 0;
           Ok (if c0 =? 48 then (48, drop 1 ((if zero then [48] else []) ++ c :: t))
               else (32, (if zero then [48] else []) ++ c :: t)))
          = Ok (if zero then 48 else 32, c :: t)) as H2.
  { rewrite Hz. cbn [mbind res_bind]. destruct zero; [done|].
    by rewrite (proj2 (Z.eqb_neq c 48)). }
  destruct (brd _ 0) as [c0|]; [|done]. cbn [mbind res_bind] in *. injection H1 as H1. rewrite H1.
  clear c0 H1. destruct (brd _ 0) as [c0|]; [|done]. cbn [mbind res_bind] in *.
  injection H2 as H2. rewrite H2. clear c0 H2 Hz.
  destruct (num_loop (c :: t) _ 0) as [[[[c1 fmt1] ap1] w1]|]; [|done]. cbn [mbind res_bind] in *.
  destruct (if c1 =? 46 then _ else _) as [[[[c2 fmt2] ap2] p2]|]; [|done].
  cbn [mbind res_bind] in *. simplify_eq.
  rewrite conv_letter_not_long by done. cbn [mbind res_bind].
  destruct (command_spec cv zero ap Hok) as (src & i & -> & Hf & Hi & Hs & H0).
  cbn [mbind res_bind]. by rewrite emit_field_spec, Hf.
Qed.

Lemma item_fmt_pos it : (0 < length (item_fmt it))%nat.
Proof. destruct it; simpl; lia. Qed.

Lemma chvprintf_loop_spec its fuel (chp : S) n :
  Forall item_ok its → (length its < fuel)%nat →
  chvprintf_loop fuel (items_fmt its ++ [0]) (items_args its) chp n
  = emit_list (items_out its) chp n.
Proof.
  intros Hok. revert fuel chp n.
  induction Hok as [|it its Hit Hits IH]; intros fuel chp n Hf;
    (destruct fuel as [|f]; [simpl in Hf; lia|]); [done|].
  unfold items_fmt, items_args, items_out in *. cbn [length] in Hf.
  rewrite !fmap_cons. cbn [concat]. rewrite emit_list_app, <-app_assoc.
  destruct it as [c|ljust zero width cv].
  - destruct Hit as [Hc1 Hc2]. cbn [item_fmt item_out item_arg app chvprintf_loop].
    rewrite (proj2 (Z.eqb_neq c 0)), (proj2 (Z.eqb_neq c 37)) by lia. cbn [negb emit_list].
    destruct (emit chp n c) as [[chp' n']|]; [|done]. cbn [mbind res_bind].
    rewrite IH by lia. done.
  - cbn [item_fmt app chvprintf_loop Z.eqb]. rewrite Pos.eqb_refl. cbn [negb].
    replace (item_arg (Dir ljust zero width cv)) with [conv_arg cv] by (by destruct cv).
    rewrite <-!app_assoc. cbn [app]. rewrite directive_spec by done.
    destruct (emit_list _ chp n) as [[chp' n']|]; [|done]. cbn [mbind res_bind].
    rewrite IH by lia. done.
Qed.

Lemma items_fmt_length its : (length its <= length (items_fmt its))%nat.
Proof.
  unfold items_fmt. induction its as [|it its IH]; [done|]. rewrite fmap_cons. cbn [concat].
  rewrite length_app. pose proof (item_fmt_pos it). simpl. lia.
Qed.

Lemma chvprintf_items its (chp : S) :
  Forall item_ok its →
  chvprintf chp (items_fmt its ++ [0]) (items_args its) = emit_list (items_out its) chp 0.
Proof.
  intros Hok. unfold chvprintf. apply chvprintf_loop_spec; [done|].
  pose proof (items_fmt_length its). rewrite length_app. simpl. lia.
Qed.
End directives.

(** ** The output consists of bytes *)

Lemma num_str_bytes alpha base v :
  2 <= base <= 36 → alpha = 97 ∨ alpha = 65 → Forall (λ b, 0 <= b < 256) (num_str alpha base v).
Proof.
  intros Hb Ha. unfold num_str. apply Forall_fmap.
  eapply Forall_impl; [|apply (num_digits base); lia]. intros d Hd. simpl in *.
  unfold digit_char. zcases; lia.
Qed.

Lemma pad_bytes ljust filler width body :
  0 <= filler < 256 → Forall (λ b, 0 <= b < 256) body →
  Forall (λ b, 0 <= b < 256) (pad ljust filler width body).
Proof.
  intros Hf Hb. unfold pad. set (w := Z.to_nat _).
  assert (Forall (λ b, 0 <= b < 256) (replicate w filler)) as Hw by by apply Forall_replicate.
  destruct ljust; [by apply Forall_app|]. destruct Hb as [|c rest Hc Hr]; [done|].
  case_match; [constructor; [done|]|]; apply Forall_app; split; auto.
Qed.

Lemma items_out_bytes its : Forall item_ok its → Forall (λ b, 0 <= b < 256) (items_out its).
Proof.
  intros Hok. unfold items_out. induction Hok as [|it its Hit Hits IH]; [constructor|].
  rewrite fmap_cons. cbn [concat]. apply Forall_app. split; [|done].
  destruct it as [c|ljust zero width cv]; [repeat constructor; simpl in Hit; lia|].
  destruct Hit as [_ Hok']. cbn [item_out]. apply pad_bytes.
  { destruct cv, zero; simpl; lia. }
  destruct cv as [c|p str|letter z|letter z]; cbn [conv_body conv_ok] in *.
  - constructor; [done|constructor].
  - apply Forall_take. eapply Forall_impl; [|apply Hok']. simpl. lia.
  - apply Forall_app. split; [|apply num_str_bytes; lia].
    destruct (z <? 0); [constructor; [lia|]|]; constructor.
  - destruct Hok' as [Hl _]. apply num_str_bytes; [|lia].
    by destruct Hl as [->|[->|[->|[->|[->| ->]]]]].
Qed.

(** ** What a lawful stream receives *)

Definition take_room {A} (r : option nat) (l : list A) : list A :=
  match r with None => l | Some k => take k l end.

Section laws.
Context {S : Type} {H : BaseSequentialStream S} {wf : S → Prop}
  {accepted : S → list Z} {room : S → option nat}
  {L : StreamLaws S wf accepted room}.

Lemma emit_list_accepted bs chp n :
  wf chp → Forall (λ b, 0 <= b < 256) bs → 0 <= n → n + Z.of_nat (length bs) <= INT32_MAX →
  ∃ chp', emit_list bs chp n = Ok (chp', n + Z.of_nat (length bs)) ∧ wf chp'
    ∧ accepted chp' = accepted chp ++ take_room (room chp) bs.
Proof using L.
  intros Hwf Hbs. revert chp n Hwf. induction Hbs as [|b bs Hb Hbs IH]; intros chp n Hwf Hn Hmax.
  { exists chp. cbn. split_and!; [do 2 f_equal; lia|done|].
    destruct (room chp) as [[]|]; cbn; by rewrite app_nil_r. }
  cbn [length emit_list] in *. unfold emit.
  assert (chk_s32 (n + 1) = Ok (n + 1)) as Hchk
    by (apply chk_s32_ok; unfold INT32_MIN, INT32_MAX in *; lia).
  destruct (decide (room chp = Some O)) as [Hr|Hr].
  - destruct (put_full chp b Hwf Hr) as (m & -> & _). cbn [mbind res_bind]. rewrite Hchk.
    cbn [mbind res_bind]. destruct (IH chp (n + 1) Hwf) as (chp' & -> & Hwf' & Ha); [lia|lia|].
    exists chp'. split_and!; [do 2 f_equal; lia|done|]. rewrite Ha, Hr. done.
  - destruct (put_room chp b Hwf Hb Hr) as (chp1 & -> & Hwf1 & Ha1 & Hr1). cbn [mbind res_bind].
    rewrite Hchk. cbn [mbind res_bind].
    destruct (IH chp1 (n + 1) Hwf1) as (chp' & -> & Hwf' & Ha); [lia|lia|].
    exists chp'. split_and!; [do 2 f_equal; lia|done|]. rewrite Ha, Ha1, Hr1, <-app_assoc.
    destruct (room chp) as [[|k]|]; [done|done|done].
Qed.

(** C36 (functional). For any format made of literals and directives, with
    arguments in range, [chvprintf] prints exactly the specified text on any
    lawful stream, as far as it has room, and returns the length of the
    whole text. *)
Theorem chvprintf_correct (its : list item) (chp : S) :
  wf chp → Forall item_ok its → Z.of_nat (length (items_out its)) <= INT32_MAX →
  ∃ chp', chvprintf chp (items_fmt its ++ [0]) (items_args its)
          = Ok (chp', Z.of_nat (length (items_out its)))
    ∧ accepted chp' = accepted chp ++ take_room (room chp) (items_out its).
Proof using L.
  intros Hwf Hok Hlen. rewrite chvprintf_items by done.
  destruct (emit_list_accepted (items_out its) chp 0) as (chp' & -> & _ & Ha);
    [done|by apply items_out_bytes|lia|lia|]. by exists chp'.
Qed.
End laws.

(** [chsnprintf] never writes past [size] bytes: it stores as much
    of the text as fits before the terminator, leaves the rest of the buffer
    as it was, and returns the length of the whole text. *)
Theorem chsnprintf_correct (str : buf) (size : Z) (its : list item) :
  0 <= size <= Z.of_nat (length str) → size < 4294967296 →
  Forall item_ok its → Z.of_nat (length (items_out its)) <= INT32_MAX →
  let kept := take (Z.to_nat (size - 1)) (items_out its) in
  chsnprintf str size (items_fmt its ++ [0]) (items_args its)
  = Ok (if size =? 0 then str else kept ++ 0 :: drop (S (length kept)) str,
        Z.of_nat (length (items_out its))).
Proof.
  intros Hsz Hmax Hok Hlen kept. unfold chsnprintf, chprintf.
  set (sz := if 0 <? size then size - 1 else 0).
  set (ms0 := MemStream.msObjectInit str sz 0).
  assert (MemStream.wf_frame str sz ms0) as Hwf.
  { split_and!; [|done|done]. constructor; cbn; unfold sz; zcases; lia. }
  rewrite chvprintf_items by done.
  destruct (emit_list_accepted (L := MemStream.mem_stream_frame_laws str sz)
    (items_out its) ms0 0 Hwf) as (ms & -> & Hwf' & Ha);
    [by apply items_out_bytes|lia|lia|].
  cbn [mbind res_bind]. rewrite Z.add_0_l.
  assert (MemStream.contents ms = kept) as Hc.
  { rewrite Ha. unfold take_room, kept. change (MemStream.contents ms0) with (@nil Z).
    cbn [app]. f_equal. unfold MemStream.room, ms0. cbn [MemStream.size MemStream.eos MemStream.msObjectInit].
    unfold sz. zcases; lia. }
  pose proof (MemStream.contents_length ms (proj1 Hwf')) as He. rewrite Hc in He.
  rewrite (MemStream.wf_frame_buffer _ _ _ Hwf'), Hc. rewrite <-He.
  assert (0 <= MemStream.eos ms) as He0 by (destruct Hwf' as [[] _]; lia).
  assert (Z.of_nat (length kept) <= sz) as Hk
    by (unfold kept; rewrite length_take; unfold sz; zcases; lia).
  destruct (Z.eqb_spec size 0) as [->|Hne].
  - rewrite (proj2 (Z.ltb_ge _ _)) by lia.
    assert (length kept = 0%nat) as Hk0 by (revert Hk; unfold sz; zcases; lia).
    by rewrite (nil_length_inv kept Hk0), drop_0.
  - rewrite (proj2 (Z.ltb_lt _ _)) by (unfold sz in Hk; revert Hk; zcases; lia).
    destruct (drop_nonempty str (length kept)) as (x & _ & ->);
      [unfold sz in Hk; revert Hk; zcases; lia|].
    by rewrite bwr_mid.
Qed.

(** ** Witnesses *)

Definition demo_items : list item :=
  [Lit 84; Dir false true 6 (CDec 105 (-42)); Dir true false 5 (CUns 88 255);
   Dir false false 0 (CStr 3 [97; 98; 99; 100])].

Lemma demo_items_ok : Forall item_ok demo_items.
Proof. unfold demo_items. forall_list; cbn; forall_list; unfold INT32_MIN, INT32_MAX; lia. Qed.

Lemma chvprintf_correct_witness :
  ∃ chp', chvprintf (MemStream.msObjectInit (replicate 64 0) 64 0)
            (items_fmt demo_items ++ [0]) (items_args demo_items) = Ok (chp', 15)
    ∧ MemStream.contents chp' = bytes_of "T-00042FF   abc".
Proof.
  destruct (chvprintf_correct (L := MemStream.mem_stream_laws) demo_items
    (MemStream.msObjectInit (replicate 64 0) 64 0)) as (chp' & H1 & H2).
  - constructor; simpl; lia.
  - apply demo_items_ok.
  - vm_compute. discriminate.
  - exists chp'. split; [exact H1|exact H2].
Defined.

Lemma chsnprintf_correct_witness :
  chsnprintf (replicate 8 46) 6 (items_fmt demo_items ++ [0]) (items_args demo_items)
  = Ok (bytes_of "T-000" ++ [0; 46; 46], 15).
Proof.
  rewrite (chsnprintf_correct (replicate 8 46) 6 demo_items).
  - reflexivity.
  - simpl. lia.
  - lia.
  - apply demo_items_ok.
  - vm_compute. discriminate.
Defined.

End Printf.
