(* ===== verification/SysTime.v ===== *)
(** * System time (chvt.h)

    [systime_t] is a 32-bit tick counter at 10 kHz (chconf.h); the conversion
    macros compute in 32-bit unsigned arithmetic and wrap. *)

From S2P Require Import Prelude.

Module SysTime.

Definition CH_CFG_ST_FREQUENCY : Z := 10000.
Definition TIME_IMMEDIATE : Z := 0.
Definition TIME_INFINITE : Z := 4294967295.

Definition S2ST (sec : Z) : Z := u32 (u32 sec * CH_CFG_ST_FREQUENCY).
Definition MS2ST (msec : Z) : Z := u32 (u32 msec * CH_CFG_ST_FREQUENCY + 999) / 1000.
Definition US2ST (usec : Z) : Z := u32 (u32 usec * CH_CFG_ST_FREQUENCY + 999999) / 1000000.
Definition ST2S (n : Z) : Z := u32 (n + CH_CFG_ST_FREQUENCY - 1) / CH_CFG_ST_FREQUENCY.
Definition ST2MS (n : Z) : Z := u32 (n * 1000 + CH_CFG_ST_FREQUENCY - 1) / CH_CFG_ST_FREQUENCY.
Definition ST2US (n : Z) : Z := u32 (n * 1000000 + CH_CFG_ST_FREQUENCY - 1) / CH_CFG_ST_FREQUENCY.

(** [chVTTimeElapsedSinceX], given the current time. *)
Definition chVTTimeElapsedSinceX (now start : Z) : Z := u32 (now - start).

Definition chVTIsTimeWithinX (time start end_ : Z) : bool :=
  u32 (time - start) <? u32 (end_ - start).

(** ** Properties *)

(** [ST2MS] rounds the ticks up to milliseconds only while the
    intermediate product fits 32 bits; from tick 4294958, seven minutes and ten
    seconds after the start, it wraps, and no tick count ever converts to more
    than 429496 ms. *)
Theorem ST2MS_wraps (n : Z) :
  0 <= n < 2 ^ 32 →
  (n <= 4294957 → ST2MS n = (n + 9) / 10)
  ∧ ST2MS n <= 429496
  ∧ ST2MS 4294957 = 429496 ∧ ST2MS 4294958 = 0.
Proof.
  intros Hn. unfold ST2MS, CH_CFG_ST_FREQUENCY. split_and!; [| |done|done].
  - intros Hs. rewrite u32_id by lia. cint.
  - cint.
Qed.

(** A number of milliseconds below 429497 converts to ticks
    without wrapping and back to itself. *)
Theorem MS2ST_ST2MS (msec : Z) :
  0 <= msec <= 429496 → MS2ST msec = 10 * msec ∧ (msec <= 429495 → ST2MS (MS2ST msec) = msec).
Proof.
  intros Hm. unfold ST2MS, MS2ST, CH_CFG_ST_FREQUENCY. rewrite (u32_id msec) by lia.
  assert (u32 (msec * 10000 + 999) / 1000 = 10 * msec) as -> by cint.
  split; [done|]. intros H. cint.
Qed.

(** The window test is correct across the wrap of the
    counter: [time] is in the window from [start] when the ticks elapsed since
    [start] are fewer than the window's length. *)
Theorem chVTIsTimeWithinX_spec (start len d : Z) :
  0 <= start < 2 ^ 32 → 0 <= d < 2 ^ 32 → 0 <= len < 2 ^ 32 →
  chVTIsTimeWithinX (u32 (start + d)) start (u32 (start + len)) = true ↔ d < len.
Proof.
  intros Hs Hd Hl. unfold chVTIsTimeWithinX.
  rewrite !u32_sub_l, !(Z.add_comm start), !Z.add_simpl_r, !u32_id by lia.
  by rewrite Z.ltb_lt.
Qed.

(** ** Witnesses *)

Lemma ST2MS_wraps_witness : ST2MS 1234 = 124.
Proof. by rewrite (proj1 (ST2MS_wraps 1234 ltac:(lia)) ltac:(lia)). Defined.

Lemma MS2ST_ST2MS_witness : MS2ST 100 = 1000 ∧ ST2MS 1000 = 100.
Proof. destruct (MS2ST_ST2MS 100) as [H1 H2]; [lia|]. split; [exact H1|]. apply H2. lia. Defined.

Lemma chVTIsTimeWithinX_spec_witness : chVTIsTimeWithinX (u32 (4294967290 + 10)) 4294967290 (u32 (4294967290 + 20)) = true.
Proof. apply (chVTIsTimeWithinX_spec 4294967290 20 10); lia. Defined.

End SysTime.
