(* ===== verification/Fw.v ===== *)
(** * The firmware monad: state, errors and C statements

    A C function that touches the world [W] (globals, devices, time) is a value
    of [fw W A]: it takes the world and returns the result with the new world,
    or the run-time error the C abstract machine leaves undefined. *)

From S2P Require Import Prelude.

Definition fw (W A : Type) : Type := W → res (A * W).

#[global] Instance fw_ret W : MRet (fw W) := λ A a w, Ok (a, w).
#[global] Instance fw_bind W : MBind (fw W) :=
  λ A B f m w, match m w with Ok (a, w') => f a w' | Err e => Err e end.
#[global] Instance fw_fmap W : FMap (fw W) :=
  λ A B f m w, match m w with Ok (a, w') => Ok (f a, w') | Err e => Err e end.

Definition ret {W A} (a : A) : fw W A := λ w, Ok (a, w).
Definition throw {W A} (e : cerr) : fw W A := λ _, Err e.
Definition gets {W A} (f : W → A) : fw W A := λ w, Ok (f w, w).
Definition modify {W} (f : W → W) : fw W unit := λ w, Ok (tt, f w).
(** A pure computation that may fail. *)
Definition lift {W A} (r : res A) : fw W A :=
  λ w, match r with Ok a => Ok (a, w) | Err e => Err e end.

Definition when {W} (b : bool) (m : fw W unit) : fw W unit := if b then m else ret tt.

(** [for (i = 0; i < n; i++) body(i)] *)
Fixpoint for_upto {W} (n : nat) (i : nat) (body : nat → fw W unit) : fw W unit :=
  match n with
  | O => ret tt
  | S n => body i;; for_upto n (S i) body
  end.

(** [while (cond) body], where [body] answers whether to break. *)
Fixpoint while_fuel {W} (fuel : nat) (cond : fw W bool) (body : fw W unit) : fw W unit :=
  match fuel with
  | O => throw OutOfFuel
  | S fuel => c ← cond; if (c : bool) then body;; while_fuel fuel cond body else ret tt
  end.

Lemma fw_bind_eq {W A B} (m : fw W A) (f : A → fw W B) w :
  (m ≫= f) w = match m w with Ok (a, w') => f a w' | Err e => Err e end.
Proof. done. Qed.

Lemma fw_bind_Ok {W A B} (m : fw W A) (f : A → fw W B) w b w' :
  (m ≫= f) w = Ok (b, w') ↔ ∃ a w1, m w = Ok (a, w1) ∧ f a w1 = Ok (b, w').
Proof.
  rewrite fw_bind_eq. destruct (m w) as [[a w1]|e]; split; try done.
  - intros H. by exists a, w1.
  - by intros (? & ? & [= <- <-] & H).
  - by intros (? & ? & ? & _).
Qed.

Lemma fw_bind_ok {W A B} (m : fw W A) (f : A → fw W B) w a w1 :
  m w = Ok (a, w1) → (m ≫= f) w = f a w1.
Proof. rewrite fw_bind_eq. by intros ->. Qed.

Lemma fw_bind_err {W A B} (m : fw W A) (f : A → fw W B) w e :
  m w = Err e → (m ≫= f) w = Err e.
Proof. rewrite fw_bind_eq. by intros ->. Qed.

Lemma for_upto_app {W} n m i (body : nat → fw W unit) w :
  for_upto (n + m) i body w = (for_upto n i body;; for_upto m (i + n) body) w.
Proof.
  revert i w. induction n as [|n IH]; intros i w; [by rewrite Nat.add_0_r|].
  cbn [Nat.add for_upto]. rewrite !fw_bind_eq. destruct (body i w) as [[[] w1]|e]; [|done].
  rewrite IH, Nat.add_succ_comm. done.
Qed.

Lemma for_upto_ret {W} n i (w : W) : for_upto n i (λ _, ret tt) w = Ok (tt, w).
Proof. revert i. induction n as [|n IH]; intros i; [done|]. apply IH. Qed.

(** Inverts a successful run of a sequence of statements. *)
Ltac inv_fw :=
  repeat match goal with
  | H : (_ ≫= _) _ = Ok (_, _) |- _ => apply fw_bind_Ok in H as (? & ? & ? & ?)
  | H : ret _ _ = Ok _ |- _ => unfold ret in H
  | H : gets _ _ = Ok _ |- _ => unfold gets in H
  | H : modify _ _ = Ok _ |- _ => unfold modify in H
  | H : lift ?r _ = Ok _ |- _ => unfold lift in H; destruct r eqn:?
  | H : Ok _ = Ok _ |- _ => injection H as H; subst
  | H : (_, _) = (_, _) |- _ => injection H as H; subst
  end; simplify_eq.

(** Runs the next statement of a sequence in the goal, by the equation given. *)
Tactic Notation "step" "by" uconstr(H) := erewrite fw_bind_ok by (eapply H).
Ltac fw_pure := repeat (erewrite fw_bind_ok by reflexivity); cbv beta.
