(* ===== verification/CanFrame.v ===== *)
(** * CAN frames and their register encoding (can_lld.h, can_lld.c)

    [CANTxFrame] and [CANRxFrame] with their bit fields and the union of the
    two identifier views and the four data views; the encoding of a frame into
    a transmission mailbox and the decoding of a receive FIFO mailbox. *)

From S2P Require Import Prelude.

Module CanFrame.

Definition CAN_IDE_STD : Z := 0.
Definition CAN_IDE_EXT : Z := 1.
Definition CAN_RTR_DATA : Z := 0.
Definition CAN_RTR_REMOTE : Z := 1.

(** The union of [SID:11] and [EID:29] is one 32-bit word; the union of
    [data8], [data16] and [data32] is eight bytes, little-endian. *)
Record CANTxFrame := mk_tx {
  tx_DLC : Z;
  tx_RTR : Z;
  tx_IDE : Z;
  tx_id : Z;
  tx_data8 : list Z
}.

Record CANRxFrame := mk_rx {
  rx_FMI : Z;
  rx_TIME : Z;
  rx_DLC : Z;
  rx_RTR : Z;
  rx_IDE : Z;
  rx_id : Z;
  rx_data8 : list Z
}.

#[global] Instance CANTxFrame_eq_dec : EqDecision CANTxFrame.
Proof. solve_decision. Defined.
#[global] Instance CANRxFrame_eq_dec : EqDecision CANRxFrame.
Proof. solve_decision. Defined.

(** ** Bit fields and unions *)

Definition SID_MASK : Z := 0x7FF.
Definition EID_MASK : Z := 0x1FFFFFFF.

Definition get_SID (id : Z) : Z := Z.land id SID_MASK.
Definition get_EID (id : Z) : Z := Z.land id EID_MASK.
Definition set_SID (id v : Z) : Z := Z.lor (Z.ldiff id SID_MASK) (Z.land v SID_MASK).
Definition set_EID (id v : Z) : Z := Z.lor (Z.ldiff id EID_MASK) (Z.land v EID_MASK).

(** Overwrites the bytes from [off] on. *)
Definition put_bytes (d : list Z) (off : nat) (bs : list Z) : list Z :=
  take off d ++ bs ++ drop (off + length bs) d.

Definition get_word (n i : nat) (d : list Z) : Z := le_combine (take n (drop (n * i) d)).
Definition set_word (n i : nat) (d : list Z) (v : Z) : list Z := put_bytes d (n * i) (le_split n v).

Definition data16 (d : list Z) (i : nat) : Z := get_word 2 i d.
Definition set_data16 (d : list Z) (i : nat) (v : Z) : list Z := set_word 2 i d v.
Definition data32 (d : list Z) (i : nat) : Z := get_word 4 i d.
Definition set_data32 (d : list Z) (i : nat) (v : Z) : list Z := set_word 4 i d v.

(** ** Mailbox registers *)

Record CAN_TxMailBox := { TIR : Z; TDTR : Z; TDLR : Z; TDHR : Z }.
Record CAN_FIFOMailBox := { RIR : Z; RDTR : Z; RDLR : Z; RDHR : Z }.

Definition CAN_TI0R_TXRQ : Z := 1.
Definition CAN_TI0R_IDE : Z := 4.
Definition CAN_RI0R_RTR : Z := 2.
Definition CAN_RI0R_IDE : Z := 4.
Definition CAN_RDT0R_DLC : Z := 0xF.

(** What [can_lld_transmit] writes into the mailbox. *)
Definition tx_encode (ctfp : CANTxFrame) : CAN_TxMailBox :=
  let tir :=
    if negb (tx_IDE ctfp =? 0)
    then Z.lor (Z.lor (u32 (Z.shiftl (get_EID (tx_id ctfp)) 3)) (Z.shiftl (tx_RTR ctfp) 1))
               CAN_TI0R_IDE
    else Z.lor (u32 (Z.shiftl (get_SID (tx_id ctfp)) 21)) (Z.shiftl (tx_RTR ctfp) 1) in
  {| TDTR := tx_DLC ctfp;
     TDLR := data32 (tx_data8 ctfp) 0;
     TDHR := data32 (tx_data8 ctfp) 1;
     TIR := Z.lor tir CAN_TI0R_TXRQ |}.

(** What [can_lld_receive] writes into the frame [crfp]. *)
Definition rx_decode (m : CAN_FIFOMailBox) (crfp : CANRxFrame) : CANRxFrame :=
  let data := set_data32 (set_data32 (rx_data8 crfp) 0 (RDLR m)) 1 (RDHR m) in
  let ide := Z.shiftr (Z.land (RIR m) CAN_RI0R_IDE) 2 in
  {| rx_data8 := data;
     rx_RTR := Z.shiftr (Z.land (RIR m) CAN_RI0R_RTR) 1;
     rx_IDE := ide;
     rx_id := if negb (ide =? 0) then set_EID (rx_id crfp) (Z.shiftr (RIR m) 3)
              else set_SID (rx_id crfp) (Z.shiftr (RIR m) 21);
     rx_DLC := Z.land (RDTR m) CAN_RDT0R_DLC;
     rx_FMI := u8 (Z.shiftr (RDTR m) 8);
     rx_TIME := u16 (Z.shiftr (RDTR m) 16) |}.

(** ** Well-formed frames: what the bit fields and the array can hold *)

Definition byte (b : Z) : Prop := 0 <= b < 256.

Record tx_wf (f : CANTxFrame) : Prop := {
  twf_DLC : 0 <= tx_DLC f < 16;
  twf_RTR : 0 <= tx_RTR f < 2;
  twf_IDE : 0 <= tx_IDE f < 2;
  twf_id : 0 <= tx_id f < 2 ^ 32;
  twf_len : length (tx_data8 f) = 8%nat;
  twf_data : Forall byte (tx_data8 f)
}.

Record rx_wf (f : CANRxFrame) : Prop := {
  rwf_FMI : 0 <= rx_FMI f < 256;
  rwf_TIME : 0 <= rx_TIME f < 65536;
  rwf_DLC : 0 <= rx_DLC f < 16;
  rwf_RTR : 0 <= rx_RTR f < 2;
  rwf_IDE : 0 <= rx_IDE f < 2;
  rwf_id : 0 <= rx_id f < 2 ^ 32;
  rwf_len : length (rx_data8 f) = 8%nat;
  rwf_data : Forall byte (rx_data8 f)
}.

Record fifo_wf (m : CAN_FIFOMailBox) : Prop := {
  fwf_RIR : 0 <= RIR m < 2 ^ 32;
  fwf_RDTR : 0 <= RDTR m < 2 ^ 32;
  fwf_RDLR : 0 <= RDLR m < 2 ^ 32;
  fwf_RDHR : 0 <= RDHR m < 2 ^ 32
}.

(** The identifier of a frame under the view its [IDE] bit selects. *)
Definition ident (ide id : Z) : Z := if ide =? CAN_IDE_EXT then get_EID id else get_SID id.

(** ** Lemmas *)

Lemma get_EID_mod id : get_EID id = id mod 2 ^ 29.
Proof. unfold get_EID, EID_MASK. by rewrite <-(Z.land_ones id 29). Qed.
Lemma get_SID_mod id : get_SID id = id mod 2 ^ 11.
Proof. unfold get_SID, SID_MASK. by rewrite <-(Z.land_ones id 11). Qed.

Lemma set_field_get n id v :
  0 <= n → Z.land (Z.lor (Z.ldiff id (Z.ones n)) (Z.land v (Z.ones n))) (Z.ones n) = v mod 2 ^ n.
Proof.
  intros Hn. rewrite <-Z.land_ones by done. apply Z.bits_inj'. intros k Hk.
  rewrite !Z.land_spec, Z.lor_spec, Z.ldiff_spec, Z.land_spec.
  destruct (Z.testbit (Z.ones n) k); by rewrite ?andb_true_r, ?andb_false_r.
Qed.

Lemma get_set_EID id v : get_EID (set_EID id v) = v mod 2 ^ 29.
Proof. apply (set_field_get 29); lia. Qed.
Lemma get_set_SID id v : get_SID (set_SID id v) = v mod 2 ^ 11.
Proof. apply (set_field_get 11); lia. Qed.

Lemma land_mod_low a n m : 0 <= n → 0 <= m → Z.land a (Z.ones n) = a mod 2 ^ n.
Proof. intros. by apply Z.land_ones. Qed.

Lemma lor_range n a b : 0 <= n → 0 <= a < 2 ^ n → 0 <= b < 2 ^ n → 0 <= Z.lor a b < 2 ^ n.
Proof.
  intros Hn Ha Hb. assert (Z.lor a b = Z.lor a b mod 2 ^ n) as ->; [|apply Z.mod_pos_bound; lia].
  rewrite <-Z.land_ones, Z.land_lor_distr_l, !Z.land_ones, !Z.mod_small by lia. done.
Qed.

Lemma ldiff_range n a b : 0 <= n → 0 <= a < 2 ^ n → 0 <= Z.ldiff a b < 2 ^ n.
Proof.
  intros Hn Ha. assert (Z.ldiff a b = Z.ldiff a b mod 2 ^ n) as ->; [|apply Z.mod_pos_bound; lia].
  rewrite <-(Z.mod_small a (2 ^ n)) at 1 by done. rewrite <-!Z.land_ones by done.
  apply Z.bits_inj'. intros k Hk. rewrite Z.land_spec, !Z.ldiff_spec, Z.land_spec.
  destruct (Z.testbit a k), (Z.testbit b k), (Z.testbit (Z.ones n) k); done.
Qed.

(** Fields that do not overlap add up. *)
Lemma lor_add_low n a b : 0 <= n → 0 <= b < 2 ^ n → Z.lor (a * 2 ^ n) b = a * 2 ^ n + b.
Proof.
  intros Hn Hb. symmetry. rewrite <-Z.lxor_lor, Z.add_nocarry_lxor; try done;
  (apply Z.bits_inj'; intros k Hk; rewrite Z.land_spec, Z.bits_0;
   destruct (Z.lt_ge_cases k n);
   [by rewrite Z.mul_pow2_bits_low by lia
   |rewrite <-(Z.mod_small b (2 ^ n)), Z.mod_pow2_bits_high by lia; apply andb_false_r]).
Qed.

Lemma set_EID_range id v : 0 <= id < 2 ^ 32 → 0 <= set_EID id v < 2 ^ 32.
Proof.
  intros Hid. unfold set_EID. apply lor_range; [lia| |].
  - by apply ldiff_range.
  - pose proof (get_EID_mod v) as E. unfold get_EID in E. rewrite E.
    pose proof (Z.mod_pos_bound v (2 ^ 29) eq_refl). lia.
Qed.
Lemma set_SID_range id v : 0 <= id < 2 ^ 32 → 0 <= set_SID id v < 2 ^ 32.
Proof.
  intros Hid. unfold set_SID. apply lor_range; [lia| |].
  - by apply ldiff_range.
  - pose proof (get_SID_mod v) as E. unfold get_SID in E. rewrite E.
    pose proof (Z.mod_pos_bound v (2 ^ 11) eq_refl). lia.
Qed.

Lemma put_bytes_length d off bs :
  (off + length bs <= length d)%nat → length (put_bytes d off bs) = length d.
Proof. intros. unfold put_bytes. rewrite !length_app, length_take, length_drop. lia. Qed.

Lemma set_word_length n i d v : (n * i + n <= length d)%nat → length (set_word n i d v) = length d.
Proof. intros. apply put_bytes_length. by rewrite le_split_length. Qed.

Lemma set_word_bytes n i d v : Forall byte d → Forall byte (set_word n i d v).
Proof.
  intros Hd. unfold set_word, put_bytes. rewrite !Forall_app. split_and!.
  - by apply Forall_take.
  - apply le_split_range.
  - by apply Forall_drop.
Qed.

Lemma get_set_word n i d v :
  (n * i <= length d)%nat → get_word n i (set_word n i d v) = v mod 256 ^ Z.of_nat n.
Proof.
  intros Hi. unfold get_word, set_word, put_bytes.
  rewrite drop_app_length' by (rewrite length_take; lia).
  rewrite take_app_length' by (by rewrite le_split_length).
  apply le_combine_split.
Qed.

Lemma shiftr_land_bit a n : 0 <= n → Z.shiftr (Z.land a (2 ^ n)) n = a / 2 ^ n mod 2.
Proof.
  intros Hn. rewrite Z.shiftr_land, !Z.shiftr_div_pow2 by done.
  rewrite Z.div_same by (by apply Z.pow_nonzero).
  by rewrite (Z.land_ones _ 1).
Qed.

Lemma land_RTR a : Z.shiftr (Z.land a CAN_RI0R_RTR) 1 = a / 2 mod 2.
Proof. by apply (shiftr_land_bit a 1). Qed.
Lemma land_IDE a : Z.shiftr (Z.land a CAN_RI0R_IDE) 2 = a / 4 mod 2.
Proof. by apply (shiftr_land_bit a 2). Qed.

Lemma word_split4 l :
  length l = 8%nat → Forall byte l → le_split 4 (data32 l 0) ++ le_split 4 (data32 l 1) = l.
Proof.
  intros Hl Hb. do 9 (destruct l as [|? l]; try done).
  unfold data32, get_word. cbn [Nat.mul Nat.add drop take].
  repeat match goal with H : Forall _ (_ :: _) |- _ => apply Forall_cons_1 in H as [? H] end.
  unfold byte in *.
  assert (∀ a b c d, 0 <= a < 256 → 0 <= b < 256 → 0 <= c < 256 → 0 <= d < 256 →
    le_split 4 (le_combine [a; b; c; d]) = [a; b; c; d]) as R
    by (intros; apply (le_split_combine [_; _; _; _]); forall_list; lia).
  by rewrite !R by done.
Qed.

Lemma data32_range l i :
  length l = 8%nat → Forall byte l → (i < 2)%nat → 0 <= data32 l i < 2 ^ 32.
Proof.
  intros Hl Hb Hi. unfold data32, get_word.
  assert (Hx : Forall byte (take 4 (drop (4 * i) l))) by (by apply Forall_take, Forall_drop).
  apply le_combine_range in Hx. rewrite length_take, length_drop, Hl in Hx.
  replace (4 `min` (8 - 4 * i))%nat with 4%nat in Hx by lia. done.
Qed.

(** Both words written over an eight byte array leave nothing of it. *)
Lemma set_data32_both l w0 w1 :
  length l = 8%nat → set_data32 (set_data32 l 0 w0) 1 w1 = le_split 4 w0 ++ le_split 4 w1.
Proof. intros Hl. by do 9 (destruct l as [|? l]; try done). Qed.

Lemma set_data16_all l a b c d :
  length l = 8%nat →
  set_data16 (set_data16 (set_data16 (set_data16 l 0 a) 1 b) 2 c) 3 d
  = le_split 2 a ++ le_split 2 b ++ le_split 2 c ++ le_split 2 d.
Proof. intros Hl. by do 9 (destruct l as [|? l]; try done). Qed.

Lemma ldiff_1 a : Z.ldiff a 1 = a / 2 * 2.
Proof. change 1 with (Z.ones 1) at 1. by rewrite Z.ldiff_ones_r, Z.shiftr_div_pow2, Z.shiftl_mul_pow2 by lia. Qed.

(** The identifier register of an extended and of a standard frame. *)
Lemma TIR_ext f :
  tx_wf f → tx_IDE f = 1 → TIR (tx_encode f) = get_EID (tx_id f) * 8 + 5 + 2 * tx_RTR f.
Proof.
  intros [HD HR HI Hid Hl Hb] E. cbn [TIR tx_encode]. rewrite E. cbn [Z.eqb negb].
  assert (0 <= get_EID (tx_id f) < 2 ^ 29) by (rewrite get_EID_mod; by apply Z.mod_pos_bound).
  rewrite Z.shiftl_mul_pow2, u32_id, <-!Z.lor_assoc by lia.
  assert (tx_RTR f = 0 ∨ tx_RTR f = 1) as [-> | ->] by lia.
  - change (Z.lor _ (Z.lor CAN_TI0R_IDE CAN_TI0R_TXRQ)) with 5 at 1. rewrite lor_add_low by lia. lia.
  - change (Z.lor (Z.shiftl 1 1) _) with 7. rewrite lor_add_low by lia. lia.
Qed.

Lemma TIR_std f :
  tx_wf f → tx_IDE f = 0 → TIR (tx_encode f) = get_SID (tx_id f) * 2 ^ 21 + 1 + 2 * tx_RTR f.
Proof.
  intros [HD HR HI Hid Hl Hb] E. cbn [TIR tx_encode]. rewrite E. cbn [Z.eqb negb].
  assert (0 <= get_SID (tx_id f) < 2 ^ 11) by (rewrite get_SID_mod; by apply Z.mod_pos_bound).
  rewrite Z.shiftl_mul_pow2, u32_id, <-!Z.lor_assoc by lia.
  assert (tx_RTR f = 0 ∨ tx_RTR f = 1) as [-> | ->] by lia.
  - change (Z.lor (Z.shiftl 0 1) CAN_TI0R_TXRQ) with 1. rewrite lor_add_low by lia. lia.
  - change (Z.lor (Z.shiftl 1 1) CAN_TI0R_TXRQ) with 3. rewrite lor_add_low by lia. lia.
Qed.

(** A decoded frame is well-formed, and nothing but the unused bits of the
    identifier word depends on what the frame held before. *)
Lemma rx_decode_wf m r : fifo_wf m → rx_wf r → rx_wf (rx_decode m r).
Proof.
  intros [H1 H2 H3 H4] Hr. unfold rx_decode.
  constructor; cbn [rx_FMI rx_TIME rx_DLC rx_RTR rx_IDE rx_id rx_data8].
  - apply u8_range.
  - apply u16_range.
  - change CAN_RDT0R_DLC with (Z.ones 4). rewrite Z.land_ones by lia. by apply Z.mod_pos_bound.
  - rewrite land_RTR. by apply Z.mod_pos_bound.
  - rewrite land_IDE. by apply Z.mod_pos_bound.
  - destruct (negb _); [apply set_EID_range|apply set_SID_range]; apply Hr.
  - rewrite set_data32_both by apply Hr. by rewrite length_app, !le_split_length.
  - rewrite set_data32_both by apply Hr. apply Forall_app. split; apply le_split_range.
Qed.

Lemma rx_decode_indep m r r' :
  rx_wf r → rx_wf r' →
  rx_DLC (rx_decode m r) = rx_DLC (rx_decode m r')
  ∧ rx_IDE (rx_decode m r) = rx_IDE (rx_decode m r')
  ∧ rx_data8 (rx_decode m r) = rx_data8 (rx_decode m r')
  ∧ ident (rx_IDE (rx_decode m r)) (rx_id (rx_decode m r))
    = ident (rx_IDE (rx_decode m r')) (rx_id (rx_decode m r')).
Proof.
  intros Hr Hr'. unfold rx_decode. cbn [rx_DLC rx_IDE rx_data8 rx_id].
  rewrite !set_data32_both by (apply Hr || apply Hr'). split_and!; try done.
  rewrite land_IDE. unfold ident, CAN_IDE_EXT.
  pose proof (Z.mod_pos_bound (RIR m / 4) 2 eq_refl).
  assert (RIR m / 4 mod 2 = 0 ∨ RIR m / 4 mod 2 = 1) as [-> | ->] by lia; cbn [Z.eqb negb Pos.eqb];
    by rewrite ?get_set_EID, ?get_set_SID.
Qed.

(** What the bus carries from a transmission mailbox to a receive mailbox: the
    two have the same layout but for the request bit, and the control register
    of the receiver holds the filter match index and the time stamp above the
    data length code. All eight data bytes are carried: what a data frame of length
    eight does, the only kind this program sends. *)
Definition carries (tm : CAN_TxMailBox) (rm : CAN_FIFOMailBox) : Prop :=
  RIR rm = Z.ldiff (TIR tm) CAN_TI0R_TXRQ ∧ RDTR rm mod 16 = TDTR tm mod 16
  ∧ RDLR rm = TDLR tm ∧ RDHR rm = TDHR tm.

(** ** Properties *)

(** C37 (roundtrip). A frame encoded into a transmission mailbox, carried by the
    bus and decoded from the receive mailbox has the length code, the frame
    type, the identifier type, the identifier and the eight data bytes of the
    frame sent, whatever the receiver's frame held before. *)
Theorem tx_rx_roundtrip (f : CANTxFrame) (r : CANRxFrame) (m : CAN_FIFOMailBox) :
  tx_wf f → rx_wf r → carries (tx_encode f) m →
  let r' := rx_decode m r in
  rx_DLC r' = tx_DLC f ∧ rx_RTR r' = tx_RTR f ∧ rx_IDE r' = tx_IDE f
  ∧ ident (rx_IDE r') (rx_id r') = ident (tx_IDE f) (tx_id f)
  ∧ rx_data8 r' = tx_data8 f.
Proof.
  intros Hf Hr (Hi & Hdt & Hlo & Hhi) r'. subst r'. unfold CAN_TI0R_TXRQ in Hi. rewrite ldiff_1 in Hi.
  assert (Hdlc : rx_DLC (rx_decode m r) = tx_DLC f).
  { cbn [rx_decode rx_DLC]. change CAN_RDT0R_DLC with (Z.ones 4).
    rewrite Z.land_ones by lia. change (2 ^ 4) with 16. rewrite Hdt. cbn.
    apply Z.mod_small, Hf. }
  assert (Hdata : rx_data8 (rx_decode m r) = tx_data8 f).
  { cbn [rx_decode rx_data8]. rewrite set_data32_both by apply Hr. rewrite Hlo, Hhi.
    apply word_split4; apply Hf. }
  assert (Hrtr : RIR m mod 4 = 2 * tx_RTR f → rx_RTR (rx_decode m r) = tx_RTR f).
  { intros E. cbn [rx_decode rx_RTR]. rewrite land_RTR.
    pose proof (twf_RTR f Hf). cint. }
  pose proof (twf_RTR f Hf). pose proof (twf_IDE f Hf).
  assert (Hide : ∀ b, RIR m / 4 mod 2 = b → rx_IDE (rx_decode m r) = b)
    by (intros b <-; cbn [rx_decode rx_IDE]; apply land_IDE).
  assert (tx_IDE f = 0 ∨ tx_IDE f = 1) as [E|E] by lia; rewrite E.
  - rewrite (TIR_std f Hf E) in Hi. set (s := get_SID (tx_id f)) in *.
    assert (0 <= s < 2 ^ 11) by (unfold s; rewrite get_SID_mod; by apply Z.mod_pos_bound).
    assert (RIR m = s * 2097152 + 2 * tx_RTR f) as Hrir by cint. clear Hi.
    rewrite (Hide 0) by cint. split_and!; [done|apply Hrtr; cint|done| |done].
    cbn [ident Z.eqb CAN_IDE_EXT]. fold s. cbn [rx_decode rx_id]. rewrite land_IDE.
    replace (RIR m / 4 mod 2) with 0 by cint. cbn [Z.eqb negb].
    rewrite get_set_SID, Z.shiftr_div_pow2 by lia. cint.
  - rewrite (TIR_ext f Hf E) in Hi. set (s := get_EID (tx_id f)) in *.
    assert (0 <= s < 2 ^ 29) by (unfold s; rewrite get_EID_mod; by apply Z.mod_pos_bound).
    assert (RIR m = s * 8 + 4 + 2 * tx_RTR f) as Hrir by cint. clear Hi.
    rewrite (Hide 1) by cint. split_and!; [done|apply Hrtr; cint|done| |done].
    cbn [ident Z.eqb CAN_IDE_EXT]. fold s. cbn [rx_decode rx_id]. rewrite land_IDE.
    replace (RIR m / 4 mod 2) with 1 by cint. cbn [Z.eqb negb].
    rewrite get_set_EID, Z.shiftr_div_pow2 by lia.
    replace (RIR m / 2 ^ 3) with s by cint. by apply Z.mod_small.
Qed.

(** ** Witnesses *)

Lemma tx_rx_roundtrip_witness :
  let f := mk_tx 8 0 1 0xE4614 [1; 2; 3; 4; 250; 251; 252; 253] in
  let r := mk_rx 0 0 0 1 0 0xFFFFFFFF [0; 0; 0; 0; 0; 0; 0; 0] in
  let m := {| RIR := 0xE4614 * 8 + 4; RDTR := 0xABCD0708;
              RDLR := 0x04030201; RDHR := 0xFDFCFBFA |} in
  ident (rx_IDE (rx_decode m r)) (rx_id (rx_decode m r)) = 0xE4614.
Proof.
  cbv zeta.
  refine (eq_trans (proj1 (proj2 (proj2 (proj2 (tx_rx_roundtrip
    (mk_tx 8 0 1 0xE4614 [1; 2; 3; 4; 250; 251; 252; 253]) _ _ _ _ _))))) _).
  - constructor; cbn; try lia. forall_list; unfold byte; lia.
  - constructor; cbn; try lia. forall_list; unfold byte; lia.
  - repeat split.
  - reflexivity.
Defined.

End CanFrame.
