(* ===== verification/CanDriver.v ===== *)
(** * The CAN driver (can.c, can_lld.c)

    The driver runs over two interfaces: the bxCAN registers ([CanHw]) and the
    OS abstraction layer ([Osal]). Both are parameters: the peripheral is
    hardware, and the world a blocking call returns to is whatever the other
    threads and the interrupts made of it. *)

From stdpp Require Import relations.
From S2P Require Import Prelude Fw Streams SysTime CanFrame.
Import SysTime CanFrame.

Module CanDriver.

(** ** Registers *)

Inductive creg :=
  | MCR | MSR | TSR | RFR (fifo : nat) | IER | ESR | BTR
  | FMR | FM1R | FS1R | FFA1R | FA1R | FR1 (bank : Z) | FR2 (bank : Z)
  | rTIR (mb : Z) | rTDTR (mb : Z) | rTDLR (mb : Z) | rTDHR (mb : Z)
  | rRIR (fifo : nat) | rRDTR (fifo : nat) | rRDLR (fifo : nat) | rRDHR (fifo : nat).

#[global] Instance creg_eq_dec : EqDecision creg.
Proof. solve_decision. Defined.

Inductive hwcall :=
  | rccEnableCAN1 (lp : bool)
  | rccDisableCAN1 (lp : bool)
  | nvicEnableVector (n prio : Z)
  | nvicDisableVector (n : Z).

Definition CAN_MCR_INRQ : Z := 0x1.
Definition CAN_MCR_SLEEP : Z := 0x2.
Definition CAN_MSR_INAK : Z := 0x1.
Definition CAN_MSR_ERRI : Z := 0x4.
Definition CAN_MSR_WKUI : Z := 0x8.
Definition CAN_TSR_RQCP (mb : Z) : Z := Z.shiftl 0x1 (8 * mb).
Definition CAN_TSR_ALST (mb : Z) : Z := Z.shiftl 0x4 (8 * mb).
Definition CAN_TSR_TERR (mb : Z) : Z := Z.shiftl 0x8 (8 * mb).
Definition CAN_TSR_CODE : Z := 0x03000000.
Definition CAN_TSR_TME : Z := 0x1C000000.
Definition CAN_TSR_TME0 : Z := 0x04000000.
Definition CAN_TSR_TME1 : Z := 0x08000000.
Definition CAN_TSR_TME2 : Z := 0x10000000.
Definition CAN_RFR_FMP : Z := 0x3.
Definition CAN_RFR_FOVR : Z := 0x10.
Definition CAN_RFR_RFOM : Z := 0x20.
Definition CAN_IER_TMEIE : Z := 0x1.
Definition CAN_IER_FMPIE0 : Z := 0x2.
Definition CAN_IER_FOVIE0 : Z := 0x8.
Definition CAN_IER_FMPIE1 : Z := 0x10.
Definition CAN_IER_FOVIE1 : Z := 0x40.
Definition CAN_IER_EWGIE : Z := 0x100.
Definition CAN_IER_EPVIE : Z := 0x200.
Definition CAN_IER_BOFIE : Z := 0x400.
Definition CAN_IER_ERRIE : Z := 0x8000.
Definition CAN_IER_WKUIE : Z := 0x10000.
Definition CAN_FMR_FINIT : Z := 0x1.

Definition CAN_ANY_MAILBOX : Z := 0.
Definition CAN_OVERFLOW_ERROR : Z := 16.
Definition CAN_MAILBOX_TO_MASK (mbx : Z) : Z := Z.shiftl 1 (mbx - 1).
Definition STM32_CAN_MAX_FILTERS : Z := 14.
Definition STM32_CAN1_UNIFIED_NUMBER : Z := 30.
Definition STM32_CAN_CAN1_IRQ_PRIORITY : Z := 3.

(** ** Data *)

Inductive canstate_t := CAN_UNINIT | CAN_STOP | CAN_STARTING | CAN_READY | CAN_SLEEP.

#[global] Instance canstate_eq_dec : EqDecision canstate_t.
Proof. solve_decision. Defined.

Record CANConfig := { mcr : Z; btr : Z }.

#[global] Instance CANConfig_eq_dec : EqDecision CANConfig.
Proof. solve_decision. Defined.

Record CANFilter := {
  filter : Z; mode : Z; scale : Z; assignment : Z; register1 : Z; register2 : Z
}.

(** The scalar fields of [CANDriver]; its queues and event sources are named. *)
Record CANDriver := { state : canstate_t; config : option CANConfig }.

Inductive can_queue := txqueue | rxqueue.
Inductive can_event := rxfull_event | txempty_event | error_event | sleep_event | wakeup_event.

(** ** Interfaces *)

Class CanHw (W : Type) := {
  can_rd : W → creg → Z;
  can_wr : creg → Z → W → W;
  hw_call : hwcall → W → W
}.

Class Osal (W Q E : Type) := {
  osalThreadQueueObjectInit : Q → W → W;
  osalEventObjectInit : E → W → W;
  osalThreadEnqueueTimeoutS : Q → Z → W → Z * W;
  osalThreadDequeueAllI : Q → Z → W → W;
  osalEventBroadcastFlagsI : E → Z → W → W;
  osalThreadSleepS : Z → W → W;
  osalOsRescheduleS : W → W
}.

(** Where the driver's object is in the world. *)
Class CanObj (W : Type) := {
  CAND1 : W → CANDriver;
  set_CAND1 : CANDriver → W → W
}.

Section driver.
Context {W : Type} `{CanHw W} `{CanObj W} `{Osal W can_queue can_event}.

Definition rd (r : creg) : fw W Z := gets (λ w, can_rd w r).
Definition wr (r : creg) (v : Z) : fw W unit := modify (can_wr r v).
(** [r |= m] and [r &= ~m] *)
Definition set_bits (r : creg) (m : Z) : fw W unit := v ← rd r; wr r (Z.lor v m).
Definition clr_bits (r : creg) (m : Z) : fw W unit := v ← rd r; wr r (Z.ldiff v m).
Definition call (c : hwcall) : fw W unit := modify (hw_call c).
Definition set_state (s : canstate_t) : fw W unit :=
  modify (λ w, set_CAND1 {| state := s; config := config (CAND1 w) |} w).
Definition set_config (c : option CANConfig) : fw W unit :=
  modify (λ w, set_CAND1 {| state := state (CAND1 w); config := c |} w).
Definition broadcast (e : can_event) (flags : Z) : fw W unit :=
  modify (osalEventBroadcastFlagsI e flags).
Definition dequeue_all (q : can_queue) (msg : Z) : fw W unit :=
  modify (osalThreadDequeueAllI q msg).

(** ** Low level driver *)

Definition clear_filters : fw W unit :=
  wr FA1R 0;; wr FM1R 0;; wr FS1R 0;; wr FFA1R 0;;
  for_upto (Z.to_nat STM32_CAN_MAX_FILTERS) 0
    (λ i, wr (FR1 (Z.of_nat i)) 0;; wr (FR2 (Z.of_nat i)) 0).

(** The filter bank array of the peripheral has 28 entries. *)
Definition program_filter (cfp : CANFilter) : fw W unit :=
  let fmask := u32 (Z.shiftl 1 (filter cfp)) in
  if 28 <=? filter cfp then throw OutOfBounds else
  when (negb (mode cfp =? 0)) (set_bits FM1R fmask);;
  when (negb (scale cfp =? 0)) (set_bits FS1R fmask);;
  when (negb (assignment cfp =? 0)) (set_bits FFA1R fmask);;
  wr (FR1 (filter cfp)) (register1 cfp);;
  wr (FR2 (filter cfp)) (register2 cfp);;
  set_bits FA1R fmask.

Fixpoint program_filters (num : nat) (cfp : list CANFilter) : fw W unit :=
  match num, cfp with
  | O, _ => ret tt
  | S _, [] => throw OutOfBounds
  | S num, c :: cfp => program_filter c;; program_filters num cfp
  end.

Definition can_lld_set_filters (can2sb : Z) (num : Z) (cfp : list CANFilter) : fw W unit :=
  call (rccEnableCAN1 false);;
  fmr ← rd FMR;
  wr FMR (Z.lor (Z.land fmr 0xFFFF0000) CAN_FMR_FINIT);;
  set_bits FMR (u32 (Z.shiftl can2sb 8));;
  (if 0 <? num
   then clear_filters;; program_filters (Z.to_nat num) cfp
   else wr (FR1 0) 0;; wr (FR2 0) 0;; wr FM1R 0;; wr FFA1R 0;; wr FS1R 1;; wr FA1R 1);;
  clr_bits FMR CAN_FMR_FINIT;;
  call (rccDisableCAN1 false).

(** The event flags of one mailbox: [mb] counts from 0. *)
Definition tx_mailbox_flags (tsr mb : Z) : Z :=
  if negb (Z.land tsr (CAN_TSR_RQCP mb) =? 0)
  then if negb (Z.land tsr (Z.lor (CAN_TSR_ALST mb) (CAN_TSR_TERR mb)) =? 0)
       then Z.shiftl (CAN_MAILBOX_TO_MASK (mb + 1)) 16
       else CAN_MAILBOX_TO_MASK (mb + 1)
  else 0.

Definition can_lld_tx_handler : fw W unit :=
  tsr ← rd TSR;
  wr TSR tsr;;
  let flags := Z.lor (Z.lor (tx_mailbox_flags tsr 0) (tx_mailbox_flags tsr 1))
                     (tx_mailbox_flags tsr 2) in
  dequeue_all txqueue MSG_OK;;
  broadcast txempty_event flags.

(** [can_lld_rx0_handler] and [can_lld_rx1_handler]: the same text for the two
    FIFOs. *)
Definition FMPIE (fifo : nat) : Z := match fifo with O => CAN_IER_FMPIE0 | _ => CAN_IER_FMPIE1 end.

Definition can_lld_rx_handler (fifo : nat) : fw W unit :=
  rfr ← rd (RFR fifo);
  when (0 <? Z.land rfr CAN_RFR_FMP)
    (clr_bits IER (FMPIE fifo);;
     dequeue_all rxqueue MSG_OK;;
     broadcast rxfull_event (CAN_MAILBOX_TO_MASK (Z.of_nat fifo + 1)));;
  when (0 <? Z.land rfr CAN_RFR_FOVR)
    (wr (RFR fifo) CAN_RFR_FOVR;;
     broadcast error_event CAN_OVERFLOW_ERROR).

Definition can_lld_sce_handler : fw W unit :=
  msr ← rd MSR;
  wr MSR msr;;
  when (negb (Z.land msr CAN_MSR_WKUI =? 0))
    (set_state CAN_READY;;
     clr_bits MCR CAN_MCR_SLEEP;;
     broadcast wakeup_event 0);;
  when (negb (Z.land msr CAN_MSR_ERRI =? 0))
    (esr ← rd ESR;
     broadcast error_event (u32 (Z.shiftl esr 16))).

(** The unified interrupt handler of CAN1. *)
Definition STM32_CAN1_UNIFIED_HANDLER : fw W unit :=
  can_lld_tx_handler;; can_lld_rx_handler 0;; can_lld_rx_handler 1;; can_lld_sce_handler.

Definition canObjectInit : fw W unit :=
  set_state CAN_STOP;;
  set_config None;;
  modify (osalThreadQueueObjectInit txqueue);;
  modify (osalThreadQueueObjectInit rxqueue);;
  modify (osalEventObjectInit rxfull_event);;
  modify (osalEventObjectInit txempty_event);;
  modify (osalEventObjectInit error_event);;
  modify (osalEventObjectInit sleep_event);;
  modify (osalEventObjectInit wakeup_event).

Definition can_lld_init : fw W unit :=
  canObjectInit;;
  can_lld_set_filters STM32_CAN_MAX_FILTERS 0 [].

Definition canInit : fw W unit := can_lld_init.

Definition IER_enabled : Z :=
  foldr Z.lor 0 [CAN_IER_TMEIE; CAN_IER_FMPIE0; CAN_IER_FMPIE1; CAN_IER_WKUIE; CAN_IER_ERRIE;
                 CAN_IER_BOFIE; CAN_IER_EPVIE; CAN_IER_EWGIE; CAN_IER_FOVIE0; CAN_IER_FOVIE1].

(** [fuel] bounds the polls of the initialisation acknowledge. *)
Definition can_lld_start (fuel : nat) : fw W unit :=
  call (nvicEnableVector STM32_CAN1_UNIFIED_NUMBER STM32_CAN_CAN1_IRQ_PRIORITY);;
  call (rccEnableCAN1 false);;
  wr MCR CAN_MCR_INRQ;;
  while_fuel fuel
    (msr ← rd MSR; ret (Z.land msr CAN_MSR_INAK =? 0))
    (modify (osalThreadSleepS 1));;
  c ← gets (λ w, config (CAND1 w));
  match c with
  | None => throw NullPointer
  | Some c => wr BTR (btr c);; wr MCR (mcr c);; wr IER IER_enabled
  end.

Definition can_lld_stop : fw W unit :=
  s ← gets (λ w, state (CAND1 w));
  when (bool_decide (s = CAN_READY))
    (wr MCR 0x00010002;; wr IER 0;;
     call (nvicDisableVector STM32_CAN1_UNIFIED_NUMBER);;
     call (rccDisableCAN1 false)).

Definition can_lld_is_tx_empty (mailbox : Z) : fw W bool :=
  tsr ← rd TSR;
  ret (if mailbox =? CAN_ANY_MAILBOX then negb (Z.land tsr CAN_TSR_TME =? 0)
       else if mailbox =? 1 then negb (Z.land tsr CAN_TSR_TME0 =? 0)
       else if mailbox =? 2 then negb (Z.land tsr CAN_TSR_TME1 =? 0)
       else if mailbox =? 3 then negb (Z.land tsr CAN_TSR_TME2 =? 0)
       else false).

Definition transmit_in (mb : Z) (ctfp : CANTxFrame) : fw W unit :=
  if 3 <=? mb then throw OutOfBounds
  else
    let m := tx_encode ctfp in
    wr (rTDTR mb) (TDTR m);; wr (rTDLR mb) (TDLR m);;
    wr (rTDHR mb) (TDHR m);; wr (rTIR mb) (TIR m).

Definition can_lld_transmit (mailbox : Z) (ctfp : CANTxFrame) : fw W unit :=
  if mailbox =? CAN_ANY_MAILBOX
  then tsr ← rd TSR; transmit_in (Z.shiftr (Z.land tsr CAN_TSR_CODE) 24) ctfp
  else if mailbox =? 1 then transmit_in 0 ctfp
  else if mailbox =? 2 then transmit_in 1 ctfp
  else if mailbox =? 3 then transmit_in 2 ctfp
  else ret tt.

Definition pending (fifo : nat) : fw W bool :=
  r ← rd (RFR fifo); ret (negb (Z.land r CAN_RFR_FMP =? 0)).

Definition can_lld_is_rx_nonempty (mailbox : Z) : fw W bool :=
  if mailbox =? CAN_ANY_MAILBOX
  then b0 ← pending 0; if (b0 : bool) then ret true else pending 1
  else if mailbox =? 1 then pending 0
  else if mailbox =? 2 then pending 1
  else ret false.

Definition receive_from (fifo : nat) (crfp : CANRxFrame) : fw W CANRxFrame :=
  rir ← rd (rRIR fifo);
  rdtr ← rd (rRDTR fifo);
  rdlr ← rd (rRDLR fifo);
  rdhr ← rd (rRDHR fifo);
  wr (RFR fifo) CAN_RFR_RFOM;;
  b ← pending fifo;
  when (negb b) (set_bits IER (FMPIE fifo));;
  ret (rx_decode {| RIR := rir; RDTR := rdtr; RDLR := rdlr; RDHR := rdhr |} crfp).

Definition can_lld_receive (mailbox : Z) (crfp : CANRxFrame) : fw W CANRxFrame :=
  if mailbox =? CAN_ANY_MAILBOX
  then
    b0 ← pending 0;
    if (b0 : bool) then receive_from 0 crfp
    else b1 ← pending 1; if (b1 : bool) then receive_from 1 crfp else ret crfp
  else if mailbox =? 1 then receive_from 0 crfp
  else if mailbox =? 2 then receive_from 1 crfp
  else ret crfp.

Definition can_lld_sleep : fw W unit := set_bits MCR CAN_MCR_SLEEP.
Definition can_lld_wakeup : fw W unit := clr_bits MCR CAN_MCR_SLEEP.

Definition canSTM32SetFilters (can2sb num : Z) (cfp : list CANFilter) : fw W unit :=
  can_lld_set_filters can2sb num cfp.

(** ** High level driver *)

Definition canStart (fuel : nat) (c : option CANConfig) : fw W unit :=
  set_state CAN_STARTING;;
  set_config c;;
  can_lld_start fuel;;
  set_state CAN_READY.

Definition canStop : fw W unit :=
  can_lld_stop;;
  set_state CAN_STOP;;
  dequeue_all rxqueue MSG_RESET;;
  dequeue_all txqueue MSG_RESET;;
  modify osalOsRescheduleS.

(** [true] is failure. *)
Definition canTryTransmitI (mailbox : Z) (ctfp : CANTxFrame) : fw W bool :=
  e ← can_lld_is_tx_empty mailbox;
  if (e : bool) then can_lld_transmit mailbox ctfp;; ret false else ret true.

Definition canTryReceiveI (mailbox : Z) (crfp : CANRxFrame) : fw W (bool * CANRxFrame) :=
  e ← can_lld_is_rx_nonempty mailbox;
  if (e : bool) then crfp ← can_lld_receive mailbox crfp; ret (false, crfp)
  else ret (true, crfp).

Definition asleep : fw W bool := gets (λ w, bool_decide (state (CAND1 w) = CAN_SLEEP)).

(** Waits on a queue while the driver sleeps or [ready] is false; the answer is
    [MSG_OK] when the wait is over, or the message of the failed wait. [fuel]
    bounds the number of wake-ups. *)
Fixpoint wait_ready (fuel : nat) (q : can_queue) (timeout : Z) (ready : fw W bool) : fw W Z :=
  match fuel with
  | O => throw OutOfFuel
  | S fuel =>
    s ← asleep;
    e ← (if (s : bool) then ret false else ready);
    if (e : bool) then ret MSG_OK
    else
      msg ← (λ w, Ok (osalThreadEnqueueTimeoutS q timeout w));
      if msg =? MSG_OK then wait_ready fuel q timeout ready else ret msg
  end.

Definition canTransmit (fuel : nat) (mailbox : Z) (ctfp : CANTxFrame) (timeout : Z) : fw W Z :=
  msg ← wait_ready fuel txqueue timeout (can_lld_is_tx_empty mailbox);
  if msg =? MSG_OK then can_lld_transmit mailbox ctfp;; ret MSG_OK else ret msg.

Definition canReceive (fuel : nat) (mailbox : Z) (crfp : CANRxFrame) (timeout : Z) :
    fw W (Z * CANRxFrame) :=
  msg ← wait_ready fuel rxqueue timeout (can_lld_is_rx_nonempty mailbox);
  if msg =? MSG_OK then crfp ← can_lld_receive mailbox crfp; ret (MSG_OK, crfp)
  else ret (msg, crfp).

Definition canSleep : fw W unit :=
  s ← gets (λ w, state (CAND1 w));
  when (bool_decide (s = CAN_READY))
    (can_lld_sleep;; set_state CAN_SLEEP;; broadcast sleep_event 0;; modify osalOsRescheduleS).

Definition canWakeup : fw W unit :=
  s ← gets (λ w, state (CAND1 w));
  when (bool_decide (s = CAN_SLEEP))
    (can_lld_wakeup;; set_state CAN_READY;; broadcast wakeup_event 0;; modify osalOsRescheduleS).

End driver.

(** ** The peripheral and the OS layer as documented

    [fifo i] is what the receive FIFO [i] holds, oldest first; [requests] the
    mailboxes handed to the transmitter, oldest first; [event] whether the
    worker's listener on [rxfull_event] has an event pending. *)
Class CanLaws (W : Type) `{CanHw W} `{CanObj W} `{Osal W can_queue can_event}
    (fifo : nat → W → list CAN_FIFOMailBox) (requests : W → list (Z * CAN_TxMailBox))
    (event : W → bool) := {
  fifo_level w i : (i < 2)%nat → (length (fifo i w) <= 3)%nat
    ∧ Z.land (can_rd w (RFR i)) CAN_RFR_FMP = Z.of_nat (length (fifo i w));
  fifo_head w i m l : (i < 2)%nat → fifo i w = m :: l →
    can_rd w (rRIR i) = RIR m ∧ can_rd w (rRDTR i) = RDTR m
    ∧ can_rd w (rRDLR i) = RDLR m ∧ can_rd w (rRDHR i) = RDHR m;
  fifo_release w i j : (i < 2)%nat →
    fifo j (can_wr (RFR i) CAN_RFR_RFOM w) = if decide (i = j) then tail (fifo j w) else fifo j w;
  fifo_wr w i r v : (∀ k, r = RFR k → v = CAN_RFR_FOVR) → fifo i (can_wr r v w) = fifo i w;
  ier_wr w v m : m ∈ [CAN_IER_FMPIE0; CAN_IER_FMPIE1] →
    Z.land (can_rd (can_wr IER v w) IER) m = Z.land v m;
  ier_other w r v : r ≠ IER → can_rd (can_wr r v w) IER = can_rd w IER;
  tsr_code w : Z.land (can_rd w TSR) CAN_TSR_TME ≠ 0 →
    ∃ mb, Z.shiftr (Z.land (can_rd w TSR) CAN_TSR_CODE) 24 = mb ∧ 0 <= mb < 3
      ∧ Z.land (can_rd w TSR) (Z.shiftl CAN_TSR_TME0 mb) ≠ 0;
  tx_request w mb a b c d : 0 <= mb < 3 →
    Z.land (can_rd w TSR) (Z.shiftl CAN_TSR_TME0 mb) ≠ 0 → Z.land d CAN_TI0R_TXRQ ≠ 0 →
    requests (can_wr (rTIR mb) d (can_wr (rTDHR mb) c (can_wr (rTDLR mb) b (can_wr (rTDTR mb) a w))))
    = requests w ++ [(mb, {| TIR := d; TDTR := a; TDLR := b; TDHR := c |})];
  drv_wr w r v : CAND1 (can_wr r v w) = CAND1 w;
  event_wr w r v : event (can_wr r v w) = event w;
  set_drv w d : CAND1 (set_CAND1 d w) = d ∧ event (set_CAND1 d w) = event w
    ∧ (∀ i, fifo i (set_CAND1 d w) = fifo i w) ∧ (∀ r, can_rd (set_CAND1 d w) r = can_rd w r);
  dequeue_frame w q m : CAND1 (osalThreadDequeueAllI q m w) = CAND1 w
    ∧ event (osalThreadDequeueAllI q m w) = event w
    ∧ (∀ i, fifo i (osalThreadDequeueAllI q m w) = fifo i w)
    ∧ (∀ r, can_rd (osalThreadDequeueAllI q m w) r = can_rd w r);
  broadcast_frame w e f : CAND1 (osalEventBroadcastFlagsI e f w) = CAND1 w
    ∧ event (osalEventBroadcastFlagsI e f w)
      = (match e with rxfull_event => true | _ => event w end)
    ∧ (∀ i, fifo i (osalEventBroadcastFlagsI e f w) = fifo i w)
    ∧ (∀ r, can_rd (osalEventBroadcastFlagsI e f w) r = can_rd w r);
  enqueue_immediate w q : osalThreadEnqueueTimeoutS q TIME_IMMEDIATE w = (MSG_TIMEOUT, w)
}.

Section receive.
Context {W : Type} `{CanLaws W fifo requests event}.
Implicit Types w : W.

(** Whether the message-pending interrupt of a FIFO is enabled. *)
Definition fmpie (i : nat) w : bool := negb (Z.land (can_rd w IER) (FMPIE i) =? 0).

Lemma FMPIE_in i : FMPIE i ∈ [CAN_IER_FMPIE0; CAN_IER_FMPIE1].
Proof. destruct i; [left|right; left]. Qed.

(** Enabling one interrupt leaves the other; so does disabling. *)
Lemma FMPIE_lor v i j :
  (i < 2)%nat → (j < 2)%nat →
  negb (Z.land (Z.lor v (FMPIE i)) (FMPIE j) =? 0)
  = if decide (i = j) then true else negb (Z.land v (FMPIE j) =? 0).
Proof.
  intros Hi Hj. rewrite Z.land_lor_distr_l.
  assert (i = 0%nat ∨ i = 1%nat) as [-> | ->] by lia;
  assert (j = 0%nat ∨ j = 1%nat) as [-> | ->] by lia; cbn [decide Nat.eq_dec FMPIE];
  try (change (Z.land CAN_IER_FMPIE0 CAN_IER_FMPIE1) with 0);
  try (change (Z.land CAN_IER_FMPIE1 CAN_IER_FMPIE0) with 0); rewrite ?Z.lor_0_r; try done.
  - destruct (Z.eqb_spec (Z.lor (Z.land v CAN_IER_FMPIE0) (Z.land CAN_IER_FMPIE0 CAN_IER_FMPIE0)) 0) as [E|]; [|done].
    by apply Z.lor_eq_0_iff in E as [_ E].
  - destruct (Z.eqb_spec (Z.lor (Z.land v CAN_IER_FMPIE1) (Z.land CAN_IER_FMPIE1 CAN_IER_FMPIE1)) 0) as [E|]; [|done].
    by apply Z.lor_eq_0_iff in E as [_ E].
Qed.

Lemma FMPIE_ldiff v i j :
  (i < 2)%nat → (j < 2)%nat →
  negb (Z.land (Z.ldiff v (FMPIE i)) (FMPIE j) =? 0)
  = if decide (i = j) then false else negb (Z.land v (FMPIE j) =? 0).
Proof.
  intros Hi Hj.
  assert (Z.land (Z.ldiff v (FMPIE i)) (FMPIE j) = Z.land v (Z.ldiff (FMPIE j) (FMPIE i))) as ->
    by (apply Z.bits_inj'; intros k _; rewrite !Z.land_spec, !Z.ldiff_spec;
        destruct (Z.testbit v k), (Z.testbit (FMPIE i) k), (Z.testbit (FMPIE j) k); done).
  assert (i = 0%nat ∨ i = 1%nat) as [-> | ->] by lia;
  assert (j = 0%nat ∨ j = 1%nat) as [-> | ->] by lia; cbn [decide Nat.eq_dec FMPIE]; try done;
  by rewrite Z.land_0_r.
Qed.

Lemma pending_spec i w :
  (i < 2)%nat → pending i w = Ok (bool_decide (fifo i w ≠ []), w).
Proof.
  intros Hi. unfold pending, rd. rewrite (fw_bind_ok _ _ _ _ _ eq_refl). unfold ret.
  destruct (fifo_level w i Hi) as [_ ->]. do 2 f_equal.
  by destruct (fifo i w).
Qed.

(** The frame taken from FIFO [i], the FIFO without its head, and the interrupt
    enabled again when the FIFO is empty. *)
Lemma receive_from_spec i w m l crfp :
  (i < 2)%nat → fifo i w = m :: l →
  ∃ w', receive_from i crfp w = Ok (rx_decode m crfp, w')
    ∧ fifo i w' = l
    ∧ (∀ j, j ≠ i → (j < 2)%nat → fifo j w' = fifo j w ∧ fmpie j w' = fmpie j w)
    ∧ fmpie i w' = bool_decide (l = []) || fmpie i w
    ∧ CAND1 w' = CAND1 w ∧ event w' = event w.
Proof.
  intros Hi Hf. unfold receive_from, rd, wr, when.
  do 5 (rewrite (fw_bind_ok _ _ _ _ _ eq_refl); cbv beta).
  set (w1 := can_wr (RFR i) CAN_RFR_RFOM w).
  assert (Hf1 : fifo i w1 = l) by (unfold w1; rewrite fifo_release, decide_True, Hf by done; done).
  assert (Hj1 : ∀ j, j ≠ i → fifo j w1 = fifo j w)
    by (intros; unfold w1; by rewrite fifo_release, decide_False by done).
  assert (Hie : ∀ j, fmpie j w1 = fmpie j w) by (intros; unfold fmpie, w1; by rewrite ier_other).
  rewrite (fw_bind_ok _ _ _ _ _ (pending_spec i w1 Hi)), Hf1.
  destruct (fifo_head w i m l Hi Hf) as (-> & -> & -> & ->).
  replace {| RIR := RIR m; RDTR := RDTR m; RDLR := RDLR m; RDHR := RDHR m |} with m by (by destruct m).
  destruct l as [|m' l]; cbn [bool_decide decide negb].
  - rewrite bool_decide_false by naive_solver. cbn [negb]. unfold set_bits, rd, wr. fw_pure.
    set (w2 := can_wr IER _ w1). exists w2.
    assert (Hf2 : ∀ j, fifo j w2 = fifo j w1) by (intros; unfold w2; by apply fifo_wr).
    assert (Hm2 : ∀ j, (j < 2)%nat → fmpie j w2 = if decide (i = j) then true else fmpie j w1).
    { intros j Hj. unfold fmpie at 1, w2. rewrite ier_wr by apply FMPIE_in. by apply FMPIE_lor. }
    split_and!; try done.
    + by rewrite Hf2.
    + intros j Hne Hj. by rewrite Hf2, Hj1, Hm2, decide_False, Hie by done.
    + by rewrite Hm2, decide_True by done.
    + unfold w2, w1. by rewrite !drv_wr.
    + unfold w2, w1. by rewrite !event_wr.
  - rewrite bool_decide_true by done. cbn [negb]. fw_pure. exists w1.
    split_and!; try done.
    + intros j Hne Hj. by rewrite Hj1, Hie by done.
    + unfold w1. by rewrite drv_wr.
    + unfold w1. by rewrite event_wr.
Qed.

(** [same_rx w w']: the receive side is untouched. *)
Definition same_rx w w' : Prop :=
  (∀ j, (j < 2)%nat → fifo j w' = fifo j w ∧ fmpie j w' = fmpie j w) ∧ event w' = event w.

#[global] Instance same_rx_refl : Reflexive same_rx.
Proof. done. Qed.
#[global] Instance same_rx_trans : Transitive same_rx.
Proof.
  intros w1 w2 w3 [H12 E12] [H23 E23]. split; [|congruence].
  intros j Hj. destruct (H12 j Hj), (H23 j Hj). split; congruence.
Qed.

Lemma same_wr w r v :
  r ≠ IER → (∀ k, r = RFR k → v = CAN_RFR_FOVR) → same_rx w (can_wr r v w).
Proof.
  intros Hr Hv. split; [|apply event_wr]. intros j Hj. split; [by apply fifo_wr|].
  unfold fmpie. by rewrite ier_other.
Qed.

Lemma same_fmpie w w' j : can_rd w' IER = can_rd w IER → fmpie j w' = fmpie j w.
Proof. unfold fmpie. by intros ->. Qed.

Lemma same_set_CAND1 w d : same_rx w (set_CAND1 d w).
Proof.
  destruct (set_drv w d) as (_ & He & Hf & Hr). split; [|done].
  intros j Hj. split; [done|by apply same_fmpie].
Qed.

Lemma same_dequeue w q m : same_rx w (osalThreadDequeueAllI q m w).
Proof.
  destruct (dequeue_frame w q m) as (_ & He & Hf & Hr). split; [|done].
  intros j Hj. split; [done|by apply same_fmpie].
Qed.

Lemma same_broadcast w e f : e ≠ rxfull_event → same_rx w (osalEventBroadcastFlagsI e f w).
Proof.
  intros Hne. destruct (broadcast_frame w e f) as (_ & He & Hf & Hr).
  split; [|by destruct e]. intros j Hj. split; [done|by apply same_fmpie].
Qed.

Hint Resolve same_wr same_set_CAND1 same_dequeue same_broadcast : core.

Lemma sce_handler_awake w w' :
  can_lld_sce_handler w = Ok (tt, w') →
  state (CAND1 w) ≠ CAN_SLEEP → state (CAND1 w') ≠ CAN_SLEEP.
Proof.
  unfold can_lld_sce_handler, rd, wr, when, set_state, clr_bits, broadcast. unfold rd, wr.
  do 2 (rewrite (fw_bind_ok _ _ _ _ _ eq_refl); cbv beta).
  intros E Hs.
  destruct (negb (Z.land (can_rd w MSR) CAN_MSR_WKUI =? 0)),
    (negb (Z.land (can_rd w MSR) CAN_MSR_ERRI =? 0)); injection E as <-;
    repeat first [rewrite (proj1 (broadcast_frame _ _ _)) | rewrite drv_wr | rewrite (proj1 (set_drv _ _))];
    done.
Qed.

Lemma tx_handler_frame w : ∃ w', can_lld_tx_handler w = Ok (tt, w') ∧ same_rx w w' ∧ CAND1 w' = CAND1 w.
Proof.
  unfold can_lld_tx_handler, rd, wr, dequeue_all, broadcast.
  do 3 (rewrite (fw_bind_ok _ _ _ _ _ eq_refl); cbv beta zeta).
  eexists. split; [reflexivity|]. split.
  - etransitivity; [|by apply same_broadcast]. etransitivity; [|apply same_dequeue].
    by apply same_wr.
  - rewrite (proj1 (broadcast_frame _ _ _)), (proj1 (dequeue_frame _ _ _)). apply drv_wr.
Qed.

Lemma sce_handler_frame w : ∃ w', can_lld_sce_handler w = Ok (tt, w') ∧ same_rx w w'.
Proof.
  unfold can_lld_sce_handler, rd, wr, when, set_state, clr_bits, broadcast. unfold rd, wr.
  do 2 (rewrite (fw_bind_ok _ _ _ _ _ eq_refl); cbv beta).
  set (w1 := can_wr MSR _ w). assert (same_rx w w1) as H1' by (by apply same_wr).
  destruct (negb (Z.land (can_rd w MSR) CAN_MSR_WKUI =? 0)),
    (negb (Z.land (can_rd w MSR) CAN_MSR_ERRI =? 0));
    (eexists; split; [reflexivity|]; etransitivity; [exact H1'|]).
  - etransitivity; [|by apply same_broadcast]. etransitivity; [|by apply same_broadcast].
    etransitivity; [|by apply same_wr]. apply same_set_CAND1.
  - etransitivity; [|by apply same_broadcast]. etransitivity; [|by apply same_wr]. apply same_set_CAND1.
  - by apply same_broadcast.
  - done.
Qed.

(** The receive handler disables the interrupt of a FIFO that is not empty and
    signals the event. *)
Lemma rx_handler_spec i w :
  (i < 2)%nat →
  ∃ w', can_lld_rx_handler i w = Ok (tt, w')
    ∧ (∀ j, (j < 2)%nat → fifo j w' = fifo j w
        ∧ fmpie j w' = if decide (i = j ∧ fifo i w ≠ []) then false else fmpie j w)
    ∧ event w' = bool_decide (fifo i w ≠ []) || event w
    ∧ CAND1 w' = CAND1 w.
Proof.
  intros Hi. unfold can_lld_rx_handler.
  rewrite (fw_bind_ok _ _ _ _ _ eq_refl). cbv beta.
  destruct (fifo_level w i Hi) as [_ ->].
  assert (∃ w1, (when (0 <? Z.of_nat (length (fifo i w)))
     (clr_bits IER (FMPIE i);; dequeue_all rxqueue MSG_OK;;
      broadcast rxfull_event (CAN_MAILBOX_TO_MASK (Z.of_nat i + 1))) : fw W unit) w = Ok (tt, w1)
    ∧ (∀ j, (j < 2)%nat → fifo j w1 = fifo j w
        ∧ fmpie j w1 = if decide (i = j ∧ fifo i w ≠ []) then false else fmpie j w)
    ∧ event w1 = bool_decide (fifo i w ≠ []) || event w
    ∧ CAND1 w1 = CAND1 w) as (w1 & E1 & Hw1 & Hev1 & Hc1).
  { destruct (decide (fifo i w = [])) as [E|E].
    - rewrite E. exists w. split_and!; [done| |by rewrite bool_decide_false by naive_solver|done].
      intros j Hj. by rewrite decide_False by (by intros [_ ?]).
    - rewrite (proj2 (Z.ltb_lt _ _)) by (destruct (fifo i w); [done|cbn; lia]).
      cbn [when]. eexists. split; [reflexivity|].
      destruct (broadcast_frame (osalThreadDequeueAllI rxqueue MSG_OK
         (can_wr IER (Z.ldiff (can_rd w IER) (FMPIE i)) w)) rxfull_event
         (CAN_MAILBOX_TO_MASK (Z.of_nat i + 1))) as (Hc & He & Hf & Hr).
      destruct (dequeue_frame (can_wr IER (Z.ldiff (can_rd w IER) (FMPIE i)) w) rxqueue MSG_OK)
        as (Hc' & He' & Hf' & Hr').
      split; [|split; [by rewrite He, bool_decide_true by done|by rewrite Hc, Hc', drv_wr]].
      intros j Hj. rewrite Hf, Hf', fifo_wr by done. split; [done|].
      rewrite (same_fmpie _ _ j (Hr IER)), (same_fmpie _ _ j (Hr' IER)).
      unfold fmpie. rewrite ier_wr by apply FMPIE_in. rewrite FMPIE_ldiff by done.
      destruct (decide (i = j)) as [->|Hne].
      + by rewrite decide_True by done.
      + by rewrite decide_False by (by intros [? _]). }
  rewrite (fw_bind_ok _ _ _ _ _ E1). unfold when.
  destruct (0 <? Z.land (can_rd w (RFR i)) CAN_RFR_FOVR).
  - eexists. split; [reflexivity|].
    match goal with |- context [fifo _ ?x] => assert (same_rx w1 x) as [Hs He] end.
    { etransitivity; [|by apply same_broadcast]. apply same_wr; [done|by intros]. }
    split; [|split; [by rewrite He|by rewrite (proj1 (broadcast_frame _ _ _)), drv_wr]].
    intros j Hj. destruct (Hs j Hj) as [-> ->]. by apply Hw1.
  - eexists. split; [reflexivity|]. done.
Qed.

(** The frames received and not yet taken, in the order [canReceive] on any
    mailbox takes them. *)
Definition queued w : list CAN_FIFOMailBox := fifo 0 w ++ fifo 1 w.

Lemma wait_rx_spec fuel w timeout :
  state (CAND1 w) ≠ CAN_SLEEP → queued w ≠ [] →
  wait_ready (S fuel) rxqueue timeout (can_lld_is_rx_nonempty CAN_ANY_MAILBOX) w = Ok (MSG_OK, w).
Proof.
  intros Hs Hq. cbn [wait_ready]. rewrite (fw_bind_ok _ _ _ _ _ eq_refl). cbv beta.
  rewrite bool_decide_false by done. unfold can_lld_is_rx_nonempty. cbn [Z.eqb CAN_ANY_MAILBOX].
  rewrite (fw_bind_ok _ _ w true w); [done|].
  rewrite (fw_bind_ok _ _ _ _ _ (pending_spec 0 w ltac:(lia))).
  unfold queued in Hq. destruct (fifo 0 w) as [|m l].
  - rewrite bool_decide_false by naive_solver. rewrite pending_spec by lia.
    by rewrite bool_decide_true.
  - by rewrite bool_decide_true.
Qed.

Lemma receive_any_spec w crfp m l :
  queued w = m :: l →
  ∃ w', can_lld_receive CAN_ANY_MAILBOX crfp w = Ok (rx_decode m crfp, w')
    ∧ queued w' = l ∧ CAND1 w' = CAND1 w ∧ event w' = event w
    ∧ ∀ i, (i < 2)%nat →
        fmpie i w' = bool_decide (fifo i w' = [] ∧ fifo i w ≠ []) || fmpie i w
        ∧ (fifo i w = [] → fifo i w' = []).
Proof.
  intros Hq. unfold can_lld_receive. cbn [Z.eqb CAN_ANY_MAILBOX].
  rewrite (fw_bind_ok _ _ _ _ _ (pending_spec 0 w ltac:(lia))). unfold queued in Hq.
  destruct (fifo 0 w) as [|m0 l0] eqn:E0.
  - rewrite bool_decide_false by naive_solver.
    rewrite (fw_bind_ok _ _ _ _ _ (pending_spec 1 w ltac:(lia))). cbn [app] in Hq.
    rewrite bool_decide_true by (by rewrite Hq).
    destruct (receive_from_spec 1 w m l crfp ltac:(lia) Hq) as (w' & -> & Hf & Hj & Hm & Hc & He).
    destruct (Hj 0%nat) as [Hf0 Hm0]; [lia|lia|]. exists w'. split_and!; try done.
    + unfold queued. by rewrite Hf0, E0, Hf.
    + intros i Hi. assert (i = 0%nat ∨ i = 1%nat) as [-> | ->] by lia.
      * rewrite bool_decide_false, Hf0, E0 by (by intros [_ ?]). done.
      * rewrite Hm, Hf, Hq. split; [|done]. f_equal. apply bool_decide_ext. naive_solver.
  - rewrite bool_decide_true by done. injection Hq as <- Hq.
    destruct (receive_from_spec 0 w m0 l0 crfp ltac:(lia) E0) as (w' & -> & Hf & Hj & Hm & Hc & He).
    destruct (Hj 1%nat) as [Hf1 Hm1]; [lia|lia|]. exists w'. split_and!; try done.
    + unfold queued. by rewrite Hf, Hf1.
    + intros i Hi. assert (i = 0%nat ∨ i = 1%nat) as [-> | ->] by lia.
      * rewrite Hm, Hf, E0. split; [|done]. f_equal. apply bool_decide_ext. naive_solver.
      * rewrite Hf1, Hm1. split; [|done]. by rewrite bool_decide_false by naive_solver.
Qed.

Lemma canReceive_spec fuel w crfp :
  state (CAND1 w) ≠ CAN_SLEEP →
  match queued w with
  | [] => canReceive (S fuel) CAN_ANY_MAILBOX crfp TIME_IMMEDIATE w = Ok ((MSG_TIMEOUT, crfp), w)
  | m :: l =>
    ∃ w', canReceive (S fuel) CAN_ANY_MAILBOX crfp TIME_IMMEDIATE w = Ok ((MSG_OK, rx_decode m crfp), w')
      ∧ queued w' = l ∧ CAND1 w' = CAND1 w ∧ event w' = event w
      ∧ ∀ i, (i < 2)%nat →
          fmpie i w' = bool_decide (fifo i w' = [] ∧ fifo i w ≠ []) || fmpie i w
          ∧ (fifo i w = [] → fifo i w' = [])
  end.
Proof.
  intros Hs. unfold canReceive. destruct (queued w) as [|m l] eqn:Hq.
  - rewrite (fw_bind_ok _ _ w MSG_TIMEOUT w); [done|]. cbn [wait_ready].
    rewrite (fw_bind_ok _ _ _ _ _ eq_refl). cbv beta. rewrite bool_decide_false by done.
    apply app_nil in Hq as [E0 E1]. unfold can_lld_is_rx_nonempty. cbn [Z.eqb CAN_ANY_MAILBOX].
    rewrite (fw_bind_ok _ _ w false w).
    + rewrite (fw_bind_ok _ _ w MSG_TIMEOUT w); [done|by rewrite enqueue_immediate].
    + rewrite (fw_bind_ok _ _ _ _ _ (pending_spec 0 w ltac:(lia))), E0.
      rewrite bool_decide_false by naive_solver. rewrite pending_spec, E1 by lia.
      by rewrite bool_decide_false by naive_solver.
  - rewrite (fw_bind_ok _ _ w MSG_OK w) by (by apply wait_rx_spec; [|rewrite Hq]).
    destruct (receive_any_spec w crfp m l Hq) as (w' & E & Hq' & Hc & He & Hm).
    exists w'. cbn [Z.eqb MSG_OK]. rewrite (fw_bind_ok _ _ _ _ _ E).
    done.
Qed.

(** C29 (functional). While the driver is awake, a receive without waiting takes
    the oldest frame of FIFO 0, or of FIFO 1 when FIFO 0 is empty, decodes it
    and leaves the rest in order; a FIFO that becomes empty has its interrupt
    enabled again. With both FIFOs empty it returns [MSG_TIMEOUT] and changes
    nothing. *)
Theorem canReceive_immediate fuel w crfp :
  state (CAND1 w) ≠ CAN_SLEEP →
  match queued w with
  | [] => canReceive (S fuel) CAN_ANY_MAILBOX crfp TIME_IMMEDIATE w = Ok ((MSG_TIMEOUT, crfp), w)
  | m :: l =>
    ∃ w', canReceive (S fuel) CAN_ANY_MAILBOX crfp TIME_IMMEDIATE w = Ok ((MSG_OK, rx_decode m crfp), w')
      ∧ queued w' = l ∧ CAND1 w' = CAND1 w
      ∧ ∀ i, (i < 2)%nat → fmpie i w' = bool_decide (fifo i w' = [] ∧ fifo i w ≠ []) || fmpie i w
  end.
Proof.
  intros Hs. pose proof (canReceive_spec fuel w crfp Hs) as Hr. destruct (queued w) as [|m l]; [done|].
  destruct Hr as (w' & Hr & Hq & Hc & _ & Hm). exists w'. split_and!; try done.
  intros i Hi. by apply Hm.
Qed.

(** ** The worker, the interrupt and the bus

    The worker waits for the event, then takes frames until the queue is empty.
    Between its steps frames arrive, the interrupt handler runs and other code
    uses the driver without touching the receive side. *)
Inductive phase := Waiting | Draining.

Inductive wstep : phase * W → phase * W → Prop :=
  | frame_arrives p w w' i m :
      (i < 2)%nat → fifo i w' = fifo i w ++ [m] →
      (∀ j, j ≠ i → fifo j w' = fifo j w) → can_rd w' IER = can_rd w IER →
      event w' = event w → CAND1 w' = CAND1 w → wstep (p, w) (p, w')
  | interrupt p w w' :
      STM32_CAN1_UNIFIED_HANDLER w = Ok (tt, w') → wstep (p, w) (p, w')
  | event_taken w w' :
      event w = true → event w' = false → (∀ i, fifo i w' = fifo i w) →
      can_rd w' IER = can_rd w IER → CAND1 w' = CAND1 w →
      wstep (Waiting, w) (Draining, w')
  | frame_taken fuel crfp f w w' :
      canReceive (S fuel) CAN_ANY_MAILBOX crfp TIME_IMMEDIATE w = Ok ((MSG_OK, f), w') →
      wstep (Draining, w) (Draining, w')
  | queue_empty fuel crfp f msg w w' :
      canReceive (S fuel) CAN_ANY_MAILBOX crfp TIME_IMMEDIATE w = Ok ((msg, f), w') →
      msg ≠ MSG_OK → wstep (Draining, w) (Waiting, w')
  | other_code p w w' :
      same_rx w w' → state (CAND1 w') ≠ CAN_SLEEP → wstep (p, w) (p, w').

(** An empty FIFO has its interrupt enabled; an interrupt is disabled only
    while the worker knows that there are frames. *)
Record rx_inv (s : phase * W) : Prop := {
  inv_awake : state (CAND1 s.2) ≠ CAN_SLEEP;
  inv_empty i : (i < 2)%nat → fifo i s.2 = [] → fmpie i s.2 = true;
  inv_known i : (i < 2)%nat → fmpie i s.2 = false → event s.2 = true ∨ s.1 = Draining
}.

Lemma handler_spec w :
  ∃ w', STM32_CAN1_UNIFIED_HANDLER w = Ok (tt, w')
    ∧ (∀ i, (i < 2)%nat → fifo i w' = fifo i w
        ∧ fmpie i w' = if decide (fifo i w ≠ []) then false else fmpie i w)
    ∧ event w' = bool_decide (queued w ≠ []) || event w
    ∧ (state (CAND1 w) ≠ CAN_SLEEP → state (CAND1 w') ≠ CAN_SLEEP).
Proof.
  unfold STM32_CAN1_UNIFIED_HANDLER.
  destruct (tx_handler_frame w) as (w1 & E1 & [S1 Ev1] & C1).
  destruct (rx_handler_spec 0 w1) as (w2 & E2 & S2 & Ev2 & C2); [lia|].
  destruct (rx_handler_spec 1 w2) as (w3 & E3 & S3 & Ev3 & C3); [lia|].
  destruct (sce_handler_frame w3) as (w4 & E4 & [S4 Ev4]).
  exists w4. rewrite (fw_bind_ok _ _ _ _ _ E1), (fw_bind_ok _ _ _ _ _ E2), (fw_bind_ok _ _ _ _ _ E3).
  destruct (S1 0%nat) as [F10 M10]; [lia|]. destruct (S1 1%nat) as [F11 M11]; [lia|].
  destruct (S2 0%nat) as [F20 M20]; [lia|]. destruct (S2 1%nat) as [F21 M21]; [lia|].
  destruct (S3 0%nat) as [F30 M30]; [lia|]. destruct (S3 1%nat) as [F31 M31]; [lia|].
  destruct (S4 0%nat) as [F40 M40]; [lia|]. destruct (S4 1%nat) as [F41 M41]; [lia|].
  rewrite (decide_False (P := (1 = 0 ∧ _)%nat)) in M30 by (by intros [? _]).
  rewrite (decide_False (P := (0 = 1 ∧ _)%nat)) in M21 by (by intros [? _]).
  split_and!; [exact E4| | |].
  - intros i Hi. assert (i = 0%nat ∨ i = 1%nat) as [-> | ->] by lia.
    + rewrite F40, F30, F20, F10, M40, M30, M20, M10, F10. split; [done|]. repeat case_decide; tauto.
    + rewrite F41, F31, F21, F11, M41, M31, M21, M11, F21, F11. split; [done|]. repeat case_decide; tauto.
  - rewrite Ev4, Ev3, Ev2, Ev1, F21, F11, F10. unfold queued.
    by destruct (fifo 0 w), (fifo 1 w), (event w).
  - intros Hs. eapply sce_handler_awake; [exact E4|]. by rewrite C3, C2, C1.
Qed.

Lemma wstep_inv s s' : wstep s s' → rx_inv s → rx_inv s'.
Proof.
  intros Hst [Ha He Hk]. destruct Hst as
    [p w w' i m Hi Hf Hj Hie Hev Hc|p w w' Hh|w w' Hev Hev' Hf Hie Hc|fuel crfp f w w' Hr
    |fuel crfp f msg w w' Hr Hmsg|p w w' [Hs Hev] Hs']; cbn [fst snd] in *.
  - constructor; cbn [fst snd]; [by rewrite Hc| |].
    + intros k Hk2 E. rewrite (same_fmpie w w') by done. apply He; [done|].
      destruct (decide (k = i)) as [->|Hne]; [|by rewrite <-Hj].
      rewrite Hf in E. by destruct (fifo i w).
    + intros k Hk2. rewrite (same_fmpie w w'), Hev by done. by apply Hk.
  - destruct (handler_spec w) as (w1 & Hh1 & Hf & Hev & Hs). rewrite Hh in Hh1. injection Hh1 as <-.
    constructor; cbn [fst snd]; [by apply Hs| |].
    + intros k Hk2. destruct (Hf k Hk2) as [-> ->]. intros E. rewrite decide_False by (intros Hx; by apply Hx).
      by apply He.
    + intros k Hk2. destruct (Hf k Hk2) as [_ ->]. case_decide as Hq.
      * intros _. left. rewrite Hev, bool_decide_true; [done|].
        intros Hn. apply app_nil in Hn as [E0 E1].
        assert (k = 0%nat ∨ k = 1%nat) as [-> | ->] by lia; done.
      * intros E. destruct (Hk k Hk2 E) as [Hev2|Hd]; [left|by right]. rewrite Hev, Hev2. apply orb_true_r.
  - constructor; cbn [fst snd]; [by rewrite Hc| |].
    + intros k Hk2. rewrite Hf, (same_fmpie w w') by done. by apply He.
    + intros. by right.
  - pose proof (canReceive_spec fuel w crfp Ha) as Hspec.
    destruct (queued w) as [|m l] eqn:Hq; [rewrite Hr in Hspec; by simplify_eq|].
    destruct Hspec as (w2 & Hr2 & _ & Hc & _ & Hm). rewrite Hr in Hr2. injection Hr2 as _ <-.
    constructor; cbn [fst snd]; [by rewrite Hc| |intros; by right].
    intros k Hk2 E. destruct (Hm k Hk2) as [-> Hmono].
    destruct (decide (fifo k w = [])) as [E2|E2]; [by rewrite He, orb_true_r|by rewrite bool_decide_true].
  - pose proof (canReceive_spec fuel w crfp Ha) as Hspec. destruct (queued w) as [|m l] eqn:Hq.
    + rewrite Hr in Hspec. injection Hspec as _ _ <-. apply app_nil in Hq as [E0 E1].
      constructor; cbn [fst snd]; try done. intros k Hk2.
      assert (k = 0%nat ∨ k = 1%nat) as [-> | ->] by lia; by rewrite He.
    + destruct Hspec as (w2 & Hr2 & _). rewrite Hr in Hr2. by simplify_eq.
  - constructor; cbn [fst snd]; [done| |].
    + intros k Hk2. destruct (Hs k Hk2) as [-> ->]. by apply He.
    + intros k Hk2. destruct (Hs k Hk2) as [_ ->]. rewrite Hev. by apply Hk.
Qed.

(** No wake-up is lost: however arrivals, interrupts, receives and
    other driver calls interleave, when the worker waits while a FIFO holds a
    frame, its event is already pending, or the interrupt of that FIFO is
    enabled and the handler, when it runs, makes the event pending. *)
Theorem no_lost_wakeup p0 w0 p w i :
  state (CAND1 w0) ≠ CAN_SLEEP → (∀ j, (j < 2)%nat → fmpie j w0 = true) →
  rtc wstep (p0, w0) (p, w) →
  p = Waiting → (i < 2)%nat → fifo i w ≠ [] →
  event w = true
  ∨ (fmpie i w = true
     ∧ ∃ w', STM32_CAN1_UNIFIED_HANDLER w = Ok (tt, w') ∧ event w' = true).
Proof.
  intros Hs Hm Hst Hp Hi Hf.
  assert (rx_inv (p, w)) as [_ _ Hk].
  { assert (rx_inv (p0, w0)) as H0' by (constructor; cbn; [done|by intros; apply Hm|intros j Hj; by rewrite Hm]).
    clear Hs Hm. remember (p0, w0) as s0 eqn:E0. remember (p, w) as s eqn:E. clear E E0 Hf Hp.
    induction Hst as [|x y z Hxy _ IH]; [done|]. apply IH. by eapply wstep_inv. }
  destruct (fmpie i w) eqn:E; [|destruct (Hk i Hi E) as [|Hd]; [by left|by subst p]].
  right. split; [done|]. destruct (handler_spec w) as (w' & Hh & _ & Hev & _).
  exists w'. split; [done|]. rewrite Hev, bool_decide_true; [done|].
  intros Hn. apply app_nil in Hn as [E0 E1]. assert (i = 0%nat ∨ i = 1%nat) as [-> | ->] by lia; done.
Qed.

End receive.

Section transmit.
Context {W : Type} `{CanLaws W fifo requests event}.
Implicit Types w : W.

Definition mailbox_empty (mb : Z) w : Prop :=
  Z.land (can_rd w TSR) (Z.shiftl CAN_TSR_TME0 mb) ≠ 0.

Definition tx_ready w : bool :=
  negb (bool_decide (state (CAND1 w) = CAN_SLEEP)) && negb (Z.land (can_rd w TSR) CAN_TSR_TME =? 0).

(** The waits of a call: each is given the whole timeout again. *)
Inductive waits (q : can_queue) (timeout : Z) (ready : W → bool) : W → Z → W → Prop :=
  | waits_over w : ready w = true → waits q timeout ready w MSG_OK w
  | waits_again w w1 msg w' :
      ready w = false → osalThreadEnqueueTimeoutS q timeout w = (MSG_OK, w1) →
      waits q timeout ready w1 msg w' → waits q timeout ready w msg w'
  | waits_failed w msg w1 :
      ready w = false → osalThreadEnqueueTimeoutS q timeout w = (msg, w1) → msg ≠ MSG_OK →
      waits q timeout ready w msg w1.

Lemma waits_ready q timeout ready w msg w' :
  waits q timeout ready w msg w' → msg = MSG_OK → ready w' = true.
Proof. induction 1; intros; auto; done. Qed.

Lemma tx_poll w :
  (s ← asleep; if (s : bool) then ret false else can_lld_is_tx_empty CAN_ANY_MAILBOX) w
  = Ok (tx_ready w, w).
Proof.
  rewrite (fw_bind_ok _ _ _ _ _ eq_refl). unfold tx_ready. cbv beta.
  by destruct (bool_decide (state (CAND1 w) = CAN_SLEEP)).
Qed.

Lemma wait_ready_step fuel q timeout ready w :
  wait_ready (S fuel) q timeout ready w
  = match (s ← asleep; if (s : bool) then ret false else ready) w with
    | Err e => Err e
    | Ok (true, w') => Ok (MSG_OK, w')
    | Ok (false, w') =>
      let '(msg, w1) := osalThreadEnqueueTimeoutS q timeout w' in
      if msg =? MSG_OK then wait_ready fuel q timeout ready w1 else Ok (msg, w1)
    end.
Proof.
  cbn [wait_ready]. unfold mbind, fw_bind, asleep, gets, ret. cbv beta iota.
  destruct (bool_decide (state (CAND1 w) = CAN_SLEEP)).
  - destruct (osalThreadEnqueueTimeoutS q timeout w) as [msg w1]. by destruct (msg =? MSG_OK).
  - destruct (ready w) as [[[|] w']|e]; try done.
    destruct (osalThreadEnqueueTimeoutS q timeout w') as [msg w1]. by destruct (msg =? MSG_OK).
Qed.

Lemma wait_tx_spec timeout w msg w1 :
  waits txqueue timeout tx_ready w msg w1 →
  ∃ n, ∀ fuel, (n <= fuel)%nat →
    wait_ready fuel txqueue timeout (can_lld_is_tx_empty CAN_ANY_MAILBOX) w = Ok (msg, w1).
Proof.
  induction 1 as [w Hr|w w2 msg w' Hr He Hw (n & IH)|w msg w2 Hr He Hm].
  - exists 1%nat. intros [|fuel] Hf; [lia|]. by rewrite wait_ready_step, tx_poll, Hr.
  - exists (S n). intros [|fuel] Hf; [lia|]. rewrite wait_ready_step, tx_poll, Hr, He. cbn.
    apply IH. lia.
  - exists 1%nat. intros [|fuel] Hf; [lia|]. rewrite wait_ready_step, tx_poll, Hr, He.
    by rewrite (proj2 (Z.eqb_neq _ _)).
Qed.

Lemma TIR_txrq f : Z.land (TIR (tx_encode f)) CAN_TI0R_TXRQ ≠ 0.
Proof.
  cbn [TIR tx_encode]. rewrite Z.land_lor_distr_l. change (Z.land CAN_TI0R_TXRQ CAN_TI0R_TXRQ) with 1.
  intros E. by apply Z.lor_eq_0_iff in E as [_ E].
Qed.

Lemma can_lld_transmit_spec w f :
  tx_ready w = true →
  ∃ mb w', can_lld_transmit CAN_ANY_MAILBOX f w = Ok (tt, w') ∧ 0 <= mb < 3 ∧ mailbox_empty mb w
    ∧ requests w' = requests w ++ [(mb, tx_encode f)].
Proof.
  intros Hr. apply andb_prop in Hr as [_ Ht]. destruct (Z.eqb_spec (Z.land (can_rd w TSR) CAN_TSR_TME) 0) as [|Ht']; [done|].
  destruct (tsr_code w Ht') as (mb & Hcode & Hmb & He). exists mb.
  unfold can_lld_transmit. cbn [Z.eqb CAN_ANY_MAILBOX]. rewrite (fw_bind_ok _ _ _ _ _ eq_refl). cbv beta.
  rewrite Hcode. unfold transmit_in. rewrite (proj2 (Z.leb_gt _ _)) by lia.
  unfold wr. do 3 (rewrite (fw_bind_ok _ _ _ _ _ eq_refl); cbv beta).
  eexists. split; [reflexivity|]. split_and!; [lia|lia|done|].
  rewrite (tx_request w mb) by (done || apply TIR_txrq). by destruct (tx_encode f).
Qed.

(** C19 (functional). A transmission on any mailbox, whose waits end with the
    message [msg], returns that message: when it is [MSG_OK] the driver was
    awake with the mailbox it chose empty, and exactly one request holding the
    encoded frame is handed to the transmitter; otherwise nothing is written.
    Enough fuel is one more than the number of wake-ups. *)
Theorem canTransmit_correct f timeout w msg w1 :
  waits txqueue timeout tx_ready w msg w1 →
  ∃ n, ∀ fuel, (n <= fuel)%nat →
    (msg ≠ MSG_OK → canTransmit fuel CAN_ANY_MAILBOX f timeout w = Ok (msg, w1))
    ∧ (msg = MSG_OK →
       ∃ mb w2, canTransmit fuel CAN_ANY_MAILBOX f timeout w = Ok (MSG_OK, w2)
         ∧ state (CAND1 w1) ≠ CAN_SLEEP ∧ 0 <= mb < 3 ∧ mailbox_empty mb w1
         ∧ requests w2 = requests w1 ++ [(mb, tx_encode f)]).
Proof.
  intros Hw. destruct (wait_tx_spec _ _ _ _ Hw) as (n & Hn). exists n. intros fuel Hf.
  specialize (Hn fuel Hf). unfold canTransmit. rewrite (fw_bind_ok _ _ _ _ _ Hn). split.
  - intros Hm. by rewrite (proj2 (Z.eqb_neq _ _)).
  - intros ->. cbn [Z.eqb MSG_OK].
    pose proof (waits_ready _ _ _ _ _ _ Hw eq_refl) as Hr.
    destruct (can_lld_transmit_spec w1 f Hr) as (mb & w2 & Ht & Hmb & He & Hq).
    exists mb, w2. rewrite (fw_bind_ok _ _ _ _ _ Ht). split_and!; try done; try lia.
    apply andb_prop in Hr as [Hr _]. by case_bool_decide.
Qed.

End transmit.

(** ** Transmission events *)

Lemma tx_mailbox_flags_cases tsr mb :
  tx_mailbox_flags tsr mb
  = if negb (Z.land tsr (CAN_TSR_RQCP mb) =? 0)
    then if negb (Z.land tsr (Z.lor (CAN_TSR_ALST mb) (CAN_TSR_TERR mb)) =? 0)
         then Z.shiftl (Z.shiftl 1 (mb + 1 - 1)) 16 else Z.shiftl 1 (mb + 1 - 1)
    else 0.
Proof. done. Qed.

Definition tx_done (tsr mb : Z) : bool := negb (Z.land tsr (CAN_TSR_RQCP mb) =? 0).
Definition tx_failed (tsr mb : Z) : bool :=
  negb (Z.land tsr (Z.lor (CAN_TSR_ALST mb) (CAN_TSR_TERR mb)) =? 0).

(** The transmission interrupt acknowledges the status it has
    read, wakes every thread waiting for a mailbox and broadcasts flags in
    which bit [mb] says that mailbox [mb] completed and bit [16 + mb] that it
    lost arbitration or failed; no other bit is set. *)
Theorem tx_handler_flags {W : Type} `{CanHw W} `{CanObj W} `{Osal W can_queue can_event} (w : W) :
  let tsr := can_rd w TSR in
  ∃ flags,
    can_lld_tx_handler w
    = Ok (tt, osalEventBroadcastFlagsI txempty_event flags
                (osalThreadDequeueAllI txqueue MSG_OK (can_wr TSR tsr w)))
    ∧ ∀ k, 0 <= k →
        Z.testbit flags k
        = (bool_decide (k < 3) && tx_done tsr k && negb (tx_failed tsr k))
          || (bool_decide (16 <= k < 19) && tx_done tsr (k - 16) && tx_failed tsr (k - 16)).
Proof.
  cbv zeta. unfold can_lld_tx_handler, rd, wr, dequeue_all, broadcast.
  do 3 (rewrite (fw_bind_ok _ _ _ _ _ eq_refl); cbv beta zeta).
  eexists. split; [reflexivity|]. intros k Hk. set (tsr := can_rd w TSR).
  rewrite !tx_mailbox_flags_cases. fold (tx_done tsr 0) (tx_done tsr 1) (tx_done tsr 2).
  fold (tx_failed tsr 0) (tx_failed tsr 1) (tx_failed tsr 2).
  destruct (decide (k < 19)) as [L|L].
  - assert (k = 0 ∨ k = 1 ∨ k = 2 ∨ k = 3 ∨ k = 4 ∨ k = 5 ∨ k = 6 ∨ k = 7 ∨ k = 8 ∨ k = 9
            ∨ k = 10 ∨ k = 11 ∨ k = 12 ∨ k = 13 ∨ k = 14 ∨ k = 15 ∨ k = 16 ∨ k = 17 ∨ k = 18) as Hc by lia.
    repeat destruct Hc as [->|Hc]; subst;
      try change (16 - 16) with 0; try change (17 - 16) with 1; try change (18 - 16) with 2;
      destruct (tx_done tsr 0), (tx_done tsr 1), (tx_done tsr 2),
        (tx_failed tsr 0), (tx_failed tsr 1), (tx_failed tsr 2); reflexivity.
  - rewrite !bool_decide_false by lia. cbn [andb orb]. apply Z.bits_above_log2;
    destruct (tx_done tsr 0), (tx_done tsr 1), (tx_done tsr 2),
      (tx_failed tsr 0), (tx_failed tsr 1), (tx_failed tsr 2);
    try done; match goal with |- ?a < k => let v := eval vm_compute in a in change (v < k); lia end.
Qed.

End CanDriver.
