(* ===== verification/CanSim.v ===== *)
(** * A simulated bxCAN peripheral

    A concrete world that satisfies the laws the CAN driver relies on, and the
    witnesses of the driver's properties, evaluated on it. *)

From stdpp Require Import relations.
From S2P Require Import Prelude Fw Streams SysTime CanFrame CanDriver.
Import SysTime CanFrame CanDriver.

Module CanSim.

Record world := {
  regs : creg → Z;
  raw : nat → list CAN_FIFOMailBox;
  busy0 : bool; busy1 : bool; busy2 : bool;
  reqs : list (Z * CAN_TxMailBox);
  ev : bool;
  drv : CANDriver
}.

Definition fifo (i : nat) (w : world) : list CAN_FIFOMailBox := take 3 (raw w i).
Definition head_reg (w : world) (i : nat) (f : CAN_FIFOMailBox → Z) : Z :=
  match fifo i w with [] => 0 | m :: _ => f m end.

Definition tsr_of (b0 b1 b2 : bool) : Z :=
  (if b0 then 0 else CAN_TSR_TME0) + (if b1 then 0 else CAN_TSR_TME1) + (if b2 then 0 else CAN_TSR_TME2)
  + Z.shiftl (if b0 then if b1 then 2 else 1 else 0) 24.

Definition sim_rd (w : world) (r : creg) : Z :=
  match r with
  | RFR i => Z.of_nat (length (fifo i w))
  | rRIR i => head_reg w i RIR
  | rRDTR i => head_reg w i RDTR
  | rRDLR i => head_reg w i RDLR
  | rRDHR i => head_reg w i RDHR
  | TSR => tsr_of (busy0 w) (busy1 w) (busy2 w)
  | _ => regs w r
  end.

Definition set_reg (r : creg) (v : Z) (w : world) : world :=
  {| regs := λ r', if decide (r' = r) then v else regs w r'; raw := raw w;
     busy0 := busy0 w; busy1 := busy1 w; busy2 := busy2 w; reqs := reqs w; ev := ev w; drv := drv w |}.

Definition release (i : nat) (w : world) : world :=
  {| regs := regs w; raw := λ j, if decide (i = j) then tail (fifo j w) else raw w j;
     busy0 := busy0 w; busy1 := busy1 w; busy2 := busy2 w; reqs := reqs w; ev := ev w; drv := drv w |}.

Definition request (mb d : Z) (w : world) : world :=
  {| regs := regs w; raw := raw w;
     busy0 := busy0 w || (mb =? 0); busy1 := busy1 w || (mb =? 1); busy2 := busy2 w || (mb =? 2);
     reqs := reqs w ++ [(mb, {| TIR := d; TDTR := regs w (rTDTR mb); TDLR := regs w (rTDLR mb);
                                TDHR := regs w (rTDHR mb) |})];
     ev := ev w; drv := drv w |}.

Definition sim_wr (r : creg) (v : Z) (w : world) : world :=
  match r with
  | RFR i => if v =? CAN_RFR_RFOM then release i w else w
  | rTIR mb => if negb (Z.land v CAN_TI0R_TXRQ =? 0) then request mb v w else set_reg r v w
  | _ => set_reg r v w
  end.

#[global] Instance sim_hw : CanHw world := {
  can_rd := sim_rd; can_wr := sim_wr; hw_call c w := w
}.

#[global] Instance sim_obj : CanObj world := {
  CAND1 := drv;
  set_CAND1 d w := {| regs := regs w; raw := raw w; busy0 := busy0 w; busy1 := busy1 w;
                      busy2 := busy2 w; reqs := reqs w; ev := ev w; drv := d |}
}.

Definition set_event (b : bool) (w : world) : world :=
  {| regs := regs w; raw := raw w; busy0 := busy0 w; busy1 := busy1 w;
     busy2 := busy2 w; reqs := reqs w; ev := b; drv := drv w |}.

(** A thread that waits is never woken here: it runs into its timeout. *)
#[global] Instance sim_osal : Osal world can_queue can_event := {
  osalThreadQueueObjectInit q w := w;
  osalEventObjectInit e w := w;
  osalThreadEnqueueTimeoutS q t w := (MSG_TIMEOUT, w);
  osalThreadDequeueAllI q m w := w;
  osalEventBroadcastFlagsI e f w := match e with rxfull_event => set_event true w | _ => w end;
  osalThreadSleepS t w := set_reg MSR CAN_MSR_INAK w;
  osalOsRescheduleS w := w
}.

Lemma sim_tsr_code w :
  Z.land (sim_rd w TSR) CAN_TSR_TME ≠ 0 →
  ∃ mb, Z.shiftr (Z.land (sim_rd w TSR) CAN_TSR_CODE) 24 = mb ∧ 0 <= mb < 3
    ∧ Z.land (sim_rd w TSR) (Z.shiftl CAN_TSR_TME0 mb) ≠ 0.
Proof.
  cbn [sim_rd]. destruct (busy0 w), (busy1 w), (busy2 w); intros Hn;
    (eexists; split; [reflexivity|]); split; try done; lia.
Qed.

Lemma land_pow2_bit a n : 0 <= n → Z.land a (2 ^ n) ≠ 0 → Z.testbit a n = true.
Proof.
  intros Hn H. destruct (Z.testbit a n) eqn:E; [done|]. exfalso. apply H. apply Z.bits_inj'.
  intros k Hk. rewrite Z.land_spec, Z.pow2_bits_eqb, Z.bits_0 by done.
  destruct (Z.eqb_spec n k) as [<-|]; [by rewrite E|apply andb_false_r].
Qed.

#[global] Instance sim_laws : CanLaws world fifo reqs ev.
Proof.
  split; intros.
  - cbn [can_rd sim_hw sim_rd]. assert (length (fifo i w) <= 3)%nat as L
      by (unfold fifo; rewrite length_take; lia).
    split; [done|]. change CAN_RFR_FMP with (Z.ones 2). rewrite Z.land_ones by lia.
    apply Z.mod_small. lia.
  - cbn [can_rd sim_hw sim_rd]. unfold head_reg. by rewrite H0.
  - cbn [can_wr sim_hw sim_wr Z.eqb CAN_RFR_RFOM Pos.eqb release fifo raw]. unfold fifo at 1.
    cbn [raw release]. case_decide; [|done]. subst. unfold fifo.
    destruct (raw w j) as [|a [|b [|c [|d l]]]]; done.
  - destruct r; cbn [can_wr sim_hw sim_wr]; try done.
    + rewrite (H fifo0) by done. done.
    + by destruct (negb _).
  - cbn. rewrite decide_True by done. done.
  - destruct r; cbn [can_wr sim_hw sim_wr can_rd sim_rd set_reg regs]; try done;
      try (by rewrite decide_False).
    + by destruct (v =? CAN_RFR_RFOM).
    + by destruct (negb _).
  - by apply sim_tsr_code.
  - cbn [can_wr sim_hw sim_wr]. destruct (Z.eqb_spec (Z.land d CAN_TI0R_TXRQ) 0) as [|_]; [done|].
    cbn [negb request set_reg reqs regs]. rewrite !(decide_False (P := rTDTR mb = _)), !(decide_False (P := rTDLR mb = rTDHR _)), !(decide_False (P := rTDLR mb = rTDTR _)) by done.
    by rewrite !(decide_True (P := _ mb = _ mb)).
  - destruct r; cbn [can_wr sim_hw sim_wr]; try done.
    + by destruct (_ =? _).
    + by destruct (negb _).
  - destruct r; cbn [can_wr sim_hw sim_wr]; try done.
    + by destruct (_ =? _).
    + by destruct (negb _).
  - done.
  - done.
  - by destruct e.
  - done.
Qed.

(** ** Witnesses *)

Definition frame (d : Z) : CAN_FIFOMailBox := {| RIR := 0xE4603 * 8 + 4; RDTR := 1; RDLR := d; RDHR := 0 |}.
Definition ready : CANDriver := {| state := CAN_READY; config := None |}.
Definition w0 : world :=
  {| regs := λ r, match r with IER => IER_enabled | _ => 0 end; raw := λ i, [];
     busy0 := false; busy1 := false; busy2 := false; reqs := []; ev := false; drv := ready |}.
(** FIFO 0 with frames, and the interrupt served or not. *)
Definition w_rx (l : list CAN_FIFOMailBox) (ie : Z) (e : bool) : world :=
  {| regs := λ r, match r with IER => ie | _ => 0 end; raw := λ i, match i with O => l | _ => [] end;
     busy0 := false; busy1 := false; busy2 := false; reqs := []; ev := e; drv := ready |}.

Definition rx0 : CANRxFrame := mk_rx 0 0 0 0 0 0 [0; 0; 0; 0; 0; 0; 0; 0].

Lemma canReceive_immediate_witness :
  ∃ w', canReceive 1 CAN_ANY_MAILBOX rx0 TIME_IMMEDIATE (w_rx [frame 7; frame 9] 0 true)
    = Ok ((MSG_OK, rx_decode (frame 7) rx0), w') ∧ queued (fifo := fifo) w' = [frame 9].
Proof.
  destruct (canReceive_immediate (fifo := fifo) (requests := reqs) (event := ev)
              0 (w_rx [frame 7; frame 9] 0 true) rx0) as (w' & H & Hq & _); [discriminate|].
  exists w'. split; [exact H|exact Hq].
Defined.

Lemma no_lost_wakeup_witness :
  ev (w_rx [frame 7] IER_enabled false) = true
  ∨ (fmpie 0 (w_rx [frame 7] IER_enabled false) = true
     ∧ ∃ w', STM32_CAN1_UNIFIED_HANDLER (w_rx [frame 7] IER_enabled false) = Ok (tt, w') ∧ ev w' = true).
Proof.
  apply (no_lost_wakeup (requests := reqs) Waiting (w_rx [] IER_enabled false)
           Waiting (w_rx [frame 7] IER_enabled false) 0).
  - done.
  - intros j Hj. by destruct j as [|[|]].
  - apply rtc_once. apply frame_arrives with (i := 0%nat) (m := frame 7); try done; try lia.
    intros [|[|j]] Hj; done.
  - done.
  - lia.
  - done.
Defined.

Definition tx1 : CANTxFrame := mk_tx 8 0 1 0xE4600 [9; 85; 85; 85; 85; 1; 0; 1].

Lemma canTransmit_correct_witness :
  ∃ n, ∀ fuel, (n <= fuel)%nat →
    ∃ mb w2, canTransmit fuel CAN_ANY_MAILBOX tx1 1000 w0 = Ok (MSG_OK, w2)
      ∧ 0 <= mb < 3 ∧ reqs w2 = [(mb, tx_encode tx1)].
Proof.
  destruct (canTransmit_correct (requests := reqs) tx1 1000 w0 MSG_OK w0) as (n & Hn).
  - by apply waits_over.
  - exists n. intros fuel Hf. destruct (Hn fuel Hf) as [_ Hok].
    destruct (Hok eq_refl) as (mb & w2 & Ht & _ & Hmb & _ & Hr). by exists mb, w2.
Defined.

End CanSim.
