(* ===== verification/Platform.v ===== *)
(** * The application's state and platform

    The globals of the firmware's own files (system_CAN.c, analogx_api.c,
    logging.c, system.c, system_ADC.c) in one record, and the operations of
    ChibiOS and the board that the application calls, as a class over the world
    [W]. The stream SD2 is the world's own [BaseSequentialStream] instance:
    while the serial driver blocks, the rest of the world may move on. *)

From S2P Require Import Prelude CBuf Streams SysTime Fw Printf CanFrame CanDriver.
Import SysTime CanFrame CanDriver.

Module Platform.

Record globals := {
  g_can_base_address : Z;
  g_selected_can_config : option CANConfig;
  update_rate_hz : Z;               (* g_config_group_1.update_rate_hz *)
  g_provisioned : bool;
  logging_level : Z;
  system_initialized : bool;
  internal_samples : list Z;
  raw_samples : list Z              (* adc_samples.raw_samples *)
}.

Inductive port := GPIOA | GPIOB.
Inductive sysreg := RCC_APB2ENR | SYSCFG_CFGR1.
Inductive thread := can_rx | adc_worker.

Record ADCConversionGroup := {
  circular : bool; num_channels : Z; cfgr1 : Z; tr : Z; smpr : Z; chselr : Z
}.

Record WDGConfig := { pr : Z; rlr : Z; winr : Z }.

Class Platform (W : Type) := {
  G : W → globals;
  set_G : globals → W → W;
  chVTGetSystemTimeX : W → Z;
  chThdSleep : Z → W → W;
  chThdShouldTerminateX : W → bool;
  chRegSetThreadName : string → W → W;
  chThdCreateStatic : thread → W → W;
  chEvtRegister : W → W;
  chEvtUnregister : W → W;
  chEvtWaitAnyTimeout : Z → Z → W → Z * W;
  can_start : option CANConfig → fw W unit;
  can_transmit : Z → CANTxFrame → Z → fw W Z;
  can_receive : Z → CANRxFrame → Z → fw W (Z * CANRxFrame);
  palSetPadMode : port → Z → Z → W → W;
  palSetGroupMode : port → Z → Z → Z → W → W;
  palReadPad : port → Z → W → Z;
  palClearPad : port → Z → W → W;
  set_register_bits : sysreg → Z → W → W;
  adcStart : W → W;
  adcStartConversion : ADCConversionGroup → Z → W → W;
  sdStart : Z → W → W;
  sdGet : W → Z * W;
  wdgStart : WDGConfig → W → W;
  wdgReset : W → W;
  halInit : W → W;
  chSysInit : W → W;
  NVIC_SystemReset : W → W;
  (* what an uninitialised frame on the stack holds *)
  stack_tx : W → CANTxFrame;
  stack_rx : W → CANRxFrame
}.

(** A change of the globals. *)
Definition update {W} `{Platform W} (f : globals → globals) : fw W unit :=
  modify (λ w, set_G (f (G w)) w).
Definition global {W A} `{Platform W} (f : globals → A) : fw W A := gets (λ w, f (G w)).

(** [chprintf] on SD2; its result is not used. *)
Definition print {W} `{BaseSequentialStream W} (fmt : list Z) (args : list Printf.varg) : fw W unit :=
  λ w, match Printf.chprintf w fmt args with
       | Ok (w', _) => Ok (tt, w')
       | Err e => Err e
       end.

Definition chThdSleepMilliseconds {W} `{Platform W} (msec : Z) : fw W unit :=
  modify (chThdSleep (MS2ST msec)).

(** ** settings.h *)

Definition MAJOR_VER : Z := 1.
Definition MINOR_VER : Z := 0.
Definition PATCH_VER : Z := 1.
Definition SETTINGS_CHANNEL_COUNT : Z := 9.
Definition SYSTEM_RESET_DELAY : Z := 10.
Definition CAN_TRANSMIT_TIMEOUT : Z := 100.
Definition DEFAULT_SAMPLE_RATE : Z := 50.

(** The settings of the globals at power up. *)
Definition initial_globals : globals := {|
  g_can_base_address := 0xE4600;
  g_selected_can_config := None;
  update_rate_hz := DEFAULT_SAMPLE_RATE;
  g_provisioned := false;
  logging_level := 1;
  system_initialized := false;
  internal_samples := [0; 0; 0; 0];
  raw_samples := [0; 0; 0; 0]
|}.

(** Updates of one field. *)
Definition with_base (b : Z) (g : globals) : globals := {|
  g_can_base_address := b; g_selected_can_config := g_selected_can_config g;
  update_rate_hz := update_rate_hz g; g_provisioned := g_provisioned g;
  logging_level := logging_level g; system_initialized := system_initialized g;
  internal_samples := internal_samples g; raw_samples := raw_samples g |}.
Definition with_config (c : option CANConfig) (g : globals) : globals := {|
  g_can_base_address := g_can_base_address g; g_selected_can_config := c;
  update_rate_hz := update_rate_hz g; g_provisioned := g_provisioned g;
  logging_level := logging_level g; system_initialized := system_initialized g;
  internal_samples := internal_samples g; raw_samples := raw_samples g |}.
Definition with_rate (r : Z) (g : globals) : globals := {|
  g_can_base_address := g_can_base_address g; g_selected_can_config := g_selected_can_config g;
  update_rate_hz := r; g_provisioned := g_provisioned g;
  logging_level := logging_level g; system_initialized := system_initialized g;
  internal_samples := internal_samples g; raw_samples := raw_samples g |}.
Definition with_provisioned (b : bool) (g : globals) : globals := {|
  g_can_base_address := g_can_base_address g; g_selected_can_config := g_selected_can_config g;
  update_rate_hz := update_rate_hz g; g_provisioned := b;
  logging_level := logging_level g; system_initialized := system_initialized g;
  internal_samples := internal_samples g; raw_samples := raw_samples g |}.
Definition with_level (l : Z) (g : globals) : globals := {|
  g_can_base_address := g_can_base_address g; g_selected_can_config := g_selected_can_config g;
  update_rate_hz := update_rate_hz g; g_provisioned := g_provisioned g;
  logging_level := l; system_initialized := system_initialized g;
  internal_samples := internal_samples g; raw_samples := raw_samples g |}.
Definition with_initialized (b : bool) (g : globals) : globals := {|
  g_can_base_address := g_can_base_address g; g_selected_can_config := g_selected_can_config g;
  update_rate_hz := update_rate_hz g; g_provisioned := g_provisioned g;
  logging_level := logging_level g; system_initialized := b;
  internal_samples := internal_samples g; raw_samples := raw_samples g |}.
Definition with_internal (s : list Z) (g : globals) : globals := {|
  g_can_base_address := g_can_base_address g; g_selected_can_config := g_selected_can_config g;
  update_rate_hz := update_rate_hz g; g_provisioned := g_provisioned g;
  logging_level := logging_level g; system_initialized := system_initialized g;
  internal_samples := s; raw_samples := raw_samples g |}.
Definition with_raw (s : list Z) (g : globals) : globals := {|
  g_can_base_address := g_can_base_address g; g_selected_can_config := g_selected_can_config g;
  update_rate_hz := update_rate_hz g; g_provisioned := g_provisioned g;
  logging_level := logging_level g; system_initialized := system_initialized g;
  internal_samples := internal_samples g; raw_samples := s |}.

(** What the application relies on: a store of the globals keeps the value. *)
Class PlatformLaws (W : Type) `{Platform W} := {
  G_set g w : G (set_G g w) = g;
  set_set g g' w : set_G g (set_G g' w) = set_G g w;
  G_pad p n m w : G (palSetPadMode p n m w) = G w;
  stack_tx_wf w : tx_wf (stack_tx w);
  stack_rx_wf w : rx_wf (stack_rx w)
}.

End Platform.
