(* ===== verification/Logging.v ===== *)
(** * Logging (logging.c, logging.h)

    The log macros test the level, print the time in milliseconds and then the
    message; the frame loggers print the identifier and the data bytes. *)

From S2P Require Import Prelude CBuf Numeral Streams SysTime Fw Printf CanFrame Platform.
Import SysTime CanFrame Platform Printf.

Module Logging.

(** A message literal with its line end and terminator. *)
Definition CRLF : string := String "013" (String "010" EmptyString).
Definition line (s : string) : list Z := cstr (String.append s CRLF).

Definition logging_level_none : Z := 0.
Definition logging_level_info : Z := 1.
Definition logging_level_debug : Z := 2.

Section logging.
Context {W : Type} `{Platform W} `{BaseSequentialStream W}.

Definition set_logging_level (level : Z) : fw W unit :=
  if logging_level_debug <? level then ret tt else update (with_level level).

Definition get_logging_level : fw W Z := global logging_level.

Definition log_at (threshold : Z) (m : fw W unit) : fw W unit :=
  level ← get_logging_level; when (threshold <=? level) m.

Definition print_time : fw W unit :=
  now ← gets chVTGetSystemTimeX; print (cstr "%i ") [VWord (ST2MS now)].

Definition log_info (msg : list Z) (args : list varg) : fw W unit :=
  log_at logging_level_info (print_time;; print msg args).
Definition log_debug (msg : list Z) (args : list varg) : fw W unit :=
  log_at logging_level_debug (print_time;; print msg args).
Definition log_info_b (msg : list Z) (args : list varg) : fw W unit :=
  log_at logging_level_info (print msg args).
Definition log_debug_b (msg : list Z) (args : list varg) : fw W unit :=
  log_at logging_level_debug (print msg args).

Definition _log_debug_can_frame (dlc ide sid eid : Z) (data_bytes : list Z) : fw W unit :=
  let can_id := if ide =? CAN_IDE_EXT then eid else sid in
  log_debug_b (cstr " ID(%i) ") [VWord can_id];;
  for_upto (Z.to_nat dlc) 0
    (λ i, b ← lift (brd data_bytes i); log_debug_b (cstr "%02X ") [VWord b]).

Definition log_CAN_rx_message (log_pfx : list Z) (can_frame : CANRxFrame) : fw W unit :=
  level ← get_logging_level;
  if level <? logging_level_debug then ret tt
  else
    log_debug log_pfx [];;
    log_debug_b (cstr "CAN Rx") [];;
    _log_debug_can_frame (rx_DLC can_frame) (rx_IDE can_frame)
      (get_SID (rx_id can_frame)) (get_EID (rx_id can_frame)) (rx_data8 can_frame).

Definition log_CAN_tx_message (log_pfx : list Z) (can_frame : CANTxFrame) : fw W unit :=
  level ← get_logging_level;
  if level <? logging_level_info then ret tt
  else
    log_info log_pfx [];;
    log_info_b (cstr "CAN Tx") [];;
    level ← get_logging_level;
    when (logging_level_debug <=? level)
      (_log_debug_can_frame (tx_DLC can_frame) (tx_IDE can_frame)
         (get_SID (tx_id can_frame)) (get_EID (tx_id can_frame)) (tx_data8 can_frame));;
    log_info_b (cstr CRLF) [].

End logging.

(** ** The text of the messages *)

Definition hex_digit (d : Z) : Z := if d <? 10 then 48 + d else 55 + d.
Definition hex_byte (b : Z) : list Z := [hex_digit (b / 16); hex_digit (b mod 16)].

(** A message format without directives. *)
Definition plain (s : list Z) : Prop := Forall (λ c, 0 < c < 256 ∧ c ≠ 37) s.

Lemma num_str_dec v : num_str 65 10 v = dec_string v.
Proof.
  unfold dec_string, num_str. apply list_fmap_ext. intros i d Hd.
  assert (Forall (λ d, 0 <= d < 10) (num 10 v)) as Hf by (apply num_digits; lia).
  pose proof (Forall_lookup_1 _ _ _ _ Hf Hd) as H. cbv beta in H. unfold digit_char. zcases; lia.
Qed.

Lemma pad_none body : body ≠ [] → pad false 32 0 body = body.
Proof.
  intros Hb. unfold pad. destruct body as [|c rest]; [done|].
  rewrite andb_false_r. by replace (Z.to_nat (0 - Z.of_nat (length (c :: rest)))) with O by (cbn [length]; lia).
Qed.

Definition time_items (ms : Z) : list item := [Dir false false 0 (CDec 105 ms); Lit 32].
Definition id_items (id : Z) : list item :=
  [Lit 32; Lit 73; Lit 68; Lit 40; Dir false false 0 (CDec 105 id); Lit 41; Lit 32].
Definition byte_items (b : Z) : list item := [Dir false true 2 (CUns 88 b); Lit 32].

Lemma dec_item_out z : 0 <= z → item_out (Dir false false 0 (CDec 105 z)) = dec_string z.
Proof.
  intros Hz. cbn [item_out conv_body conv_filler]. rewrite (proj2 (Z.ltb_ge z 0)) by lia.
  rewrite Z.abs_eq, num_str_dec by lia. cbn [sign_str app].
  apply pad_none, num_str_nonempty.
Qed.

Lemma byte_items_out b : 0 <= b < 256 → items_out (byte_items b) = hex_byte b ++ [32].
Proof.
  intros Hb.
  assert (range_all 256 0 (λ b, bool_decide (items_out (byte_items b) = hex_byte b ++ [32])) = true)
    as R by (vm_compute; reflexivity).
  pose proof (range_all_spec _ _ _ R b ltac:(lia)) as Rb. cbv beta in Rb.
  by apply bool_decide_eq_true_1 in Rb.
Qed.

Lemma dec_string_length v : 0 <= v < 10 ^ 10 → (1 <= length (dec_string v) <= 10)%nat.
Proof.
  intros Hv. unfold dec_string. rewrite length_num_str. split.
  - pose proof (num_length_pos 10 v). lia.
  - apply (num_length_le 10 ltac:(lia) 10); lia.
Qed.

Section text.
Context {W : Type} `{Platform W} `{BaseSequentialStream W}
  {wf : W → Prop} {accepted : W → list Z} {L : StreamLaws W wf accepted (λ _, None)}.

Lemma print_items its w :
  wf w → Forall item_ok its → Z.of_nat (length (items_out its)) <= INT32_MAX →
  ∃ w', print (items_fmt its ++ [0]) (items_args its) w = Ok (tt, w') ∧ wf w'
    ∧ accepted w' = accepted w ++ items_out its.
Proof using L.
  intros Hwf Hok Hlen. unfold print, chprintf. rewrite chvprintf_items by done.
  destruct (emit_list_accepted (items_out its) w 0) as (w' & -> & Hwf' & Ha);
    [done|by apply items_out_bytes|lia|lia|]. by exists w'.
Qed.

Lemma print_plain s w :
  wf w → plain s → Z.of_nat (length s) <= INT32_MAX →
  ∃ w', print (s ++ [0]) [] w = Ok (tt, w') ∧ wf w' ∧ accepted w' = accepted w ++ s.
Proof using L.
  intros Hwf Hs Hl.
  assert (items_fmt (Lit <$> s) = s ∧ items_args (Lit <$> s) = [] ∧ items_out (Lit <$> s) = s) as (E1 & E2 & E3).
  { clear. induction s as [|c s (IH1 & IH2 & IH3)]; [done|].
    unfold items_fmt, items_args, items_out in *. rewrite !fmap_cons. cbn. by rewrite IH1, IH2, IH3. }
  pose proof (print_items (Lit <$> s) w Hwf) as P. rewrite E1, E2, E3 in P. apply P; [|done].
  apply Forall_fmap. eapply Forall_impl; [|exact Hs]. done.
Qed.

Lemma print_time_spec w :
  wf w →
  ∃ w', print_time w = Ok (tt, w') ∧ wf w'
    ∧ accepted w' = accepted w ++ dec_string (ST2MS (chVTGetSystemTimeX w)) ++ [32].
Proof using L.
  intros Hwf. unfold print_time. rewrite (fw_bind_ok _ _ _ _ _ eq_refl). cbv beta.
  set (ms := ST2MS _).
  assert (0 <= ms <= 429496) as Hms by (unfold ms, ST2MS, CH_CFG_ST_FREQUENCY; cint).
  destruct (print_items (time_items ms) w Hwf) as (w' & Hp & Hwf' & Ha).
  - unfold time_items. forall_list; cbn; unfold INT32_MIN, INT32_MAX in *; try lia; auto.
  - unfold items_out, time_items. rewrite !fmap_cons, dec_item_out by lia. cbn [concat app fmap list_fmap item_out].
    pose proof (dec_string_length ms ltac:(lia)). rewrite length_app. unfold INT32_MAX. simpl. lia.
  - exists w'. split_and!; [exact Hp|done|]. rewrite Ha. unfold items_out, time_items.
    by rewrite !fmap_cons, dec_item_out by lia.
Qed.

(** With the level known, a log macro prints. *)
Lemma log_at_on threshold m w :
  (threshold <= logging_level (G w)) → log_at threshold m w = m w.
Proof.
  intros Hl. unfold log_at. rewrite (fw_bind_ok _ _ _ _ _ eq_refl). cbv beta.
  by rewrite (proj2 (Z.leb_le _ _)).
Qed.

Lemma log_at_off threshold (m : fw W unit) w :
  logging_level (G w) < threshold → log_at threshold m w = Ok (tt, w).
Proof.
  intros Hl. unfold log_at. rewrite (fw_bind_ok _ _ _ _ _ eq_refl). cbv beta.
  by rewrite (proj2 (Z.leb_gt _ _)).
Qed.

Context (debug_level : ∀ w, wf w → logging_level (G w) = logging_level_debug).

Lemma log_debug_plain s w :
  wf w → plain s → Z.of_nat (length s) <= INT32_MAX →
  ∃ w', log_debug (s ++ [0]) [] w = Ok (tt, w') ∧ wf w'
    ∧ accepted w' = accepted w ++ dec_string (ST2MS (chVTGetSystemTimeX w)) ++ [32] ++ s.
Proof using L debug_level.
  intros Hwf Hs Hl. unfold log_debug. rewrite log_at_on by (rewrite debug_level; done || lia).
  destruct (print_time_spec w Hwf) as (w1 & E1 & Hwf1 & A1).
  destruct (print_plain s w1 Hwf1 Hs Hl) as (w2 & E2 & Hwf2 & A2).
  exists w2. rewrite (fw_bind_ok _ _ _ _ _ E1). split_and!; [done|done|].
  by rewrite A2, A1, <-!app_assoc.
Qed.

Lemma log_bytes data k i w :
  wf w → Forall byte data → (i + k <= length data)%nat →
  ∃ w', (for_upto k i (λ i, b ← lift (brd data i); log_debug_b (cstr "%02X ") [VWord b]) : fw W unit) w
        = Ok (tt, w') ∧ wf w'
    ∧ accepted w' = accepted w ++ concat ((λ b, hex_byte b ++ [32]) <$> take k (drop i data)).
Proof using L debug_level.
  revert i w. induction k as [|k IH]; intros i w Hwf Hb Hk.
  { exists w. split_and!; [done|done|]. by rewrite app_nil_r. }
  destruct (drop_nonempty data i) as (b & Hbi & ->); [lia|].
  assert (byte b) as Hbb by (by eapply Forall_lookup_1). unfold byte in Hbb. cbn [for_upto].
  destruct (print_items (byte_items b) w Hwf) as (w1 & E1 & Hwf1 & A1).
  - unfold byte_items. forall_list; cbn; unfold INT32_MAX; try lia; auto.
  - rewrite byte_items_out by done. cbn. unfold INT32_MAX. lia.
  - destruct (IH (S i) w1 Hwf1 Hb ltac:(lia)) as (w2 & E2 & Hwf2 & A2).
    exists w2. rewrite fw_bind_ok with (a := tt) (w1 := w1).
    + split_and!; [done|done|]. rewrite A2, A1, byte_items_out by done.
      cbn [take]. by rewrite fmap_cons, <-app_assoc.
    + rewrite fw_bind_ok with (a := b) (w1 := w) by (unfold lift; by rewrite (brd_ok _ _ _ Hbi)).
      unfold log_debug_b. rewrite log_at_on by (rewrite debug_level; done || lia). exact E1.
Qed.

Definition dump_bytes (data : list Z) (k i : nat) : fw W unit :=
  for_upto k i (λ i, b ← lift (brd data i); log_debug_b (cstr "%02X ") [VWord b]).

Lemma log_bytes_overrun data k i w :
  wf w → Forall byte data → (i <= length data)%nat → (length data < i + k)%nat →
  dump_bytes data k i w = Err OutOfBounds.
Proof using L debug_level.
  intros Hwf Hb Hi Hk. unfold dump_bytes.
  assert (k = length data - i + S (k - 1 - (length data - i)))%nat as -> by lia.
  set (rest := S _). destruct (log_bytes data (length data - i) i w Hwf Hb ltac:(lia)) as (w' & E & _ & _).
  rewrite for_upto_app, (fw_bind_ok _ _ _ _ _ E). unfold rest. cbn [for_upto].
  apply fw_bind_err, fw_bind_err. unfold lift, brd.
  by rewrite lookup_ge_None_2 by lia.
Qed.

(** What is printed before the data bytes. *)
Lemma log_CAN_rx_head pfx f w :
  wf w → plain pfx → Z.of_nat (length pfx) <= INT32_MAX → rx_wf f →
  ∃ w', log_CAN_rx_message (pfx ++ [0]) f w = dump_bytes (rx_data8 f) (Z.to_nat (rx_DLC f)) 0 w'
    ∧ wf w' ∧ accepted w' = accepted w
        ++ dec_string (ST2MS (chVTGetSystemTimeX w)) ++ bytes_of " " ++ pfx
        ++ bytes_of "CAN Rx ID(" ++ dec_string (ident (rx_IDE f) (rx_id f)) ++ bytes_of ") ".
Proof using L debug_level.
  intros Hwf Hp Hl Hf. unfold log_CAN_rx_message. rewrite (fw_bind_ok _ _ _ _ _ eq_refl). cbv beta.
  rewrite debug_level by done. cbn [Z.ltb Z.compare logging_level_debug Pos.compare Pos.compare_cont].
  destruct (log_debug_plain pfx w Hwf Hp Hl) as (w1 & E1 & Hwf1 & A1).
  rewrite (fw_bind_ok _ _ _ _ _ E1).
  destruct (print_plain (bytes_of "CAN Rx") w1 Hwf1) as (w2 & E2 & Hwf2 & A2);
    [apply (bool_decide_unpack _); by vm_compute|cbn; unfold INT32_MAX; lia|].
  unfold log_debug_b at 1.
  rewrite (fw_bind_ok _ _ w1 tt w2) by (rewrite log_at_on by (rewrite debug_level; done || lia); exact E2).
  unfold _log_debug_can_frame. cbv zeta. fold (ident (rx_IDE f) (rx_id f)).
  set (id := ident (rx_IDE f) (rx_id f)).
  assert (0 <= id < 2 ^ 29) as Hid.
  { unfold id, ident. rewrite get_EID_mod, get_SID_mod.
    pose proof (Z.mod_pos_bound (rx_id f) (2 ^ 29) eq_refl).
    pose proof (Z.mod_pos_bound (rx_id f) (2 ^ 11) eq_refl). destruct (_ =? _); lia. }
  assert (items_out (id_items id) = bytes_of " ID(" ++ dec_string id ++ bytes_of ") ") as Eid.
  { unfold items_out, id_items. rewrite !fmap_cons, dec_item_out by lia. done. }
  destruct (print_items (id_items id) w2 Hwf2) as (w3 & E3 & Hwf3 & A3).
  { unfold id_items. forall_list; cbn; unfold INT32_MIN, INT32_MAX in *; try lia; auto. }
  { rewrite Eid, !length_app. pose proof (dec_string_length id ltac:(lia)).
    unfold INT32_MAX. cbn [bytes_of length fmap list_fmap list_ascii_of_string]. lia. }
  rewrite (fw_bind_ok _ _ w2 tt w3)
    by (unfold log_debug_b; rewrite log_at_on by (rewrite debug_level; done || lia); exact E3).
  exists w3. split_and!; [done|done|]. by rewrite A3, A2, A1, Eid, <-!app_assoc.
Qed.

(** At debug level a received frame with at most eight data
    bytes is logged as the time in milliseconds, the prefix, [CAN Rx ID(n) ]
    with the identifier of the view the frame selects in decimal, and each data
    byte as two upper-case hexadecimal digits and a space. *)
Theorem log_CAN_rx_text pfx f w :
  wf w → plain pfx → Z.of_nat (length pfx) <= INT32_MAX → rx_wf f → rx_DLC f <= 8 →
  ∃ w', log_CAN_rx_message (pfx ++ [0]) f w = Ok (tt, w')
    ∧ accepted w' = accepted w
        ++ dec_string (ST2MS (chVTGetSystemTimeX w)) ++ bytes_of " " ++ pfx
        ++ bytes_of "CAN Rx ID(" ++ dec_string (ident (rx_IDE f) (rx_id f)) ++ bytes_of ") "
        ++ concat ((λ b, hex_byte b ++ bytes_of " ") <$> take (Z.to_nat (rx_DLC f)) (rx_data8 f)).
Proof using L debug_level.
  intros Hwf Hp Hl Hf Hd. destruct (log_CAN_rx_head pfx f w Hwf Hp Hl Hf) as (w3 & -> & Hwf3 & A3).
  destruct (log_bytes (rx_data8 f) (Z.to_nat (rx_DLC f)) 0 w3) as (w4 & E4 & _ & A4);
    [done|apply Hf|rewrite (rwf_len f Hf); lia|].
  exists w4. split; [exact E4|]. by rewrite A4, A3, drop_0, <-!app_assoc.
Qed.

(** At debug level a frame whose length code is above eight, which
    the bus allows, makes the logger read past the eight data bytes. *)
Theorem log_CAN_rx_overrun pfx f w :
  wf w → plain pfx → Z.of_nat (length pfx) <= INT32_MAX → rx_wf f → 8 < rx_DLC f →
  log_CAN_rx_message (pfx ++ [0]) f w = Err OutOfBounds.
Proof using L debug_level.
  intros Hwf Hp Hl Hf Hd. destruct (log_CAN_rx_head pfx f w Hwf Hp Hl Hf) as (w3 & -> & Hwf3 & _).
  pose proof (rwf_len f Hf). apply log_bytes_overrun; [done|apply Hf|lia|lia].
Qed.

End text.

End Logging.
