(* ===== verification/Api.v ===== *)
(** * The CAN API of the device (system_CAN.c, analogx_api.c, system.c)

    The base address and bit rate chosen by jumpers, the worker that receives
    and dispatches configuration messages, and the announcement and statistics
    the device broadcasts. *)

From S2P Require Import Prelude CBuf Streams SysTime Fw Printf CanFrame CanDriver Platform Logging.
Import SysTime CanFrame CanDriver Platform Printf Logging.

Module Api.

Definition CAN_LOG_PFX : string := "SYS_CAN:     ".
Definition API_LOG_PFX : string := "API:         ".
Definition SYS_LOG_PFX : string := "SYS:         ".

Definition CAN_WORKER_STARTUP_DELAY : Z := 500.
Definition ADR1_ADDRESS_PORT : Z := 0.
Definition ADR2_ADDRESS_PORT : Z := 4.
Definition BAUD_RATE_PORT : Z := 2.
Definition CAN_RX_CONTROL_PORT : Z := 1.

Definition ANALOGX_CAN_BASE_ID : Z := 0xE4600.
Definition ANALOGX_CAN_API_RANGE : Z := 256.
Definition API_STATS : Z := 2.
Definition API_SET_CONFIG_GROUP_1 : Z := 3.
Definition API_BROADCAST_SENSORS : Z := 20.
Definition ALL_EVENTS : Z := 0xFFFFFFFF.

Definition CAN_MCR_TXFP : Z := 0x4.
Definition CAN_MCR_NART : Z := 0x10.
Definition CAN_MCR_AWUM : Z := 0x20.
Definition CAN_MCR_ABOM : Z := 0x40.
Definition CAN_BTR (sjw ts1 ts2 brp : Z) : Z :=
  Z.lor (Z.lor (Z.lor (Z.shiftl sjw 24) (Z.shiftl ts1 16)) (Z.shiftl ts2 20)) brp.

Definition cancfg_500K : CANConfig := {|
  mcr := Z.lor (Z.lor (Z.lor CAN_MCR_ABOM CAN_MCR_AWUM) CAN_MCR_TXFP) CAN_MCR_NART;
  btr := CAN_BTR 1 11 2 5
|}.
Definition cancfg_1MB : CANConfig := {|
  mcr := Z.lor (Z.lor (Z.lor CAN_MCR_ABOM CAN_MCR_AWUM) CAN_MCR_TXFP) CAN_MCR_NART;
  btr := CAN_BTR 1 11 2 2
|}.

Definition PAL_HIGH : Z := 1.
Definition PAL_STM32_MODE_INPUT : Z := 0.
Definition PAL_STM32_MODE_OUTPUT : Z := 1.
Definition PAL_STM32_MODE_ALTERNATE : Z := 2.
Definition PAL_STM32_PUPDR_PULLUP : Z := Z.shiftl 1 5.
Definition PAL_STM32_ALTERNATE (n : Z) : Z := Z.shiftl n 7.
Definition RCC_APB2ENR_SYSCFGCOMPEN : Z := 0x1.
Definition SYSCFG_CFGR1_PA11_PA12_RMP : Z := 0x10.

(** ** prepare_can_tx_message *)

Definition prepare_can_tx_message (tx_frame : CANTxFrame) (can_id_type can_id : Z) : CANTxFrame :=
  {| tx_IDE := can_id_type mod 2;
     tx_id := if can_id_type =? CAN_IDE_EXT then set_EID (tx_id tx_frame) can_id
              else set_SID (tx_id tx_frame) can_id;
     tx_RTR := CAN_RTR_DATA;
     tx_DLC := 8;
     tx_data8 := put_bytes (tx_data8 tx_frame) 0 (replicate 8 0x55) |}.

(** [frame.data8[i] = v] and [frame.DLC = v] *)
Definition set_data8 (i : nat) (v : Z) (f : CANTxFrame) : CANTxFrame :=
  {| tx_IDE := tx_IDE f; tx_id := tx_id f; tx_RTR := tx_RTR f; tx_DLC := tx_DLC f;
     tx_data8 := <[i := u8 v]> (tx_data8 f) |}.
Definition set_DLC (v : Z) (f : CANTxFrame) : CANTxFrame :=
  {| tx_IDE := tx_IDE f; tx_id := tx_id f; tx_RTR := tx_RTR f; tx_DLC := v mod 16;
     tx_data8 := tx_data8 f |}.

Section api.
Context {W : Type} `{Platform W} `{BaseSequentialStream W}.

(** ** system_CAN.c *)

Definition _spin_wait : fw W unit := for_upto (Z.to_nat 100000) 0 (λ _, ret tt).

Definition _select_can_configuration : fw W CANConfig :=
  modify (palSetPadMode GPIOA BAUD_RATE_PORT (Z.lor PAL_STM32_MODE_INPUT PAL_STM32_PUPDR_PULLUP));;
  _spin_wait;;
  pad ← gets (palReadPad GPIOA BAUD_RATE_PORT);
  ret (if pad =? PAL_HIGH then cancfg_1MB else cancfg_500K).

Definition init_can_gpio : fw W unit :=
  modify (set_register_bits RCC_APB2ENR RCC_APB2ENR_SYSCFGCOMPEN);;
  modify (set_register_bits SYSCFG_CFGR1 SYSCFG_CFGR1_PA11_PA12_RMP);;
  modify (palSetPadMode GPIOA CAN_RX_CONTROL_PORT PAL_STM32_MODE_OUTPUT);;
  modify (palClearPad GPIOA CAN_RX_CONTROL_PORT);;
  modify (palSetPadMode GPIOA 11 (Z.lor PAL_STM32_MODE_ALTERNATE (PAL_STM32_ALTERNATE 4)));;
  modify (palSetPadMode GPIOA 12 (Z.lor PAL_STM32_MODE_ALTERNATE (PAL_STM32_ALTERNATE 4)));;
  c ← global g_selected_can_config;
  can_start c.

Definition init_can_operating_parameters : fw W unit :=
  modify (palSetPadMode GPIOA ADR1_ADDRESS_PORT (Z.lor PAL_STM32_MODE_INPUT PAL_STM32_PUPDR_PULLUP));;
  modify (palSetPadMode GPIOA ADR2_ADDRESS_PORT (Z.lor PAL_STM32_MODE_INPUT PAL_STM32_PUPDR_PULLUP));;
  _spin_wait;;
  adr1 ← gets (palReadPad GPIOA ADR1_ADDRESS_PORT);
  adr2 ← gets (palReadPad GPIOA ADR2_ADDRESS_PORT);
  let offset := Z.lor (if adr1 =? PAL_HIGH then 0x01 else 0x00)
                      (if adr2 =? PAL_HIGH then 0x02 else 0x00) in
  update (λ g, with_base (u32 (g_can_base_address g + u32 (ANALOGX_CAN_API_RANGE * offset))) g);;
  c ← _select_can_configuration;
  update (with_config (Some c)).

Definition system_can_init : fw W unit :=
  init_can_operating_parameters;; init_can_gpio.

Definition get_can_base_id : fw W Z := global g_can_base_address.

(** ** analogx_api.c *)

Definition api_is_provisoned : fw W bool := global g_provisioned.
Definition set_api_is_provisioned (provisioned : bool) : fw W unit :=
  update (with_provisioned provisioned).
Definition api_initialize : fw W unit := ret tt.
Definition get_sample_rate : fw W Z := global update_rate_hz.
Definition set_sample_rate (sample_rate : Z) : fw W unit := update (with_rate (u8 sample_rate)).

Definition api_set_config_group_1 (rx_msg : CANRxFrame) : fw W unit :=
  if rx_DLC rx_msg <? 1
  then log_info (line (String.append API_LOG_PFX "Invalid params for set config group 1")) []
  else
    sample_rate ← lift (brd (rx_data8 rx_msg) 0);
    set_sample_rate sample_rate.

Definition announcement (base : Z) (stk : CANTxFrame) : CANTxFrame :=
  let f := prepare_can_tx_message stk CAN_IDE_EXT base in
  let f := set_data8 0 SETTINGS_CHANNEL_COUNT f in
  let f := set_data8 1 0x55 f in
  let f := set_data8 2 0x55 f in
  let f := set_data8 3 0x55 f in
  let f := set_data8 4 0x55 f in
  let f := set_data8 5 MAJOR_VER f in
  let f := set_data8 6 MINOR_VER f in
  let f := set_data8 7 PATCH_VER f in
  set_DLC 8 f.

Definition api_send_announcement : fw W unit :=
  stk ← gets stack_tx;
  base ← get_can_base_id;
  can_transmit CAN_ANY_MAILBOX (announcement base stk) (MS2ST CAN_TRANSMIT_TIMEOUT);;
  log_info (line (String.append API_LOG_PFX "Broadcast announcement")) [].

(** ** system.c *)

Definition set_system_initialized (initialized : bool) : fw W unit :=
  update (with_initialized initialized).
Definition get_system_initialized : fw W bool := global system_initialized.

Definition stats_frame (base rate : Z) (stk : CANTxFrame) : CANTxFrame :=
  let f := prepare_can_tx_message stk CAN_IDE_EXT (u32 (base + API_STATS)) in
  let f := set_data8 0 rate f in
  let f := set_data8 5 MAJOR_VER f in
  let f := set_data8 6 MINOR_VER f in
  let f := set_data8 7 PATCH_VER f in
  set_DLC 8 f.

Definition broadcast_stats : fw W unit :=
  stk ← gets stack_tx;
  base ← get_can_base_id;
  rate ← get_sample_rate;
  can_transmit CAN_ANY_MAILBOX (stats_frame base rate stk) (MS2ST CAN_TRANSMIT_TIMEOUT);;
  log_info (line (String.append SYS_LOG_PFX "Broadcast stats")) [].

Definition reset_system : fw W unit :=
  log_info (line (String.append SYS_LOG_PFX "Resetting System")) [];;
  chThdSleepMilliseconds SYSTEM_RESET_DELAY;;
  modify NVIC_SystemReset.

Definition check_system_state : fw W unit := ret tt.

(** ** The worker *)

(** [can_id] is an [int32_t]; the difference is unsigned. *)
Definition dispatch_can_rx (rx_msg : CANRxFrame) : fw W bool :=
  let can_id := if rx_IDE rx_msg =? CAN_IDE_EXT then get_EID (rx_id rx_msg)
                else get_SID (rx_id rx_msg) in
  base ← get_can_base_id;
  if u32 (can_id - base) =? API_SET_CONFIG_GROUP_1
  then api_set_config_group_1 rx_msg;; set_api_is_provisioned true;; ret true
  else ret false.

(** The inner loop: frames are taken without waiting until there is none. *)
Fixpoint drain (fuel : nat) (rx_msg : CANRxFrame) : fw W CANRxFrame :=
  match fuel with
  | O => throw OutOfFuel
  | S fuel =>
    r ← can_receive CAN_ANY_MAILBOX rx_msg TIME_IMMEDIATE;
    if (r : Z * CANRxFrame).1 =? MSG_OK
    then log_CAN_rx_message (cstr CAN_LOG_PFX) r.2;; dispatch_can_rx r.2;; drain fuel r.2
    else ret r.2
  end.

Definition can_worker_step (fuel : nat) (rx_msg : CANRxFrame) : fw W CANRxFrame :=
  ev ← (λ w, Ok (chEvtWaitAnyTimeout ALL_EVENTS (MS2ST 1000) w));
  if ev =? 0
  then
    p ← api_is_provisoned;
    when (negb p) api_send_announcement;;
    ret rx_msg
  else drain fuel rx_msg.

Fixpoint can_worker_loop (rounds fuel : nat) (rx_msg : CANRxFrame) : fw W unit :=
  match rounds with
  | O => throw OutOfFuel
  | S rounds =>
    stop ← gets chThdShouldTerminateX;
    if (stop : bool) then ret tt
    else rx_msg ← can_worker_step fuel rx_msg; can_worker_loop rounds fuel rx_msg
  end.

Definition can_worker (rounds fuel : nat) : fw W unit :=
  rx_msg ← gets stack_rx;
  modify (chRegSetThreadName "CAN receiver");;
  modify chEvtRegister;;
  chThdSleepMilliseconds CAN_WORKER_STARTUP_DELAY;;
  base ← get_can_base_id;
  log_info (line (String.append CAN_LOG_PFX "CAN base address: %u")) [VWord base];;
  c ← global g_selected_can_config;
  (if bool_decide (c = Some cancfg_500K)
   then log_info (line (String.append CAN_LOG_PFX "CAN baud: 500K")) []
   else if bool_decide (c = Some cancfg_1MB)
   then log_info (line (String.append CAN_LOG_PFX "CAN baud: 1MB")) []
   else log_info (line (String.append CAN_LOG_PFX "CAN baud: unknown / invalid")) []);;
  api_send_announcement;;
  can_worker_loop rounds fuel rx_msg;;
  modify chEvtUnregister.

End api.

(** ** Frames *)

(** A data frame of eight bytes with an extended identifier. *)
Definition ext_frame (f : CANTxFrame) (id : Z) (data : list Z) : Prop :=
  tx_wf f ∧ tx_IDE f = CAN_IDE_EXT ∧ tx_RTR f = CAN_RTR_DATA ∧ tx_DLC f = 8
  ∧ ident (tx_IDE f) (tx_id f) = id ∧ tx_data8 f = data.

Lemma prepare_ext stk id :
  tx_wf stk → 0 <= id < 2 ^ 29 →
  ext_frame (prepare_can_tx_message stk CAN_IDE_EXT id) id (replicate 8 0x55).
Proof.
  intros [HD HR HI Hid Hl Hb] H. unfold ext_frame, prepare_can_tx_message, put_bytes.
  cbn [tx_IDE tx_RTR tx_DLC tx_id tx_data8]. rewrite Z.eqb_refl, drop_ge by (rewrite length_replicate; lia).
  split_and!; try done.
  - constructor; cbn [tx_IDE tx_RTR tx_DLC tx_id tx_data8]; try (unfold CAN_IDE_EXT, CAN_RTR_DATA; cint).
    + by apply set_EID_range.
    + done.
    + unfold byte. apply (bool_decide_unpack _). by vm_compute.
  - change (CAN_IDE_EXT mod 2) with 1. cbn [ident Z.eqb CAN_IDE_EXT]. unfold ident.
    cbn [Z.eqb CAN_IDE_EXT Pos.eqb]. rewrite get_set_EID. by apply Z.mod_small.
Qed.

Lemma set_data8_ext i v f id data :
  ext_frame f id data → (i < 8)%nat → 0 <= v < 256 →
  ext_frame (set_data8 i v f) id (<[i := v]> data).
Proof.
  intros ([HD HR HI Hid Hl Hb] & E1 & E2 & E3 & E4 & E5) Hi Hv.
  unfold ext_frame, set_data8. cbn [tx_IDE tx_RTR tx_DLC tx_id tx_data8].
  rewrite u8_id by done. split_and!; try done; [|by rewrite E5].
  constructor; cbn [tx_IDE tx_RTR tx_DLC tx_id tx_data8]; try done.
  - by rewrite length_insert.
  - by apply Forall_insert.
Qed.

Lemma set_DLC_ext f id data : ext_frame f id data → ext_frame (set_DLC 8 f) id data.
Proof.
  intros ([HD HR HI Hid Hl Hb] & E1 & E2 & E3 & E4 & E5).
  by split_and!.
Qed.

Lemma ext_frame_eq f id d d' : ext_frame f id d → d = d' → ext_frame f id d'.
Proof. by intros ? <-. Qed.

(** The frames the device announces itself and its statistics
    with are well-formed extended data frames of eight bytes: the announcement
    has the base identifier, nine channels and the version in the last three
    bytes, the statistics the base identifier plus two, the sample rate and the
    version; the other bytes are 0x55, whatever the stack held before. *)
Theorem broadcast_frames base rate stk :
  tx_wf stk → 0 <= base → base + 255 < 2 ^ 29 → 0 <= rate < 256 →
  ext_frame (announcement base stk) base [9; 0x55; 0x55; 0x55; 0x55; 1; 0; 1]
  ∧ ext_frame (stats_frame base rate stk) (base + 2) [rate; 0x55; 0x55; 0x55; 0x55; 1; 0; 1].
Proof.
  intros Hs Hb Hb2 Hr.
  unfold announcement, stats_frame. split; eapply ext_frame_eq.
  - apply set_DLC_ext. repeat (eapply set_data8_ext; [|lia|done]). apply prepare_ext; [done|lia].
  - reflexivity.
  - apply set_DLC_ext. do 3 (eapply set_data8_ext; [|lia|done]).
    eapply set_data8_ext; [|lia|done]. unfold API_STATS. rewrite u32_id by lia.
    apply prepare_ext; [done|lia].
  - reflexivity.
Qed.

(** ** Dispatch *)

(** Whether a frame is a configuration message for the device at [base], and
    what it does to the globals. *)
Definition is_config (base : Z) (f : CANRxFrame) : bool :=
  ident (rx_IDE f) (rx_id f) =? base + API_SET_CONFIG_GROUP_1.

Definition apply_config (base : Z) (f : CANRxFrame) (g : globals) : globals :=
  if is_config base f
  then with_provisioned true
         (if 1 <=? rx_DLC f then with_rate (default 0 (rx_data8 f !! 0%nat)) g else g)
  else g.

Lemma ident_range ide id : 0 <= ident ide id < 2 ^ 29.
Proof.
  unfold ident. rewrite get_EID_mod, get_SID_mod. pose proof (Z.mod_pos_bound id (2 ^ 29) eq_refl).
  pose proof (Z.mod_pos_bound id (2 ^ 11) eq_refl). destruct (_ =? _); lia.
Qed.

Section dispatch.
Context {W : Type} `{PlatformLaws W} `{BaseSequentialStream W}.

Lemma update_eq f w : update f w = Ok (tt, set_G (f (G w)) w).
Proof. done. Qed.

(** The three cases of a dispatch. *)
Lemma dispatch_can_rx_cases f w :
  rx_wf f → 0 <= g_can_base_address (G w) → g_can_base_address (G w) + 255 < 2 ^ 29 →
  let base := g_can_base_address (G w) in
  (is_config base f = false → dispatch_can_rx f w = Ok (false, w))
  ∧ (is_config base f = true → 1 <= rx_DLC f →
       dispatch_can_rx f w = Ok (true, set_G (apply_config base f (G w)) w))
  ∧ (is_config base f = true → rx_DLC f = 0 →
       dispatch_can_rx f w
       = (log_info (line (String.append API_LOG_PFX "Invalid params for set config group 1")) [];;
          set_api_is_provisioned true;; ret true) w).
Proof.
  intros Hf Hb1 Hb2 base. unfold dispatch_can_rx, is_config. fold (ident (rx_IDE f) (rx_id f)).
  pose proof (ident_range (rx_IDE f) (rx_id f)) as Hid. set (id := ident (rx_IDE f) (rx_id f)) in *.
  rewrite (fw_bind_ok _ _ _ _ _ eq_refl). cbv beta zeta. fold base. fold base in Hb1, Hb2.
  unfold API_SET_CONFIG_GROUP_1.
  replace (u32 (id - base) =? 3) with (id =? base + 3) by (zcases; cint).
  split_and!; [by intros ->| |].
  - intros E HD. rewrite E. unfold apply_config, is_config. fold id. unfold API_SET_CONFIG_GROUP_1. rewrite E.
    unfold api_set_config_group_1. rewrite (proj2 (Z.ltb_ge _ _)), (proj2 (Z.leb_le _ _)) by lia.
    destruct f as [fmi tm dlc rtr ide idw data]. cbn [rx_data8 rx_DLC] in *.
    destruct Hf as [_ _ _ _ _ _ Hl Hbs]. cbn [rx_data8] in *.
    destruct data as [|d data]; [done|]. apply Forall_cons_1 in Hbs as [Hd _]. unfold byte in Hd.
    rewrite fw_bind_eq, fw_bind_eq. cbn [lift brd lookup list_lookup default from_option].
    unfold set_sample_rate, set_api_is_provisioned. rewrite update_eq, u8_id by done.
    rewrite fw_bind_eq, update_eq. unfold ret. by rewrite set_set, G_set.
  - intros E HD. rewrite E. unfold api_set_config_group_1. by rewrite HD.
Qed.

(** C26 (functional). A frame is dispatched only when the identifier of the view
    it selects is the base identifier plus three; then its first data byte
    becomes the sample rate, if it has one, and the device counts as
    provisioned even when it has none; every other frame changes nothing. *)
Theorem dispatch_can_rx_spec f w :
  rx_wf f → 0 <= g_can_base_address (G w) → g_can_base_address (G w) + 255 < 2 ^ 29 →
  let base := g_can_base_address (G w) in
  (is_config base f = false → dispatch_can_rx f w = Ok (false, w))
  ∧ (is_config base f = true → 1 <= rx_DLC f →
       dispatch_can_rx f w = Ok (true, set_G (apply_config base f (G w)) w))
  ∧ (is_config base f = true → rx_DLC f = 0 →
       dispatch_can_rx f w
       = (log_info (line (String.append API_LOG_PFX "Invalid params for set config group 1")) [];;
          set_api_is_provisioned true;; ret true) w).
Proof. exact (dispatch_can_rx_cases f w). Qed.

End dispatch.

(** ** The operating parameters *)

(** The bit rate the timing register gives at a peripheral clock: a bit is the
    synchronisation segment and the two time segments, in prescaled ticks. *)
Definition bit_rate (clock : Z) (c : CANConfig) : Z :=
  let brp := Z.land (btr c) 0x3FF + 1 in
  let ts1 := Z.land (Z.shiftr (btr c) 16) 0xF + 1 in
  let ts2 := Z.land (Z.shiftr (btr c) 20) 0x7 + 1 in
  clock / (brp * (1 + ts1 + ts2)).

Definition jumper (v : Z) : Z := if v =? PAL_HIGH then 1 else 0.

Lemma jumper_range v : 0 <= jumper v <= 1.
Proof. unfold jumper. destruct (v =? PAL_HIGH); lia. Qed.

(** The address jumpers, pulled up and then read, choose one of
    four blocks of 256 extended identifiers from 0xE4600 on, and the baud jumper
    one of two configurations whose bit rates at 48 MHz are 1 Mbit/s and 500
    kbit/s. *)
Theorem can_parameters {W : Type} `{PlatformLaws W} (w : W) :
  g_can_base_address (G w) = ANALOGX_CAN_BASE_ID →
  let pullup := Z.lor PAL_STM32_MODE_INPUT PAL_STM32_PUPDR_PULLUP in
  let w2 := palSetPadMode GPIOA ADR2_ADDRESS_PORT pullup
              (palSetPadMode GPIOA ADR1_ADDRESS_PORT pullup w) in
  let base := 0xE4600 + 256 * (jumper (palReadPad GPIOA ADR1_ADDRESS_PORT w2)
                               + 2 * jumper (palReadPad GPIOA ADR2_ADDRESS_PORT w2)) in
  let w3 := palSetPadMode GPIOA BAUD_RATE_PORT pullup (set_G (with_base base (G w)) w2) in
  let fast := palReadPad GPIOA BAUD_RATE_PORT w3 =? PAL_HIGH in
  let c := if fast then cancfg_1MB else cancfg_500K in
  init_can_operating_parameters w = Ok (tt, set_G (with_config (Some c) (with_base base (G w))) w3)
  ∧ 0 <= base ∧ base + 255 < 2 ^ 29
  ∧ bit_rate 48000000 c = (if fast then 1000000 else 500000).
Proof.
  intros Hb pullup w2 base w3 fast c. split.
  2: { pose proof (jumper_range (palReadPad GPIOA ADR1_ADDRESS_PORT w2)).
       pose proof (jumper_range (palReadPad GPIOA ADR2_ADDRESS_PORT w2)).
       split; [lia|]. split; [lia|]. unfold c. by destruct fast. }
  unfold init_can_operating_parameters, _spin_wait.
  do 2 (rewrite (fw_bind_ok _ _ _ _ _ eq_refl); cbv beta). fold pullup. fold w2.
  rewrite (fw_bind_ok _ _ _ _ _ (for_upto_ret _ _ w2)).
  do 2 (rewrite (fw_bind_ok _ _ _ _ _ eq_refl); cbv beta). cbv zeta.
  assert (G w2 = G w) as Gw2 by (unfold w2; by rewrite !G_pad).
  rewrite (fw_bind_ok _ _ w2 tt (set_G (with_base base (G w)) w2)).
  2: { rewrite update_eq. do 3 f_equal. rewrite Gw2, Hb. unfold base, jumper, ANALOGX_CAN_API_RANGE.
       by destruct (palReadPad GPIOA ADR1_ADDRESS_PORT w2 =? PAL_HIGH), (palReadPad GPIOA ADR2_ADDRESS_PORT w2 =? PAL_HIGH). }
  unfold _select_can_configuration, _spin_wait.
  rewrite fw_bind_eq, (fw_bind_ok _ _ _ _ _ eq_refl). cbv beta. fold pullup. fold w3.
  rewrite (fw_bind_ok _ _ _ _ _ (for_upto_ret _ _ w3)), (fw_bind_ok _ _ _ _ _ eq_refl). cbv beta.
  fold fast. fold c. unfold ret. rewrite update_eq. unfold w3. by rewrite G_pad, G_set.
Qed.

(** ** Draining the receive queue *)

Definition rx_zero : CANRxFrame := mk_rx 0 0 0 0 0 0 (replicate 8 0).

(** What a receive without waiting does, as the driver promises it
    ([CanDriver.canReceive_immediate]); [rxq] is the frames received and not
    yet taken. *)
Class CanReceiveLaws (W : Type) `{Platform W} (rxq : W → list CAN_FIFOMailBox) := {
  receive_immediate w buf :
    match rxq w with
    | [] => can_receive CAN_ANY_MAILBOX buf TIME_IMMEDIATE w = Ok ((MSG_TIMEOUT, buf), w)
    | m :: q => ∃ w', can_receive CAN_ANY_MAILBOX buf TIME_IMMEDIATE w = Ok ((MSG_OK, rx_decode m buf), w')
        ∧ rxq w' = q ∧ G w' = G w
    end;
  rxq_wf w : Forall fifo_wf (rxq w);
  rxq_set_G g w : rxq (set_G g w) = rxq w
}.

Lemma rx_zero_wf : rx_wf rx_zero.
Proof. constructor; try done. unfold byte. apply (bool_decide_unpack _). by vm_compute. Qed.

Definition apply_mailbox (base : Z) (g : globals) (m : CAN_FIFOMailBox) : globals :=
  apply_config base (rx_decode m rx_zero) g.

Lemma apply_mailbox_decode base m r g :
  rx_wf r → apply_config base (rx_decode m r) g = apply_mailbox base g m.
Proof.
  intros Hr. unfold apply_mailbox, apply_config, is_config.
  destruct (rx_decode_indep m r rx_zero Hr rx_zero_wf) as (-> & _ & -> & ->). done.
Qed.

Lemma apply_config_keeps base f g :
  g_can_base_address (apply_config base f g) = g_can_base_address g
  ∧ logging_level (apply_config base f g) = logging_level g.
Proof. unfold apply_config. by destruct (is_config base f), (1 <=? rx_DLC f). Qed.

(** ** Handling a frame

    [view] is what else is seen of the world; printing and storing globals leave it
    alone. *)
Section quiet.
Context {W B : Type} `{PlatformLaws W} `{BaseSequentialStream W} (view : W → B) {accepted : W → list Z}
  (quiet : ∀ g v, StreamLaws W (λ w, G w = g ∧ view w = v) accepted (λ _, None))
  (view_set_G : ∀ g w, view (set_G g w) = view w).

(** Printing the complaint about an empty configuration message. *)
Lemma log_info_plain s w :
  logging_level (G w) = logging_level_info → plain s → Z.of_nat (length s) <= INT32_MAX →
  ∃ w', log_info (s ++ [0]) [] w = Ok (tt, w') ∧ G w' = G w ∧ view w' = view w.
Proof using All.
  intros Hl Hs Hlen. unfold log_info. rewrite log_at_on by (rewrite Hl; done).
  destruct (print_time_spec (L := quiet (G w) (view w)) w) as (w1 & E1 & [G1 Q1] & _); [done|].
  destruct (print_plain (L := quiet (G w) (view w)) s w1) as (w2 & E2 & [G2 Q2] & _); try done.
  exists w2. rewrite (fw_bind_ok _ _ _ _ _ E1). done.
Qed.

Lemma dispatch_step f w :
  rx_wf f → logging_level (G w) = logging_level_info →
  0 <= g_can_base_address (G w) → g_can_base_address (G w) + 255 < 2 ^ 29 →
  ∃ b w', dispatch_can_rx f w = Ok (b, w')
    ∧ G w' = apply_config (g_can_base_address (G w)) f (G w) ∧ view w' = view w.
Proof using All.
  intros Hf Hl Hb1 Hb2. destruct (dispatch_can_rx_cases f w Hf Hb1 Hb2) as (Hno & Hok & Hempty).
  destruct (is_config (g_can_base_address (G w)) f) eqn:E.
  - destruct (decide (1 <= rx_DLC f)) as [HD|HD].
    + rewrite Hok by done. eexists _, _. split; [done|]. by rewrite G_set, view_set_G.
    + assert (rx_DLC f = 0) as HD0 by (pose proof (rwf_DLC f Hf); lia).
      rewrite Hempty by done.
      destruct (log_info_plain (bytes_of (String.append (String.append API_LOG_PFX
        "Invalid params for set config group 1") CRLF)) w Hl) as (w1 & E1 & G1 & Q1).
      { apply (bool_decide_unpack _). by vm_compute. }
      { unfold INT32_MAX. by vm_compute. }
      unfold line, cstr. rewrite (fw_bind_ok _ _ _ _ _ E1). eexists _, _. split; [reflexivity|].
      rewrite G_set, view_set_G, G1, Q1. unfold apply_config. rewrite E.
      by rewrite (proj2 (Z.leb_gt _ _)) by lia.
  - rewrite Hno by done. exists false, w. unfold apply_config. by rewrite E.
Qed.

End quiet.

Section drain.
Context {W : Type} `{PlatformLaws W} `{BaseSequentialStream W}
  {rxq : W → list CAN_FIFOMailBox} {R : CanReceiveLaws W rxq} {accepted : W → list Z}
  (quiet : ∀ g q, StreamLaws W (λ w, G w = g ∧ rxq w = q) accepted (λ _, None)).

(** C5 (refinement). At the default logging level the worker's inner loop takes
    every frame that has been received, in order, and terminates with the queue
    empty; the globals it leaves are those of applying the configuration
    messages among the frames, in order, to the globals it started from. *)
Theorem drain_refines fuel w buf :
  rx_wf buf → logging_level (G w) = logging_level_info →
  0 <= g_can_base_address (G w) → g_can_base_address (G w) + 255 < 2 ^ 29 →
  (length (rxq w) < fuel)%nat →
  ∃ buf' w', drain fuel buf w = Ok (buf', w') ∧ rxq w' = []
    ∧ G w' = foldl (apply_mailbox (g_can_base_address (G w))) (G w) (rxq w).
Proof using All.
  remember (rxq w) as q eqn:Eq. revert fuel w buf Eq.
  induction q as [|m q IH]; intros fuel w buf Eq Hbuf Hl Hb1 Hb2 Hfuel;
    (destruct fuel as [|fuel]; [lia|]); cbn [drain]; pose proof (receive_immediate w buf) as Hrx;
    rewrite <-Eq in Hrx.
  - rewrite (fw_bind_ok _ _ _ _ _ Hrx). cbn. by exists buf, w.
  - destruct Hrx as (w1 & E1 & Q1 & G1). rewrite (fw_bind_ok _ _ _ _ _ E1). cbn [fst snd].
    change (MSG_OK =? MSG_OK) with true. cbv iota.
    assert (fifo_wf m) as Hm by (pose proof (rxq_wf w) as F; rewrite <-Eq in F; by apply Forall_cons_1 in F as [? _]).
    assert (rx_wf (rx_decode m buf)) as Hf by by apply rx_decode_wf.
    rewrite (fw_bind_ok _ _ w1 tt w1).
    2: { unfold log_CAN_rx_message. rewrite (fw_bind_ok _ _ _ _ _ eq_refl). cbv beta. by rewrite G1, Hl. }
    destruct (dispatch_step rxq quiet rxq_set_G (rx_decode m buf) w1) as (b & w2 & E2 & G2 & Q2); rewrite ?G1; try done.
    rewrite (fw_bind_ok _ _ _ _ _ E2). rewrite G1, apply_mailbox_decode in G2 by done.
    destruct (apply_config_keeps (g_can_base_address (G w)) (rx_decode m rx_zero) (G w)) as [Kb Kl].
    unfold apply_mailbox in G2.
    destruct (IH fuel w2 (rx_decode m buf)) as (buf' & w' & E' & Q' & G'); rewrite ?G2, ?Kb, ?Kl;
      try done; [congruence|simpl in Hfuel; lia|].
    exists buf', w'. split_and!; [done|done|]. rewrite G', G2, Kb. done.
Qed.

End drain.

End Api.
