(* ===== verification/Adc.v ===== *)
(** * Analog sampling (system_ADC.c)

    The worker starts a conversion, copies the samples, scales them to
    millivolts and broadcasts them, then sleeps for the rest of the period. *)

From S2P Require Import Prelude CBuf Float Streams SysTime Fw Printf CanFrame CanDriver Platform Logging Api.
Import SysTime CanFrame CanDriver Platform Printf Logging Api.

Module Adc.

Definition ADC_CHANNELS : Z := 4.
Definition ADC_GRP1_NUM_CHANNELS : Z := ADC_CHANNELS.
Definition ADC_GRP1_BUF_DEPTH : Z := 1.

Definition ADC_CFGR1_RES_12BIT : Z := Z.shiftl 0 3.
Definition ADC_TR (low high : Z) : Z := Z.lor (Z.shiftl high 16) low.
Definition ADC_SMPR_SMP_28P5 : Z := 3.
Definition ADC_CHSELR_CHSEL5 : Z := 0x20.
Definition ADC_CHSELR_CHSEL6 : Z := 0x40.
Definition ADC_CHSELR_CHSEL7 : Z := 0x80.
Definition ADC_CHSELR_CHSEL9 : Z := 0x200.
Definition PAL_MODE_INPUT_ANALOG : Z := 3.
Definition PAL_PORT_BIT (n : Z) : Z := Z.shiftl 1 n.

Definition adcgrpcfg1 : ADCConversionGroup := {|
  circular := false;
  num_channels := ADC_GRP1_NUM_CHANNELS;
  cfgr1 := ADC_CFGR1_RES_12BIT;
  tr := ADC_TR 0 0;
  smpr := ADC_SMPR_SMP_28P5;
  chselr := Z.lor (Z.lor (Z.lor ADC_CHSELR_CHSEL5 ADC_CHSELR_CHSEL6) ADC_CHSELR_CHSEL7)
                  ADC_CHSELR_CHSEL9
|}.

(** [raw_value * 1.0 / 0.80688], in double, then [float], then [uint16_t]. *)
Definition scale_0_to_5_volts (raw_value : Z) : res Z :=
  let scaled := f32_of_f64 (f64_div (f64_mul (f64_of_Z raw_value) (f64_lit 1 1)) (f64_lit 80688 100000)) in
  f_to_u16 scaled.

(** The frame before and after the samples are stored. *)
Definition sensor_frame (base : Z) (samples : list Z) (stk : CANTxFrame) : res CANTxFrame :=
  let f := prepare_can_tx_message stk CAN_IDE_EXT (u32 (base + API_BROADCAST_SENSORS)) in
  let store i d := (raw ← brd samples i; v ← scale_0_to_5_volts raw; Ok (set_data16 d i v)) in
  d ← store 0%nat (tx_data8 f);
  d ← store 1%nat d;
  d ← store 2%nat d;
  d ← store 3%nat d;
  Ok {| tx_IDE := tx_IDE f; tx_id := tx_id f; tx_RTR := tx_RTR f; tx_DLC := tx_DLC f; tx_data8 := d |}.

(** The argument of the last [chThdSleep]: [1000 / rate] is a signed division
    and the subtraction wraps. *)
Definition sleep_time (rate work_time : Z) : res Z :=
  if rate =? 0 then Err DivByZero
  else Ok (u32 (MS2ST (1000 / rate) - work_time)).

Section adc.
Context {W : Type} `{Platform W} `{BaseSequentialStream W}.

(** The conversion callback: the driver passes the buffer it was given. *)
Definition adccallback (buffer : list Z) : fw W unit :=
  b ← lift (brd buffer 0);
  internal ← global internal_samples;
  internal ← lift (bwr internal 0 b);
  update (with_internal internal).

Definition adcerrorcallback (err : Z) : fw W unit := ret tt.

Definition system_adc_init : fw W unit :=
  modify (palSetGroupMode GPIOB (PAL_PORT_BIT 1) 0 PAL_MODE_INPUT_ANALOG);;
  modify (palSetGroupMode GPIOA (PAL_PORT_BIT 7) 0 PAL_MODE_INPUT_ANALOG);;
  modify (palSetGroupMode GPIOA (PAL_PORT_BIT 6) 0 PAL_MODE_INPUT_ANALOG);;
  modify (palSetGroupMode GPIOA (PAL_PORT_BIT 5) 0 PAL_MODE_INPUT_ANALOG);;
  modify adcStart.

(** [adc_samples.raw_samples[i] = internal_samples[j]] *)
Definition copy_sample (i j : nat) : fw W unit :=
  internal ← global internal_samples;
  v ← lift (brd internal j);
  raw ← global raw_samples;
  raw ← lift (bwr raw i v);
  update (with_raw raw).

Definition system_adc_sample : fw W unit :=
  modify (adcStartConversion adcgrpcfg1 ADC_GRP1_BUF_DEPTH);;
  copy_sample 0 3;; copy_sample 1 2;; copy_sample 2 1;; copy_sample 3 0.

Definition adc_worker_step : fw W unit :=
  start ← gets chVTGetSystemTimeX;
  system_adc_sample;;
  stk ← gets stack_tx;
  base ← get_can_base_id;
  samples ← global raw_samples;
  f ← lift (sensor_frame base samples stk);
  can_transmit CAN_ANY_MAILBOX f (MS2ST CAN_TRANSMIT_TIMEOUT);;
  log_debug (line "Sample ADC %d, %d, %d, %d")
    [VWord (data16 (tx_data8 f) 0); VWord (data16 (tx_data8 f) 1);
     VWord (data16 (tx_data8 f) 2); VWord (data16 (tx_data8 f) 3)];;
  now ← gets chVTGetSystemTimeX;
  rate ← get_sample_rate;
  t ← lift (sleep_time rate (u32 (now - start)));
  modify (chThdSleep t).

Fixpoint system_adc_worker (rounds : nat) : fw W unit :=
  match rounds with
  | O => throw OutOfFuel
  | S rounds =>
    stop ← gets chThdShouldTerminateX;
    if (stop : bool) then ret tt else adc_worker_step;; system_adc_worker rounds
  end.

End adc.

(** ** Scaling *)

Definition millivolts (raw : Z) : Z := raw * 100000 / 80688.

Lemma scale_ok raw : 0 <= raw <= 4095 → scale_0_to_5_volts raw = Ok (millivolts raw).
Proof.
  intros Hr. assert (range_all 4096 0 (λ raw, bool_decide (scale_0_to_5_volts raw = Ok (millivolts raw))) = true)
    as R by (vm_compute; reflexivity).
  pose proof (range_all_spec _ _ _ R raw ltac:(lia)) as Hraw. cbv beta in Hraw.
  by apply bool_decide_eq_true_1 in Hraw.
Qed.

(** C40 (equivalence). For every 12-bit sample the scaling, a double division
    converted to [float] and truncated, is the exact integer division: the
    full scale of 4095 is 5075 mV. *)
Theorem scale_exact raw :
  0 <= raw <= 4095 →
  scale_0_to_5_volts raw = Ok (raw * 100000 / 80688) ∧ 0 <= raw * 100000 / 80688 <= 5075.
Proof.
  intros Hr. split; [by apply scale_ok|]. Z.to_euclidean_division_equations; lia.
Qed.

(** The broadcast frame has the base identifier plus twenty
    and the four samples in millivolts, little-endian, in order. *)
Theorem sensor_frame_data base a b c d stk :
  tx_wf stk → 0 <= base → base + 255 < 2 ^ 29 →
  Forall (λ s, 0 <= s <= 4095) [a; b; c; d] →
  ∃ f, sensor_frame base [a; b; c; d] stk = Ok f
    ∧ ext_frame f (base + 20)
        (concat ((λ s, [millivolts s mod 256; millivolts s / 256]) <$> [a; b; c; d])).
Proof.
  intros Hs Hb1 Hb2 Hv. repeat (apply Forall_cons_1 in Hv as [? Hv]). cbv beta in *.
  pose proof (prepare_ext stk (base + 20) Hs ltac:(lia)) as ([HD HR HI Hid Hl Hb] & E1 & E2 & E3 & E4 & E5).
  unfold sensor_frame. unfold API_BROADCAST_SENSORS. rewrite u32_id by lia.
  set (f := prepare_can_tx_message stk CAN_IDE_EXT (base + 20)) in *.
  do 4 (cbn [brd lookup list_lookup mbind res_bind]; rewrite scale_ok by done).
  cbn [mbind res_bind].
  rewrite set_data16_all by done. eexists. split; [reflexivity|].
  assert (∀ s, 0 <= s <= 4095 → le_split 2 (millivolts s) = [millivolts s mod 256; millivolts s / 256]) as Hle.
  { intros s Hs'. cbn [le_split]. do 2 f_equal. rewrite (Z.mod_small (_ / _)); [done|].
    unfold millivolts. Z.to_euclidean_division_equations; lia. }
  rewrite !Hle by done. split_and!; try done.
  constructor; cbn [tx_IDE tx_RTR tx_DLC tx_id tx_data8]; try done.
  assert (∀ s, 0 <= s <= 4095 → byte (millivolts s mod 256) ∧ byte (millivolts s / 256)) as Hby.
  { intros s Hs'. unfold byte, millivolts. Z.to_euclidean_division_equations; lia. }
  cbn [app]. repeat (constructor; [by apply Hby|]). constructor.
Qed.

(** ** Sampling *)

Section sampling.
Context {W : Type} `{PlatformLaws W} `{BaseSequentialStream W}.

(** [adcStartConversion] only starts a conversion: as long as it
    leaves the buffer alone, a sample taken is the content the buffer had
    before, that is the conversion of the previous period (zeros the first
    time), with the channels in reverse order. *)
Theorem sample_is_previous w a b c d :
  (∀ g n w, G (adcStartConversion g n w) = G w) →
  internal_samples (G w) = [a; b; c; d] → length (raw_samples (G w)) = 4%nat →
  ∃ w', system_adc_sample w = Ok (tt, w')
    ∧ G w' = with_raw [d; c; b; a] (G w).
Proof.
  intros Hasync Hint Hraw. unfold system_adc_sample. rewrite (fw_bind_ok _ _ _ _ _ eq_refl). cbv beta.
  set (w1 := adcStartConversion _ _ w). assert (G w1 = G w) as G1 by apply Hasync.
  destruct (raw_samples (G w)) as [|r0 [|r1 [|r2 [|r3 [|]]]]] eqn:Er; try done.
  assert (Hcopy : ∀ i j v w0, internal_samples (G w0) !! j = Some v → (i < length (raw_samples (G w0)))%nat →
    copy_sample i j w0 = Ok (tt, set_G (with_raw (<[i := v]> (raw_samples (G w0))) (G w0)) w0)).
  { intros i j v w0 Hj Hi. unfold copy_sample, global.
    rewrite (fw_bind_ok _ _ _ _ _ eq_refl). cbv beta. rewrite (brd_ok _ _ _ Hj).
    do 2 (rewrite (fw_bind_ok _ _ _ _ _ eq_refl); cbv beta). rewrite bwr_ok by done. done. }
  do 4 (rewrite fw_bind_eq || idtac; erewrite Hcopy by (rewrite ?G_set; cbn; rewrite ?G1, ?Hint, ?Er; cbn; first [reflexivity|lia])).
  eexists. split; [reflexivity|]. rewrite !G_set. cbn. rewrite !G1, Er. destruct (G w). cbn in *. by subst.
Qed.

End sampling.

(** ** The period *)

(** C39 (bounds). The sleep compensates for the work exactly while the work takes
    no longer than the period; one tick more and the sleep is [TIME_INFINITE],
    and any longer work sleeps for almost the whole range of the counter,
    nearly five days. A rate of zero, which a configuration message can set,
    divides by zero. *)
Theorem sleep_time_period rate work :
  0 <= rate < 256 → 0 <= work < 2 ^ 31 →
  let period := 10 * (1000 / rate) in
  (rate = 0 → sleep_time rate work = Err DivByZero)
  ∧ (rate ≠ 0 → work <= period → sleep_time rate work = Ok (period - work))
  ∧ (rate ≠ 0 → work = period + 1 → sleep_time rate work = Ok TIME_INFINITE)
  ∧ (rate ≠ 0 → period < work → ∃ t, sleep_time rate work = Ok t ∧ 2 ^ 31 <= t).
Proof.
  intros Hr Hw period. unfold sleep_time, TIME_INFINITE.
  assert (rate ≠ 0 → 0 <= 1000 / rate <= 1000) as Hd by (intros; Z.to_euclidean_division_equations; nia).
  assert (rate ≠ 0 → MS2ST (1000 / rate) = period) as Hp.
  { intros Hn. unfold MS2ST, CH_CFG_ST_FREQUENCY, period. specialize (Hd Hn).
    rewrite (u32_id (1000 / rate)), u32_id by lia. Z.to_euclidean_division_equations; lia. }
  split_and!; [by intros ->|..]; intros Hn; rewrite (proj2 (Z.eqb_neq rate 0)), Hp by done; specialize (Hd Hn).
  - intros Hle. by rewrite u32_id by lia.
  - intros ->. f_equal. unfold u32. by replace (period - (period + 1)) with (-1) by lia.
  - intros Hlt. eexists. split; [done|]. unfold period in *. cint.
Qed.

End Adc.
