(* ===== verification/Serial.v ===== *)
(** * The serial console (system_serial.c)

    Line input and the configuration of the port. *)

From S2P Require Import Prelude CBuf Streams SysTime Fw CanFrame CanDriver Platform Api.
Import Platform Api.

Module Serial.

Definition SD2_BAUD : Z := 115200.
Definition PAL_STM32_OTYPE_PUSHPULL : Z := Z.shiftl 0 2.
Definition PAL_STM32_OSPEED_HIGHEST : Z := Z.shiftl 3 3.

Section serial.
Context {W : Type} `{Platform W}.

(** The loop of [serial_getline]: [b] is the caller's buffer, [p] the position
    of [buf] in it, [read] the count, which never passes [buf_len - 1]. *)
Fixpoint getline_loop (room : nat) (b : buf) (p : nat) (read : Z) : fw W (buf * nat * Z) :=
  match room with
  | O => ret (b, p, read)
  | S room =>
    c ← (λ w, Ok (sdGet w));
    b ← lift (bwr b p (u8 c));
    last ← lift (brd b p);
    if last =? 13 then ret (b, S p, read + 1) else getline_loop room b (S p) (read + 1)
  end.

(** [buf] is [None] for the null pointer; the result is the buffer and the
    count. *)
Definition serial_getline (b : option buf) (buf_len : Z) : fw W (option buf * Z) :=
  match b with
  | None => ret (None, 0)
  | Some b =>
    if buf_len =? 0 then ret (Some b, 0)
    else
      r ← getline_loop (Z.to_nat (buf_len - 1)) b 0 0;
      let '(b, p, read) := (r : buf * nat * Z) in
      b ← lift (bwr b p 0);
      ret (Some b, read)
  end.

Definition system_serial_init_SD2 (speed : Z) : fw W unit :=
  modify (palSetPadMode GPIOA 2
    (Z.lor (Z.lor (Z.lor PAL_STM32_MODE_ALTERNATE PAL_STM32_OTYPE_PUSHPULL) PAL_STM32_OSPEED_HIGHEST)
           (PAL_STM32_ALTERNATE 1)));;
  modify (palSetPadMode GPIOA 3
    (Z.lor (Z.lor PAL_STM32_MODE_ALTERNATE PAL_STM32_PUPDR_PULLUP) (PAL_STM32_ALTERNATE 1)));;
  modify (sdStart speed).

Definition system_serial_init : fw W unit := system_serial_init_SD2 SD2_BAUD.

(** ** The line read *)

(** The bytes the next [n] reads give, and the world after them. *)
Fixpoint reads (n : nat) (w : W) : list Z * W :=
  match n with
  | O => ([], w)
  | S n => let '(c, w1) := sdGet w in let '(cs, w2) := reads n w1 in (u8 c :: cs, w2)
  end.

(** How many bytes make the line: up to the carriage return, included, and at
    most [n]. *)
Fixpoint line_length (n : nat) (w : W) : nat :=
  match n with
  | O => O
  | S n => let '(c, w1) := sdGet w in if u8 c =? 13 then 1%nat else S (line_length n w1)
  end.

Lemma line_length_le n w : (line_length n w <= n)%nat.
Proof.
  revert w. induction n as [|n IH]; intros w; cbn [line_length]; [done|].
  destruct (sdGet w) as [c w1]. destruct (u8 c =? 13); [lia|]. specialize (IH w1). lia.
Qed.

Lemma reads_length n w : length (reads n w).1 = n.
Proof.
  revert w. induction n as [|n IH]; intros w; cbn [reads]; [done|].
  destruct (sdGet w) as [c w1]. specialize (IH w1). destruct (reads n w1). cbn in *. by rewrite IH.
Qed.

Lemma getline_loop_spec room pre old w read :
  (room <= length old)%nat →
  let n := line_length room w in
  getline_loop room (pre ++ old) (length pre) read w
  = Ok ((pre ++ (reads n w).1 ++ drop n old, (length pre + n)%nat, read + Z.of_nat n), (reads n w).2).
Proof.
  revert pre old w read. induction room as [|room IH]; intros pre old w read Hl; cbv zeta.
  { cbn. by rewrite drop_0, Nat.add_0_r, Z.add_0_r. }
  destruct old as [|o old]; [simpl in Hl; lia|].
  cbn [getline_loop line_length]. rewrite fw_bind_eq.
  destruct (sdGet w) as [c w1] eqn:E. unfold lift. rewrite fw_bind_eq, bwr_mid, fw_bind_eq, brd_mid.
  destruct (Z.eqb_spec (u8 c) 13) as [E13|N13].
  - cbn [reads]. rewrite E. cbn [ret reads fst snd drop app]. by rewrite Nat.add_1_r.
  - specialize (IH (pre ++ [u8 c]) old w1 (read + 1) ltac:(simpl in Hl; lia)). cbv zeta in IH.
    rewrite length_app, <-!app_assoc in IH. cbn [app length] in IH. rewrite Nat.add_1_r in IH.
    rewrite IH. cbn [reads drop]. rewrite E. destruct (reads (line_length room w1) w1) as [cs w2] eqn:E2.
    cbn [fst snd app]. rewrite <-plus_n_Sm. cbn [Nat.add].
    by replace (read + 1 + Z.of_nat (line_length room w1)) with (read + Z.of_nat (S (line_length room w1))) by lia.
Qed.

(** [serial_getline] reads bytes up to and including the first
    carriage return, but never more than [buf_len - 1], stores them followed by
    a zero byte, leaves the rest of the buffer alone and returns their number;
    a null or empty buffer reads nothing. *)
Theorem serial_getline_spec (b : buf) (buf_len : Z) (w : W) :
  0 <= buf_len <= Z.of_nat (length b) →
  let n := line_length (Z.to_nat (buf_len - 1)) w in
  serial_getline None buf_len w = Ok ((None, 0), w)
  ∧ serial_getline (Some b) buf_len w
    = (if buf_len =? 0 then Ok ((Some b, 0), w)
       else Ok ((Some ((reads n w).1 ++ 0 :: drop (S n) b), Z.of_nat n), (reads n w).2))
  ∧ (buf_len ≠ 0 → Z.of_nat n < buf_len).
Proof.
  intros Hl n. split; [done|]. split; [|intros; pose proof (line_length_le (Z.to_nat (buf_len - 1)) w); lia].
  unfold serial_getline. destruct (Z.eqb_spec buf_len 0) as [E|E]; [done|].
  rewrite fw_bind_eq.
  pose proof (getline_loop_spec (Z.to_nat (buf_len - 1)) [] b w 0 ltac:(lia)) as G.
  cbv zeta in G. fold n in G. cbn [app length] in G. rewrite G. cbn [fst snd].
  pose proof (line_length_le (Z.to_nat (buf_len - 1)) w) as Hn. fold n in Hn.
  destruct (drop_nonempty b n) as (x & _ & Hd); [lia|]. rewrite fw_bind_eq. unfold lift.
  rewrite Hd, Z.add_0_l. pose proof (bwr_mid (reads n w).1 x (drop (S n) b) 0) as B.
  rewrite reads_length in B. rewrite Nat.add_0_l. by rewrite B.
Qed.

End serial.

End Serial.
