(* ===== verification/Main.v ===== *)
(** * The main thread (main.c)

    Initialisation, the two worker threads, and the loop that broadcasts the
    statistics and feeds the watchdog. *)

From S2P Require Import Prelude Streams SysTime Fw Printf CanFrame CanDriver Platform Logging Api Adc Serial.
Import SysTime Platform Printf Logging Api Adc Serial.

Module Main.

Definition MAIN_THREAD_SLEEP_NORMAL_MS : Z := 10000.
Definition MAIN_THREAD_CHECK_INTERVAL_MS : Z := 100.
Definition WATCHDOG_ENABLED : bool := true.

Definition STM32_IWDG_PR_64 : Z := 4.
Definition STM32_IWDG_RL (n : Z) : Z := n.
Definition STM32_IWDG_WIN_DISABLED : Z := 0xFFF.

Definition wdgcfg : WDGConfig := {|
  pr := STM32_IWDG_PR_64; rlr := STM32_IWDG_RL 1000; winr := STM32_IWDG_WIN_DISABLED
|}.

(** The decision of one iteration: the new counter and whether to broadcast. *)
Definition stats_tick (stats_check : Z) : Z * bool :=
  let stats_check := u32 (stats_check + MAIN_THREAD_CHECK_INTERVAL_MS) in
  if MAIN_THREAD_SLEEP_NORMAL_MS <? stats_check then (0, true) else (stats_check, false).

Section main.
Context {W : Type} `{Platform W} `{BaseSequentialStream W}.

(** The bodies of the two threads. *)
Definition can_rx_thread (rounds fuel : nat) : fw W unit :=
  modify (chRegSetThreadName "CAN_worker");; can_worker rounds fuel.
Definition adc_worker_thread (rounds : nat) : fw W unit :=
  modify (chRegSetThreadName "ADC worker");; system_adc_worker rounds.

Definition _start_watchdog : fw W unit :=
  if negb WATCHDOG_ENABLED then ret tt else modify (wdgStart wdgcfg).

Definition main_init : fw W unit :=
  modify halInit;;
  modify chSysInit;;
  _start_watchdog;;
  system_can_init;;
  system_adc_init;;
  system_serial_init;;
  log_info (line "===AnalogX START (Version %u.%u.%u)===")
    [VWord MAJOR_VER; VWord MINOR_VER; VWord PATCH_VER];;
  modify (chThdCreateStatic can_rx);;
  modify (chThdCreateStatic adc_worker).

Definition main_step (stats_check : Z) : fw W Z :=
  chThdSleepMilliseconds MAIN_THREAD_CHECK_INTERVAL_MS;;
  let '(stats_check, due) := stats_tick stats_check in
  when due broadcast_stats;;
  when WATCHDOG_ENABLED (modify wdgReset);;
  check_system_state;;
  ret stats_check.

(** The first [rounds] iterations of the endless loop. *)
Fixpoint main_loop (rounds : nat) (stats_check : Z) : fw W Z :=
  match rounds with
  | O => ret stats_check
  | S rounds => stats_check ← main_step stats_check; main_loop rounds stats_check
  end.

Definition main (rounds : nat) : fw W Z := main_init;; main_loop rounds 0.

End main.

(** ** The period of the watchdog

    The prescaler divides the 40 kHz of the internal oscillator by 4, 8, 16...; the
    counter runs from the reload value to zero. The period is 1.6 s, sixteen rounds
    of the main loop's sleep, and not the 11 s that WATCHDOG_TIMEOUT names, which
    nothing uses. *)
Definition WATCHDOG_TIMEOUT : Z := 11000.
Definition STM32_LSICLK : Z := 40000.

Lemma watchdog_period :
  Z.shiftl 4 (pr wdgcfg) * (rlr wdgcfg + 1) * 1000 / STM32_LSICLK = 1601
  ∧ 16 * MAIN_THREAD_CHECK_INTERVAL_MS < 1601 < WATCHDOG_TIMEOUT.
Proof. by vm_compute. Qed.

(** ** The period of the statistics *)

(** The counter after [n] iterations, and whether iteration [n] broadcasts
    (counting from 1). *)
Fixpoint stats_after (n : nat) : Z :=
  match n with O => 0 | S n => (stats_tick (stats_after n)).1 end.
Definition broadcasts (n : nat) : bool :=
  match n with O => false | S n => (stats_tick (stats_after n)).2 end.

Lemma stats_after_mod n : stats_after n = 100 * (Z.of_nat n mod 101).
Proof.
  induction n as [|n IH]; [done|]. cbn [stats_after]. rewrite IH. unfold stats_tick,
    MAIN_THREAD_CHECK_INTERVAL_MS, MAIN_THREAD_SLEEP_NORMAL_MS.
  rewrite u32_id by (Z.to_euclidean_division_equations; lia).
  destruct (Z.ltb_spec 10000 (100 * (Z.of_nat n mod 101) + 100)); cbn [fst];
    Z.to_euclidean_division_equations; lia.
Qed.

(** The loop broadcasts the statistics in every 101st
    iteration and in no other: with 100 ms of sleep in each, 10.1 s of sleep lie
    between two broadcasts, not the 10 s the constant names. *)
Theorem stats_every_101 (n : nat) :
  broadcasts n = bool_decide (n ≠ O ∧ Z.of_nat n mod 101 = 0)
  ∧ Z.of_nat 101 * MAIN_THREAD_CHECK_INTERVAL_MS = MAIN_THREAD_SLEEP_NORMAL_MS + 100.
Proof.
  split; [|done]. destruct n as [|n]; [done|]. cbn [broadcasts]. rewrite stats_after_mod.
  unfold stats_tick, MAIN_THREAD_CHECK_INTERVAL_MS, MAIN_THREAD_SLEEP_NORMAL_MS.
  rewrite u32_id by (Z.to_euclidean_division_equations; lia).
  destruct (Z.ltb_spec 10000 (100 * (Z.of_nat n mod 101) + 100)); cbn [snd]; symmetry;
    [rewrite bool_decide_eq_true|rewrite bool_decide_eq_false]; rewrite Nat2Z.inj_succ;
    Z.to_euclidean_division_equations; lia.
Qed.

End Main.
