(* ===== verification/AppSim.v ===== *)
(** * A simulated platform for the application

    A concrete world that satisfies the laws the application's theorems rely
    on, and the witnesses of those theorems, evaluated on it. *)

From S2P Require Import Prelude CBuf Numeral Float Streams SysTime Fw Printf CanFrame CanDriver.
From S2P Require Import Platform Logging Api Adc Serial.
Import SysTime CanFrame CanDriver Platform Printf Logging Api Adc Serial.

Module AppSim.

Record world := {
  sim_G : globals;
  sim_out : list Z;
  sim_rx : list CAN_FIFOMailBox;
  sim_tx : list CANTxFrame;
  sim_in : list Z;
  sim_pads : Z → Z
}.

Definition on_G (g : globals) (w : world) : world :=
  {| sim_G := g; sim_out := sim_out w; sim_rx := sim_rx w; sim_tx := sim_tx w;
     sim_in := sim_in w; sim_pads := sim_pads w |}.
Definition on_out (o : list Z) (w : world) : world :=
  {| sim_G := sim_G w; sim_out := o; sim_rx := sim_rx w; sim_tx := sim_tx w;
     sim_in := sim_in w; sim_pads := sim_pads w |}.
Definition on_rx (r : list CAN_FIFOMailBox) (w : world) : world :=
  {| sim_G := sim_G w; sim_out := sim_out w; sim_rx := r; sim_tx := sim_tx w;
     sim_in := sim_in w; sim_pads := sim_pads w |}.
Definition on_tx (f : CANTxFrame) (w : world) : world :=
  {| sim_G := sim_G w; sim_out := sim_out w; sim_rx := sim_rx w; sim_tx := sim_tx w ++ [f];
     sim_in := sim_in w; sim_pads := sim_pads w |}.
Definition on_in (i : list Z) (w : world) : world :=
  {| sim_G := sim_G w; sim_out := sim_out w; sim_rx := sim_rx w; sim_tx := sim_tx w;
     sim_in := i; sim_pads := sim_pads w |}.

(** Registers hold 32 bits. *)
Definition norm (m : CAN_FIFOMailBox) : CAN_FIFOMailBox :=
  {| RIR := u32 (RIR m); RDTR := u32 (RDTR m); RDLR := u32 (RDLR m); RDHR := u32 (RDHR m) |}.
Definition rxq (w : world) : list CAN_FIFOMailBox := norm <$> sim_rx w.

Definition stk : CANTxFrame := mk_tx 3 1 0 0xFFFFFFFF [1; 2; 3; 4; 5; 6; 7; 8].

#[global] Instance sim_platform : Platform world := {
  G := sim_G;
  set_G := on_G;
  chVTGetSystemTimeX w := 12345;
  chThdSleep t w := w;
  chThdShouldTerminateX w := false;
  chRegSetThreadName n w := w;
  chThdCreateStatic t w := w;
  chEvtRegister w := w;
  chEvtUnregister w := w;
  chEvtWaitAnyTimeout e t w := (if bool_decide (sim_rx w = []) then 0 else 1, w);
  can_start c := ret tt;
  can_transmit mb f t := λ w, Ok (MSG_OK, on_tx f w);
  can_receive mb f t := λ w,
    match rxq w with
    | [] => Ok ((MSG_TIMEOUT, f), w)
    | m :: _ => Ok ((MSG_OK, rx_decode m f), on_rx (tail (sim_rx w)) w)
    end;
  palSetPadMode p n m w := w;
  palSetGroupMode p n o m w := w;
  palReadPad p n w := sim_pads w n;
  palClearPad p n w := w;
  set_register_bits r m w := w;
  adcStart w := w;
  adcStartConversion g n w := w;
  sdStart s w := w;
  sdGet w := match sim_in w with [] => (0, w) | c :: cs => (c, on_in cs w) end;
  wdgStart c w := w;
  wdgReset w := w;
  halInit w := w;
  chSysInit w := w;
  NVIC_SystemReset w := w;
  stack_tx w := stk;
  stack_rx w := rx_zero
}.

#[global] Instance sim_stream : BaseSequentialStream world := {
  stream_write w bs := Ok (on_out (sim_out w ++ bs) w, Z.of_nat (length bs));
  stream_read w n := Ok (w, []);
  stream_put w b := Ok (on_out (sim_out w ++ [b]) w, MSG_OK);
  stream_get w := Ok (w, MSG_RESET)
}.

Lemma stk_wf : tx_wf stk.
Proof.
  constructor; cbn [stk tx_DLC tx_RTR tx_IDE tx_id tx_data8]; try lia; [done|].
  unfold byte. apply (bool_decide_unpack _). by vm_compute.
Qed.

#[global] Instance sim_platform_laws : PlatformLaws world.
Proof. split; intros; try done; [apply stk_wf|apply rx_zero_wf]. Qed.

#[global] Instance sim_receive_laws : CanReceiveLaws world rxq.
Proof.
  split; [| |done].
  - intros w buf. cbn [can_receive sim_platform]. destruct (sim_rx w) as [|m l] eqn:E.
    + unfold rxq. by rewrite E.
    + unfold rxq. rewrite E. cbn. eexists. split; [reflexivity|]. done.
  - intros w. unfold rxq. apply Forall_fmap. apply Forall_true. intros m.
    split; cbn; apply u32_range.
Qed.

Lemma sim_quiet (P : world → Prop) :
  (∀ o w, P w → P (on_out o w)) → StreamLaws world P sim_out (λ _, None).
Proof.
  intros HP. split; [|done]. intros s b Hs _ _. eexists. split; [reflexivity|].
  split_and!; [by apply HP|done|done].
Qed.

Lemma sim_quiet_laws g q : StreamLaws world (λ w, G w = g ∧ rxq w = q) sim_out (λ _, None).
Proof. apply sim_quiet. intros o w H. exact H. Qed.
Lemma sim_level_laws g : StreamLaws world (λ w, G w = g) sim_out (λ _, None).
Proof. apply sim_quiet. intros o w H. exact H. Qed.

Definition w_of (g : globals) (rx : list CAN_FIFOMailBox) : world :=
  {| sim_G := g; sim_out := []; sim_rx := rx; sim_tx := []; sim_in := bytes_of "go"; sim_pads := λ _, 1 |}.

(** A configuration message for the base address, and another message. *)
Definition config_msg (rate : Z) : CAN_FIFOMailBox :=
  {| RIR := 0xE4603 * 8 + 4; RDTR := 1; RDLR := rate; RDHR := 0 |}.
Definition other_msg : CAN_FIFOMailBox :=
  {| RIR := 0xE4604 * 8 + 4; RDTR := 8; RDLR := 77; RDHR := 0 |}.

(** ** Witnesses *)

Lemma drain_refines_witness :
  ∃ buf' w', drain 4 rx_zero (w_of initial_globals [config_msg 10; other_msg; config_msg 25]) = Ok (buf', w')
    ∧ rxq w' = [] ∧ update_rate_hz (G w') = 25 ∧ g_provisioned (G w') = true.
Proof.
  destruct (drain_refines (rxq := rxq) (accepted := sim_out) sim_quiet_laws
    4 (w_of initial_globals [config_msg 10; other_msg; config_msg 25]) rx_zero)
    as (buf' & w' & H & Hq & Hg).
  - apply rx_zero_wf.
  - reflexivity.
  - vm_compute. discriminate.
  - vm_compute. reflexivity.
  - vm_compute. lia.
  - exists buf', w'. split; [exact H|]. split; [exact Hq|]. rewrite Hg. split; vm_compute; reflexivity.
Defined.

Lemma dispatch_can_rx_spec_witness :
  dispatch_can_rx (rx_decode (config_msg 33) rx_zero) (w_of initial_globals [])
  = Ok (true, w_of (with_provisioned true (with_rate 33 initial_globals)) []).
Proof.
  refine (eq_trans (proj1 (proj2 (dispatch_can_rx_spec (rx_decode (config_msg 33) rx_zero)
    (w_of initial_globals []) _ _ _)) _ _) _).
  - apply rx_decode_wf; [constructor; cbn; lia|apply rx_zero_wf].
  - vm_compute. discriminate.
  - vm_compute. reflexivity.
  - vm_compute. reflexivity.
  - vm_compute. discriminate.
  - reflexivity.
Defined.

Lemma broadcast_frames_witness :
  tx_data8 (announcement 0xE4600 stk) = [9; 85; 85; 85; 85; 1; 0; 1].
Proof.
  apply (broadcast_frames 0xE4600 50 stk stk_wf); lia.
Defined.

Lemma can_parameters_witness :
  ∃ w', init_can_operating_parameters (w_of initial_globals []) = Ok (tt, w')
    ∧ g_can_base_address (G w') = 0xE4900.
Proof.
  destruct (can_parameters (w_of initial_globals [])) as (H & _); [reflexivity|].
  eexists. split; [exact H|]. vm_compute. reflexivity.
Defined.

Definition debug_globals : globals := with_level 2 initial_globals.
Definition rx_msg (dlc : Z) : CANRxFrame := mk_rx 0 0 dlc 0 1 0xE4603 [25; 171; 0; 0; 0; 0; 0; 0].

Lemma rx_msg_wf dlc : 0 <= dlc < 16 → rx_wf (rx_msg dlc).
Proof.
  intros H. constructor; cbn [rx_msg rx_FMI rx_TIME rx_DLC rx_RTR rx_IDE rx_id rx_data8]; try lia; [done|].
  unfold byte. apply (bool_decide_unpack _). by vm_compute.
Qed.

Lemma log_CAN_rx_text_witness :
  ∃ w', log_CAN_rx_message (bytes_of "P: " ++ [0]) (rx_msg 2) (w_of debug_globals []) = Ok (tt, w')
    ∧ sim_out w' = bytes_of "1235 P: CAN Rx ID(935427) 19 AB ".
Proof.
  destruct (log_CAN_rx_text (wf := λ w, G w = debug_globals) (accepted := sim_out)
    (L := sim_level_laws debug_globals)
    (λ w H, f_equal logging_level H)
    (bytes_of "P: ") (rx_msg 2) (w_of debug_globals [])) as (w' & H & Ha).
  - reflexivity.
  - apply (bool_decide_unpack _). vm_compute. exact I.
  - vm_compute. discriminate.
  - apply rx_msg_wf. lia.
  - vm_compute. discriminate.
  - exists w'. split; [exact H|]. rewrite Ha. vm_compute. reflexivity.
Defined.

Lemma log_CAN_rx_overrun_witness :
  log_CAN_rx_message (bytes_of "P: " ++ [0]) (rx_msg 9) (w_of debug_globals []) = Err OutOfBounds.
Proof.
  apply (log_CAN_rx_overrun (wf := λ w, G w = debug_globals) (accepted := sim_out)
    (L := sim_level_laws debug_globals)
    (λ w H, f_equal logging_level H)).
  - reflexivity.
  - apply (bool_decide_unpack _). vm_compute. exact I.
  - vm_compute. discriminate.
  - apply rx_msg_wf. lia.
  - vm_compute. reflexivity.
Defined.

Lemma scale_exact_witness : scale_0_to_5_volts 2048 = Ok 2538.
Proof. apply (scale_exact 2048). lia. Defined.

Lemma sensor_frame_data_witness :
  ∃ f, sensor_frame 0xE4600 [0; 1000; 2048; 4095] stk = Ok f
    ∧ tx_data8 f = [0; 0; 215; 4; 234; 9; 211; 19].
Proof.
  destruct (sensor_frame_data 0xE4600 0 1000 2048 4095 stk) as (f & H & Hf).
  - apply stk_wf.
  - lia.
  - lia.
  - apply (bool_decide_unpack _). vm_compute. exact I.
  - exists f. split; [exact H|]. apply Hf.
Defined.

Lemma sample_is_previous_witness :
  ∃ w', system_adc_sample (w_of (with_internal [1; 2; 3; 4] initial_globals) []) = Ok (tt, w')
    ∧ raw_samples (G w') = [4; 3; 2; 1].
Proof.
  destruct (sample_is_previous (w_of (with_internal [1; 2; 3; 4] initial_globals) []) 1 2 3 4)
    as (w' & H & Hg); [reflexivity|reflexivity|reflexivity|].
  exists w'. split; [exact H|]. rewrite Hg. reflexivity.
Defined.

Lemma sleep_time_period_witness : sleep_time 50 37 = Ok 163 ∧ sleep_time 50 201 = Ok TIME_INFINITE.
Proof.
  split.
  - apply (sleep_time_period 50 37); vm_compute; intuition discriminate.
  - apply (sleep_time_period 50 201); vm_compute; intuition discriminate.
Defined.

Lemma serial_getline_spec_witness :
  serial_getline (Some [1; 1; 1; 1; 1]) 4 (w_of initial_globals [])
  = Ok ((Some [103; 111; 0; 0; 1], 3), on_in [] (w_of initial_globals [])).
Proof.
  refine (eq_trans (proj1 (proj2 (serial_getline_spec [1; 1; 1; 1; 1] 4 (w_of initial_globals []) _))) _).
  - vm_compute. intuition discriminate.
  - vm_compute. reflexivity.
Defined.

End AppSim.
