(* ===== verification/Queues.v ===== *)
(** * I/O queues (chqueues.c, chqueues.h)

    A queue is a ring buffer with a counter: of the bytes held in an input
    queue, of the free slots in an output queue. The threads waiting on a queue
    are reached through the interface [IoQueue]. *)

From S2P Require Import Prelude CBuf Streams SysTime Fw.
Import SysTime.

Module Queues.

Definition Q_OK : Z := MSG_OK.
Definition Q_TIMEOUT : Z := MSG_TIMEOUT.
Definition Q_RESET : Z := MSG_RESET.
Definition Q_EMPTY : Z := -3.
Definition Q_FULL : Z := -4.

(** [q_wrptr] and [q_rdptr] are positions in the buffer; [q_top] is its end. *)
Record io_queue := {
  q_counter : Z;
  q_buffer : buf;
  q_wrptr : nat;
  q_rdptr : nat
}.

Definition q_top (q : io_queue) : nat := length (q_buffer q).
Definition chQSizeX (q : io_queue) : Z := Z.of_nat (q_top q).
Definition chQSpaceI (q : io_queue) : Z := q_counter q.

(** [*ptr++] with the wrap at the top. *)
Definition advance (q : io_queue) (p : nat) : nat :=
  if decide (q_top q <= S p)%nat then O else S p.

(** [*q_wrptr++ = b] and [b = *q_rdptr++], with the new counter. *)
Definition push (counter b : Z) (q : io_queue) : res io_queue :=
  b' ← bwr (q_buffer q) (q_wrptr q) b;
  Ok {| q_counter := u32 counter; q_buffer := b'; q_wrptr := advance q (q_wrptr q);
        q_rdptr := q_rdptr q |}.
Definition pop (counter : Z) (q : io_queue) : res (Z * io_queue) :=
  b ← brd (q_buffer q) (q_rdptr q);
  Ok (b, {| q_counter := u32 counter; q_buffer := q_buffer q; q_wrptr := q_wrptr q;
            q_rdptr := advance q (q_rdptr q) |}).

(** The queue object in the world, its notification callback, and the threads
    waiting on it. *)
Class IoQueue (W : Type) := {
  getq : W → io_queue;
  setq : io_queue → W → W;
  q_notify : option (W → W);
  q_wait : Z → W → Z * W;               (* chThdEnqueueTimeoutS(&qp->q_waiting, timeout) *)
  q_wake_one : Z → W → W;               (* chThdDequeueNextI(&qp->q_waiting, msg) *)
  q_wake_all : Z → W → W                (* chThdDequeueAllI(&qp->q_waiting, msg) *)
}.

Section queues.
Context {W : Type} `{IoQueue W}.

Definition notify : fw W unit :=
  match q_notify with Some f => modify f | None => ret tt end.

(** ** Input queues *)

Definition chIQObjectInit (bp : buf) : fw W unit :=
  modify (setq {| q_counter := 0; q_buffer := bp; q_wrptr := 0; q_rdptr := 0 |}).

Definition chIQGetFullI : fw W Z := gets (λ w, chQSpaceI (getq w)).
Definition chIQGetEmptyI : fw W Z := gets (λ w, u32 (chQSizeX (getq w) - chQSpaceI (getq w))).
Definition chIQIsEmptyI : fw W bool := gets (λ w, chQSpaceI (getq w) =? 0).
Definition chIQIsFullI : fw W bool :=
  gets (λ w, bool_decide (q_wrptr (getq w) = q_rdptr (getq w)) && negb (q_counter (getq w) =? 0)).

Definition chIQResetI : fw W unit :=
  modify (λ w, setq {| q_counter := 0; q_buffer := q_buffer (getq w); q_wrptr := 0; q_rdptr := 0 |} w);;
  modify (q_wake_all Q_RESET).

Definition chIQPutI (b : Z) : fw W Z :=
  full ← chIQIsFullI;
  if (full : bool) then ret Q_FULL
  else
    q ← gets getq;
    q ← lift (push (q_counter q + 1) b q);
    modify (setq q);;
    modify (q_wake_one Q_OK);;
    ret Q_OK.

(** Waits while [blocked]; [Q_OK] when the wait is over, or the message of the
    wait that failed. [fuel] bounds the number of wake-ups. *)
Fixpoint wait_while (fuel : nat) (blocked : fw W bool) (failed : Z → bool) (timeout : Z) : fw W Z :=
  match fuel with
  | O => throw OutOfFuel
  | S fuel =>
    b ← blocked;
    if (b : bool) then
      msg ← (λ w, Ok (q_wait timeout w));
      if failed msg then ret msg else wait_while fuel blocked failed timeout
    else ret Q_OK
  end.

Definition chIQGetTimeout (fuel : nat) (timeout : Z) : fw W Z :=
  notify;;
  msg ← wait_while fuel chIQIsEmptyI (λ msg, msg <? Q_OK) timeout;
  if msg <? Q_OK then ret msg
  else
    q ← gets getq;
    r ← lift (pop (q_counter q - 1) q);
    modify (setq r.2);;
    ret r.1.

Definition chIQGet (fuel : nat) : fw W Z := chIQGetTimeout fuel TIME_INFINITE.

(** The bytes read; [n] counts down as a [size_t]. *)
Fixpoint chIQReadTimeout (bytes fuel : nat) (n timeout : Z) : fw W (list Z) :=
  match bytes with
  | O => throw OutOfFuel
  | S bytes =>
    notify;;
    msg ← wait_while fuel chIQIsEmptyI (λ msg, negb (msg =? Q_OK)) timeout;
    if negb (msg =? Q_OK) then ret []
    else
      q ← gets getq;
      r ← lift (pop (q_counter q - 1) q);
      modify (setq r.2);;
      if u32 (n - 1) =? 0 then ret [r.1]
      else bs ← chIQReadTimeout bytes fuel (u32 (n - 1)) timeout; ret (r.1 :: bs)
  end.

(** ** Output queues *)

Definition chOQObjectInit (bp : buf) : fw W unit :=
  modify (setq {| q_counter := Z.of_nat (length bp); q_buffer := bp; q_wrptr := 0; q_rdptr := 0 |}).

Definition chOQGetFullI : fw W Z := gets (λ w, u32 (chQSizeX (getq w) - chQSpaceI (getq w))).
Definition chOQGetEmptyI : fw W Z := gets (λ w, chQSpaceI (getq w)).
Definition chOQIsEmptyI : fw W bool :=
  gets (λ w, bool_decide (q_wrptr (getq w) = q_rdptr (getq w)) && negb (q_counter (getq w) =? 0)).
Definition chOQIsFullI : fw W bool := gets (λ w, chQSpaceI (getq w) =? 0).

Definition chOQResetI : fw W unit :=
  modify (λ w, setq {| q_counter := chQSizeX (getq w); q_buffer := q_buffer (getq w);
                       q_wrptr := 0; q_rdptr := 0 |} w);;
  modify (q_wake_all Q_RESET).

Definition chOQPutTimeout (fuel : nat) (b timeout : Z) : fw W Z :=
  msg ← wait_while fuel chOQIsFullI (λ msg, msg <? Q_OK) timeout;
  if msg <? Q_OK then ret msg
  else
    q ← gets getq;
    q ← lift (push (q_counter q - 1) b q);
    modify (setq q);;
    notify;;
    ret Q_OK.

Definition chOQPut (fuel : nat) (b : Z) : fw W Z := chOQPutTimeout fuel b TIME_INFINITE.

Definition chOQGetI : fw W Z :=
  empty ← chOQIsEmptyI;
  if (empty : bool) then ret Q_EMPTY
  else
    q ← gets getq;
    r ← lift (pop (q_counter q + 1) q);
    modify (setq r.2);;
    modify (q_wake_one Q_OK);;
    ret r.1.

(** The number of bytes written. *)
Fixpoint chOQWriteTimeout (fuel : nat) (bp : list Z) (n timeout : Z) : fw W Z :=
  match bp with
  | [] => throw OutOfBounds
  | b :: bp =>
    msg ← wait_while fuel chOQIsFullI (λ msg, negb (msg =? Q_OK)) timeout;
    if negb (msg =? Q_OK) then ret 0
    else
      q ← gets getq;
      q ← lift (push (q_counter q - 1) b q);
      modify (setq q);;
      notify;;
      if u32 (n - 1) =? 0 then ret 1
      else w ← chOQWriteTimeout fuel bp (u32 (n - 1)) timeout; ret (w + 1)
  end.

End queues.

(** ** The bytes a ring holds *)

(** [n] bytes from position [p], around the end. *)
Definition slice (b : buf) (p n : nat) : list Z := take n (drop p (b ++ b)).

Record ring_wf (q : io_queue) (n : nat) : Prop := {
  rw_size : Z.of_nat (q_top q) < 2 ^ 32;
  rw_n : (n <= q_top q)%nat;
  rw_rd : (q_rdptr q < q_top q)%nat;
  rw_wr : q_wrptr q = ((q_rdptr q + n) mod q_top q)%nat
}.

Lemma slice_length b p n : (p + n <= 2 * length b)%nat → length (slice b p n) = n.
Proof. intros. unfold slice. rewrite length_take, length_drop, length_app. lia. Qed.

Lemma slice_lookup b p n i :
  (p < length b)%nat → (n <= length b)%nat → (i < n)%nat → slice b p n !! i = b !! ((p + i) mod length b)%nat.
Proof.
  intros Hp Hn Hi. unfold slice. rewrite lookup_take_lt, lookup_drop by done.
  destruct (decide (p + i < length b)%nat) as [L|L].
  - by rewrite lookup_app_l, Nat.mod_small by done.
  - rewrite lookup_app_r by lia. f_equal.
    apply (Nat.mod_unique _ _ 1); lia.
Qed.

(** Distinct offsets below the size are distinct positions. *)
Lemma mod_distinct a i n len :
  (i < n)%nat → (n < i + len)%nat → ((a + i) mod len ≠ (a + n) mod len)%nat.
Proof.
  intros Hi Hn E. pose proof (Nat.Div0.div_mod (a + n) len) as D1.
  pose proof (Nat.Div0.div_mod (a + i) len) as D2. rewrite E in D2.
  set (x := ((a + n) / len)%nat) in *. set (y := ((a + i) / len)%nat) in *.
  destruct (decide (x <= y)%nat); nia.
Qed.

Lemma advance_mod q p : (p < q_top q)%nat → advance q p = (S p mod q_top q)%nat.
Proof.
  intros Hp. unfold advance. case_decide.
  - replace (S p) with (q_top q) by lia. by rewrite Nat.Div0.mod_same.
  - by rewrite Nat.mod_small by lia.
Qed.

(** A byte pushed into a ring with room goes behind the others. *)
Lemma push_spec q n c b :
  ring_wf q n → (n < q_top q)%nat →
  ∃ q', push c b q = Ok q' ∧ ring_wf q' (S n) ∧ q_counter q' = u32 c ∧ q_top q' = q_top q
    ∧ slice (q_buffer q') (q_rdptr q') (S n) = slice (q_buffer q) (q_rdptr q) n ++ [b].
Proof.
  intros [Hs Hn Hr Hw] Hlt. unfold push. assert (q_wrptr q < q_top q)%nat as Hwl.
  { rewrite Hw. apply Nat.mod_upper_bound. lia. }
  rewrite bwr_ok by done. cbn [mbind res_bind]. eexists. split; [done|].
  cbn [q_counter q_buffer q_rdptr q_wrptr]. unfold q_top in *. cbn [q_buffer] in *.
  rewrite length_insert. split_and!; [|done|done|].
  - constructor; unfold q_top; cbn [q_buffer q_rdptr q_wrptr]; rewrite ?length_insert; try lia.
    rewrite advance_mod by done. unfold q_top. rewrite Hw.
    rewrite <-Nat.add_1_r, Nat.Div0.add_mod_idemp_l. f_equal. lia.
  - apply list_eq_same_length with (n := S n).
    + rewrite length_app, slice_length by lia. simpl. lia.
    + rewrite slice_length; [done|rewrite length_insert; lia].
    + intros i x y Hi. rewrite slice_lookup by (rewrite ?length_insert; lia). rewrite length_insert.
      destruct (decide (i < n)%nat) as [L|L].
      * rewrite lookup_app_l by (rewrite slice_length by lia; done). rewrite slice_lookup by lia.
        rewrite list_lookup_insert_ne; [by intros -> [= ->]|]. rewrite Hw.
        apply not_eq_sym, mod_distinct; lia.
      * assert (i = n) as -> by lia. rewrite <-Hw, list_lookup_insert_eq by done.
        rewrite lookup_app_r by (rewrite slice_length by lia; done). rewrite slice_length, Nat.sub_diag by lia.
        cbn. congruence.
Qed.

(** A pop takes the oldest byte. *)
Lemma pop_spec q n c :
  ring_wf q (S n) →
  ∃ b q', pop c q = Ok (b, q') ∧ ring_wf q' n ∧ q_counter q' = u32 c ∧ q_top q' = q_top q
    ∧ slice (q_buffer q) (q_rdptr q) (S n) = b :: slice (q_buffer q') (q_rdptr q') n.
Proof.
  intros [Hs Hn Hr Hw]. unfold pop.
  destruct (lookup_lt_is_Some_2 (q_buffer q) (q_rdptr q)) as [b Hb]; [done|].
  rewrite (brd_ok _ _ _ Hb). cbn [mbind res_bind]. eexists _, _. split; [done|].
  cbn [q_counter q_buffer q_rdptr q_wrptr]. unfold q_top in *. cbn [q_buffer] in *.
  rewrite advance_mod by done. unfold q_top. split_and!; [|done|done|].
  - constructor; unfold q_top; cbn [q_buffer q_rdptr q_wrptr]; try lia.
    + apply Nat.mod_upper_bound. lia.
    + rewrite Hw, Nat.Div0.add_mod_idemp_l. f_equal. lia.
  - apply list_eq_same_length with (n := S n).
    + cbn. rewrite slice_length; [done|].
      pose proof (Nat.mod_upper_bound (S (q_rdptr q)) (length (q_buffer q))). lia.
    + apply slice_length. lia.
    + intros i x y Hi. rewrite slice_lookup by lia. destruct i as [|i].
      * rewrite Nat.add_0_r, Nat.mod_small by done. cbn. congruence.
      * cbn. rewrite slice_lookup by (try apply Nat.mod_upper_bound; lia).
        rewrite Nat.Div0.add_mod_idemp_l. rewrite <-plus_n_Sm. cbn. congruence.
Qed.

(** What the queues rely on: the object is a variable, waking threads and the
    notification leave it alone, and a wait with [TIME_IMMEDIATE] fails. *)
Class IoQueueLaws (W : Type) `{IoQueue W} := {
  get_set q w : getq (setq q w) = q;
  wake_one_frame m w : getq (q_wake_one m w) = getq w;
  wake_all_frame m w : getq (q_wake_all m w) = getq w;
  notify_frame f w : q_notify = Some f → getq (f w) = getq w;
  wait_immediate w : q_wait TIME_IMMEDIATE w = (Q_TIMEOUT, w)
}.

(** ** The bounded FIFO the queues implement *)

Inductive qop := Put (b : Z) | Get | Reset.

(** [full] and [empty] are the answers of a put and a get that cannot be done. *)
Definition fifo_step (cap : nat) (full empty : Z) (op : qop) (l : list Z) : Z * list Z :=
  match op with
  | Put b => if decide (length l = cap) then (full, l) else (Q_OK, l ++ [b])
  | Get => match l with [] => (empty, l) | b :: l => (b, l) end
  | Reset => (Q_OK, [])
  end.

Fixpoint fifo_run (cap : nat) (full empty : Z) (ops : list qop) (l : list Z) : list Z * list Z :=
  match ops with
  | [] => ([], l)
  | op :: ops =>
    let '(r, l) := fifo_step cap full empty op l in
    let '(rs, l) := fifo_run cap full empty ops l in (r :: rs, l)
  end.

Section refinement.
Context {W : Type} `{IoQueueLaws W}.

Fixpoint run (exec : qop → fw W Z) (ops : list qop) : fw W (list Z) :=
  match ops with
  | [] => ret []
  | op :: ops => r ← exec op; rs ← run exec ops; ret (r :: rs)
  end.

(** The interrupt side puts into an input queue and takes from an output queue;
    the thread side does the converse without waiting. *)
Definition iq_exec (op : qop) : fw W Z :=
  match op with
  | Put b => chIQPutI b
  | Get => chIQGetTimeout 1 TIME_IMMEDIATE
  | Reset => chIQResetI;; ret Q_OK
  end.
Definition oq_exec (op : qop) : fw W Z :=
  match op with
  | Put b => chOQPutTimeout 1 b TIME_IMMEDIATE
  | Get => chOQGetI
  | Reset => chOQResetI;; ret Q_OK
  end.

Definition iq_ok (cap : nat) (l : list Z) (w : W) : Prop :=
  ring_wf (getq w) (length l) ∧ q_counter (getq w) = Z.of_nat (length l) ∧ q_top (getq w) = cap
  ∧ slice (q_buffer (getq w)) (q_rdptr (getq w)) (length l) = l ∧ Forall (λ b, 0 <= b) l.
Definition oq_ok (cap : nat) (l : list Z) (w : W) : Prop :=
  ring_wf (getq w) (length l) ∧ q_counter (getq w) = Z.of_nat (cap - length l) ∧ q_top (getq w) = cap
  ∧ slice (q_buffer (getq w)) (q_rdptr (getq w)) (length l) = l ∧ Forall (λ b, 0 <= b) l.

Definition op_ok (op : qop) : Prop := match op with Put b => 0 <= b | _ => True end.

Lemma wr_eq_rd q n :
  ring_wf q n → bool_decide (q_wrptr q = q_rdptr q) = bool_decide (n = 0%nat ∨ n = q_top q).
Proof.
  intros [Hs Hn Hr ->]. apply bool_decide_ext. split; intros E.
  - destruct (decide (n = 0%nat)) as [|N0]; [by left|]. destruct (decide (n = q_top q)) as [|N1]; [by right|].
    exfalso. rewrite <-(Nat.mod_small (q_rdptr q) (q_top q)) in E at 2 by done.
    rewrite <-(Nat.add_0_r (q_rdptr q)) in E at 2. symmetry in E. revert E. apply mod_distinct; lia.
  - destruct E as [->| ->].
    + rewrite Nat.add_0_r. by apply Nat.mod_small.
    + rewrite <-(Nat.mul_1_l (q_top q)) at 1. rewrite Nat.Div0.mod_add. by apply Nat.mod_small.
Qed.

Lemma notify_spec w : ∃ w', notify w = Ok (tt, w') ∧ getq w' = getq w.
Proof.
  unfold notify. destruct q_notify as [f|] eqn:E; [|by exists w].
  eexists. split; [reflexivity|]. by apply notify_frame.
Qed.

Lemma wait_over fuel b failed timeout w :
  b w = Ok (false, w) → wait_while (S fuel) b failed timeout w = Ok (Q_OK, w).
Proof. intros Hb. cbn [wait_while]. by rewrite (fw_bind_ok _ _ _ _ _ Hb). Qed.

Lemma wait_fails fuel b w :
  b w = Ok (true, w) →
  wait_while (S fuel) b (λ msg, msg <? Q_OK) TIME_IMMEDIATE w = Ok (Q_TIMEOUT, w).
Proof.
  intros Hb. cbn [wait_while]. rewrite (fw_bind_ok _ _ _ _ _ Hb), fw_bind_eq, wait_immediate. done.
Qed.

Lemma reset_ok q : (0 < q_top q)%nat → Z.of_nat (q_top q) < 2 ^ 32 → ∀ c,
  ring_wf {| q_counter := c; q_buffer := q_buffer q; q_wrptr := 0; q_rdptr := 0 |} 0.
Proof.
  intros. constructor; unfold q_top in *; cbn; try lia. by rewrite Nat.Div0.mod_0_l.
Qed.

Lemma iq_step cap op l w :
  iq_ok cap l w → op_ok op →
  let '(r, l') := fifo_step cap Q_FULL Q_TIMEOUT op l in
  ∃ w', iq_exec op w = Ok (r, w') ∧ iq_ok cap l' w'.
Proof.
  intros (Hwf & Hc & Ht & Hsl & Hb) Hop. pose proof Hwf as [Hs Hn Hr Hw].
  destruct op as [b| |]; cbn [fifo_step iq_exec op_ok] in *.
  - unfold chIQPutI. rewrite (fw_bind_ok _ _ _ _ _ eq_refl). cbv beta.
    rewrite (wr_eq_rd _ _ Hwf), Hc, Ht. case_decide as Hf.
    + rewrite bool_decide_true by auto. destruct (Z.eqb_spec (Z.of_nat (length l)) 0) as [E|E]; [lia|].
      exists w. split; [done|]. by split_and!.
    + match goal with |- context [?a && ?b] => replace (a && b) with false end.
      2: { symmetry. destruct (decide (length l = 0%nat)) as [->|]; [apply andb_false_r|].
           rewrite bool_decide_false by (intros [?|?]; lia). done. }
      rewrite (fw_bind_ok _ _ _ _ _ eq_refl). cbv beta. rewrite Hc.
      destruct (push_spec (getq w) (length l) (Z.of_nat (length l) + 1) b Hwf) as (q' & E & Hwf' & Hc' & Ht' & Hsl'); [lia|].
      rewrite fw_bind_eq. unfold lift. rewrite E. do 2 (rewrite (fw_bind_ok _ _ _ _ _ eq_refl); cbv beta).
      eexists. split; [reflexivity|]. unfold iq_ok. rewrite wake_one_frame, get_set, length_app, Nat.add_1_r.
      split_and!; [done| |lia|by rewrite Hsl', Hsl|apply Forall_app; split; [done|by constructor]].
      rewrite Hc', u32_id by lia. lia.
  - unfold chIQGetTimeout. destruct (notify_spec w) as (w1 & E1 & G1). rewrite (fw_bind_ok _ _ _ _ _ E1).
    destruct l as [|b l].
    + rewrite (fw_bind_ok _ _ w1 Q_TIMEOUT w1); [|apply wait_fails; unfold chIQIsEmptyI, gets, chQSpaceI; by rewrite G1, Hc].
      exists w1. split; [done|]. unfold iq_ok. by rewrite G1.
    + rewrite (fw_bind_ok _ _ w1 Q_OK w1); [|apply wait_over; unfold chIQIsEmptyI, gets, chQSpaceI; rewrite G1, Hc; done].
      change (Q_OK <? Q_OK) with false. cbv iota. rewrite (fw_bind_ok _ _ _ _ _ eq_refl). cbv beta. rewrite G1, Hc.
      destruct (pop_spec (getq w) (length l) (Z.of_nat (length (b :: l)) - 1) Hwf) as (b' & q' & E & Hwf' & Hc' & Ht' & Hsl').
      rewrite fw_bind_eq. unfold lift. rewrite E. cbn [fst snd]. rewrite (fw_bind_ok _ _ _ _ _ eq_refl). cbv beta.
      cbn [length] in Hsl. rewrite Hsl in Hsl'. injection Hsl' as <- Hsl'.
      eexists. split; [reflexivity|]. unfold iq_ok. rewrite get_set. apply Forall_cons_1 in Hb as [? Hb].
      split_and!; [done| |lia|done|done]. cbn [length] in *. rewrite Hc', u32_id by lia. lia.
  - unfold chIQResetI. rewrite fw_bind_eq, (fw_bind_ok _ _ _ _ _ eq_refl).
    eexists. split; [reflexivity|]. unfold iq_ok. rewrite wake_all_frame, get_set.
    split_and!; [apply reset_ok; lia|done|done|done|constructor].
Qed.

Lemma oq_step cap op l w :
  oq_ok cap l w → op_ok op →
  let '(r, l') := fifo_step cap Q_TIMEOUT Q_EMPTY op l in
  ∃ w', oq_exec op w = Ok (r, w') ∧ oq_ok cap l' w'.
Proof.
  intros (Hwf & Hc & Ht & Hsl & Hb) Hop. pose proof Hwf as [Hs Hn Hr Hw].
  destruct op as [b| |]; cbn [fifo_step oq_exec op_ok] in *.
  - unfold chOQPutTimeout. case_decide as Hf.
    + rewrite (fw_bind_ok _ _ w Q_TIMEOUT w).
      2: { apply wait_fails. unfold chOQIsFullI, gets, chQSpaceI. rewrite Hc, (proj2 (Z.eqb_eq _ _)) by lia. done. }
      exists w. split; [done|]. by split_and!.
    + rewrite (fw_bind_ok _ _ w Q_OK w).
      2: { apply wait_over. unfold chOQIsFullI, gets, chQSpaceI. rewrite Hc, (proj2 (Z.eqb_neq _ _)) by lia. done. }
      change (Q_OK <? Q_OK) with false. cbv iota. rewrite (fw_bind_ok _ _ _ _ _ eq_refl). cbv beta. rewrite Hc.
      destruct (push_spec (getq w) (length l) (Z.of_nat (cap - length l) - 1) b Hwf) as (q' & E & Hwf' & Hc' & Ht' & Hsl'); [lia|].
      rewrite fw_bind_eq. unfold lift. rewrite E. rewrite (fw_bind_ok _ _ _ _ _ eq_refl).
      destruct (notify_spec (setq q' w)) as (w1 & E1 & G1). rewrite (fw_bind_ok _ _ _ _ _ E1).
      exists w1. split; [done|]. unfold oq_ok. rewrite G1, get_set, length_app, Nat.add_1_r.
      split_and!; [done| |lia|by rewrite Hsl', Hsl|apply Forall_app; split; [done|by constructor]].
      rewrite Hc', u32_id by lia. lia.
  - unfold chOQGetI. rewrite (fw_bind_ok _ _ _ _ _ eq_refl). cbv beta. rewrite (wr_eq_rd _ _ Hwf), Hc, Ht.
    destruct l as [|b l].
    + rewrite bool_decide_true by (by left). cbn [length]. rewrite (proj2 (Z.eqb_neq _ 0)) by lia.
      exists w. split; [done|]. by split_and!.
    + match goal with |- context [?a && ?b] => replace (a && b) with false end.
      2: { symmetry. destruct (decide (length (b :: l) = cap)) as [->|].
           - rewrite Nat.sub_diag. apply andb_false_r.
           - rewrite bool_decide_false by (intros [?|?]; [done|lia]). done. }
      rewrite (fw_bind_ok _ _ _ _ _ eq_refl). cbv beta. rewrite Hc.
      destruct (pop_spec (getq w) (length l) (Z.of_nat (cap - length (b :: l)) + 1) Hwf) as (b' & q' & E & Hwf' & Hc' & Ht' & Hsl').
      rewrite fw_bind_eq. unfold lift. rewrite E. cbn [fst snd].
      do 2 (rewrite (fw_bind_ok _ _ _ _ _ eq_refl); cbv beta).
      cbn [length] in Hsl. rewrite Hsl in Hsl'. injection Hsl' as <- Hsl'.
      eexists. split; [reflexivity|]. unfold oq_ok. rewrite wake_one_frame, get_set. apply Forall_cons_1 in Hb as [? Hb].
      split_and!; [done| |lia|done|done]. cbn [length] in *. rewrite Hc', u32_id by lia. lia.
  - unfold chOQResetI. rewrite fw_bind_eq, (fw_bind_ok _ _ _ _ _ eq_refl).
    eexists. split; [reflexivity|]. unfold oq_ok. rewrite wake_all_frame, get_set. unfold chQSizeX.
    split_and!; [apply reset_ok; lia|cbn; rewrite Ht; lia|done|done|constructor].
Qed.

Lemma run_refines (exec : qop → fw W Z) (ok : list Z → W → Prop) cap full empty :
  (∀ op l w, ok l w → op_ok op →
     let '(r, l') := fifo_step cap full empty op l in ∃ w', exec op w = Ok (r, w') ∧ ok l' w') →
  ∀ ops l w, ok l w → Forall op_ok ops →
    ∃ w', run exec ops w = Ok ((fifo_run cap full empty ops l).1, w')
      ∧ ok (fifo_run cap full empty ops l).2 w'.
Proof.
  intros Hstep ops. induction ops as [|op ops IH]; intros l w Hok Hops; [by exists w|].
  apply Forall_cons_1 in Hops as [Hop Hops]. specialize (Hstep op l w Hok Hop). cbn [run fifo_run].
  destruct (fifo_step cap full empty op l) as [r l1]. destruct Hstep as (w1 & E1 & Hok1).
  destruct (IH l1 w1 Hok1 Hops) as (w2 & E2 & Hok2). rewrite (fw_bind_ok _ _ _ _ _ E1).
  rewrite (fw_bind_ok _ _ _ _ _ E2). destruct (fifo_run cap full empty ops l1) as [rs l2]. by exists w2.
Qed.

(** C24 (refinement). Every interleaving of puts by the interrupt handler, gets
    without waiting and resets on an input queue, and of puts without waiting,
    gets by the handler and resets on an output queue, answers and leaves the
    queue as a bounded FIFO of the size of the buffer does: no byte is lost,
    repeated or reordered but those refused or discarded. *)
Theorem queues_refine_fifo cap ops l w :
  Forall op_ok ops →
  (iq_ok cap l w →
   ∃ w', run iq_exec ops w = Ok ((fifo_run cap Q_FULL Q_TIMEOUT ops l).1, w')
     ∧ iq_ok cap (fifo_run cap Q_FULL Q_TIMEOUT ops l).2 w')
  ∧ (oq_ok cap l w →
   ∃ w', run oq_exec ops w = Ok ((fifo_run cap Q_TIMEOUT Q_EMPTY ops l).1, w')
     ∧ oq_ok cap (fifo_run cap Q_TIMEOUT Q_EMPTY ops l).2 w').
Proof.
  intros Hops. split; intros Hok.
  - by apply (run_refines iq_exec (iq_ok cap)); [apply iq_step| |].
  - by apply (run_refines oq_exec (oq_ok cap)); [apply oq_step| |].
Qed.

End refinement.

(** ** Witness: a queue that is the whole world *)

#[local] Instance plain_queue : IoQueue io_queue := {
  getq w := w; setq q w := q; q_notify := None;
  q_wait t w := (Q_TIMEOUT, w); q_wake_one m w := w; q_wake_all m w := w
}.
#[local] Instance plain_queue_laws : IoQueueLaws io_queue.
Proof. split; intros; done. Qed.

Lemma queues_refine_fifo_witness :
  ∃ w', run iq_exec [Put 1; Put 2; Put 3; Get; Put 4; Get; Get; Get]
          {| q_counter := 0; q_buffer := [0; 0]; q_wrptr := 1; q_rdptr := 1 |}
        = Ok ([Q_OK; Q_OK; Q_FULL; 1; Q_OK; 2; 4; Q_TIMEOUT], w').
Proof.
  destruct (queues_refine_fifo 2 [Put 1; Put 2; Put 3; Get; Put 4; Get; Get; Get] []
    {| q_counter := 0; q_buffer := [0; 0]; q_wrptr := 1; q_rdptr := 1 |}) as [Hi _].
  - repeat constructor; cbn; lia.
  - destruct Hi as (w' & E & _).
    + split_and!; try done. constructor; cbn; try lia; done.
    + exists w'. exact E.
Defined.

End Queues.
