(* ===== verification/VTimers.v ===== *)
(** * Virtual timers (chvt.c, chvt.h)

    The armed timers are a list of differences: each element holds the ticks
    after its predecessor, the first the ticks after [vt_lasttime]. The kernel
    is tickless: the hardware alarm is set for the first timer only. *)

From S2P Require Import Prelude SysTime Fw.
Import SysTime.

Module VTimers.

Definition CH_CFG_ST_TIMEDELTA : Z := 2.

(** [virtual_timer_t], by identity; the callback and its argument are codes the
    world interprets. *)
Record virtual_timer := { vt_id : nat; vt_delta : Z; vt_func : nat; vt_par : nat }.

Definition with_delta (d : Z) (t : virtual_timer) : virtual_timer :=
  {| vt_id := vt_id t; vt_delta := d; vt_func := vt_func t; vt_par := vt_par t |}.

(** [virtual_timers_list_t]; the header's own difference is always the largest
    [systime_t], a sentinel. *)
Record vtlist := { vt_list : list virtual_timer; vt_lasttime : Z; alarm : option Z }.

Definition vt_sentinel : Z := 4294967295.

Class VtWorld (W : Type) := {
  vtl : W → vtlist;
  set_vtl : vtlist → W → W;
  st_time : W → Z;                       (* port_timer_get_time *)
  call_timer : nat → nat → fw W unit     (* fn(par), outside the lock *)
}.

(** The [while] loop of [chVTDoSetI] and the insertion before the element it
    stops at. *)
Fixpoint vt_insert (t : virtual_timer) (delta : Z) (l : list virtual_timer) : list virtual_timer :=
  match l with
  | [] => [with_delta delta t]
  | p :: l' =>
    if vt_delta p <? delta then p :: vt_insert t (u32 (delta - vt_delta p)) l'
    else with_delta delta t :: with_delta (u32 (vt_delta p - delta)) p :: l'
  end.

(** Unlinks a timer, its difference going to its successor. *)
Fixpoint vt_remove (id : nat) (l : list virtual_timer) : list virtual_timer :=
  match l with
  | [] => []
  | t :: l' =>
    if decide (vt_id t = id) then
      match l' with [] => [] | n :: l'' => with_delta (u32 (vt_delta n + vt_delta t)) n :: l'' end
    else t :: vt_remove id l'
  end.

Section timers.
Context {W : Type} `{VtWorld W}.

Definition _vt_init : fw W unit :=
  modify (set_vtl {| vt_list := []; vt_lasttime := 0; alarm := None |}).

(** The new list for a timer set at [now]. *)
Definition do_set (t : virtual_timer) (now delay : Z) (v : vtlist) : vtlist :=
  let delay := if delay <? CH_CFG_ST_TIMEDELTA then CH_CFG_ST_TIMEDELTA else delay in
  match vt_list v with
  | [] => {| vt_list := [with_delta delay t]; vt_lasttime := now; alarm := Some (u32 (now + delay)) |}
  | p :: l' =>
    let elapsed := u32 (now - vt_lasttime v) in
    let delta := u32 (elapsed + delay) in
    if delta <? elapsed
    then {| vt_list := p :: vt_insert t (u32 (delta - vt_delta p)) l';
            vt_lasttime := vt_lasttime v; alarm := alarm v |}
    else {| vt_list := vt_insert t delta (p :: l');
            vt_lasttime := vt_lasttime v;
            alarm := if delta <? vt_delta p then Some (u32 (vt_lasttime v + delta)) else alarm v |}
  end.

Definition chVTDoSetI (id : nat) (delay : Z) (func par : nat) : fw W unit :=
  modify (λ w, set_vtl (do_set {| vt_id := id; vt_delta := 0; vt_func := func; vt_par := par |}
                               (st_time w) delay (vtl w)) w).

Definition do_reset (id : nat) (now : Z) (v : vtlist) : vtlist :=
  match vt_list v with
  | [] => v
  | t :: l' =>
    if decide (vt_id t = id) then
      match l' with
      | [] => {| vt_list := []; vt_lasttime := vt_lasttime v; alarm := None |}
      | n :: l'' =>
        let d := u32 (vt_delta n + vt_delta t) in
        let l := with_delta d n :: l'' in
        let nowdelta := u32 (now - vt_lasttime v) in
        if d <=? nowdelta then {| vt_list := l; vt_lasttime := vt_lasttime v; alarm := alarm v |}
        else
          let delta := d - nowdelta in
          let delta := if delta <? CH_CFG_ST_TIMEDELTA then CH_CFG_ST_TIMEDELTA else delta in
          {| vt_list := l; vt_lasttime := vt_lasttime v;
             alarm := Some (u32 (vt_lasttime v + nowdelta + delta)) |}
      end
    else {| vt_list := vt_remove id (t :: l'); vt_lasttime := vt_lasttime v; alarm := alarm v |}
  end.

Definition chVTDoResetI (id : nat) : fw W unit :=
  modify (λ w, set_vtl (do_reset id (st_time w) (vtl w)) w).

(** A timer is armed when its function is set: exactly while it is linked. *)
Definition chVTIsArmedI (id : nat) : fw W bool :=
  gets (λ w, bool_decide (id ∈ vt_id <$> vt_list (vtl w))).

Definition chVTResetI (id : nat) : fw W unit :=
  b ← chVTIsArmedI id; when b (chVTDoResetI id).
Definition chVTSetI (id : nat) (delay : Z) (func par : nat) : fw W unit :=
  chVTResetI id;; chVTDoSetI id delay func par.

Definition chVTGetTimersStateI : fw W (option Z) :=
  gets (λ w, match vt_list (vtl w) with
             | [] => None
             | t :: _ => Some (u32 (vt_lasttime (vtl w) + vt_delta t + CH_CFG_ST_TIMEDELTA - st_time w))
             end).

(** The loop of [chVTDoTickI]: the time is read again after each callback; the
    empty list ends it because of the sentinel. *)
Fixpoint tick_loop (fuel : nat) : fw W unit :=
  match fuel with
  | O => throw OutOfFuel
  | S fuel => λ w,
    match vt_list (vtl w) with
    | [] => if vt_sentinel <=? u32 (st_time w - vt_lasttime (vtl w)) then Err NullPointer else Ok (tt, w)
    | t :: l =>
      if vt_delta t <=? u32 (st_time w - vt_lasttime (vtl w)) then
        let v := {| vt_list := l; vt_lasttime := u32 (vt_lasttime (vtl w) + vt_delta t);
                    alarm := match l with [] => None | _ => alarm (vtl w) end |} in
        (call_timer (vt_func t) (vt_par t);; tick_loop fuel) (set_vtl v w)
      else Ok (tt, w)
    end
  end.

Definition tick_alarm (now : Z) (v : vtlist) : vtlist :=
  match vt_list v with
  | [] => v
  | t :: _ =>
    let delta := u32 (vt_lasttime v + vt_delta t - now) in
    let delta := if delta <? CH_CFG_ST_TIMEDELTA then CH_CFG_ST_TIMEDELTA else delta in
    {| vt_list := vt_list v; vt_lasttime := vt_lasttime v; alarm := Some (u32 (now + delta)) |}
  end.

Definition chVTDoTickI (fuel : nat) : fw W unit :=
  tick_loop fuel;; modify (λ w, set_vtl (tick_alarm (st_time w) (vtl w)) w).

End timers.

(** ** The expiry times a list stands for

    Ticks after [vt_lasttime], as unbounded integers. *)
Fixpoint expiries (acc : Z) (l : list virtual_timer) : list (nat * Z) :=
  match l with
  | [] => []
  | t :: l => (vt_id t, acc + vt_delta t) :: expiries (acc + vt_delta t) l
  end.

(** Insertion before the first timer that does not expire earlier. *)
Fixpoint insert_time (x : nat * Z) (l : list (nat * Z)) : list (nat * Z) :=
  match l with
  | [] => [x]
  | y :: l' => if y.2 <? x.2 then y :: insert_time x l' else x :: l
  end.

Definition deltas_ok (l : list virtual_timer) : Prop := Forall (λ t, 0 <= vt_delta t < 2 ^ 32) l.

Lemma vt_insert_spec t delta l acc :
  0 <= delta < 2 ^ 32 → deltas_ok l →
  expiries acc (vt_insert t delta l) = insert_time (vt_id t, acc + delta) (expiries acc l)
  ∧ deltas_ok (vt_insert t delta l).
Proof.
  revert delta acc. induction l as [|p l IH]; intros delta acc Hd Hok; cbn [vt_insert].
  { split; [done|]. constructor; [cbn; lia|constructor]. }
  apply Forall_cons_1 in Hok as [Hp Hok]. cbn [expiries insert_time snd].
  destruct (Z.ltb_spec (vt_delta p) delta) as [L|L].
  - rewrite (proj2 (Z.ltb_lt _ _)) by lia. cbn [expiries]. rewrite u32_id by lia.
    destruct (IH (delta - vt_delta p) (acc + vt_delta p)) as [-> Hok']; [lia|done|].
    split; [|by constructor]. do 3 f_equal. lia.
  - rewrite (proj2 (Z.ltb_ge _ _)) by lia. cbn [expiries with_delta vt_id vt_delta]. rewrite u32_id by lia.
    split; [|constructor; [done|constructor; [cbn; lia|done]]].
    by replace (acc + delta + (vt_delta p - delta)) with (acc + vt_delta p) by lia.
Qed.

(** Room for a difference to be added to its successor's. *)
Fixpoint sums_ok (l : list virtual_timer) : Prop :=
  match l with
  | t :: ((n :: _) as l') => vt_delta t + vt_delta n < 2 ^ 32 ∧ sums_ok l'
  | _ => True
  end.

Lemma vt_remove_spec id l acc :
  deltas_ok l → sums_ok l → NoDup (vt_id <$> l) →
  expiries acc (vt_remove id l) = filter (λ x, x.1 ≠ id) (expiries acc l).
Proof.
  revert acc. induction l as [|t l IH]; intros acc Hok Hs Hnd; [done|].
  apply Forall_cons_1 in Hok as [Ht Hok]. apply list.NoDup_cons in Hnd as [Hni Hnd].
  cbn [vt_remove expiries]. rewrite filter_cons. cbn [fst]. destruct (decide (vt_id t = id)) as [E|E].
  - rewrite (decide_False (P := vt_id t ≠ id)) by (intros Hx; by apply Hx).
    assert (∀ acc l, id ∉ vt_id <$> l → filter (λ x, x.1 ≠ id) (expiries acc l) = expiries acc l) as Hf.
    { clear. intros acc l. revert acc. induction l as [|t l IH]; intros acc Hn; [done|].
      cbn [expiries]. rewrite fmap_cons in Hn. apply not_elem_of_cons in Hn as [Hn1 Hn2].
      rewrite filter_cons_True by (cbn; congruence). by rewrite IH. }
    rewrite Hf by (by rewrite <-E). destruct l as [|n l]; [done|].
    destruct Hs as [Hs _]. apply Forall_cons_1 in Hok as [Hn _].
    cbn [expiries with_delta vt_id vt_delta]. rewrite u32_id by lia.
    by replace (acc + (vt_delta n + vt_delta t)) with (acc + vt_delta t + vt_delta n) by lia.
  - rewrite decide_True by done. cbn [expiries]. f_equal. apply IH; try done.
    destruct l; [done|]. apply Hs.
Qed.

Lemma do_reset_list id now v :
  vt_list (do_reset id now v) = vt_remove id (vt_list v)
  ∧ vt_lasttime (do_reset id now v) = vt_lasttime v.
Proof.
  unfold do_reset. destruct (vt_list v) as [|t l] eqn:E; [by rewrite E|].
  cbn [vt_remove]. case_decide; [|done]. destruct l; [done|]. by case_match.
Qed.

(** A timer without its difference. *)
Definition vt_sig (t : virtual_timer) : nat * nat * nat := (vt_id t, vt_func t, vt_par t).

Lemma vt_insert_sig t delta l : vt_sig <$> vt_insert t delta l ≡ₚ vt_sig t :: (vt_sig <$> l).
Proof.
  revert delta. induction l as [|p l IH]; intros delta; cbn [vt_insert]; [done|].
  destruct (vt_delta p <? delta); [|done]. rewrite fmap_cons, IH. apply Permutation_swap.
Qed.

Lemma do_set_sig t now delay v :
  vt_sig <$> vt_list (do_set t now delay v) ≡ₚ vt_sig t :: (vt_sig <$> vt_list v).
Proof.
  unfold do_set. destruct (vt_list v) as [|p l]; [done|]. case_match; cbn [vt_list]; [|apply vt_insert_sig].
  rewrite !fmap_cons, vt_insert_sig. apply Permutation_swap.
Qed.

Lemma do_reset_sig id now v :
  NoDup (vt_id <$> vt_list v) →
  vt_sig <$> vt_list (do_reset id now v) = filter (λ x, x.1.1 ≠ id) (vt_sig <$> vt_list v).
Proof.
  intros Hnd. destruct (do_reset_list id now v) as [-> _]. induction (vt_list v) as [|t l IH]; [done|].
  apply list.NoDup_cons in Hnd as [Hni Hnd]. cbn [vt_remove]. rewrite fmap_cons.
  destruct (decide (vt_id t = id)) as [E|E].
  - rewrite filter_cons_False by (intros Hx; by apply Hx).
    assert (filter (λ x : nat * nat * nat, x.1.1 ≠ id) (vt_sig <$> l) = vt_sig <$> l) as ->.
    { clear IH Hnd. rewrite E in Hni. induction l as [|x l IH]; [done|]. rewrite fmap_cons in *.
      apply not_elem_of_cons in Hni as [Hx Hni]. rewrite filter_cons_True by (cbn; congruence). by rewrite IH. }
    by destruct l.
  - rewrite filter_cons_True by done. by rewrite fmap_cons, IH.
Qed.

Lemma do_set_deltas t now delay v :
  deltas_ok (vt_list v) → 0 <= delay < 2 ^ 32 → deltas_ok (vt_list (do_set t now delay v)).
Proof.
  intros Hok Hd. unfold do_set, CH_CFG_ST_TIMEDELTA. destruct (vt_list v) as [|p l].
  - constructor; [|constructor]. cbn. case_match; lia.
  - pose proof (λ x, u32_range x) as Hu. case_match; cbn [vt_list].
    + apply Forall_cons_1 in Hok as [Hp Hok]. constructor; [done|].
      by apply (vt_insert_spec _ _ _ 0); [apply Hu|].
    + by apply (vt_insert_spec _ _ _ 0); [apply Hu|].
Qed.

Lemma do_reset_deltas id now v : deltas_ok (vt_list v) → deltas_ok (vt_list (do_reset id now v)).
Proof.
  destruct (do_reset_list id now v) as [-> _]. induction 1 as [|t l Ht Hl IH]; cbn [vt_remove]; [constructor|].
  case_decide; [|by constructor]. destruct l as [|n l]; [constructor|]. apply Forall_cons_1 in Hl as [_ Hl].
  constructor; [apply u32_range|done].
Qed.

(** Ticks after [vt_lasttime] at time [now]. *)
Definition elapsed (now : Z) (v : vtlist) : Z := u32 (now - vt_lasttime v).

(** A timer set is due when its delay says. *)
Lemma set_expiry (t : virtual_timer) (now delay : Z) (v : vtlist) :
  0 <= now < 2 ^ 32 → 0 <= delay < 2 ^ 32 → deltas_ok (vt_list v) →
  let e := elapsed now v in
  let d := Z.max delay 2 in
  (e + d < 2 ^ 32 ∨ ∃ p l, vt_list v = p :: l ∧ e <= vt_delta p) →
  let v' := do_set t now delay v in
  match vt_list v with
  | [] => expiries 0 (vt_list v') = [(vt_id t, d)] ∧ vt_lasttime v' = now
          ∧ alarm v' = Some (u32 (now + d))
  | p :: _ => expiries 0 (vt_list v') = insert_time (vt_id t, e + d) (expiries 0 (vt_list v))
          ∧ vt_lasttime v' = vt_lasttime v
          ∧ alarm v' = (if e + d <? vt_delta p then Some (u32 (vt_lasttime v + (e + d))) else alarm v)
  end ∧ deltas_ok (vt_list v').
Proof.
  intros Hnow Hdel Hok e d Hsum v'. subst v'. unfold do_set, CH_CFG_ST_TIMEDELTA.
  replace (if delay <? 2 then 2 else delay) with d by (unfold d; zcases; lia).
  assert (0 <= e < 2 ^ 32) as He by (unfold e, elapsed; apply u32_range).
  assert (2 <= d < 2 ^ 32) as Hd by (unfold d; lia). fold (elapsed now v). fold e.
  destruct (vt_list v) as [|p l] eqn:El.
  { cbn. split_and!; try done. constructor; [cbn; lia|constructor]. }
  assert (0 <= vt_delta p < 2 ^ 32) as Hp by by apply Forall_cons_1 in Hok as [? _].
  destruct (decide (e + d < 2 ^ 32)) as [Hs|Hs].
  - rewrite u32_id, (proj2 (Z.ltb_ge _ _)) by lia. cbn [vt_list vt_lasttime alarm].
    destruct (vt_insert_spec t (e + d) (p :: l) 0) as [E1 E2]; [lia|done|]. by rewrite E1.
  - destruct Hsum as [|(p' & l' & [= <- <-] & Hle)]; [lia|].
    assert (u32 (e + d) = e + d - 2 ^ 32) as -> by cint.
    rewrite (proj2 (Z.ltb_lt _ _)) by lia. cbn [vt_list vt_lasttime alarm].
    assert (u32 (e + d - 2 ^ 32 - vt_delta p) = e + d - vt_delta p) as -> by cint.
    apply Forall_cons_1 in Hok as [_ Hok].
    destruct (vt_insert_spec t (e + d - vt_delta p) l (vt_delta p)) as [E1 E2]; [lia|done|].
    cbn [expiries insert_time snd]. rewrite !Z.add_0_l, E1, (proj2 (Z.ltb_lt (vt_delta p) _)) by lia.
    rewrite (proj2 (Z.ltb_ge _ (vt_delta p))) by lia.
    split_and!; try done; [|by constructor]. do 3 f_equal. lia.
Qed.

(** C33 (refinement). Setting a timer inserts it at its expiry time, the time
    elapsed since the last tick plus the delay of at least two ticks, before
    the timers that do not expire earlier, and moves no other timer; this
    holds for every delay that keeps the sum below the range of the counter,
    and for any delay at all while the first timer is not overdue. *)
Theorem set_refines_expiry (t : virtual_timer) (now delay : Z) (v : vtlist) :
  0 <= now < 2 ^ 32 → 0 <= delay < 2 ^ 32 → deltas_ok (vt_list v) →
  let e := elapsed now v in
  let d := Z.max delay 2 in
  (e + d < 2 ^ 32 ∨ ∃ p l, vt_list v = p :: l ∧ e <= vt_delta p) →
  let v' := do_set t now delay v in
  match vt_list v with
  | [] => expiries 0 (vt_list v') = [(vt_id t, d)] ∧ vt_lasttime v' = now
          ∧ alarm v' = Some (u32 (now + d))
  | p :: _ => expiries 0 (vt_list v') = insert_time (vt_id t, e + d) (expiries 0 (vt_list v))
          ∧ vt_lasttime v' = vt_lasttime v
          ∧ alarm v' = (if e + d <? vt_delta p then Some (u32 (vt_lasttime v + (e + d))) else alarm v)
  end ∧ deltas_ok (vt_list v').
Proof. exact (set_expiry t now delay v). Qed.

(** Stopping a timer removes it and moves no other timer, as
    long as its difference and its successor's add up below the range of the
    counter. When they do not, which takes delays near that range, the
    successor expires a whole turn of the counter, almost five days, early. *)
Theorem reset_keeps_expiry (id : nat) (now : Z) (v : vtlist) :
  deltas_ok (vt_list v) → NoDup (vt_id <$> vt_list v) →
  (sums_ok (vt_list v) →
   expiries 0 (vt_list (do_reset id now v)) = filter (λ x, x.1 ≠ id) (expiries 0 (vt_list v)))
  ∧ (∀ t n, vt_list v = [t; n] → vt_id t = id → 2 ^ 32 <= vt_delta t + vt_delta n →
     expiries 0 (vt_list (do_reset id now v)) = [(vt_id n, vt_delta t + vt_delta n - 2 ^ 32)]).
Proof.
  intros Hok Hnd. destruct (do_reset_list id now v) as [-> _]. split.
  - intros Hs. by apply vt_remove_spec.
  - intros t n E Et Hsum. rewrite E in *. cbn [vt_remove]. rewrite decide_True by done.
    apply Forall_cons_1 in Hok as [Ht Hok]. apply Forall_cons_1 in Hok as [Hn _].
    cbn. do 2 f_equal. cint.
Qed.

(** ** The tick *)

Class VtLaws (W : Type) `{VtWorld W} := {
  vtl_set v w : vtl (set_vtl v w) = v;
  set_vtl_id w : set_vtl (vtl w) w = w;
  set_set_vtl v v' w : set_vtl v (set_vtl v' w) = set_vtl v w;
  time_set v w : st_time (set_vtl v w) = st_time w
}.

(** The ticks from [vt_lasttime] to the expiry of a list's last timer. *)
Definition total (l : list virtual_timer) : Z := foldr (λ t s, vt_delta t + s) 0 l.

Lemma elapsed_advance now last d :
  0 <= d <= u32 (now - last) → u32 (now - u32 (last + d)) = u32 (now - last) - d.
Proof. intros Hd. cint. Qed.

Lemma alarm_advance now last T d :
  T <= u32 (now - last) < T + d → d < 2 ^ 32 → u32 (u32 (last + T) + d - now) = T + d - u32 (now - last).
Proof. intros. cint. Qed.

Lemma total_nonneg l : deltas_ok l → 0 <= total l.
Proof. induction 1 as [|t l Ht _ IH]; cbn; [done|]. unfold total in IH. lia. Qed.

Section tick.
Context {W : Type} `{VtLaws W}.

(** The callbacks leave the timers and the clock alone. *)
Hypothesis callback_timers : ∀ f p v w,
  call_timer f p (set_vtl v w) = (call_timer f p;; modify (set_vtl v)) w.
Hypothesis callback_time : ∀ f p w u w', call_timer f p w = Ok (u, w') → st_time w' = st_time w.

Fixpoint run_calls (l : list virtual_timer) : fw W unit :=
  match l with
  | [] => mret tt
  | t :: l => call_timer (vt_func t) (vt_par t);; run_calls l
  end.

(** A list after its timers up to [rest] have fired, on a clock at [now]. *)
Definition after_fired (now : Z) (fired rest : list virtual_timer) (v : vtlist) : vtlist :=
  {| vt_list := rest;
     vt_lasttime := u32 (vt_lasttime v + total fired);
     alarm := match rest with
              | t :: _ => Some (u32 (now + Z.max 2 (total fired + vt_delta t - elapsed now v)))
              | [] => match fired with [] => alarm v | _ => None end
              end |}.

Lemma tick_loop_fire fuel v w t l :
  vt_list v = t :: l → vt_delta t <= elapsed (st_time w) v →
  tick_loop (S fuel) (set_vtl v w)
  = (call_timer (vt_func t) (vt_par t);; tick_loop fuel)
      (set_vtl {| vt_list := l; vt_lasttime := u32 (vt_lasttime v + vt_delta t);
                  alarm := match l with [] => None | _ => alarm v end |} w).
Proof using All.
  intros Hl Ht. cbn [tick_loop]. rewrite vtl_set, time_set, Hl, set_set_vtl. unfold elapsed in Ht.
  by rewrite (proj2 (Z.leb_le _ _) Ht).
Qed.

Lemma tick_loop_fired (fired rest : list virtual_timer) (v : vtlist) (w : W) :
  vt_list v = fired ++ rest → deltas_ok (fired ++ rest) → 0 <= vt_lasttime v < 2 ^ 32 →
  let e := elapsed (st_time w) v in
  e < 2 ^ 32 - 1 → total fired <= e →
  (∀ t l, rest = t :: l → e < total fired + vt_delta t) →
  (tick_loop (S (length fired));; modify (λ w, set_vtl (tick_alarm (st_time w) (vtl w)) w)) (set_vtl v w)
  = (run_calls fired;; modify (set_vtl (after_fired (st_time w) fired rest v))) w.
Proof using All.
  revert v w. induction fired as [|t fired IH]; intros v w Hl Hok Hlast e He Hf Hr.
  - cbn [length run_calls]. change (total []) with 0 in *. cbn [app] in *.
    assert (tick_loop 1 (set_vtl v w) = Ok (tt, set_vtl v w)) as E.
    { cbn [tick_loop]. rewrite vtl_set, time_set, Hl. fold (elapsed (st_time w) v). fold e.
      destruct rest as [|t rest]; [by rewrite (proj2 (Z.leb_gt _ _)) by (unfold vt_sentinel; lia)|].
      specialize (Hr t rest eq_refl). by rewrite (proj2 (Z.leb_gt _ _)) by lia. }
    rewrite (fw_bind_ok _ _ _ _ _ E), (fw_bind_ok (mret tt) _ w tt w eq_refl). unfold modify. rewrite vtl_set, time_set, set_set_vtl. do 3 f_equal.
    unfold tick_alarm, after_fired. change (total []) with 0. rewrite Z.add_0_r, (u32_id (vt_lasttime _)), Hl by lia.
    destruct rest as [|t rest]; [by destruct v; cbn in *; subst|]. do 3 f_equal.
    specialize (Hr t rest eq_refl). apply Forall_cons_1 in Hok as [Ht _]. fold e.
    pose proof (alarm_advance (st_time w) (vt_lasttime v) 0 (vt_delta t)) as Ha.
    rewrite Z.add_0_r, (u32_id (vt_lasttime v)) in Ha by lia. fold (elapsed (st_time w) v) in Ha. fold e in Ha.
    rewrite Ha by lia. do 2 f_equal. unfold CH_CFG_ST_TIMEDELTA. zcases; lia.
  - cbn [length app] in *. pose proof Hok as Hok'. apply Forall_cons_1 in Hok as [Ht Hok].
    assert (0 <= total fired) as Hnn by (by apply total_nonneg; apply Forall_app in Hok as [? _]).
    assert (total (t :: fired) = vt_delta t + total fired) as Et by done. rewrite Et in *.
    set (v1 := {| vt_list := fired ++ rest; vt_lasttime := u32 (vt_lasttime v + vt_delta t);
                  alarm := match fired ++ rest with [] => None | _ => alarm v end |}).
    assert (elapsed (st_time w) v1 = e - vt_delta t) as E1.
    { apply elapsed_advance. unfold e, elapsed in *. lia. }
    assert (after_fired (st_time w) fired rest v1 = after_fired (st_time w) (t :: fired) rest v) as <-.
    { unfold after_fired. rewrite E1, Et. fold e. cbn [v1 vt_lasttime alarm]. rewrite u32_add_l.
      f_equal; [f_equal; lia|]. destruct rest; [by destruct fired|]. do 3 f_equal. lia. }
    rewrite fw_bind_eq, (tick_loop_fire _ v w t (fired ++ rest)) by (done || (fold e; lia)). fold v1.
    cbn [run_calls]. rewrite !fw_bind_eq, callback_timers, fw_bind_eq.
    destruct (call_timer (vt_func t) (vt_par t) w) as [[[] w1]|err] eqn:Ec; [|done].
    apply callback_time in Ec. unfold modify at 1.
    specialize (IH v1 w1). rewrite Ec, E1 in IH. apply IH; try done; [apply u32_range|lia..|].
    intros t' l' ->. specialize (Hr t' l' eq_refl). lia.
Qed.

(** While the callbacks leave the timers and the clock alone,
    a tick terminates after calling the expired timers, each once and in the
    order of expiry, and fails only when one of them does; the others keep
    their expiry times, and the alarm is set for the first of them, never
    closer than two ticks to avoid missing it. A tick that finds the counter
    one short of a whole turn after the last one is excluded: with no timers it
    would call the list's header. *)
Theorem tick_fires_expired (w : W) (fired rest : list virtual_timer) :
  vt_list (vtl w) = fired ++ rest → deltas_ok (fired ++ rest) →
  0 <= vt_lasttime (vtl w) < 2 ^ 32 →
  let e := elapsed (st_time w) (vtl w) in
  e < 2 ^ 32 - 1 → total fired <= e →
  (∀ t l, rest = t :: l → e < total fired + vt_delta t) →
  chVTDoTickI (S (length fired)) w
  = (run_calls fired;; modify (set_vtl (after_fired (st_time w) fired rest (vtl w)))) w.
Proof using All.
  intros Hl Hok Hlast e He Hf Hr. rewrite <-(set_vtl_id w) at 1. by apply tick_loop_fired.
Qed.

End tick.

(** ** Witnesses

    A world of its own: the timers, the time and the calls made. *)

Record vw := { w_v : vtlist; w_time : Z; w_calls : list (nat * nat) }.
#[export] Instance vw_world : VtWorld vw := {
  vtl := w_v;
  set_vtl v w := {| w_v := v; w_time := w_time w; w_calls := w_calls w |};
  st_time := w_time;
  call_timer f p := modify (λ w, {| w_v := w_v w; w_time := w_time w; w_calls := (f, p) :: w_calls w |})
}.
#[export] Instance vw_laws : VtLaws vw.
Proof. by constructor; [|intros []|..]. Defined.

Definition mkt (id : nat) (d : Z) (f : nat) : virtual_timer :=
  {| vt_id := id; vt_delta := d; vt_func := f; vt_par := 0%nat |}.
Definition two_timers : vtlist :=
  {| vt_list := [mkt 1 10 7; mkt 2 5 8]; vt_lasttime := 4294967290; alarm := Some 4 |}.

Lemma two_timers_ok : deltas_ok (vt_list two_timers).
Proof. repeat (constructor; [cbn; lia|]). constructor. Qed.

Lemma set_refines_expiry_witness :
  expiries 0 (vt_list (do_set (mkt 3 0 9) 2 4 two_timers)) = [(1%nat, 10); (3%nat, 12); (2%nat, 15)].
Proof.
  destruct (set_refines_expiry (mkt 3 0 9) 2 4 two_timers) as [[E _] _];
    [lia|lia|apply two_timers_ok|left; vm_compute; reflexivity|].
  cbn [two_timers vt_list] in E. etransitivity; [exact E|]. vm_compute. reflexivity.
Defined.

Lemma reset_keeps_expiry_witness : expiries 0 (vt_list (do_reset 1 2 two_timers)) = [(2%nat, 15)].
Proof.
  destruct (reset_keeps_expiry 1 2 two_timers) as [E _]; [apply two_timers_ok|apply (bool_decide_unpack _); vm_compute; exact I|].
  rewrite E; [vm_compute; reflexivity|]. cbn. lia.
Defined.

Lemma tick_fires_expired_witness :
  chVTDoTickI 2 {| w_v := two_timers; w_time := 6; w_calls := [] |}
  = Ok (tt, {| w_v := {| vt_list := [mkt 2 5 8]; vt_lasttime := 4; alarm := Some 9 |};
               w_time := 6; w_calls := [(7%nat, 0%nat)] |}).
Proof.
  refine (tick_fires_expired _ _ {| w_v := two_timers; w_time := 6; w_calls := [] |} [mkt 1 10 7] [mkt 2 5 8] _ _ _ _ _ _).
  - intros f p v w. reflexivity.
  - intros f p w u w' [= _ <-]. reflexivity.
  - reflexivity.
  - apply two_timers_ok.
  - cbn. lia.
  - vm_compute. reflexivity.
  - vm_compute. discriminate.
  - intros t l [= <- <-]. vm_compute. reflexivity.
Defined.

End VTimers.
