(* ===== verification/Memory.v ===== *)
(** * Memory management (chmemcore.c, chheap.c, chmempools.c)

    Addresses are 32-bit integers and 0 is NULL. The words the allocators keep
    inside the memory they manage, the heap's block headers and the pools'
    links, are read and written by address; the free lists are these links, as
    in the code, and not lists of the model. Locking is added in System.v. *)

From S2P Require Import Prelude Fw.

Module Memory.

Definition MEM_ALIGN_MASK : Z := 7.
Definition MEM_ALIGN_PREV (p : Z) : Z := Z.ldiff p MEM_ALIGN_MASK.
Definition MEM_ALIGN_NEXT (p : Z) : Z := MEM_ALIGN_PREV (u32 (p + MEM_ALIGN_MASK)).

(** [union heap_header]: [next] and [heap] share a word. *)
Record heap_header := { h_u : Z; h_size : Z }.
Definition sizeof_header : Z := 8.

(** [memory_heap_t]; its [h_free] header is at [h_free heapp]. *)
Record memory_heap := { h_provider : bool }.
Definition h_free (heapp : Z) : Z := heapp + 8.

(** [memory_pool_t] *)
Record memory_pool := { mp_next : Z; mp_object_size : Z; mp_provider : bool }.

Record memory := {
  nextmem : Z;
  endmem : Z;
  headers : Z → heap_header;
  heaps : Z → memory_heap;
  ph_next : Z → Z;
  pools : nat → memory_pool
}.

Section fields.
Implicit Types m : memory.
Definition set_nextmem (x : Z) m := {| nextmem := x; endmem := endmem m; headers := headers m; heaps := heaps m; ph_next := ph_next m; pools := pools m |}.
Definition set_endmem (x : Z) m := {| nextmem := nextmem m; endmem := x; headers := headers m; heaps := heaps m; ph_next := ph_next m; pools := pools m |}.
Definition set_headers (x : Z → heap_header) m := {| nextmem := nextmem m; endmem := endmem m; headers := x; heaps := heaps m; ph_next := ph_next m; pools := pools m |}.
Definition set_heaps (x : Z → memory_heap) m := {| nextmem := nextmem m; endmem := endmem m; headers := headers m; heaps := x; ph_next := ph_next m; pools := pools m |}.
Definition set_ph_next (x : Z → Z) m := {| nextmem := nextmem m; endmem := endmem m; headers := headers m; heaps := heaps m; ph_next := x; pools := pools m |}.
Definition set_pools (x : nat → memory_pool) m := {| nextmem := nextmem m; endmem := endmem m; headers := headers m; heaps := heaps m; ph_next := ph_next m; pools := x |}.
End fields.

Definition h_next (m : memory) (p : Z) : Z := h_u (headers m p).
Definition size_at (m : memory) (p : Z) : Z := h_size (headers m p).
Definition set_u (p x : Z) (m : memory) : memory :=
  set_headers (upd (headers m) p {| h_u := x; h_size := size_at m p |}) m.
Definition set_size (p x : Z) (m : memory) : memory :=
  set_headers (upd (headers m) p {| h_u := h_next m p; h_size := x |}) m.

(** ** The core allocator *)

Definition _core_init (heap_base heap_end : Z) : fw memory unit :=
  modify (λ m, set_endmem (MEM_ALIGN_PREV heap_end) (set_nextmem (MEM_ALIGN_NEXT heap_base) m)).

Definition chCoreAllocI (size : Z) : fw memory Z := λ m,
  let size := MEM_ALIGN_NEXT size in
  if u32 (endmem m - nextmem m) <? size then Ok (0, m)
  else Ok (nextmem m, set_nextmem (u32 (nextmem m + size)) m).
Definition chCoreAlloc : Z → fw memory Z := chCoreAllocI.

Definition chCoreGetStatusX : fw memory Z := gets (λ m, u32 (endmem m - nextmem m)).

(** ** The heap *)

Definition LIMIT (m : memory) (p : Z) : Z := u32 (p + sizeof_header + size_at m p).

Definition _heap_init (default_heap : Z) : fw memory unit :=
  modify (λ m, set_size (h_free default_heap) 0 (set_u (h_free default_heap) 0
    (set_heaps (upd (heaps m) default_heap {| h_provider := true |}) m))).

Definition chHeapObjectInit (heapp buf size : Z) : fw memory unit :=
  modify (λ m, set_size buf (u32 (size - sizeof_header)) (set_u buf 0
    (set_size (h_free heapp) 0 (set_u (h_free heapp) buf
      (set_heaps (upd (heaps m) heapp {| h_provider := false |}) m))))).

(** The block [hp] after [qp] is given out, whole or split. *)
Definition alloc_block (heapp qp hp size : Z) (m : memory) : memory :=
  let m :=
    if size_at m hp <? u32 (size + sizeof_header) then set_u qp (h_next m hp) m
    else
      let fp := u32 (hp + sizeof_header + size) in
      let m := set_u fp (h_next m hp) m in
      let m := set_size fp (u32 (size_at m hp - sizeof_header - size)) m in
      let m := set_u qp fp m in
      set_size hp size m in
  set_u hp heapp m.

(** The walk of [chHeapAlloc]: the address of the user's block, or NULL. *)
Fixpoint alloc_walk (fuel : nat) (heapp qp size : Z) : fw memory Z :=
  match fuel with
  | O => throw OutOfFuel
  | S fuel => λ m,
    let hp := h_next m qp in
    if hp =? 0 then Ok (0, m)
    else if size <=? size_at m hp then Ok (u32 (hp + sizeof_header), alloc_block heapp qp hp size m)
    else alloc_walk fuel heapp hp size m
  end.

(** When no free block fits, a new one comes from the provider. *)
Definition alloc_provide (heapp size : Z) : fw memory Z := λ m,
  if h_provider (heaps m heapp) then
    (hp ← chCoreAlloc (u32 (size + sizeof_header));
     if hp =? 0 then ret 0
     else modify (set_u hp heapp);; modify (set_size hp size);; ret (u32 (hp + sizeof_header))) m
  else Ok (0, m).

Definition chHeapAlloc (fuel : nat) (heapp size : Z) : fw memory Z :=
  let size := MEM_ALIGN_NEXT size in
  p ← alloc_walk fuel heapp (h_free heapp) size;
  if p =? 0 then alloc_provide heapp size else ret p.

(** Joins the block at [p] with the one at [n] where they touch. *)
Definition coalesce (p n : Z) (m : memory) : memory :=
  if LIMIT m p =? n then
    let m := set_size p (u32 (size_at m p + (size_at m n + sizeof_header))) m in
    set_u p (h_next m n) m
  else m.

(** [hp] linked after [qp] and joined with its neighbours. *)
Definition free_link (qp hp : Z) (m : memory) : memory :=
  let m := set_u hp (h_next m qp) m in
  let m := set_u qp hp m in
  let m := coalesce hp (h_next m hp) m in
  coalesce qp hp m.

(** The walk of [chHeapFree]; past the end of the list it reads NULL's header. *)
Fixpoint free_walk (fuel : nat) (heapp qp hp : Z) : fw memory unit :=
  match fuel with
  | O => throw OutOfFuel
  | S fuel => λ m,
    if ((qp =? h_free heapp) || (qp <? hp)) && ((h_next m qp =? 0) || (hp <? h_next m qp))
    then Ok (tt, free_link qp hp m)
    else if h_next m qp =? 0 then Err NullPointer
    else free_walk fuel heapp (h_next m qp) hp m
  end.

Definition chHeapFree (fuel : nat) (p : Z) : fw memory unit := λ m,
  let hp := u32 (p - sizeof_header) in
  let heapp := h_u (headers m hp) in
  free_walk fuel heapp (h_free heapp) hp m.

(** Number and total size of the free blocks. *)
Fixpoint status_walk (fuel : nat) (qp n sz : Z) : fw memory (Z * Z) :=
  match fuel with
  | O => throw OutOfFuel
  | S fuel => λ m,
    if h_next m qp =? 0 then Ok ((n, sz), m)
    else status_walk fuel (h_next m qp) (u32 (n + 1)) (u32 (sz + size_at m (h_next m qp))) m
  end.
Definition chHeapStatus (fuel : nat) (heapp : Z) : fw memory (Z * Z) :=
  status_walk fuel (h_free heapp) 0 0.

(** ** Memory pools *)

Definition pool_set (mp : nat) (p : memory_pool) : fw memory unit :=
  modify (λ m, set_pools (upd (pools m) mp p) m).

Definition chPoolObjectInit (mp : nat) (size : Z) (provider : bool) : fw memory unit :=
  pool_set mp {| mp_next := 0; mp_object_size := size; mp_provider := provider |}.

Definition chPoolFreeI (mp : nat) (objp : Z) : fw memory unit :=
  p ← gets (λ m, pools m mp);
  modify (λ m, set_ph_next (upd (ph_next m) objp (mp_next p)) m);;
  pool_set mp {| mp_next := objp; mp_object_size := mp_object_size p; mp_provider := mp_provider p |}.
Definition chPoolFree : nat → Z → fw memory unit := chPoolFreeI.
Definition chPoolAdd : nat → Z → fw memory unit := chPoolFree.

Fixpoint chPoolLoadArray (mp : nat) (p : Z) (n : nat) : fw memory unit :=
  match n with
  | O => ret tt
  | S n =>
    chPoolAdd mp p;;
    size ← gets (λ m, mp_object_size (pools m mp));
    chPoolLoadArray mp (u32 (p + size)) n
  end.

Definition chPoolAllocI (mp : nat) : fw memory Z :=
  p ← gets (λ m, pools m mp);
  let objp := mp_next p in
  if objp =? 0 then (if mp_provider p then chCoreAlloc (mp_object_size p) else ret 0)
  else
    next ← gets (λ m, ph_next m objp);
    pool_set mp {| mp_next := next; mp_object_size := mp_object_size p; mp_provider := mp_provider p |};;
    ret objp.
Definition chPoolAlloc : nat → fw memory Z := chPoolAllocI.

End Memory.
