(* ===== verification/Heap.v ===== *)
(** * The allocators' correctness

    The heap's linked blocks in memory refine a sorted list of free blocks in
    which no two are adjacent. *)

From stdpp Require Import sets.
From S2P Require Import Prelude Fw Memory.
Import Memory.

Module Heap.

(** ** Alignment and the core allocator *)

Lemma align_prev_eq p : 0 <= p → MEM_ALIGN_PREV p = 8 * (p / 8).
Proof.
  intros Hp. unfold MEM_ALIGN_PREV, MEM_ALIGN_MASK. change 7 with (Z.ones 3).
  rewrite Z.ldiff_ones_r, Z.shiftr_div_pow2, Z.shiftl_mul_pow2 by lia. change (2 ^ 3) with 8. lia.
Qed.

Lemma align_next_eq size :
  0 <= size < 2 ^ 32 →
  MEM_ALIGN_NEXT size = if size <=? 2 ^ 32 - 8 then 8 * ((size + 7) / 8) else 0.
Proof.
  intros Hs. unfold MEM_ALIGN_NEXT, MEM_ALIGN_MASK. rewrite align_prev_eq by apply u32_range.
  zcases; cint.
Qed.

(** ** Free blocks *)

(** A free block: its header's address and its size, without the header. *)
Definition block : Type := Z * Z.

(** First fit: the block found, the size granted and the blocks left. *)
Fixpoint fl_alloc (size : Z) (l : list block) : option (Z * Z * list block) :=
  match l with
  | [] => None
  | (a, s) :: l =>
    if size <=? s then
      if s <? size + 8 then Some (a, s, l)
      else Some (a, size, (a + 8 + size, s - 8 - size) :: l)
    else match fl_alloc size l with
         | Some (a', g, l') => Some (a', g, (a, s) :: l')
         | None => None
         end
  end.

(** Joins a block to the list that follows it. *)
Definition join (b : block) (l : list block) : list block :=
  match l with
  | (c, t) :: r => if b.1 + 8 + b.2 =? c then (b.1, b.2 + 8 + t) :: r else b :: l
  | [] => [b]
  end.

Fixpoint fl_free (b : block) (l : list block) : list block :=
  match l with
  | [] => [b]
  | c :: l' => if b.1 <? c.1 then join b l else join c (fl_free b l')
  end.

(** Blocks above [lo], apart from one another and inside the address space. *)
Fixpoint sep (lo : Z) (l : list block) : Prop :=
  match l with
  | [] => True
  | (a, s) :: l => lo < a ∧ 0 <= s ∧ a + 8 + s < 2 ^ 32 ∧ sep (a + 8 + s) l
  end.

(** The links from the header at [p] are [l]. *)
Fixpoint chain (m : memory) (p : Z) (l : list block) : Prop :=
  match l with
  | [] => h_next m p = 0
  | (a, s) :: l => h_next m p = a ∧ size_at m a = s ∧ chain m a l
  end.

(** A block apart from the list's header at [F] and the word after it. *)
Definition apart (F : Z) (b : block) : Prop := b.1 + 8 + b.2 <= F ∨ F + 8 < b.1.

Definition heap_ok (m : memory) (heapp : Z) (l : list block) : Prop :=
  0 <= heapp ∧ h_free heapp + 8 < 2 ^ 32 ∧ size_at m (h_free heapp) = 0
  ∧ chain m (h_free heapp) l ∧ sep 0 l ∧ Forall (apart (h_free heapp)) l.

(** ** Reading after writing *)

Lemma h_next_set_u m p x q : h_next (set_u p x m) q = if decide (q = p) then x else h_next m q.
Proof. unfold h_next, set_u. cbn. unfold upd. by case_decide. Qed.
Lemma size_at_set_u m p x q : size_at (set_u p x m) q = size_at m q.
Proof. unfold size_at, set_u. cbn. unfold upd. case_decide; by subst. Qed.
Lemma h_next_set_size m p x q : h_next (set_size p x m) q = h_next m q.
Proof. unfold h_next, set_size. cbn. unfold upd. case_decide; by subst. Qed.
Lemma size_at_set_size m p x q : size_at (set_size p x m) q = if decide (q = p) then x else size_at m q.
Proof. unfold size_at, set_size. cbn. unfold upd. by case_decide. Qed.

(** Reads through writes, the addresses compared by [lia]. *)
Ltac heap_simp :=
  repeat first [rewrite h_next_set_u | rewrite size_at_set_u | rewrite h_next_set_size | rewrite size_at_set_size];
  repeat case_decide; try lia.

(** Two memories with the same headers at the list's blocks and the same first
    link. *)
Lemma chain_ext_elem m m' p p' l :
  chain m p l → h_next m' p' = h_next m p →
  (∀ q, q ∈ l.*1 → h_next m' q = h_next m q ∧ size_at m' q = size_at m q) → chain m' p' l.
Proof.
  revert p p'. induction l as [|[a s] l IH]; intros p p'; cbn; [by intros -> ->|].
  intros (E1 & E2 & Hc) En Hq. destruct (Hq a) as [Ea Es]; [set_solver|].
  split_and!; [by rewrite En|by rewrite Es|]. apply (IH a a); [done..|].
  intros q Lq. apply Hq. set_solver.
Qed.

Lemma sep_block lo l q t : sep lo l → (q, t) ∈ l → lo < q ∧ 0 <= t ∧ q + 8 + t < 2 ^ 32.
Proof.
  revert lo. induction l as [|[a s] l IH]; intros lo; cbn; [set_solver|].
  intros (? & ? & ? & Hs) [[= -> ->]|Hq]%elem_of_cons; [lia|]. specialize (IH _ Hs Hq). lia.
Qed.

Lemma sep_elem lo l q : sep lo l → q ∈ l.*1 → lo < q.
Proof. intros Hs ([q' t] & -> & Hq)%list_elem_of_fmap. by apply (sep_block _ _ _ _ Hs) in Hq as [? _]. Qed.

Lemma chain_ext m m' p p' lo l :
  chain m p l → sep lo l → h_next m' p' = h_next m p →
  (∀ q, lo < q → h_next m' q = h_next m q ∧ size_at m' q = size_at m q) → chain m' p' l.
Proof.
  intros Hc Hs En Hq. apply (chain_ext_elem m _ p); [done..|].
  intros q Hin. apply Hq. by eapply sep_elem.
Qed.

Lemma sep_weaken lo lo' l : lo' <= lo → sep lo l → sep lo' l.
Proof. destruct l as [|[a s] l]; cbn; [done|]. intros ? (? & ?). split; [lia|done]. Qed.

(** ** Allocation *)

Lemma fl_alloc_sep size l lo a g l' :
  0 <= size → sep lo l → fl_alloc size l = Some (a, g, l') →
  sep lo l' ∧ lo < a ∧ size <= g ∧ a + 8 + g < 2 ^ 32.
Proof.
  intros H0. revert lo l'. induction l as [|[b s] l IH]; intros lo l'; cbn [fl_alloc sep]; [done|].
  intros (L1 & L2 & L3 & Hs). destruct (Z.leb_spec size s) as [L|L].
  - destruct (Z.ltb_spec s (size + 8)); intros [= <- <- <-].
    + split_and!; try lia. eapply sep_weaken; [|done]. lia.
    + cbn [sep]. split_and!; try lia. eapply sep_weaken; [|done]. lia.
  - destruct (fl_alloc size l) as [[[a' g'] l'']|]; [|done]. intros [= -> -> <-].
    destruct (IH _ _ Hs eq_refl) as (? & ? & ? & ?). cbn [sep]. split_and!; try lia. done.
Qed.

(** Outside the blocks, only the link at [p] changes. *)
Definition same_outside (l : list block) (p : Z) (m m' : memory) : Prop :=
  ∀ q, Forall (apart q) l → size_at m' q = size_at m q ∧ (q ≠ p → h_next m' q = h_next m q).

Lemma alloc_block_spec heapp qp a s size m lo l :
  0 <= size → 0 <= lo → apart qp (a, s) → size <= s →
  h_next m qp = a → size_at m a = s → chain m a l →
  lo < a → 0 <= s → a + 8 + s < 2 ^ 32 → sep (a + 8 + s) l → Forall (apart qp) l →
  ∃ m', alloc_block heapp qp a size m = m'
    ∧ chain m' qp (if s <? size + 8 then l else (a + 8 + size, s - 8 - size) :: l)
    ∧ h_next m' a = heapp ∧ size_at m' a = (if s <? size + 8 then s else size)
    ∧ same_outside ((a, s) :: l) qp m m'.
Proof.
  intros H0 Hlo Hqp L E1 E2 Hc L1 L2 L3 Hs Hap. eexists. split; [done|]. unfold apart in Hqp. cbn in Hqp.
  assert (∀ q, q ∈ l.*1 → a + 8 + s < q ∧ q ≠ qp) as Hel.
  { intros q Hq. split; [by eapply sep_elem|]. apply list_elem_of_fmap in Hq as ([b t] & -> & Hq).
    destruct (sep_block _ _ _ _ Hs Hq) as (_ & Ht & _). rewrite list.Forall_forall in Hap.
    specialize (Hap _ Hq). unfold apart in Hap. cbn in *. lia. }
  unfold alloc_block. rewrite E2, (u32_id (size + sizeof_header)) by (unfold sizeof_header; lia).
  unfold sizeof_header. destruct (Z.ltb_spec s (size + 8)) as [L'|L'].
  - split_and!; [|by heap_simp|by heap_simp|].
    + eapply (chain_ext_elem m _ a); [done..| |]; [by heap_simp|].
      intros q Hq%Hel. by heap_simp.
    + intros q [Hq _]%Forall_cons_1. unfold apart in Hq. cbn in Hq. heap_simp; split; (done || congruence).
  - rewrite (u32_id (a + 8 + size)), (u32_id (_ - size)) by (rewrite ?size_at_set_u, ?E2; lia).
    cbn [chain]. split_and!; try (by heap_simp).
    + eapply (chain_ext_elem m _ a); [done..| |]; [by heap_simp|]. intros q Hq%Hel. by heap_simp.
    + intros q [Hq _]%Forall_cons_1. unfold apart in Hq. cbn in Hq. heap_simp; split; (done || congruence).
Qed.

Lemma sep_apart a s l : 0 <= s → sep (a + 8 + s) l → Forall (apart a) l.
Proof.
  intros H0 Hs. apply list.Forall_forall. intros [b t] Hb.
  destruct (sep_block _ _ _ _ Hs Hb) as (? & ? & ?). right. cbn. lia.
Qed.

Lemma alloc_walk_spec heapp size l m qp lo fuel :
  (length l < fuel)%nat → 0 <= size → 0 <= lo → Forall (apart qp) l →
  chain m qp l → sep lo l →
  match fl_alloc size l with
  | None => alloc_walk fuel heapp qp size m = Ok (0, m)
  | Some (a, g, l') => ∃ m',
      alloc_walk fuel heapp qp size m = Ok (a + 8, m')
      ∧ chain m' qp l' ∧ h_next m' a = heapp ∧ size_at m' a = g ∧ same_outside l qp m m'
  end.
Proof.
  revert qp lo fuel. induction l as [|[a s] l IH]; intros qp lo [|fuel] Hf H0 Hlo Hqp Hc Hs; try (cbn in Hf; lia).
  { cbn in *. by rewrite Hc. }
  cbn [chain sep fl_alloc alloc_walk length] in *. destruct Hc as (E1 & E2 & Hc). destruct Hs as (L1 & L2 & L3 & Hs).
  apply Forall_cons_1 in Hqp as [Hqa Hqp].
  rewrite E1, (proj2 (Z.eqb_neq a 0)) by lia. rewrite E2. destruct (Z.leb_spec size s) as [L|L].
  - assert (u32 (a + sizeof_header) = a + 8) as -> by (apply u32_id; unfold sizeof_header; lia).
    destruct (alloc_block_spec heapp qp a s size m lo l) as (m' & Em & H1 & H2 & H3 & H4); [done..|].
    destruct (s <? size + 8); exists m'; by rewrite Em.
  - specialize (IH a (a + 8 + s) fuel ltac:(lia) H0 ltac:(lia) (sep_apart _ _ _ L2 Hs) Hc Hs).
    destruct (fl_alloc size l) as [[[a' g] l']|] eqn:Ef; [|done].
    destruct IH as (m' & -> & I1 & I2 & I3 & I4).
    exists m'. destruct (I4 a (sep_apart _ _ _ L2 Hs)) as [J1 _], (I4 qp Hqp) as [_ J2].
    unfold apart in Hqa. cbn in Hqa. cbn [chain]. rewrite J1, J2, E1, E2 by lia. split_and!; try done.
    intros q [Hqa' Hq]%Forall_cons_1. unfold apart in Hqa'. cbn in Hqa'.
    destruct (I4 q Hq) as [-> J]. split; [done|]. intros _. apply J. lia.
Qed.

(** ** Freeing *)

(** A list of blocks after its first one, in memory. *)
Definition block_chain (m : memory) (l : list block) : Prop :=
  match l with (p, s) :: l => size_at m p = s ∧ chain m p l | [] => True end.

Definition only_at (p : Z) (m m' : memory) : Prop :=
  ∀ q, q ≠ p → size_at m' q = size_at m q ∧ h_next m' q = h_next m q.

Lemma coalesce_spec p n s l m :
  h_next m p = n → block_chain m ((p, s) :: l) → 0 <= p → 0 <= s → p + 8 + s < 2 ^ 32 → sep (p + 7 + s) l →
  block_chain (coalesce p n m) (join (p, s) l) ∧ only_at p m (coalesce p n m)
  ∧ ∃ s' l', join (p, s) l = (p, s') :: l' ∧ s <= s' ∧ p + 8 + s' < 2 ^ 32 ∧ sep (p + 8 + s') l'.
Proof.
  intros En' [Es Hc] Hp Hs L Hsep. unfold coalesce.
  assert (LIMIT m p = p + 8 + s) as -> by (unfold LIMIT, sizeof_header; rewrite Es; apply u32_id; lia).
  destruct l as [|[b t] l]; cbn [chain sep join fst snd] in *.
  - rewrite <-En', Hc, (proj2 (Z.eqb_neq _ _)) by lia. split_and!; [done..|]. by exists s, [].
  - destruct Hc as (En & Et & Hc), Hsep as (L1 & L2 & L3 & Hsep). rewrite En in En'; subst b.
    destruct (Z.eqb_spec (p + 8 + s) n) as [E|E].
    + rewrite Es, Et, u32_id by (unfold sizeof_header; lia). unfold sizeof_header.
      replace (s + (t + 8)) with (s + 8 + t) by lia. split_and!.
      * cbn [block_chain]. split; [by heap_simp|]. eapply (chain_ext m _ n); [done..| |]; [by heap_simp|].
        intros q Hq. by heap_simp.
      * intros q Hq. by heap_simp.
      * exists (s + 8 + t), l. split_and!; [done|lia..|]. by replace (p + 8 + (s + 8 + t)) with (n + 8 + t) by lia.
    + split_and!; [done|by intros q|]. exists s, ((n, t) :: l). cbn [sep]. split_and!; try done; lia.
Qed.

Lemma join_sep lo p s l :
  lo < p → 0 <= s → p + 8 + s < 2 ^ 32 → sep (p + 7 + s) l → sep lo (join (p, s) l).
Proof.
  intros. destruct l as [|[n t] l]; cbn [join fst snd sep] in *; [done|].
  destruct (Z.eqb_spec (p + 8 + s) n); cbn [sep]; [|by destruct_and!; split_and!; try lia].
  destruct_and!. split_and!; try lia. by replace (p + 8 + (s + 8 + t)) with (n + 8 + t) by lia.
Qed.

(** A freed block linked after [qp], whose own block, if any, ends before. *)
Lemma free_link_spec qp hp s g l m :
  block_chain m ((qp, s) :: l) → size_at m hp = g →
  0 <= qp → 0 <= s → qp < hp → qp + 8 + s <= hp → 0 <= g → hp + 8 + g < 2 ^ 32 → sep (hp + 7 + g) l →
  block_chain (free_link qp hp m) (join (qp, s) (join (hp, g) l))
  ∧ (∀ q, q ≠ qp → q ≠ hp → size_at (free_link qp hp m) q = size_at m q ∧ h_next (free_link qp hp m) q = h_next m q).
Proof.
  intros [Es Hc] Eg Hqp Hs Hlt L Hg L2 Hsep. unfold free_link.
  set (m1 := set_u qp hp (set_u hp (h_next m qp) m)).
  assert (block_chain m1 ((hp, g) :: l)) as H1.
  { split; [by unfold m1; heap_simp|]. eapply (chain_ext m _ qp); [done..| |].
    - unfold m1. by heap_simp.
    - intros q Hq. unfold m1. by heap_simp. }
  destruct (coalesce_spec hp (h_next m1 hp) g l m1) as (B1 & O1 & g' & l' & Ej & G1 & G2 & S1); try done; [lia|].
  set (m2 := coalesce hp (h_next m1 hp) m1) in *.
  destruct (O1 qp ltac:(lia)) as [Oq1 Oq2].
  assert (h_next m2 qp = hp) as Eq2 by (rewrite Oq2; unfold m1; by heap_simp).
  assert (block_chain m2 ((qp, s) :: join (hp, g) l)) as H2.
  { split; [rewrite Oq1; unfold m1; by heap_simp|]. rewrite Ej in *. by destruct B1. }
  destruct (coalesce_spec qp hp s (join (hp, g) l) m2) as (B2 & O2 & _); try done; [lia| |].
  { apply join_sep; try done; lia. }
  split; [done|]. intros q Hq Hq'. destruct (O2 q ltac:(lia)) as [-> ->], (O1 q ltac:(lia)) as [-> ->].
  unfold m1. by heap_simp.
Qed.

(** After the list's own header, a block of no size that joins nothing. *)
Lemma free_link_first F hp g l m :
  chain m F l → size_at m F = 0 → size_at m hp = g →
  0 <= F → F + 8 < 2 ^ 32 → apart F (hp, g) → 0 < hp → 0 <= g → hp + 8 + g < 2 ^ 32 →
  sep (hp + 7 + g) l → Forall (apart F) l →
  chain (free_link F hp m) F (join (hp, g) l) ∧ size_at (free_link F hp m) F = 0.
Proof.
  intros Hc E0 Eg HF LF Ha Hp Hg L2 Hsep Hap. unfold apart in Ha. cbn in Ha. unfold free_link.
  set (m1 := set_u F hp (set_u hp (h_next m F) m)).
  assert (block_chain m1 ((hp, g) :: l)) as H1.
  { split; [by unfold m1; heap_simp|]. eapply (chain_ext_elem m _ F); [done..| |].
    - unfold m1. by heap_simp.
    - intros q Hq. pose proof (sep_elem _ _ _ Hsep Hq). apply list_elem_of_fmap in Hq as ([q' t] & -> & Hq).
      destruct (sep_block _ _ _ _ Hsep Hq) as (_ & Ht & _).
      rewrite list.Forall_forall in Hap. specialize (Hap _ Hq). unfold apart in Hap. cbn in *.
      unfold m1. by heap_simp. }
  destruct (coalesce_spec hp (h_next m1 hp) g l m1) as (B1 & O1 & g' & l' & Ej & _); try done; [lia|].
  set (m2 := coalesce hp (h_next m1 hp) m1) in *.
  destruct (O1 F ltac:(lia)) as [O2 O3].
  assert (size_at m2 F = 0) as E2 by (rewrite O2; unfold m1; by heap_simp).
  assert (h_next m2 F = hp) as E3 by (rewrite O3; unfold m1; by heap_simp).
  assert (coalesce F hp m2 = m2) as ->.
  { unfold coalesce, LIMIT, sizeof_header. rewrite E2, u32_id by lia. by rewrite (proj2 (Z.eqb_neq _ _)) by lia. }
  split; [|done]. rewrite Ej in *. by destruct B1.
Qed.

Definition away (hp g : Z) (c : block) : Prop := c.1 + 8 + c.2 <= hp ∨ hp + 8 + g <= c.1.

Lemma join_head b l : ∃ t r, join b l = (b.1, t) :: r.
Proof. destruct b as [p s], l as [|[c t] l]; cbn; [eauto|]. case_match; eauto. Qed.

Lemma free_walk_block heapp hp g fuel qp s l m :
  (length l < fuel)%nat → h_free heapp ≠ qp →
  block_chain m ((qp, s) :: l) → size_at m hp = g → sep 0 ((qp, s) :: l) →
  qp < hp → 0 <= g → hp + 8 + g < 2 ^ 32 → Forall (away hp g) ((qp, s) :: l) →
  h_free heapp ∉ l.*1 →
  ∃ m', free_walk fuel heapp qp hp m = Ok (tt, m')
    ∧ block_chain m' (fl_free (hp, g) ((qp, s) :: l))
    ∧ ∀ q, q ≠ hp → q ∉ ((qp, s) :: l).*1 → size_at m' q = size_at m q ∧ h_next m' q = h_next m q.
Proof.
  revert qp s fuel. induction l as [|[n t] l IH]; intros qp s [|fuel] Hf HF Hb Eg Hsep Hlt Hg L2 Haw Hni; try (cbn in Hf; lia).
  all: apply Forall_cons_1 in Haw as [Haq Haw]; unfold away in Haq; cbn [fst snd] in Haq.
  all: pose proof Hb as [Es Hc]; cbn [sep] in Hsep; destruct_and! Hsep.
  all: cbn [free_walk]; rewrite (proj2 (Z.eqb_neq qp _)) by done; rewrite (proj2 (Z.ltb_lt qp hp)) by done; cbn [orb andb].
  all: cbn [fl_free fst]; rewrite (proj2 (Z.ltb_ge hp qp)) by lia.
  - cbn in Hc. rewrite Hc. cbn [Z.eqb orb]. eexists. split; [done|].
    edestruct (free_link_spec qp hp s g []) as [B O]; try done; try lia.
    split; [done|]. intros q Hq Hq'. apply O; [|done]. cbn in Hq'. set_solver.
  - destruct Hc as (En & Et & Hc). rewrite En, (proj2 (Z.eqb_neq n 0)) by lia. cbn [orb].
    apply Forall_cons_1 in Haw as [Han Haw]. unfold away in Han. cbn [fst snd] in Han.
    cbn [fl_free fst]. destruct (Z.ltb_spec hp n) as [L|L].
    + eexists. split; [done|].
      edestruct (free_link_spec qp hp s g ((n, t) :: l)) as [B O]; try done; try lia.
      { cbn [sep]. split_and!; try done; lia. }
      split; [done|]. intros q Hq Hq'. apply O; [|done]. cbn in Hq'. set_solver.
    + destruct (IH n t fuel) as (m' & -> & B & O); try done.
      * cbn in Hf. lia.
      * cbn in Hni. set_solver.
      * cbn [sep]. split_and!; try done; lia.
      * destruct (decide (hp = n)); lia.
      * by constructor.
      * cbn in Hni. set_solver.
      * exists m'. split; [done|]. split.
        -- cbn [fl_free fst] in B |- *. rewrite (proj2 (Z.ltb_ge hp n)) in B by lia.
           destruct (join_head (n, t) (fl_free (hp, g) l)) as (t' & r & Ej). rewrite Ej in *. cbn [fst] in *.
           cbn [join fst snd]. rewrite (proj2 (Z.eqb_neq _ _)) by lia.
           destruct (O qp) as [O1 O2]; [lia| |].
           { cbn. intros Hin. pose proof (sep_elem (qp + 8 + s) ((n, t) :: l) qp). cbn [sep] in *. naive_solver lia. }
           cbn [block_chain chain]. rewrite O1, O2. by destruct B.
        -- intros q Hq Hq'. apply O; [done|]. cbn in Hq'. set_solver.
Qed.

(** ** The free list after a call *)

Lemma fl_free_sep hp g l lo :
  sep lo l → lo < hp → 0 <= g → hp + 8 + g < 2 ^ 32 → Forall (away hp g) l → sep lo (fl_free (hp, g) l).
Proof.
  intros Hs Hlo Hg L. revert lo Hs Hlo. induction l as [|[n t] l IH]; intros lo Hs Hlo Haw.
  { cbn. lia. }
  apply Forall_cons_1 in Haw as [Han Haw]. unfold away in Han. cbn [sep fl_free fst snd] in *. destruct_and! Hs.
  destruct (Z.ltb_spec hp n).
  - apply join_sep; try done. cbn [sep]. split_and!; try done; lia.
  - assert (0 <= t) by done. apply join_sep; try done.
    assert (n + 8 + t <= hp) as Hle by (destruct (decide (hp = n)); lia).
    destruct (decide (n + 8 + t = hp)) as [E|E].
    + eapply (sep_weaken (n + 7 + t)) ; [lia|].
      clear IH. destruct l as [|[c r] l]; cbn [sep fl_free fst snd join] in *; [lia|].
      apply Forall_cons_1 in Haw as [Hac _]. unfold away in Hac. cbn in Hac.
      destruct_and!. rewrite (proj2 (Z.ltb_lt hp c)) by lia. destruct (Z.eqb_spec (hp + 8 + g) c); cbn [sep];
        split_and!; try done; try lia. by replace (hp + 8 + (g + 8 + r)) with (c + 8 + r) by lia.
    + eapply (sep_weaken (n + 8 + t)); [lia|]. apply IH; try done. lia.
Qed.

Lemma join_apart F p s l :
  apart F (p, s) → Forall (apart F) l → 0 <= s → (∀ c t r, l = (c, t) :: r → 0 <= t) →
  Forall (apart F) (join (p, s) l).
Proof.
  intros Ha Hl Hs Ht. destruct l as [|[c t] r]; cbn [join fst snd]; [by constructor; [|constructor]|].
  destruct (Z.eqb_spec (p + 8 + s) c) as [E|E]; [|by constructor].
  apply Forall_cons_1 in Hl as [Hc Hr]. constructor; [|done].
  specialize (Ht c t r eq_refl). unfold apart in *. cbn in *. lia.
Qed.

Lemma fl_free_apart F hp g l lo :
  sep lo l → apart F (hp, g) → 0 <= g → lo < hp → hp + 8 + g < 2 ^ 32 → Forall (away hp g) l →
  Forall (apart F) l → Forall (apart F) (fl_free (hp, g) l).
Proof.
  intros Hs Ha Hg Hlo L2. revert lo Hs Hlo. induction l as [|[n t] l IH]; intros lo Hs Hlo Haw Hl.
  { by constructor; [|constructor]. }
  pose proof (fl_free_sep hp g l (n + 8 + t)) as Hf.
  pose proof Hl as Hl'. pose proof Haw as Haw'.
  apply Forall_cons_1 in Haw as [Han Haw]. apply Forall_cons_1 in Hl as [Hn Hl].
  cbn [sep fl_free fst] in *. destruct_and! Hs. destruct (Z.ltb_spec hp n).
  - apply join_apart; try done. by intros c t' r [= <- <- <-].
  - unfold away in Han. cbn in Han. assert (n + 8 + t <= hp) as Hle by (destruct (decide (hp = n)); lia).
    apply join_apart; try done.
    + destruct (decide (n + 8 + t = hp)); [|apply (IH (n + 8 + t)); try done; lia].
      apply (IH (n + 7 + t)); try done; [|lia]. eapply sep_weaken; [|done]. lia.
    + intros c t' r Ec. assert (sep (n + 7 + t) (fl_free (hp, g) l)) as Hs'.
      { apply fl_free_sep; try done; [|lia]. eapply sep_weaken; [|done]. lia. }
      rewrite Ec in Hs'. cbn in Hs'. lia.
Qed.

(** Free bytes, headers included. *)
Definition free_bytes (l : list block) : Z := foldr (λ b n, 8 + b.2 + n) 0 l.

Lemma fl_free_bytes b l : free_bytes (fl_free b l) = 8 + b.2 + free_bytes l.
Proof.
  assert (∀ b l, free_bytes (join b l) = 8 + b.2 + free_bytes l) as Hj.
  { intros [p s] [|[c t] r]; cbn; [done|]. case_match; cbn; unfold free_bytes; lia. }
  induction l as [|c l IH]; cbn [fl_free]; [done|]. case_match; [apply Hj|].
  rewrite Hj, IH. cbn. unfold free_bytes. lia.
Qed.

(** Freeing what was just allocated gives the list back. *)
Lemma fl_free_alloc size l lo a g l' :
  0 <= size → sep lo l → fl_alloc size l = Some (a, g, l') → fl_free (a, g) l' = l.
Proof.
  intros H0. revert lo l'. induction l as [|[b s] l IH]; intros lo l'; cbn [fl_alloc sep]; [done|].
  intros (L1 & L2 & L3 & Hs). destruct (Z.leb_spec size s) as [L|L].
  - destruct (Z.ltb_spec s (size + 8)); intros [= <- <- <-].
    + destruct l as [|[c t] l]; [done|]. cbn [sep fl_free fst join snd] in *.
      rewrite (proj2 (Z.ltb_lt b c)), (proj2 (Z.eqb_neq _ c)) by lia. done.
    + cbn [fl_free fst]. rewrite (proj2 (Z.ltb_lt _ _)) by lia. cbn [join fst snd].
      rewrite Z.eqb_refl. do 2 f_equal. lia.
  - destruct (fl_alloc size l) as [[[a' g'] l'']|] eqn:Ef; [|done]. intros [= -> -> <-].
    apply (fl_alloc_sep _ _ _ _ _ _ H0 Hs) in Ef as (_ & La & _).
    cbn [fl_free fst]. rewrite (proj2 (Z.ltb_ge a b)) by lia. rewrite (IH _ _ Hs eq_refl).
    destruct l as [|[c t] l]; [done|]. cbn [join fst snd sep] in *. by rewrite (proj2 (Z.eqb_neq _ c)) by lia.
Qed.

(** What [fl_alloc] leaves stays apart from everything the list was apart from,
    and from the block given out. *)
Lemma fl_alloc_apart size l lo a g l' F :
  0 <= size → sep lo l → Forall (apart F) l → fl_alloc size l = Some (a, g, l') →
  apart F (a, g) ∧ Forall (apart F) l' ∧ Forall (away a g) l' ∧ free_bytes l = 8 + g + free_bytes l'.
Proof.
  intros H0. revert lo l'. induction l as [|[b s] l IH]; intros lo l'; cbn [fl_alloc sep]; [done|].
  intros (L1 & L2 & L3 & Hs) [Hb Hl]%Forall_cons_1.
  assert (∀ x, x <= s → Forall (away b x) l) as Haw.
  { intros x Hx. apply list.Forall_forall. intros [c t] Hc. destruct (sep_block _ _ _ _ Hs Hc) as (? & ? & ?).
    right. cbn. lia. }
  unfold apart in Hb. cbn in Hb. destruct (Z.leb_spec size s) as [L|L].
  - destruct (Z.ltb_spec s (size + 8)); intros [= <- <- <-].
    + split_and!; try done. by apply Haw.
    + split_and!.
      * unfold apart. cbn. lia.
      * constructor; [unfold apart; cbn; lia|done].
      * constructor; [right; cbn; lia|by apply Haw].
      * cbn. unfold free_bytes. lia.
  - destruct (fl_alloc size l) as [[[a' g'] l'']|] eqn:Ef; [|done]. intros [= -> -> <-].
    destruct (IH _ _ Hs Hl eq_refl) as (I1 & I2 & I3 & I4).
    apply (fl_alloc_sep _ _ _ _ _ _ H0 Hs) in Ef as (_ & La & _).
    split_and!; [done|by constructor|constructor; [left; cbn; lia|done]|]. cbn. unfold free_bytes in *. lia.
Qed.

(** An allocation on the list of free blocks. *)
Lemma heap_alloc_spec (heapp size : Z) (m : memory) (l : list block) (fuel : nat) :
  heap_ok m heapp l → 0 <= size <= 2 ^ 32 - 8 → (length l < fuel)%nat →
  match fl_alloc (8 * ((size + 7) / 8)) l with
  | Some (a, g, l') => ∃ m',
      chHeapAlloc fuel heapp size m = Ok (a + 8, m')
      ∧ heap_ok m' heapp l' ∧ h_next m' a = heapp ∧ size_at m' a = g ∧ size <= g
      ∧ Forall (away a g) l' ∧ free_bytes l = 8 + g + free_bytes l' ∧ fl_free (a, g) l' = l
  | None => chHeapAlloc fuel heapp size m = alloc_provide heapp (8 * ((size + 7) / 8)) m
  end.
Proof.
  intros (H1 & H2 & E0 & Hc & Hs & Ha) Hsize Hf. unfold chHeapAlloc.
  rewrite align_next_eq, (proj2 (Z.leb_le size _)) by lia. set (sz := 8 * ((size + 7) / 8)).
  assert (size <= sz ∧ 0 <= sz) as [Hsz Hsz0] by (unfold sz; Z.to_euclidean_division_equations; lia).
  pose proof (alloc_walk_spec heapp sz l m (h_free heapp) 0 fuel Hf ltac:(lia) ltac:(lia) Ha Hc Hs) as Hw.
  destruct (fl_alloc sz l) as [[[a g] l']|] eqn:Ef.
  - destruct Hw as (m' & E & Hc' & Eu & Eg & Ho). exists m'. rewrite (fw_bind_ok _ _ _ _ _ E).
    destruct (fl_alloc_sep _ _ _ _ _ _ Hsz0 Hs Ef) as (Hs' & La & Lg & _).
    destruct (fl_alloc_apart _ _ _ _ _ _ _ Hsz0 Hs Ha Ef) as (_ & Ha' & Haw & Eb).
    rewrite (proj2 (Z.eqb_neq _ 0)) by lia. destruct (Ho _ Ha) as [Es _].
    split_and!; try done; [by split_and!; try done; rewrite Es|lia|]. apply (fl_free_alloc sz l 0); [lia|done..].
  - by rewrite (fw_bind_ok _ _ _ _ _ Hw).
Qed.

(** C34 (refinement). On a heap whose links are a separated list of blocks, an
    allocation takes the first block that fits, whole or split, and gives out
    at least the size asked, apart from every block left free; freeing it joins
    it with its neighbours and restores exactly the heap there was before. With
    no block that fits, the heap's provider is asked. *)
Theorem heap_alloc_refines (heapp size : Z) (m : memory) (l : list block) (fuel : nat) :
  heap_ok m heapp l → 0 <= size <= 2 ^ 32 - 8 → (length l < fuel)%nat →
  match fl_alloc (8 * ((size + 7) / 8)) l with
  | Some (a, g, l') => ∃ m',
      chHeapAlloc fuel heapp size m = Ok (a + 8, m')
      ∧ heap_ok m' heapp l' ∧ h_next m' a = heapp ∧ size_at m' a = g ∧ size <= g
      ∧ Forall (away a g) l' ∧ free_bytes l = 8 + g + free_bytes l' ∧ fl_free (a, g) l' = l
  | None => chHeapAlloc fuel heapp size m = alloc_provide heapp (8 * ((size + 7) / 8)) m
  end.
Proof. exact (heap_alloc_spec heapp size m l fuel). Qed.

(** C35 (refinement). Freeing a block recorded as the heap's, apart from its
    free blocks, puts it in its place in the list and joins it with the
    neighbours it touches: the free bytes grow by exactly the block and no two
    free blocks are adjacent. *)
Theorem heap_free_refines (heapp hp g : Z) (m : memory) (l : list block) (fuel : nat) :
  heap_ok m heapp l → h_next m hp = heapp → size_at m hp = g →
  0 < hp → 0 <= g → hp + 8 + g < 2 ^ 32 → apart (h_free heapp) (hp, g) → Forall (away hp g) l →
  (length l < fuel)%nat →
  ∃ m', chHeapFree fuel (hp + 8) m = Ok (tt, m')
    ∧ heap_ok m' heapp (fl_free (hp, g) l)
    ∧ free_bytes (fl_free (hp, g) l) = free_bytes l + 8 + g.
Proof.
  intros (H1 & H2 & E0 & Hc & Hs & Ha) Eu Eg Hp Hg L2 Hap Haw Hf.
  set (F := h_free heapp) in *. assert (0 <= F) as HF by (unfold F, h_free; lia).
  assert (∃ m', chHeapFree fuel (hp + 8) m = Ok (tt, m')
    ∧ chain m' F (fl_free (hp, g) l) ∧ size_at m' F = 0) as (m' & E & Hc' & E0').
  { unfold chHeapFree, sizeof_header. rewrite Z.add_simpl_r, u32_id by lia. fold (h_next m hp). rewrite Eu. fold F.
    destruct fuel as [|fuel]; [lia|]. cbn [free_walk]. fold F. rewrite Z.eqb_refl. cbn [orb andb].
    destruct l as [|[n t] l].
    - cbn in Hc. rewrite Hc. cbn [Z.eqb orb]. eexists. split; [done|].
      by apply (free_link_first F hp g []).
    - pose proof Hc as (En & Et & Hcn). pose proof Hs as (L3 & L4 & L5 & Hs'). rewrite En, (proj2 (Z.eqb_neq n 0)) by lia.
      pose proof (Forall_cons_1 _ _ _ Ha) as [Han Hal]. pose proof (Forall_cons_1 _ _ _ Haw) as [Hwn _].
      unfold apart in Han. unfold away in Hwn. cbn [fst snd] in *.
      cbn [orb fl_free fst]. destruct (Z.ltb_spec hp n) as [L|L].
      + eexists. split; [done|]. apply (free_link_first F hp g ((n, t) :: l)); try done.
        cbn [sep]. split_and!; try done; lia.
      + assert (F ∉ ((n, t) :: l).*1) as HFn.
        { intros ([b t'] & -> & Hb)%list_elem_of_fmap. destruct (sep_block _ _ _ _ Hs Hb) as (_ & Ht' & _).
          rewrite list.Forall_forall in Ha. specialize (Ha _ Hb). unfold apart in Ha. cbn in Ha. lia. }
        cbn in HFn. apply not_elem_of_cons in HFn as [HF1 HF2].
        destruct (free_walk_block heapp hp g fuel n t l m) as (m' & E & Hb & O); try done; try (by apply Nat.succ_lt_mono).
        { destruct (decide (hp = n)); lia. }
        exists m'. split; [done|].
        destruct (O F) as [O1 O2]; [unfold apart in Hap; cbn in Hap; lia|by apply not_elem_of_cons|].
        rewrite O1. split; [|done].
        cbn [fl_free fst] in Hb. rewrite (proj2 (Z.ltb_ge hp n)) in Hb by lia.
        destruct (join_head (n, t) (fl_free (hp, g) l)) as (t' & r & Ej). rewrite Ej in *.
        cbn [block_chain chain fst] in *. rewrite O2, En. by destruct Hb. }
  exists m'. split; [done|]. split; [|rewrite fl_free_bytes; cbn; lia].
  split_and!; try done; [by apply fl_free_sep|]. by apply (fl_free_apart _ _ _ _ 0).
Qed.

(** A size that is not a multiple of eight within seven of the end
    of the range is rounded up past it, to zero: the core allocator and the
    heap then answer with a pointer to no memory at all instead of NULL. *)
Theorem alloc_size_wraps (size : Z) (heapp : Z) (fuel : nat) (m : memory) :
  2 ^ 32 - 8 < size < 2 ^ 32 →
  chCoreAllocI size m = Ok (nextmem m, set_nextmem (u32 (nextmem m)) m)
  ∧ chHeapAlloc fuel heapp size m = chHeapAlloc fuel heapp 0 m.
Proof.
  intros Hs. unfold chCoreAllocI, chHeapAlloc. rewrite !align_next_eq by lia.
  rewrite (proj2 (Z.leb_gt size _)) by lia. cbn [Z.leb]. split; [|done].
  rewrite (proj2 (Z.ltb_ge _ 0)) by apply u32_range. by rewrite Z.add_0_r.
Qed.

(** The core allocator gives out consecutive, aligned pieces of
    the memory between its bounds, or NULL and nothing when too little is left. *)
Theorem core_alloc_spec (size : Z) (m : memory) :
  0 <= size <= 2 ^ 32 - 8 → 0 < nextmem m → nextmem m <= endmem m → endmem m < 2 ^ 32 →
  nextmem m mod 8 = 0 →
  ∃ p m', chCoreAllocI size m = Ok (p, m') ∧ endmem m' = endmem m
    ∧ ((p = 0 ∧ m' = m ∧ endmem m - nextmem m < 8 * ((size + 7) / 8))
       ∨ (p = nextmem m ∧ p mod 8 = 0 ∧ p + size <= nextmem m' ∧ nextmem m' <= endmem m ∧ nextmem m' mod 8 = 0)).
Proof.
  intros Hs Hn Hle He Hal. unfold chCoreAllocI. rewrite align_next_eq, (proj2 (Z.leb_le size _)) by lia.
  rewrite (u32_id (endmem m - nextmem m)) by lia.
  destruct (Z.ltb_spec (endmem m - nextmem m) (8 * ((size + 7) / 8))) as [L|L].
  - exists 0, m. split_and!; try done. by left.
  - eexists _, _. split_and!; [done|done|]. right. cbn [nextmem set_nextmem]. rewrite u32_id by cint.
    split_and!; try done; cint.
Qed.

(** A heap made from a buffer is one free block. *)
Lemma heap_init_ok heapp buf size m :
  0 <= heapp → heapp + 16 < 2 ^ 32 → 0 < buf → 8 <= size → buf + size < 2 ^ 32 →
  apart (h_free heapp) (buf, size - 8) →
  ∃ m', chHeapObjectInit heapp buf size m = Ok (tt, m') ∧ heap_ok m' heapp [(buf, size - 8)].
Proof.
  intros H1 H2 H3 H4 H5 H6. unfold apart, h_free in *. cbn in H6.
  eexists. split; [done|]. unfold sizeof_header. rewrite (u32_id (size - 8)) by lia.
  split_and!; unfold h_free; try (by heap_simp); cbn [chain sep]; try lia.
  - split_and!; by heap_simp.
  - constructor; [unfold apart; cbn; lia|constructor].
Qed.

(** ** Pools

    The free objects of a pool, first to be given out first. *)
Fixpoint pool_chain (next : Z → Z) (p : Z) (l : list Z) : Prop :=
  match l with
  | [] => p = 0
  | a :: l => p = a ∧ a ≠ 0 ∧ pool_chain next (next a) l
  end.

Definition pool_ok (m : memory) (mp : nat) (l : list Z) : Prop :=
  pool_chain (ph_next m) (mp_next (pools m mp)) l ∧ NoDup l.

Lemma pool_chain_ext next a x p l : a ∉ l → pool_chain next p l → pool_chain (upd next a x) p l.
Proof.
  revert p. induction l as [|b l IH]; intros p Hni; [done|]. cbn. apply not_elem_of_cons in Hni as [Hn Hni].
  intros (-> & H0 & Hc). split_and!; try done. rewrite upd_ne by congruence. by apply IH.
Qed.

(** A pool is a stack: freeing an object pushes it, and an
    allocation pops the object freed last; an empty pool asks its provider, or
    answers NULL. *)
Theorem pool_refines_stack (mp : nat) (l : list Z) (m : memory) :
  pool_ok m mp l →
  (∀ a, a ≠ 0 → a ∉ l → ∃ m', chPoolFreeI mp a m = Ok (tt, m') ∧ pool_ok m' mp (a :: l))
  ∧ match l with
    | a :: l' => ∃ m', chPoolAllocI mp m = Ok (a, m') ∧ pool_ok m' mp l'
    | [] => chPoolAllocI mp m
            = if mp_provider (pools m mp) then chCoreAlloc (mp_object_size (pools m mp)) m else Ok (0, m)
    end.
Proof.
  intros [Hc Hnd]. split.
  - intros a Ha Hni. eexists. split; [done|]. split; [|by apply list.NoDup_cons].
    unfold pool_set. cbn. rewrite upd_eq. cbn. split_and!; try done. rewrite upd_eq.
    by apply pool_chain_ext.
  - destruct l as [|a l]; cbn [pool_chain] in Hc.
    + unfold chPoolAllocI. rewrite (fw_bind_ok _ _ _ _ _ eq_refl). cbv zeta. rewrite Hc. cbn [Z.eqb].
      by destruct (mp_provider _).
    + destruct Hc as (E & H0 & Hc). unfold chPoolAllocI. rewrite (fw_bind_ok _ _ _ _ _ eq_refl). cbv zeta.
      rewrite E, (proj2 (Z.eqb_neq a 0)) by done. eexists. split; [done|].
      apply list.NoDup_cons in Hnd as [_ Hnd]. split; [|done]. cbn. by rewrite upd_eq.
Qed.

(** ** Witnesses *)

Definition no_memory : memory :=
  {| nextmem := 4096; endmem := 8192; headers := λ _, {| h_u := 0; h_size := 0 |};
     heaps := λ _, {| h_provider := false |}; ph_next := λ _, 0;
     pools := λ _, {| mp_next := 0; mp_object_size := 16; mp_provider := true |} |}.
Definition one_heap : memory :=
  match chHeapObjectInit 1000 2000 104 no_memory with Ok (_, m) => m | Err _ => no_memory end.
Lemma one_heap_ok : heap_ok one_heap 1000 [(2000, 96)].
Proof. destruct (heap_init_ok 1000 2000 104 no_memory) as (m' & [= <-] & H); try done. right. done. Qed.

Lemma heap_alloc_refines_witness : ∃ m',
  chHeapAlloc 2 1000 20 one_heap = Ok (2008, m') ∧ heap_ok m' 1000 [(2032, 64)].
Proof.
  destruct (heap_alloc_refines 1000 20 one_heap [(2000, 96)] 2 one_heap_ok) as (m' & E & H & _); [lia|cbn; lia|].
  exists m'. split; [exact E|exact H].
Defined.

Definition split_heap : memory :=
  match chHeapAlloc 2 1000 20 one_heap with Ok (_, m) => m | Err _ => no_memory end.

Lemma heap_free_refines_witness : ∃ m',
  chHeapFree 2 2008 split_heap = Ok (tt, m') ∧ heap_ok m' 1000 [(2000, 96)].
Proof.
  destruct (heap_free_refines 1000 2000 24 split_heap [(2032, 64)] 2) as (m' & E & H & _);
    [|reflexivity|reflexivity|lia|lia|lia|right; done| |cbn; lia|exists m'; split; [exact E|exact H]].
  - destruct (heap_alloc_spec 1000 20 one_heap [(2000, 96)] 2 one_heap_ok) as (m' & E & H & _); [lia|cbn; lia|].
    unfold split_heap. rewrite E. exact H.
  - constructor; [right; done|constructor].
Defined.

Lemma alloc_size_wraps_witness : chCoreAllocI 4294967295 no_memory = Ok (4096, set_nextmem 4096 no_memory).
Proof. apply (alloc_size_wraps 4294967295 0 0 no_memory). lia. Defined.

Lemma core_alloc_spec_witness : ∃ p m', chCoreAllocI 5000 no_memory = Ok (p, m') ∧ endmem m' = 8192.
Proof.
  destruct (core_alloc_spec 5000 no_memory) as (p & m' & E & Ee & _); [lia|cbn; lia|cbn; lia|cbn; lia|reflexivity|].
  exists p, m'. split; [exact E|exact Ee].
Defined.

Lemma pool_refines_stack_witness : ∃ m', chPoolFreeI 0 3000 no_memory = Ok (tt, m') ∧ pool_ok m' 0 [3000].
Proof.
  destruct (pool_refines_stack 0 [] no_memory) as [H _]; [split; [reflexivity|constructor]|].
  apply H; [lia|apply not_elem_of_nil].
Defined.

End Heap.
