(* ===== verification/Kernel.v ===== *)
(** * The kernel's data and scheduler (chschd.c, chschd.h)

    Threads and kernel objects are named by numbers; a queue is the list of the
    threads linked in it, first to leave first. Functions that never switch
    context are [fw kernel] computations; those that may are [kern]
    computations, which stop where the running thread is switched out and go on
    when it is the current thread again. *)

From S2P Require Import Prelude SysTime Fw VTimers Memory.
Import SysTime VTimers Memory.

Module Kernel.

Definition MSG_OK : Z := 0.
Definition MSG_TIMEOUT : Z := -1.
Definition MSG_RESET : Z := -2.
Definition NOPRIO : Z := 0.

Inductive tstate :=
  | READY | CURRENT | WTSTART | SUSPENDED | QUEUED | WTSEM | WTMTX | WTCOND
  | SLEEPING | WTEXIT | WTOREVT | WTANDEVT | SNDMSGQ | SNDMSG | WTMSG | FINAL.
#[export] Instance tstate_eq_dec : EqDecision tstate.
Proof. solve_decision. Defined.

(** The union [p_u], with the member last written. *)
Inductive punion :=
  | RdyMsg (rdymsg : Z)
  | ExitCode (exitcode : Z)
  | WtSem (wtsemp : nat)
  | WtMtx (wtmtxp : nat)
  | WtCond (wtobjp : nat)
  | WtMsg (wtobjp : nat)
  | WtTrp (wttrp : nat)
  | EwMask (ewmask : Z).

(** [p_next], [p_prev], [p_waiting] and [p_msgqueue] are links, in [queues];
    [p_newer] and [p_older] are in [registry]; [p_mtxlist] holds the mutexes
    that follow one another by [m_next]. *)
Record thread := {
  p_prio : Z;
  p_state : tstate;
  p_flags : Z;
  p_refs : Z;
  p_u : punion;
  p_msg : Z;
  p_epending : Z;
  p_mtxlist : list nat;
  p_realprio : Z;
  p_mpool : nat
}.

(** The heads of the queues and lists a thread can be linked in. *)
Inductive qid :=
  | QReady | QSem (n : nat) | QMtx (n : nat) | QCond (n : nat) | QThd (n : nat)
  | QMsg (n : nat) | QWait (n : nat).
#[export] Instance qid_eq_dec : EqDecision qid.
Proof. solve_decision. Defined.

Record listener := { el_listener : nat; el_events : Z; el_flags : Z; el_wflags : Z }.

(** [mailbox_t]: the pointers are indexes into the buffer; the semaphores are
    named by number. *)
Record mailbox := {
  mb_buffer : list Z;
  mb_rdptr : nat;
  mb_wrptr : nat;
  mb_fullsem : nat;
  mb_emptysem : nat
}.

(** [ch], and the kernel objects of the program. *)
Record kernel := {
  thd : nat → thread;
  queues : qid → list nat;
  currp : nat;
  s_cnt : nat → Z;
  m_owner : nat → option nat;
  trefs : nat → option nat;
  registry : list nat;
  es_next : nat → list nat;
  lsn : nat → listener;
  mbx : nat → mailbox;
  k_vtl : vtlist;
  k_now : Z;
  k_mem : memory
}.

(** ** Assignments to fields *)

Section fields.
Implicit Types (k : kernel) (t : thread).
Definition t_prio (x : Z) t := {| p_prio := x; p_state := p_state t; p_flags := p_flags t; p_refs := p_refs t; p_u := p_u t; p_msg := p_msg t; p_epending := p_epending t; p_mtxlist := p_mtxlist t; p_realprio := p_realprio t; p_mpool := p_mpool t |}.
Definition t_state (x : tstate) t := {| p_prio := p_prio t; p_state := x; p_flags := p_flags t; p_refs := p_refs t; p_u := p_u t; p_msg := p_msg t; p_epending := p_epending t; p_mtxlist := p_mtxlist t; p_realprio := p_realprio t; p_mpool := p_mpool t |}.
Definition t_flags (x : Z) t := {| p_prio := p_prio t; p_state := p_state t; p_flags := x; p_refs := p_refs t; p_u := p_u t; p_msg := p_msg t; p_epending := p_epending t; p_mtxlist := p_mtxlist t; p_realprio := p_realprio t; p_mpool := p_mpool t |}.
Definition t_refs (x : Z) t := {| p_prio := p_prio t; p_state := p_state t; p_flags := p_flags t; p_refs := x; p_u := p_u t; p_msg := p_msg t; p_epending := p_epending t; p_mtxlist := p_mtxlist t; p_realprio := p_realprio t; p_mpool := p_mpool t |}.
Definition t_u (x : punion) t := {| p_prio := p_prio t; p_state := p_state t; p_flags := p_flags t; p_refs := p_refs t; p_u := x; p_msg := p_msg t; p_epending := p_epending t; p_mtxlist := p_mtxlist t; p_realprio := p_realprio t; p_mpool := p_mpool t |}.
Definition t_msg (x : Z) t := {| p_prio := p_prio t; p_state := p_state t; p_flags := p_flags t; p_refs := p_refs t; p_u := p_u t; p_msg := x; p_epending := p_epending t; p_mtxlist := p_mtxlist t; p_realprio := p_realprio t; p_mpool := p_mpool t |}.
Definition t_epending (x : Z) t := {| p_prio := p_prio t; p_state := p_state t; p_flags := p_flags t; p_refs := p_refs t; p_u := p_u t; p_msg := p_msg t; p_epending := x; p_mtxlist := p_mtxlist t; p_realprio := p_realprio t; p_mpool := p_mpool t |}.
Definition t_mtxlist (x : list nat) t := {| p_prio := p_prio t; p_state := p_state t; p_flags := p_flags t; p_refs := p_refs t; p_u := p_u t; p_msg := p_msg t; p_epending := p_epending t; p_mtxlist := x; p_realprio := p_realprio t; p_mpool := p_mpool t |}.
Definition t_realprio (x : Z) t := {| p_prio := p_prio t; p_state := p_state t; p_flags := p_flags t; p_refs := p_refs t; p_u := p_u t; p_msg := p_msg t; p_epending := p_epending t; p_mtxlist := p_mtxlist t; p_realprio := x; p_mpool := p_mpool t |}.
Definition t_mpool (x : nat) t := {| p_prio := p_prio t; p_state := p_state t; p_flags := p_flags t; p_refs := p_refs t; p_u := p_u t; p_msg := p_msg t; p_epending := p_epending t; p_mtxlist := p_mtxlist t; p_realprio := p_realprio t; p_mpool := x |}.
End fields.

Section kernel_fields.
Implicit Types k : kernel.
Definition k_set_thd (x : nat → thread) k := {| thd := x; queues := queues k; currp := currp k; s_cnt := s_cnt k; m_owner := m_owner k; trefs := trefs k; registry := registry k; es_next := es_next k; lsn := lsn k; mbx := mbx k; k_vtl := k_vtl k; k_now := k_now k; k_mem := k_mem k |}.
Definition k_set_queues (x : qid → list nat) k := {| thd := thd k; queues := x; currp := currp k; s_cnt := s_cnt k; m_owner := m_owner k; trefs := trefs k; registry := registry k; es_next := es_next k; lsn := lsn k; mbx := mbx k; k_vtl := k_vtl k; k_now := k_now k; k_mem := k_mem k |}.
Definition k_set_currp (x : nat) k := {| thd := thd k; queues := queues k; currp := x; s_cnt := s_cnt k; m_owner := m_owner k; trefs := trefs k; registry := registry k; es_next := es_next k; lsn := lsn k; mbx := mbx k; k_vtl := k_vtl k; k_now := k_now k; k_mem := k_mem k |}.
Definition k_set_s_cnt (x : nat → Z) k := {| thd := thd k; queues := queues k; currp := currp k; s_cnt := x; m_owner := m_owner k; trefs := trefs k; registry := registry k; es_next := es_next k; lsn := lsn k; mbx := mbx k; k_vtl := k_vtl k; k_now := k_now k; k_mem := k_mem k |}.
Definition k_set_m_owner (x : nat → option nat) k := {| thd := thd k; queues := queues k; currp := currp k; s_cnt := s_cnt k; m_owner := x; trefs := trefs k; registry := registry k; es_next := es_next k; lsn := lsn k; mbx := mbx k; k_vtl := k_vtl k; k_now := k_now k; k_mem := k_mem k |}.
Definition k_set_trefs (x : nat → option nat) k := {| thd := thd k; queues := queues k; currp := currp k; s_cnt := s_cnt k; m_owner := m_owner k; trefs := x; registry := registry k; es_next := es_next k; lsn := lsn k; mbx := mbx k; k_vtl := k_vtl k; k_now := k_now k; k_mem := k_mem k |}.
Definition k_set_registry (x : list nat) k := {| thd := thd k; queues := queues k; currp := currp k; s_cnt := s_cnt k; m_owner := m_owner k; trefs := trefs k; registry := x; es_next := es_next k; lsn := lsn k; mbx := mbx k; k_vtl := k_vtl k; k_now := k_now k; k_mem := k_mem k |}.
Definition k_set_es_next (x : nat → list nat) k := {| thd := thd k; queues := queues k; currp := currp k; s_cnt := s_cnt k; m_owner := m_owner k; trefs := trefs k; registry := registry k; es_next := x; lsn := lsn k; mbx := mbx k; k_vtl := k_vtl k; k_now := k_now k; k_mem := k_mem k |}.
Definition k_set_lsn (x : nat → listener) k := {| thd := thd k; queues := queues k; currp := currp k; s_cnt := s_cnt k; m_owner := m_owner k; trefs := trefs k; registry := registry k; es_next := es_next k; lsn := x; mbx := mbx k; k_vtl := k_vtl k; k_now := k_now k; k_mem := k_mem k |}.
Definition k_set_mbx (x : nat → mailbox) k := {| thd := thd k; queues := queues k; currp := currp k; s_cnt := s_cnt k; m_owner := m_owner k; trefs := trefs k; registry := registry k; es_next := es_next k; lsn := lsn k; mbx := x; k_vtl := k_vtl k; k_now := k_now k; k_mem := k_mem k |}.
Definition k_set_vtl (x : vtlist) k := {| thd := thd k; queues := queues k; currp := currp k; s_cnt := s_cnt k; m_owner := m_owner k; trefs := trefs k; registry := registry k; es_next := es_next k; lsn := lsn k; mbx := mbx k; k_vtl := x; k_now := k_now k; k_mem := k_mem k |}.
Definition k_set_now (x : Z) k := {| thd := thd k; queues := queues k; currp := currp k; s_cnt := s_cnt k; m_owner := m_owner k; trefs := trefs k; registry := registry k; es_next := es_next k; lsn := lsn k; mbx := mbx k; k_vtl := k_vtl k; k_now := x; k_mem := k_mem k |}.
Definition k_set_mem (x : memory) k := {| thd := thd k; queues := queues k; currp := currp k; s_cnt := s_cnt k; m_owner := m_owner k; trefs := trefs k; registry := registry k; es_next := es_next k; lsn := lsn k; mbx := mbx k; k_vtl := k_vtl k; k_now := k_now k; k_mem := x |}.
End kernel_fields.

Definition set_thread (tp : nat) (g : thread → thread) (k : kernel) : kernel :=
  k_set_thd (upd (thd k) tp (g (thd k tp))) k.
Definition set_queue (q : qid) (l : list nat) (k : kernel) : kernel :=
  k_set_queues (upd (queues k) q l) k.
Definition set_cnt (n : nat) (c : Z) (k : kernel) : kernel := k_set_s_cnt (upd (s_cnt k) n c) k.
Definition set_owner (n : nat) (o : option nat) (k : kernel) : kernel := k_set_m_owner (upd (m_owner k) n o) k.
Definition set_tref (n : nat) (o : option nat) (k : kernel) : kernel := k_set_trefs (upd (trefs k) n o) k.

(** [tp->field = ...], given the new thread record. *)
Definition thd_set (tp : nat) (g : thread → thread) : fw kernel unit := modify (set_thread tp g).

(** ** Queues *)

(** Links [tp] before the first element that [stop] holds of. *)
Fixpoint link_before (stop : nat → bool) (tp : nat) (l : list nat) : list nat :=
  match l with
  | [] => [tp]
  | cp :: l' => if stop cp then tp :: l else cp :: link_before stop tp l'
  end.

Definition prio_of (k : kernel) (t : nat) : Z := p_prio (thd k t).

Definition queue_isempty (q : qid) : fw kernel bool := gets (λ k, bool_decide (queues k q = [])).
Definition queue_notempty (q : qid) : fw kernel bool := gets (λ k, bool_decide (queues k q ≠ [])).

Definition queue_prio_insert (tp : nat) (q : qid) : fw kernel unit :=
  modify (λ k, set_queue q (link_before (λ cp, prio_of k cp <? prio_of k tp) tp (queues k q)) k).

Definition queue_insert (tp : nat) (q : qid) : fw kernel unit :=
  modify (λ k, set_queue q (queues k q ++ [tp]) k).

(** Removing from an empty queue takes the header for a thread. *)
Definition queue_fifo_remove (q : qid) : fw kernel nat := λ k,
  match queues k q with
  | [] => Err OutOfBounds
  | tp :: l => Ok (tp, set_queue q l k)
  end.

Definition queue_lifo_remove (q : qid) : fw kernel nat := λ k,
  match reverse (queues k q) with
  | [] => Err OutOfBounds
  | tp :: l => Ok (tp, set_queue q (reverse l) k)
  end.

(** Unlinks a thread from the queue it is in. The code follows the thread's own
    links, which are stale when it is in none; its callers dequeue a thread whose
    state says that it is in a queue, and then, by the kernel's invariant, it is in
    exactly one. *)
Definition queue_dequeue (tp : nat) : fw kernel nat := λ k,
  Ok (tp, k_set_queues (λ q, filter (λ t, t ≠ tp) (queues k q)) k).

Definition list_insert (tp : nat) (q : qid) : fw kernel unit :=
  modify (λ k, set_queue q (tp :: queues k q) k).
Definition list_remove (q : qid) : fw kernel nat := queue_fifo_remove q.

Definition firstprio (k : kernel) : Z :=
  match queues k QReady with [] => NOPRIO | tp :: _ => prio_of k tp end.

(** ** Functions that switch context *)

Inductive out (A : Type) :=
  | Done (a : A) (k : kernel)
  | Switch (k : kernel) (resume : kernel → out A)
  | Fail (e : cerr).
Arguments Done {A} a k.
Arguments Switch {A} k resume.
Arguments Fail {A} e.

Definition kern (A : Type) : Type := kernel → out A.

Fixpoint out_bind {A B} (f : A → kern B) (o : out A) : out B :=
  match o with
  | Done a k => f a k
  | Switch k r => Switch k (λ k', out_bind f (r k'))
  | Fail e => Fail e
  end.

#[export] Instance kern_ret : MRet kern := λ A a k, Done a k.
#[export] Instance kern_bind : MBind kern := λ A B f m k, out_bind f (m k).

(** A computation that does not switch. *)
Definition iclass {A} (m : fw kernel A) : kern A :=
  λ k, match m k with Ok (a, k') => Done a k' | Err e => Fail e end.

Definition kret {A} (a : A) : kern A := λ k, Done a k.
Definition self : kern nat := λ k, Done (currp k) k.
Definition kwhen (b : bool) (m : kern unit) : kern unit := if b then m else kret tt.

(** [chSysSwitch]: the new current thread runs from here on. *)
Definition chSysSwitch : kern unit := λ k, Switch k (λ k', Done tt k').

Definition rdymsg (u : punion) : res Z := match u with RdyMsg m => Ok m | _ => Err BadUnion end.

(** [currp->p_u.rdymsg] *)
Definition curr_rdymsg : kern Z :=
  iclass (λ k, match rdymsg (p_u (thd k (currp k))) with Ok m => Ok (m, k) | Err e => Err e end).

(** ** The scheduler *)

(** The loop of [chSchReadyI] has no test for the end of the list: it is the
    header's null priority that ends it, unless the thread's is null too. *)
Definition chSchReadyI (tp : nat) : fw kernel nat :=
  thd_set tp (t_state READY);;
  p ← gets (λ k, prio_of k tp);
  (if p <=? NOPRIO then throw OutOfFuel else queue_prio_insert tp QReady);;
  ret tp.

Definition setcurrp (tp : nat) : fw kernel unit := modify (k_set_currp tp).

(** The first ready thread becomes the current one. *)
Definition run_first : fw kernel unit :=
  tp ← queue_fifo_remove QReady; setcurrp tp;; thd_set tp (t_state CURRENT).

Definition chSchGoSleepS (newstate : tstate) : kern unit :=
  otp ← self;
  iclass (thd_set otp (t_state newstate));;
  iclass run_first;;
  chSysSwitch.

Definition chSchIsRescRequiredI : fw kernel bool :=
  gets (λ k, prio_of k (currp k) <? firstprio k).
Definition chSchIsPreemptionRequired : fw kernel bool := chSchIsRescRequiredI.

Definition chSchDoRescheduleBehind : kern unit :=
  otp ← self;
  iclass run_first;;
  iclass (chSchReadyI otp);;
  chSysSwitch.

Definition chSchDoRescheduleAhead : kern unit :=
  otp ← self;
  iclass run_first;;
  iclass (thd_set otp (t_state READY));;
  iclass (modify (λ k, set_queue QReady
    (link_before (λ cp, prio_of k cp <=? prio_of k otp) otp (queues k QReady)) k));;
  chSysSwitch.

Definition chSchDoReschedule : kern unit := chSchDoRescheduleAhead.

Definition chSchRescheduleS : kern unit :=
  b ← iclass chSchIsRescRequiredI; kwhen b chSchDoRescheduleAhead.

(** The end of an interrupt handler. *)
Definition chSchPreemption : kern unit :=
  b ← iclass chSchIsPreemptionRequired; kwhen b chSchDoRescheduleAhead.

Definition chSchCanYieldS : fw kernel bool :=
  gets (λ k, prio_of k (currp k) <=? firstprio k).
Definition chSchDoYieldS : kern unit :=
  b ← iclass chSchCanYieldS; kwhen b chSchDoRescheduleBehind.

Definition chSchWakeupS (ntp : nat) (msg : Z) : kern unit :=
  iclass (thd_set ntp (t_u (RdyMsg msg)));;
  le ← iclass (gets (λ k, prio_of k ntp <=? prio_of k (currp k)));
  if (le : bool) then iclass (chSchReadyI ntp);; kret tt
  else
    otp ← self;
    iclass (chSchReadyI otp);;
    iclass (setcurrp ntp);;
    iclass (thd_set ntp (t_state CURRENT));;
    chSysSwitch.

(** ** Sleeping with a time limit *)

Definition chSemFastSignalI (n : nat) : fw kernel unit :=
  c ← gets (λ k, s_cnt k n);
  if c =? INT32_MAX then throw SignedOverflow else modify (set_cnt n (c + 1)).

(** The timer's callback. *)
Definition wakeup (tp : nat) : fw kernel unit :=
  t ← gets (λ k, thd k tp);
  let timeout := thd_set tp (t_u (RdyMsg MSG_TIMEOUT));; chSchReadyI tp;; ret tt in
  match p_state t with
  | READY => ret tt
  | SUSPENDED =>
    match p_u t with WtTrp r => modify (set_tref r None);; timeout | _ => throw BadUnion end
  | WTSEM =>
    match p_u t with WtSem n => chSemFastSignalI n;; queue_dequeue tp;; timeout | _ => throw BadUnion end
  | WTCOND | QUEUED => queue_dequeue tp;; timeout
  | _ => timeout
  end.

(** The code of [wakeup] among the timers' functions. *)
Definition WAKEUP : nat := 0.

(** The kernel arms its timers with no other function. *)
#[export] Instance kernel_vt : VtWorld kernel := {
  vtl := k_vtl;
  set_vtl := k_set_vtl;
  st_time := k_now;
  call_timer f p := if decide (f = WAKEUP) then wakeup p else throw NullPointer
}.

Definition chSchGoSleepTimeoutS (newstate : tstate) (time : Z) : kern Z :=
  (if decide (time = TIME_INFINITE) then chSchGoSleepS newstate
   else
     vt ← self;
     iclass (chVTDoSetI vt time WAKEUP vt);;
     chSchGoSleepS newstate;;
     b ← iclass (chVTIsArmedI vt);
     kwhen b (iclass (chVTDoResetI vt)));;
  curr_rdymsg.

(** [_scheduler_init] *)
Definition _scheduler_init : fw kernel unit :=
  modify (λ k, k_set_registry [] (set_queue QReady [] k)).

(** A loop that empties a queue: [body] takes its first thread out. *)
Definition while_notempty (q : qid) (body : fw kernel unit) : fw kernel unit := λ k,
  while_fuel (S (length (queues k q))) (queue_notempty q) body k.

End Kernel.
