(* ===== verification/Sync.v ===== *)
(** * Semaphores, mutexes and condition variables (chsem.c, chbsem.h, chmtx.c,
    chcond.c) *)

From S2P Require Import Prelude SysTime Fw VTimers Memory Kernel.
Import SysTime Kernel.

(** ** Counting semaphores *)

Module Sem.

Definition set_counter (n : nat) (c : Z) : fw kernel unit := modify (set_cnt n c).
(** [++sp->s_cnt] and [--sp->s_cnt], of type [int32_t]. *)
Definition inc_counter (n : nat) : fw kernel Z :=
  c ← gets (λ k, s_cnt k n); c' ← lift (chk_s32 (c + 1)); set_counter n c';; ret c'.
Definition dec_counter (n : nat) : fw kernel Z :=
  c ← gets (λ k, s_cnt k n); c' ← lift (chk_s32 (c - 1)); set_counter n c';; ret c'.

Definition chSemObjectInit (n : nat) (c : Z) : fw kernel unit :=
  modify (λ k, set_cnt n c (set_queue (QSem n) [] k)).

Definition chSemFastWaitI (n : nat) : fw kernel unit := dec_counter n;; ret tt.
Definition chSemGetCounterI (n : nat) : fw kernel Z := gets (λ k, s_cnt k n).

(** [chSchReadyI(tp)->p_u.rdymsg = msg] *)
Definition ready_with (tp : nat) (msg : Z) : fw kernel unit :=
  tp ← chSchReadyI tp; thd_set tp (t_u (RdyMsg msg)).

Definition chSemResetI (n : nat) (c : Z) : fw kernel unit :=
  cnt ← gets (λ k, s_cnt k n);
  set_counter n c;;
  for_upto (Z.to_nat (- cnt)) 0 (λ _, tp ← queue_lifo_remove (QSem n); ready_with tp MSG_RESET).

Definition chSemReset (n : nat) (c : Z) : kern unit :=
  iclass (chSemResetI n c);; chSchRescheduleS.

Definition chSemWaitS (n : nat) : kern Z :=
  c ← iclass (dec_counter n);
  if c <? 0 then
    ctp ← self;
    iclass (thd_set ctp (t_u (WtSem n)));;
    iclass (queue_insert ctp (QSem n));;
    chSchGoSleepS WTSEM;;
    curr_rdymsg
  else kret MSG_OK.
Definition chSemWait : nat → kern Z := chSemWaitS.

Definition chSemWaitTimeoutS (n : nat) (time : Z) : kern Z :=
  c ← iclass (dec_counter n);
  if c <? 0 then
    if decide (time = TIME_IMMEDIATE) then iclass (inc_counter n);; kret MSG_TIMEOUT
    else
      ctp ← self;
      iclass (thd_set ctp (t_u (WtSem n)));;
      iclass (queue_insert ctp (QSem n));;
      chSchGoSleepTimeoutS WTSEM time
  else kret MSG_OK.
Definition chSemWaitTimeout : nat → Z → kern Z := chSemWaitTimeoutS.

Definition chSemSignal (n : nat) : kern unit :=
  c ← iclass (inc_counter n);
  if c <=? 0 then tp ← iclass (queue_fifo_remove (QSem n)); chSchWakeupS tp MSG_OK
  else kret tt.

Definition chSemSignalI (n : nat) : fw kernel unit :=
  c ← inc_counter n;
  if c <=? 0 then
    tp ← queue_fifo_remove (QSem n);
    thd_set tp (t_u (RdyMsg MSG_OK));;
    chSchReadyI tp;; ret tt
  else ret tt.

(** One round of [chSemAddCounterI], and what [chSemSignalWait] does first. *)
Definition signal_one (n : nat) : fw kernel unit :=
  c ← inc_counter n;
  when (c <=? 0) (tp ← queue_fifo_remove (QSem n); ready_with tp MSG_OK).

Definition chSemAddCounterI (n : nat) (c : Z) : fw kernel unit :=
  for_upto (Z.to_nat c) 0 (λ _, signal_one n).

Definition chSemSignalWait (sps spw : nat) : kern Z :=
  iclass (signal_one sps);;
  c ← iclass (dec_counter spw);
  if c <? 0 then
    ctp ← self;
    iclass (queue_insert ctp (QSem spw));;
    iclass (thd_set ctp (t_u (WtSem spw)));;
    chSchGoSleepS WTSEM;;
    iclass (λ k, match rdymsg (p_u (thd k ctp)) with Ok m => Ok (m, k) | Err e => Err e end)
  else chSchRescheduleS;; kret MSG_OK.

(** Binary semaphores. *)
Definition bsem_count (taken : bool) : Z := if taken then 0 else 1.
Definition chBSemObjectInit (b : nat) (taken : bool) : fw kernel unit := chSemObjectInit b (bsem_count taken).
Definition chBSemWait : nat → kern Z := chSemWait.
Definition chBSemWaitS : nat → kern Z := chSemWaitS.
Definition chBSemWaitTimeoutS : nat → Z → kern Z := chSemWaitTimeoutS.
Definition chBSemWaitTimeout : nat → Z → kern Z := chSemWaitTimeout.
Definition chBSemResetI (b : nat) (taken : bool) : fw kernel unit := chSemResetI b (bsem_count taken).
Definition chBSemReset (b : nat) (taken : bool) : kern unit := chSemReset b (bsem_count taken).
Definition chBSemSignalI (b : nat) : fw kernel unit :=
  c ← chSemGetCounterI b; when (c <? 1) (chSemSignalI b).
Definition chBSemSignal (b : nat) : kern unit := iclass (chBSemSignalI b);; chSchRescheduleS.
Definition chBSemGetStateI (b : nat) : fw kernel bool := c ← chSemGetCounterI b; ret (negb (0 <? c)).

End Sem.

(** ** Mutexes with priority inheritance *)

Module Mtx.

Definition chMtxObjectInit (m : nat) : fw kernel unit :=
  modify (λ k, set_owner m None (set_queue (QMtx m) [] k)).

(** The loop of [chMtxLockS]: the priority goes to the owner [tp], and from an
    owner waiting for a mutex to that mutex's owner. *)
Fixpoint boost (fuel : nat) (prio : Z) (tp : nat) : fw kernel unit :=
  match fuel with
  | O => throw OutOfFuel
  | S fuel =>
    p ← gets (λ k, prio_of k tp);
    if p <? prio then
      thd_set tp (t_prio prio);;
      t ← gets (λ k, thd k tp);
      match p_state t with
      | WTMTX =>
        match p_u t with
        | WtMtx m =>
          queue_dequeue tp;; queue_prio_insert tp (QMtx m);;
          o ← gets (λ k, m_owner k m);
          match o with Some o => boost fuel prio o | None => throw NullPointer end
        | _ => throw BadUnion
        end
      | WTCOND =>
        match p_u t with
        | WtCond c => queue_dequeue tp;; queue_prio_insert tp (QCond c)
        | _ => throw BadUnion
        end
      | READY => queue_dequeue tp;; chSchReadyI tp;; ret tt
      | _ => ret tt
      end
    else ret tt
  end.

(** [mp] becomes the first of the mutexes [tp] owns. *)
Definition own (m tp : nat) : fw kernel unit :=
  modify (set_owner m (Some tp));;
  thd_set tp (λ t, t_mtxlist (m :: p_mtxlist t) t).

Definition chMtxLockS (m : nat) : kern unit :=
  ctp ← self;
  o ← iclass (gets (λ k, m_owner k m));
  match o with
  | Some tp =>
    iclass (λ k, boost (S (length (registry k))) (prio_of k ctp) tp k);;
    iclass (queue_prio_insert ctp (QMtx m));;
    iclass (thd_set ctp (t_u (WtMtx m)));;
    chSchGoSleepS WTMTX
  | None => iclass (own m ctp)
  end.
Definition chMtxLock : nat → kern unit := chMtxLockS.

Definition chMtxTryLockS (m : nat) : fw kernel bool :=
  o ← gets (λ k, m_owner k m);
  match o with
  | Some _ => ret false
  | None => ctp ← gets currp; own m ctp;; ret true
  end.
Definition chMtxTryLock (m : nat) : kern bool := iclass (chMtxTryLockS m).

Definition chMtxQueueNotEmptyS (m : nat) : fw kernel bool := queue_notempty (QMtx m).
Definition chMtxGetNextMutexS : fw kernel (option nat) := gets (λ k, head (p_mtxlist (thd k (currp k)))).

(** The mutexes after [m] in a list: what [m->m_next] leads to. *)
Fixpoint m_next (m : nat) (l : list nat) : option (list nat) :=
  match l with
  | [] => None
  | m' :: l => if decide (m' = m) then Some l else m_next m l
  end.

(** The priority of the first waiter, if any is above [p]. *)
Definition waiter_prio (k : kernel) (m : nat) (p : Z) : Z :=
  match queues k (QMtx m) with
  | [] => p
  | w :: _ => if p <? prio_of k w then prio_of k w else p
  end.

(** The new priority of a thread left with the mutexes of [l]. *)
Fixpoint new_prio (k : kernel) (l : list nat) (p : Z) : Z :=
  match l with
  | [] => p
  | m :: l => new_prio k l (waiter_prio k m p)
  end.

(** The first waiter becomes the owner and is made ready. *)
Definition hand_over (m : nat) : fw kernel unit :=
  tp ← queue_fifo_remove (QMtx m);
  own m tp;;
  chSchReadyI tp;; ret tt.

(** [chMtxUnlockS]; unlocking a mutex the thread does not own is not followed. *)
Definition chMtxUnlockS (m : nat) : fw kernel bool :=
  ctp ← gets currp;
  l ← gets (λ k, m_next m (p_mtxlist (thd k ctp)));
  match l with
  | None => throw Misuse
  | Some l =>
    thd_set ctp (t_mtxlist l);;
    b ← chMtxQueueNotEmptyS m;
    if (b : bool) then
      p ← gets (λ k, new_prio k l (p_realprio (thd k ctp)));
      thd_set ctp (t_prio p);;
      hand_over m;; ret true
    else modify (set_owner m None);; ret false
  end.

(** [chMtxUnlock] differs in rescheduling when a thread was made ready. *)
Definition chMtxUnlock (m : nat) : kern unit :=
  b ← iclass (chMtxUnlockS m); kwhen b chSchRescheduleS.

Definition unlock_first (ctp m : nat) (l : list nat) : fw kernel unit :=
  thd_set ctp (t_mtxlist l);;
  b ← chMtxQueueNotEmptyS m;
  if (b : bool) then hand_over m else modify (set_owner m None).

Fixpoint unlock_list (ctp : nat) (l : list nat) : fw kernel unit :=
  match l with
  | [] => ret tt
  | m :: l => unlock_first ctp m l;; unlock_list ctp l
  end.

Definition chMtxUnlockAll : kern unit :=
  ctp ← self;
  l ← iclass (gets (λ k, p_mtxlist (thd k ctp)));
  match l with
  | [] => kret tt
  | _ =>
    iclass (unlock_list ctp l);;
    iclass (thd_set ctp (λ t, t_prio (p_realprio t) t));;
    chSchRescheduleS
  end.

End Mtx.

(** ** Condition variables *)

Module Cond.
Import Sem Mtx.

Definition chCondObjectInit (c : nat) : fw kernel unit := modify (set_queue (QCond c) []).

Definition chCondSignal (c : nat) : kern unit :=
  b ← iclass (queue_notempty (QCond c));
  kwhen b (tp ← iclass (queue_fifo_remove (QCond c)); chSchWakeupS tp MSG_OK).

Definition chCondSignalI (c : nat) : fw kernel unit :=
  b ← queue_notempty (QCond c);
  when b (tp ← queue_fifo_remove (QCond c);
          thd_set tp (t_u (RdyMsg MSG_OK));; chSchReadyI tp;; ret tt).

Definition chCondBroadcastI (c : nat) : fw kernel unit :=
  while_notempty (QCond c) (tp ← queue_fifo_remove (QCond c); ready_with tp MSG_RESET).
Definition chCondBroadcast (c : nat) : kern unit :=
  iclass (chCondBroadcastI c);; chSchRescheduleS.

(** The mutex acquired last is released before the wait. *)
Definition unlock_next : kern nat :=
  o ← iclass chMtxGetNextMutexS;
  match o with
  | None => λ _, Fail NullPointer
  | Some mp => iclass (chMtxUnlockS mp);; kret mp
  end.

Definition chCondWaitS (c : nat) : kern Z :=
  ctp ← self;
  mp ← unlock_next;
  iclass (thd_set ctp (t_u (WtCond c)));;
  iclass (queue_prio_insert ctp (QCond c));;
  chSchGoSleepS WTCOND;;
  msg ← iclass (λ k, match rdymsg (p_u (thd k ctp)) with Ok m => Ok (m, k) | Err e => Err e end);
  chMtxLockS mp;;
  kret msg.
Definition chCondWait : nat → kern Z := chCondWaitS.

Definition chCondWaitTimeoutS (c : nat) (time : Z) : kern Z :=
  mp ← unlock_next;
  ctp ← self;
  iclass (thd_set ctp (t_u (WtCond c)));;
  iclass (queue_prio_insert ctp (QCond c));;
  msg ← chSchGoSleepTimeoutS WTCOND time;
  kwhen (negb (msg =? MSG_TIMEOUT)) (chMtxLockS mp);;
  kret msg.
Definition chCondWaitTimeout : nat → Z → kern Z := chCondWaitTimeoutS.

End Cond.
