(* ===== verification/Threads.v ===== *)
(** * Threads, the registry and synchronous messages (chthreads.c, chregistry.c,
    chmsg.c) *)

From S2P Require Import Prelude SysTime Fw VTimers Memory Kernel.
Import SysTime Kernel.

Module Threads.

Definition CH_FLAG_MODE_MASK : Z := 3.
Definition CH_FLAG_MODE_STATIC : Z := 0.
Definition CH_FLAG_MODE_HEAP : Z := 1.
Definition CH_FLAG_MODE_MPOOL : Z := 2.
Definition CH_FLAG_TERMINATE : Z := 4.

(** ** The registry: older threads first *)

Definition REG_INSERT (tp : nat) : fw kernel unit :=
  modify (λ k, k_set_registry (registry k ++ [tp]) k).
Definition REG_REMOVE (tp : nat) : fw kernel unit :=
  modify (λ k, k_set_registry (filter (λ t, t ≠ tp) (registry k)) k).

(** [tp->p_refs++], of type [uint8_t]. *)
Definition add_ref (tp : nat) : fw kernel unit :=
  thd_set tp (λ t, t_refs (u8 (p_refs t + 1)) t).

(** An empty registry gives the list's header for a thread. *)
Definition chRegFirstThread : fw kernel nat :=
  l ← gets registry;
  match l with
  | [] => throw OutOfBounds
  | tp :: _ => add_ref tp;; ret tp
  end.

(** The element after [tp], following [p_newer]. *)
Fixpoint p_newer (tp : nat) (l : list nat) : option nat :=
  match l with
  | [] => None
  | t :: l => if decide (t = tp) then head l else p_newer tp l
  end.

(** ** Creation and start *)

Definition _thread_init (tp : nat) (prio : Z) : fw kernel nat :=
  thd_set tp (λ t, {| p_prio := prio; p_state := WTSTART; p_flags := CH_FLAG_MODE_STATIC; p_refs := 1;
                      p_u := p_u t; p_msg := p_msg t; p_epending := 0; p_mtxlist := []; p_realprio := prio;
                      p_mpool := p_mpool t |});;
  REG_INSERT tp;;
  modify (set_queue (QWait tp) []);;
  modify (set_queue (QMsg tp) []);;
  ret tp.

(** [wsp] is the thread's name; its stack and context are the port's. *)
Definition chThdCreateI (wsp : nat) (prio : Z) : fw kernel nat := _thread_init wsp prio.

Definition chThdCreateStatic (wsp : nat) (prio : Z) : kern nat :=
  tp ← iclass (chThdCreateI wsp prio);
  chSchWakeupS tp MSG_OK;;
  kret tp.

Definition chThdStartI (tp : nat) : fw kernel nat := chSchReadyI tp.
Definition chThdStart (tp : nat) : kern nat := iclass (chThdStartI tp).

(** ** Priority, termination and time *)

Definition chThdGetPriorityX : fw kernel Z := gets (λ k, prio_of k (currp k)).

Definition chThdSetPriority (newprio : Z) : kern Z :=
  ctp ← self;
  t ← iclass (gets (λ k, thd k ctp));
  let oldprio := p_realprio t in
  iclass (when ((p_prio t =? p_realprio t) || (p_prio t <? newprio)) (thd_set ctp (t_prio newprio)));;
  iclass (thd_set ctp (t_realprio newprio));;
  chSchRescheduleS;;
  kret oldprio.

Definition chThdTerminate (tp : nat) : fw kernel unit :=
  thd_set tp (λ t, t_flags (Z.lor (p_flags t) CH_FLAG_TERMINATE) t).
Definition chThdTerminatedX (tp : nat) : fw kernel bool :=
  gets (λ k, bool_decide (p_state (thd k tp) = FINAL)).
Definition chThdShouldTerminateX : fw kernel bool :=
  gets (λ k, negb (Z.land (p_flags (thd k (currp k))) CH_FLAG_TERMINATE =? 0)).

Definition chThdSleepS (time : Z) : kern unit := chSchGoSleepTimeoutS SLEEPING time;; kret tt.
Definition chThdSleep : Z → kern unit := chThdSleepS.

Definition chThdSleepUntil (time : Z) : kern unit :=
  now ← iclass (gets k_now);
  let time := u32 (time - now) in
  kwhen (0 <? time) (chThdSleepS time).

Definition chThdSleepUntilWindowed (prev next : Z) : kern Z :=
  time ← iclass (gets k_now);
  kwhen (chVTIsTimeWithinX time prev next) (chThdSleepS (u32 (next - time)));;
  kret next.

Definition chThdYield : kern unit := chSchDoYieldS.

(** [chThdExitS]; the thread is not resumed. *)
Definition chThdExitS (msg : Z) : kern unit :=
  tp ← self;
  iclass (thd_set tp (t_u (ExitCode msg)));;
  iclass (while_notempty (QWait tp) (w ← list_remove (QWait tp); chSchReadyI w;; ret tt));;
  f ← iclass (gets (λ k, p_flags (thd k tp)));
  iclass (when (Z.land f CH_FLAG_MODE_MASK =? CH_FLAG_MODE_STATIC) (REG_REMOVE tp));;
  chSchGoSleepS FINAL.
Definition chThdExit : Z → kern unit := chThdExitS.

(** ** Thread references *)

Definition chThdSuspendS (trp : nat) : kern Z :=
  tp ← self;
  iclass (modify (set_tref trp (Some tp)));;
  iclass (thd_set tp (t_u (WtTrp trp)));;
  chSchGoSleepS SUSPENDED;;
  curr_rdymsg.

Definition chThdSuspendTimeoutS (trp : nat) (timeout : Z) : kern Z :=
  tp ← self;
  if decide (timeout = TIME_IMMEDIATE) then kret MSG_TIMEOUT
  else
    iclass (modify (set_tref trp (Some tp)));;
    iclass (thd_set tp (t_u (WtTrp trp)));;
    chSchGoSleepTimeoutS SUSPENDED timeout.

Definition chThdResumeI (trp : nat) (msg : Z) : fw kernel unit :=
  o ← gets (λ k, trefs k trp);
  match o with
  | Some tp =>
    modify (set_tref trp None);;
    thd_set tp (t_u (RdyMsg msg));;
    chSchReadyI tp;; ret tt
  | None => ret tt
  end.

Definition chThdResumeS (trp : nat) (msg : Z) : kern unit :=
  o ← iclass (gets (λ k, trefs k trp));
  match o with
  | Some tp => iclass (modify (set_tref trp None));; chSchWakeupS tp msg
  | None => kret tt
  end.
Definition chThdResume : nat → Z → kern unit := chThdResumeS.

(** ** Threads queues *)

Definition chThdQueueObjectInit (tq : nat) : fw kernel unit := modify (set_queue (QThd tq) []).
Definition chThdQueueIsEmptyI (tq : nat) : fw kernel bool := queue_isempty (QThd tq).

Definition chThdEnqueueTimeoutS (tq : nat) (timeout : Z) : kern Z :=
  if decide (timeout = TIME_IMMEDIATE) then kret MSG_TIMEOUT
  else
    ctp ← self;
    iclass (queue_insert ctp (QThd tq));;
    chSchGoSleepTimeoutS QUEUED timeout.

Definition chThdDoDequeueNextI (tq : nat) (msg : Z) : fw kernel unit :=
  tp ← queue_fifo_remove (QThd tq);
  thd_set tp (t_u (RdyMsg msg));;
  chSchReadyI tp;; ret tt.

Definition chThdDequeueNextI (tq : nat) (msg : Z) : fw kernel unit :=
  b ← queue_notempty (QThd tq); when b (chThdDoDequeueNextI tq msg).
Definition chThdDequeueAllI (tq : nat) (msg : Z) : fw kernel unit :=
  while_notempty (QThd tq) (chThdDoDequeueNextI tq msg).

End Threads.

(** ** Synchronous messages *)

Module Msg.

Definition chMsgIsPendingI (tp : nat) : fw kernel bool := queue_notempty (QMsg tp).
Definition chMsgGet (tp : nat) : fw kernel Z := gets (λ k, p_msg (thd k tp)).

Definition chMsgSend (tp : nat) (msg : Z) : kern Z :=
  ctp ← self;
  iclass (thd_set ctp (t_msg msg));;
  iclass (thd_set ctp (t_u (WtMsg tp)));;
  iclass (queue_insert ctp (QMsg tp));;
  st ← iclass (gets (λ k, p_state (thd k tp)));
  iclass (when (bool_decide (st = WTMSG)) (chSchReadyI tp;; ret tt));;
  chSchGoSleepS SNDMSGQ;;
  iclass (λ k, match rdymsg (p_u (thd k ctp)) with Ok m => Ok (m, k) | Err e => Err e end).

Definition chMsgWait : kern nat :=
  ctp ← self;
  b ← iclass (chMsgIsPendingI ctp);
  kwhen (negb b) (chSchGoSleepS WTMSG);;
  tp ← iclass (λ k, queue_fifo_remove (QMsg (currp k)) k);
  iclass (thd_set tp (t_state SNDMSG));;
  kret tp.

Definition chMsgReleaseS (tp : nat) (msg : Z) : kern unit := chSchWakeupS tp msg.
Definition chMsgRelease : nat → Z → kern unit := chMsgReleaseS.

End Msg.
