(* ===== verification/Events.v ===== *)
(** * Events (chevents.c)

    An event source is the list of its listeners, the one registered last
    first; masks and flags are 32-bit words. *)

From S2P Require Import Prelude SysTime Fw VTimers Memory Kernel.
Import SysTime Kernel.

Module Events.

Definition EVENT_MASK (eid : Z) : Z := u32 (Z.shiftl 1 eid).

Definition chEvtObjectInit (es : nat) : fw kernel unit :=
  modify (λ k, k_set_es_next (upd (es_next k) es []) k).

Definition chEvtRegisterMaskWithFlags (es el : nat) (events wflags : Z) : fw kernel unit :=
  modify (λ k, k_set_es_next (upd (es_next k) es (el :: es_next k es)) k);;
  modify (λ k, k_set_lsn (upd (lsn k) el
    {| el_listener := currp k; el_events := events; el_flags := 0; el_wflags := wflags |}) k).
Definition chEvtRegisterMask (es el : nat) (events : Z) : fw kernel unit :=
  chEvtRegisterMaskWithFlags es el events 4294967295.
Definition chEvtRegister (es el : nat) (event : Z) : fw kernel unit :=
  chEvtRegisterMask es el (EVENT_MASK event).

(** Unlinks the first occurrence. *)
Fixpoint unlink (el : nat) (l : list nat) : list nat :=
  match l with
  | [] => []
  | p :: l => if decide (p = el) then l else p :: unlink el l
  end.
Definition chEvtUnregister (es el : nat) : fw kernel unit :=
  modify (λ k, k_set_es_next (upd (es_next k) es (unlink el (es_next k es))) k).

Definition chEvtIsListeningI (es : nat) : fw kernel bool := gets (λ k, bool_decide (es_next k es ≠ [])).

Definition chEvtGetAndClearEvents (events : Z) : fw kernel Z :=
  ctp ← gets currp;
  p ← gets (λ k, p_epending (thd k ctp));
  thd_set ctp (t_epending (Z.ldiff p events));;
  ret (Z.land p events).

Definition chEvtAddEvents (events : Z) : fw kernel Z :=
  ctp ← gets currp;
  thd_set ctp (λ t, t_epending (Z.lor (p_epending t) events) t);;
  gets (λ k, p_epending (thd k ctp)).

(** What a thread waits for has happened. *)
Definition evt_wakes (t : thread) : bool :=
  match p_state t, p_u t with
  | WTOREVT, EwMask m => negb (Z.land (p_epending t) m =? 0)
  | WTANDEVT, EwMask m => Z.land (p_epending t) m =? m
  | _, _ => false
  end.

Definition chEvtSignalI (tp : nat) (events : Z) : fw kernel unit :=
  thd_set tp (λ t, t_epending (Z.lor (p_epending t) events) t);;
  b ← gets (λ k, evt_wakes (thd k tp));
  when b (thd_set tp (t_u (RdyMsg MSG_OK));; chSchReadyI tp;; ret tt).
Definition chEvtSignal (tp : nat) (events : Z) : kern unit :=
  iclass (chEvtSignalI tp events);; chSchRescheduleS.

(** One listener told of [flags]. *)
Definition notify_listener (flags : Z) (el : nat) : fw kernel unit :=
  modify (λ k, let l := lsn k el in
    k_set_lsn (upd (lsn k) el {| el_listener := el_listener l; el_events := el_events l;
                                 el_flags := Z.lor (el_flags l) flags; el_wflags := el_wflags l |}) k);;
  l ← gets (λ k, lsn k el);
  when ((flags =? 0) || negb (Z.land (el_flags l) (el_wflags l) =? 0))
    (chEvtSignalI (el_listener l) (el_events l)).

Fixpoint notify_all (flags : Z) (l : list nat) : fw kernel unit :=
  match l with
  | [] => ret tt
  | el :: l => notify_listener flags el;; notify_all flags l
  end.

Definition chEvtBroadcastFlagsI (es : nat) (flags : Z) : fw kernel unit :=
  l ← gets (λ k, es_next k es); notify_all flags l.
Definition chEvtBroadcastFlags (es : nat) (flags : Z) : kern unit :=
  iclass (chEvtBroadcastFlagsI es flags);; chSchRescheduleS.
Definition chEvtBroadcast (es : nat) : kern unit := chEvtBroadcastFlags es 0.
Definition chEvtBroadcastI (es : nat) : fw kernel unit := chEvtBroadcastFlagsI es 0.

Definition chEvtGetAndClearFlagsI (el : nat) : fw kernel Z :=
  l ← gets (λ k, lsn k el);
  modify (λ k, k_set_lsn (upd (lsn k) el {| el_listener := el_listener l; el_events := el_events l;
                                            el_flags := 0; el_wflags := el_wflags l |}) k);;
  ret (el_flags l).
Definition chEvtGetAndClearFlags : nat → fw kernel Z := chEvtGetAndClearFlagsI.

(** ** Waiting *)

(** [m ^ (m & (m - 1))]: the lowest bit set. *)
Definition lowest (m : Z) : Z := Z.lxor m (Z.land m (u32 (m - 1))).

Definition pending_of (ctp : nat) (events : Z) : kern Z :=
  iclass (gets (λ k, Z.land (p_epending (thd k ctp)) events)).
Definition clear_events (ctp : nat) (m : Z) : kern unit :=
  iclass (thd_set ctp (λ t, t_epending (Z.ldiff (p_epending t) m) t)).
Definition wait_for (ctp : nat) (st : tstate) (events : Z) : kern unit :=
  iclass (thd_set ctp (t_u (EwMask events)));; chSchGoSleepS st.

Definition chEvtWaitOne (events : Z) : kern Z :=
  ctp ← self;
  m ← pending_of ctp events;
  m ← (if m =? 0 then wait_for ctp WTOREVT events;; pending_of ctp events else kret m);
  let m := lowest m in
  clear_events ctp m;; kret m.

Definition chEvtWaitAny (events : Z) : kern Z :=
  ctp ← self;
  m ← pending_of ctp events;
  m ← (if m =? 0 then wait_for ctp WTOREVT events;; pending_of ctp events else kret m);
  clear_events ctp m;; kret m.

Definition chEvtWaitAll (events : Z) : kern Z :=
  ctp ← self;
  m ← pending_of ctp events;
  kwhen (negb (m =? events)) (wait_for ctp WTANDEVT events);;
  clear_events ctp events;; kret events.

(** The wait with a time limit: whether it ended before the limit. *)
Definition wait_timeout (ctp : nat) (st : tstate) (events time : Z) : kern bool :=
  if decide (time = TIME_IMMEDIATE) then kret false
  else
    iclass (thd_set ctp (t_u (EwMask events)));;
    msg ← chSchGoSleepTimeoutS st time;
    kret (negb (msg <? MSG_OK)).

(** The events found at once or after the wait, or nothing when it timed out. *)
Definition wait_or_timeout (ctp : nat) (events time : Z) : kern (option Z) :=
  m ← pending_of ctp events;
  if m =? 0 then
    ok ← wait_timeout ctp WTOREVT events time;
    if (ok : bool) then m ← pending_of ctp events; kret (Some m) else kret None
  else kret (Some m).

Definition chEvtWaitOneTimeout (events time : Z) : kern Z :=
  ctp ← self;
  r ← wait_or_timeout ctp events time;
  match r with
  | Some m => let m := lowest m in clear_events ctp m;; kret m
  | None => kret 0
  end.

Definition chEvtWaitAnyTimeout (events time : Z) : kern Z :=
  ctp ← self;
  r ← wait_or_timeout ctp events time;
  match r with
  | Some m => clear_events ctp m;; kret m
  | None => kret 0
  end.

Definition chEvtWaitAllTimeout (events time : Z) : kern Z :=
  ctp ← self;
  m ← pending_of ctp events;
  ok ← (if m =? events then kret true else wait_timeout ctp WTANDEVT events time);
  if (ok : bool) then clear_events ctp events;; kret events
  else kret 0.

(** ** Dispatching

    The loop of [chEvtDispatch]: the handlers called, in order. From identifier
    32 on the mask is zero and no handler can be found any more. *)
Fixpoint dispatch_loop (fuel : nat) (eid events : Z) : res (list Z) :=
  match fuel with
  | O => Err OutOfFuel
  | S fuel =>
    if events =? 0 then Ok []
    else if Z.land events (EVENT_MASK eid) =? 0 then dispatch_loop fuel (eid + 1) events
    else match dispatch_loop fuel (eid + 1) (Z.ldiff events (EVENT_MASK eid)) with
         | Ok l => Ok (eid :: l)
         | Err e => Err e
         end
  end.
Definition chEvtDispatch (events : Z) : res (list Z) := dispatch_loop 33 0 events.

End Events.
