(* ===== verification/Mailboxes.v ===== *)
(** * Mailboxes (chmboxes.c) *)

From S2P Require Import Prelude SysTime Fw VTimers Memory Kernel Sync.
Import SysTime Kernel Sem.

Module Mailboxes.

Definition set_mbx (mb : nat) (m : mailbox) : fw kernel unit :=
  modify (λ k, k_set_mbx (upd (mbx k) mb m) k).

Definition mb_top (m : mailbox) : nat := length (mb_buffer m).

Definition mb_advance (m : mailbox) (p : nat) : nat := if Nat.leb (mb_top m) (S p) then O else S p.
Definition mb_retreat (m : mailbox) (p : nat) : nat := match p with O => (mb_top m - 1)%nat | S p => p end.

Definition with_ptrs (m : mailbox) (buf : list Z) (rd wr : nat) : mailbox :=
  {| mb_buffer := buf; mb_rdptr := rd; mb_wrptr := wr;
     mb_fullsem := mb_fullsem m; mb_emptysem := mb_emptysem m |}.

(** [*mb_wrptr++ = msg] and the wrap. *)
Definition store (mb : nat) (msg : Z) : fw kernel unit :=
  m ← gets (λ k, mbx k mb);
  if Nat.ltb (mb_wrptr m) (mb_top m)
  then set_mbx mb (with_ptrs m (<[mb_wrptr m := msg]> (mb_buffer m)) (mb_rdptr m) (mb_advance m (mb_wrptr m)))
  else throw OutOfBounds.

(** The wrap and [*--mb_rdptr = msg]. *)
Definition store_ahead (mb : nat) (msg : Z) : fw kernel unit :=
  m ← gets (λ k, mbx k mb);
  let rd := mb_retreat m (mb_rdptr m) in
  if Nat.ltb rd (mb_top m)
  then set_mbx mb (with_ptrs m (<[rd := msg]> (mb_buffer m)) rd (mb_wrptr m))
  else throw OutOfBounds.

(** [*mb_rdptr++] and the wrap. *)
Definition load (mb : nat) : fw kernel Z :=
  m ← gets (λ k, mbx k mb);
  match mb_buffer m !! mb_rdptr m with
  | Some msg => set_mbx mb (with_ptrs m (mb_buffer m) (mb_advance m (mb_rdptr m)) (mb_wrptr m));; ret msg
  | None => throw OutOfBounds
  end.

Definition chMBObjectInit (mb : nat) (buf : list Z) : fw kernel unit :=
  m ← gets (λ k, mbx k mb);
  set_mbx mb (with_ptrs m buf 0 0);;
  chSemObjectInit (mb_emptysem m) (Z.of_nat (length buf));;
  chSemObjectInit (mb_fullsem m) 0.

Definition chMBResetI (mb : nat) : fw kernel unit :=
  m ← gets (λ k, mbx k mb);
  set_mbx mb (with_ptrs m (mb_buffer m) 0 0);;
  chSemResetI (mb_emptysem m) (Z.of_nat (mb_top m));;
  chSemResetI (mb_fullsem m) 0.
Definition chMBReset (mb : nat) : kern unit := iclass (chMBResetI mb);; chSchRescheduleS.

Definition emptysem (mb : nat) : fw kernel nat := gets (λ k, mb_emptysem (mbx k mb)).
Definition fullsem (mb : nat) : fw kernel nat := gets (λ k, mb_fullsem (mbx k mb)).

Definition chMBPostS (mb : nat) (msg timeout : Z) : kern Z :=
  e ← iclass (emptysem mb);
  rdymsg ← chSemWaitTimeoutS e timeout;
  kwhen (rdymsg =? MSG_OK)
    (iclass (store mb msg;; f ← fullsem mb; chSemSignalI f);; chSchRescheduleS);;
  kret rdymsg.
Definition chMBPost : nat → Z → Z → kern Z := chMBPostS.

Definition chMBPostAheadS (mb : nat) (msg timeout : Z) : kern Z :=
  e ← iclass (emptysem mb);
  rdymsg ← chSemWaitTimeoutS e timeout;
  kwhen (rdymsg =? MSG_OK)
    (iclass (store_ahead mb msg;; f ← fullsem mb; chSemSignalI f);; chSchRescheduleS);;
  kret rdymsg.
Definition chMBPostAhead : nat → Z → Z → kern Z := chMBPostAheadS.

(** The message fetched is returned with the status. *)
Definition chMBFetchS (mb : nat) (timeout : Z) : kern (Z * Z) :=
  f ← iclass (fullsem mb);
  rdymsg ← chSemWaitTimeoutS f timeout;
  if rdymsg =? MSG_OK then
    msg ← iclass (msg ← load mb; e ← emptysem mb; chSemSignalI e;; ret msg);
    chSchRescheduleS;;
    kret (rdymsg, msg)
  else kret (rdymsg, 0).
Definition chMBFetch : nat → Z → kern (Z * Z) := chMBFetchS.

Definition chMBPostI (mb : nat) (msg : Z) : fw kernel Z :=
  e ← emptysem mb;
  c ← chSemGetCounterI e;
  if c <=? 0 then ret MSG_TIMEOUT
  else
    chSemFastWaitI e;; store mb msg;; f ← fullsem mb; chSemSignalI f;; ret MSG_OK.

Definition chMBPostAheadI (mb : nat) (msg : Z) : fw kernel Z :=
  e ← emptysem mb;
  c ← chSemGetCounterI e;
  if c <=? 0 then ret MSG_TIMEOUT
  else
    chSemFastWaitI e;; store_ahead mb msg;; f ← fullsem mb; chSemSignalI f;; ret MSG_OK.

Definition chMBFetchI (mb : nat) : fw kernel (Z * Z) :=
  f ← fullsem mb;
  c ← chSemGetCounterI f;
  if c <=? 0 then ret (MSG_TIMEOUT, 0)
  else
    chSemFastWaitI f;; msg ← load mb; e ← emptysem mb; chSemSignalI e;; ret (MSG_OK, msg).

Definition chMBGetSizeI (mb : nat) : fw kernel Z := gets (λ k, Z.of_nat (mb_top (mbx k mb))).
Definition chMBGetFreeCountI (mb : nat) : fw kernel Z := e ← emptysem mb; chSemGetCounterI e.
Definition chMBGetUsedCountI (mb : nat) : fw kernel Z := f ← fullsem mb; chSemGetCounterI f.
Definition chMBPeekI (mb : nat) : fw kernel Z :=
  m ← gets (λ k, mbx k mb);
  match mb_buffer m !! mb_rdptr m with Some msg => ret msg | None => throw OutOfBounds end.

End Mailboxes.
