(* ===== verification/System.v ===== *)
(** * Dynamic threads and system start (chdynamic.c, chregistry.c, chsys.c)

    The allocators of Memory.v, run on the kernel's memory with the heap's
    mutex held, and what is built on them. *)

From S2P Require Import Prelude SysTime Fw VTimers Memory Kernel Sync Threads.
Import SysTime VTimers Memory Kernel Mtx Threads.

Module System.

(** A computation on the memory, run on the kernel. *)
Definition on_mem {A} (m : fw memory A) : fw kernel A := λ k,
  match m (k_mem k) with
  | Ok (a, m') => Ok (a, k_set_mem m' k)
  | Err e => Err e
  end.

Section system.
(** The mutex in each heap, and the default heap's address. *)
Variable h_mtx : Z → nat.
Variable default_heap : Z.

Definition heap_or_default (heapp : Z) : Z := if heapp =? 0 then default_heap else heapp.

(** The search is made with the mutex held, the provider is called without. *)
Definition heap_alloc (fuel : nat) (heapp size : Z) : kern Z :=
  let heapp := heap_or_default heapp in
  let size := MEM_ALIGN_NEXT size in
  chMtxLock (h_mtx heapp);;
  p ← iclass (on_mem (alloc_walk fuel heapp (h_free heapp) size));
  chMtxUnlock (h_mtx heapp);;
  if p =? 0 then iclass (on_mem (alloc_provide heapp size)) else kret p.

Definition heap_free (fuel : nat) (p : Z) : kern unit :=
  let hp := u32 (p - sizeof_header) in
  heapp ← iclass (gets (λ k, h_next (k_mem k) hp));
  chMtxLock (h_mtx heapp);;
  iclass (on_mem (free_walk fuel heapp (h_free heapp) hp));;
  chMtxUnlock (h_mtx heapp).

Definition heap_status (fuel : nat) (heapp : Z) : kern (Z * Z) :=
  let heapp := heap_or_default heapp in
  chMtxLock (h_mtx heapp);;
  r ← iclass (on_mem (chHeapStatus fuel heapp));
  chMtxUnlock (h_mtx heapp);;
  kret r.

Definition heap_object_init (heapp buf size : Z) : fw kernel unit :=
  on_mem (chHeapObjectInit heapp buf size);; chMtxObjectInit (h_mtx heapp).
Definition default_heap_init : fw kernel unit :=
  on_mem (_heap_init default_heap);; chMtxObjectInit (h_mtx default_heap).

(** ** Dynamic threads

    A thread's name is the address of its working area. *)

Definition chThdAddRef (tp : nat) : fw kernel nat := add_ref tp;; ret tp.

Definition chThdRelease (fuel : nat) (tp : nat) : kern unit :=
  iclass (thd_set tp (λ t, t_refs (u8 (p_refs t - 1)) t));;
  t ← iclass (gets (λ k, thd k tp));
  if (p_refs t =? 0) && bool_decide (p_state t = FINAL) then
    let mode := Z.land (p_flags t) CH_FLAG_MODE_MASK in
    if mode =? CH_FLAG_MODE_HEAP then
      iclass (REG_REMOVE tp);; heap_free fuel (Z.of_nat tp)
    else if mode =? CH_FLAG_MODE_MPOOL then
      iclass (REG_REMOVE tp);; iclass (on_mem (chPoolFree (p_mpool t) (Z.of_nat tp)))
    else kret tt
  else kret tt.

Definition chThdCreateFromHeap (fuel : nat) (heapp size prio : Z) : kern (option nat) :=
  wsp ← heap_alloc fuel heapp size;
  if wsp =? 0 then kret None
  else
    tp ← iclass (chThdCreateI (Z.to_nat wsp) prio);
    iclass (thd_set tp (t_flags CH_FLAG_MODE_HEAP));;
    chSchWakeupS tp MSG_OK;;
    kret (Some tp).

Definition chThdCreateFromMemoryPool (mp : nat) (prio : Z) : kern (option nat) :=
  wsp ← iclass (on_mem (chPoolAlloc mp));
  if wsp =? 0 then kret None
  else
    tp ← iclass (chThdCreateI (Z.to_nat wsp) prio);
    iclass (thd_set tp (t_flags CH_FLAG_MODE_MPOOL));;
    iclass (thd_set tp (t_mpool mp));;
    chSchWakeupS tp MSG_OK;;
    kret (Some tp).

(** [chThdWait]: the exit code, and one reference less. *)
Definition chThdWait (fuel : nat) (tp : nat) : kern Z :=
  ctp ← self;
  st ← iclass (gets (λ k, p_state (thd k tp)));
  kwhen (negb (bool_decide (st = FINAL)))
    (iclass (list_insert ctp (QWait tp));; chSchGoSleepS WTEXIT);;
  msg ← iclass (λ k, match p_u (thd k tp) with ExitCode m => Ok (m, k) | _ => Err BadUnion end);
  chThdRelease fuel tp;;
  kret msg.

Definition chRegNextThread (fuel : nat) (tp : nat) : kern (option nat) :=
  ntp ← iclass (gets (λ k, p_newer tp (registry k)));
  iclass (match ntp with Some n => add_ref n | None => ret tt end);;
  chThdRelease fuel tp;;
  kret ntp.

(** ** Start and tick *)

Definition NORMALPRIO : Z := 64.
Definition IDLEPRIO : Z := 1.

Definition chSysInit (heap_base heap_end : Z) (mainthread idle_thread : nat) : kern unit :=
  iclass _scheduler_init;;
  iclass _vt_init;;
  iclass (on_mem (_core_init heap_base heap_end));;
  iclass default_heap_init;;
  iclass (tp ← _thread_init mainthread NORMALPRIO; setcurrp tp;; thd_set tp (t_state CURRENT));;
  chThdCreateStatic idle_thread IDLEPRIO;;
  kret tt.

Definition chSysTimerHandlerI (fuel : nat) : fw kernel unit := chVTDoTickI fuel.

End system.

End System.
