(* ===== verification/Osal.v ===== *)
(** * The drivers' view of the kernel (os/hal/osal/rt/osal.h)

    The services the drivers use, by the kernel's functions. *)

From S2P Require Import Prelude SysTime Fw VTimers Memory Kernel Sync Threads Events System.
Import SysTime VTimers Kernel Sem Mtx Threads Events System.

Module Osal.

Definition osalOsTimerHandlerI (fuel : nat) : fw kernel unit := chSysTimerHandlerI fuel.
Definition osalOsRescheduleS : kern unit := chSchRescheduleS.
Definition osalOsGetSystemTimeX : fw kernel Z := gets st_time.
Definition osalOsIsTimeWithinX : Z → Z → Z → bool := chVTIsTimeWithinX.

Definition osalThreadSleepS (time : Z) : kern unit := chThdSleepS time.
Definition osalThreadSleep (time : Z) : kern unit := chThdSleep time.
Definition osalThreadSuspendS (trp : nat) : kern Z := chThdSuspendS trp.
Definition osalThreadSuspendTimeoutS (trp : nat) (timeout : Z) : kern Z := chThdSuspendTimeoutS trp timeout.
Definition osalThreadResumeI (trp : nat) (msg : Z) : fw kernel unit := chThdResumeI trp msg.
Definition osalThreadResumeS (trp : nat) (msg : Z) : kern unit := chThdResumeS trp msg.

Definition osalThreadQueueObjectInit (tqp : nat) : fw kernel unit := chThdQueueObjectInit tqp.
Definition osalThreadEnqueueTimeoutS (tqp : nat) (time : Z) : kern Z := chThdEnqueueTimeoutS tqp time.
Definition osalThreadDequeueNextI (tqp : nat) (msg : Z) : fw kernel unit := chThdDequeueNextI tqp msg.
Definition osalThreadDequeueAllI (tqp : nat) (msg : Z) : fw kernel unit := chThdDequeueAllI tqp msg.

Definition osalEventObjectInit (esp : nat) : fw kernel unit := chEvtObjectInit esp.
Definition osalEventBroadcastFlagsI (esp : nat) (flags : Z) : fw kernel unit := chEvtBroadcastFlagsI esp flags.
Definition osalEventBroadcastFlags (esp : nat) (flags : Z) : kern unit := chEvtBroadcastFlags esp flags.

Definition osalMutexObjectInit (mp : nat) : fw kernel unit := chMtxObjectInit mp.
Definition osalMutexLock (mp : nat) : kern unit := chMtxLock mp.
Definition osalMutexUnlock (mp : nat) : kern unit := chMtxUnlock mp.

End Osal.
