(* ===== verification/Sched.v ===== *)
(** * The scheduler's invariant

    Where every thread is: the queue it is linked in, and that its state and
    union agree with it. The operations of the scheduler are computed as pure
    functions of the kernel, and each is shown to keep the invariant. *)

From Stdlib Require Import Sorted.
From S2P Require Import Prelude SysTime Fw VTimers Memory Kernel.
From stdpp Require Import list.
#[local] Open Scope Z_scope.
Import SysTime VTimers Kernel.

Module Sched.

(** ** Insertion by priority *)

Lemma link_before_perm stop t l : link_before stop t l ≡ₚ t :: l.
Proof.
  induction l as [|c l IH]; cbn [link_before]; [done|]. destruct (stop c); [done|].
  rewrite IH. apply Permutation_swap.
Qed.

Lemma elem_of_link_before stop t l x : x ∈ link_before stop t l ↔ x = t ∨ x ∈ l.
Proof. rewrite (link_before_perm stop t l). apply elem_of_cons. Qed.

Lemma NoDup_link_before stop t l : t ∉ l → NoDup l → NoDup (link_before stop t l).
Proof. intros Hn Hl. rewrite (link_before_perm stop t l). by constructor. Qed.

(** Highest priority first. *)
Definition by_prio (p : nat → Z) : list nat → Prop := StronglySorted (λ a b, p b <= p a).

Lemma link_before_sorted (p : nat → Z) (stop : nat → bool) t l :
  (∀ c, c ∈ l → if stop c then p c <= p t else p t <= p c) →
  by_prio p l → by_prio p (link_before stop t l).
Proof.
  intros Hs. induction 1 as [|c l Hl IH Hc]; cbn [link_before]; [by repeat constructor|].
  pose proof (Hs c ltac:(by left)) as Hsc. destruct (stop c).
  - constructor; [by constructor|]. constructor; [done|].
    eapply Forall_impl; [exact Hc|]. cbn. lia.
  - constructor; [apply IH; intros; apply Hs; by right|].
    apply Forall_forall. intros x. rewrite elem_of_link_before. intros [->|Hx]; [done|].
    by rewrite Forall_forall in Hc; apply Hc.
Qed.

Lemma by_prio_ext (p p' : nat → Z) l : (∀ x, x ∈ l → p x = p' x) → by_prio p l → by_prio p' l.
Proof.
  intros He. induction 1 as [|c l Hl IH Hc]; [constructor|].
  constructor; [apply IH; intros; apply He; by right|].
  apply Forall_forall. intros x Hx. rewrite Forall_forall in Hc. specialize (Hc x Hx).
  rewrite <-(He x), <-(He c) by (by left || by right). done.
Qed.

Lemma by_prio_filter p P `{∀ x, Decision (P x)} l : by_prio p l → by_prio p (filter P l).
Proof.
  induction 1 as [|c l Hl IH Hc]; [constructor|]. rewrite filter_cons. case_decide; [|done].
  constructor; [done|]. apply Forall_forall. intros x [_ Hx]%list_elem_of_filter.
  rewrite Forall_forall in Hc. by apply Hc.
Qed.

Lemma by_prio_app_l p l1 l2 : by_prio p (l1 ++ l2) → by_prio p l1.
Proof.
  induction l1 as [|c l1 IH]; cbn; [constructor|]. inversion 1 as [|? ? Hs Hc]; subst.
  constructor; [by apply IH|]. by apply Forall_app in Hc as [? _].
Qed.

(** ** Where a thread is *)

Definition in_queue (q : qid) (th : thread) : Prop :=
  match q with
  | QReady => p_state th = READY
  | QSem n => p_state th = WTSEM ∧ p_u th = WtSem n
  | QMtx m => p_state th = WTMTX ∧ p_u th = WtMtx m
  | QCond c => p_state th = WTCOND ∧ p_u th = WtCond c
  | QMsg r => p_state th = SNDMSGQ ∧ p_u th = WtMsg r
  | QThd _ => p_state th = QUEUED
  | QWait _ => p_state th = WTEXIT
  end.

Definition in_none (th : thread) : Prop :=
  match p_state th with
  | CURRENT | WTSTART | SLEEPING | SNDMSG | WTMSG | FINAL => True
  | SUSPENDED => ∃ r, p_u th = WtTrp r
  | WTOREVT | WTANDEVT => ∃ m, p_u th = EwMask m
  | _ => False
  end.

Definition loc_ok (o : option qid) (th : thread) : Prop :=
  match o with Some q => in_queue q th | None => in_none th end.

(** Queues kept in the order of priority. *)
Definition prio_queue (q : qid) : Prop :=
  match q with QReady | QMtx _ | QCond _ => True | _ => False end.

Section invariant.
(** The idle thread. *)
Variable idle : nat.

(** [loc] places the threads; those of [F] are being moved, and their state does
    not agree with their place yet. *)
Record qinv (F : list nat) (loc : nat → option qid) (k : kernel) : Prop := {
  q_nodup q : NoDup (queues k q);
  q_loc q t : t ∈ queues k q ↔ loc t = Some q;
  q_ok t : t ∉ F → loc_ok (loc t) (thd k t);
  q_sorted q : prio_queue q → by_prio (prio_of k) (queues k q);
  q_prio t : 0 < prio_of k t;
  q_cur : currp k ∉ F → p_state (thd k (currp k)) = CURRENT;
  q_cur1 t : t ∉ F → p_state (thd k t) = CURRENT → t = currp k;
  q_idle : p_state (thd k idle) = READY ∨ p_state (thd k idle) = CURRENT
}.

Lemma prio_set_thread k t g t' :
  p_prio (g (thd k t)) = p_prio (thd k t) → prio_of (set_thread t g k) t' = prio_of k t'.
Proof. intros E. unfold prio_of, set_thread. cbn. unfold upd. by case_decide; subst. Qed.

Lemma thd_set_thread k t g t' :
  thd (set_thread t g k) t' = if decide (t' = t) then g (thd k t) else thd k t'.
Proof. done. Qed.

Lemma queues_set_queue k q l q' : queues (set_queue q l k) q' = if decide (q' = q) then l else queues k q'.
Proof. done. Qed.

(** A thread being moved may be given any state. *)
Lemma qinv_thread F loc k t g :
  qinv F loc k → t ∈ F → p_prio (g (thd k t)) = p_prio (thd k t) →
  (t = idle → p_state (g (thd k t)) = READY ∨ p_state (g (thd k t)) = CURRENT) →
  qinv F loc (set_thread t g k).
Proof.
  intros [] Ht Hp Hi. split; try done.
  - intros t' Hn. rewrite thd_set_thread, decide_False by (by intros ->). auto.
  - intros q Hq. eapply by_prio_ext; [|by apply q_sorted0]. intros x _. by rewrite prio_set_thread.
  - intros t'. by rewrite prio_set_thread.
  - intros Hc. cbn in *. rewrite upd_ne by (by intros <-). auto.
  - intros t' Hn. cbn. rewrite upd_ne by (by intros ->). auto.
  - cbn. unfold upd. case_decide; subst; auto.
Qed.

(** Any thread may be changed otherwise. *)
Lemma qinv_neutral F loc k t g :
  qinv F loc k → p_prio (g (thd k t)) = p_prio (thd k t) →
  p_state (g (thd k t)) = p_state (thd k t) →
  (p_u (g (thd k t)) = p_u (thd k t) ∨ t ∈ F ∨ loc_ok (loc t) (g (thd k t))) →
  qinv F loc (set_thread t g k).
Proof.
  intros [] Hp Hst Hu. split; try done.
  - intros t' Hn. rewrite thd_set_thread. case_decide; subst; [|auto].
    destruct Hu as [Hu|[?|?]]; [|done|done]. specialize (q_ok0 t Hn).
    destruct (loc t) as [q|]; cbn in *; [|unfold in_none in *; by rewrite Hst, Hu].
    destruct q; cbn in *; by rewrite ?Hst, ?Hu.
  - intros q Hq. eapply by_prio_ext; [|by apply q_sorted0]. intros x _. by rewrite prio_set_thread.
  - intros t'. by rewrite prio_set_thread.
  - intros Hc. cbn in *. unfold upd. case_decide as E; [|auto]. rewrite Hst, <-E. auto.
  - intros t' Hn. cbn. unfold upd. case_decide; subst; [rewrite Hst|]; auto.
  - cbn. unfold upd. case_decide; subst; rewrite ?Hst; auto.
Qed.

(** Linking a thread that was in no queue. *)
Lemma qinv_place F loc k k' t q :
  qinv F loc k → loc t = None →
  thd k' = thd k → currp k' = currp k →
  queues k' q ≡ₚ t :: queues k q → (∀ q', q' ≠ q → queues k' q' = queues k q') →
  (prio_queue q → by_prio (prio_of k) (queues k' q)) →
  (t ∉ F → in_queue q (thd k t)) →
  qinv F (upd loc t (Some q)) k'.
Proof.
  intros [] Hl Ht Hc Hq Hq' Hs Hok.
  assert (∀ x, prio_of k' x = prio_of k x) as Hp by (intros; unfold prio_of; by rewrite Ht).
  split; rewrite ?Ht, ?Hc; try done.
  - intros q'. destruct (decide (q' = q)) as [->|Hn]; [|by rewrite Hq'].
    rewrite Hq. constructor; [|done]. rewrite q_loc0. congruence.
  - intros q' t'. destruct (decide (t' = t)) as [->|Hn].
    + rewrite upd_eq. destruct (decide (q' = q)) as [->|Hn']; [rewrite Hq, elem_of_cons; naive_solver|].
      rewrite Hq', q_loc0, Hl by done. naive_solver.
    + rewrite upd_ne by done. rewrite <-q_loc0. destruct (decide (q' = q)) as [->|Hn']; [|by rewrite Hq'].
      rewrite Hq, elem_of_cons. naive_solver.
  - intros t' Hn. unfold upd. case_decide; subst; [by apply Hok|auto].
  - intros q' Hpq. eapply (by_prio_ext (prio_of k)); [done|].
    destruct (decide (q' = q)) as [->|Hn']; [auto|rewrite Hq'; auto].
  - intros x. by rewrite Hp.
Qed.

(** Unlinking a thread. *)
Lemma qinv_unplace F loc k k' t q :
  qinv F loc k → thd k' = thd k → currp k' = currp k →
  t :: queues k' q ≡ₚ queues k q → (∀ q', q' ≠ q → queues k' q' = queues k q') →
  (prio_queue q → by_prio (prio_of k) (queues k' q)) →
  qinv (t :: F) (upd loc t None) k'.
Proof.
  intros [] Ht Hc Hq Hq' Hs.
  assert (∀ x, prio_of k' x = prio_of k x) as Hp by (intros; unfold prio_of; by rewrite Ht).
  assert (NoDup (t :: queues k' q)) as [Hni Hnd]%NoDup_cons by (by rewrite Hq).
  assert (loc t = Some q) as Hlt by (apply q_loc0; rewrite <-Hq; by left).
  split; rewrite ?Ht, ?Hc; try done.
  - intros q'. destruct (decide (q' = q)) as [->|Hn]; [done|by rewrite Hq'].
  - intros q' t'. destruct (decide (t' = t)) as [->|Hn].
    + rewrite upd_eq. destruct (decide (q' = q)) as [->|Hn']; [naive_solver|].
      rewrite Hq', q_loc0 by done. naive_solver.
    + rewrite upd_ne by done. rewrite <-q_loc0. destruct (decide (q' = q)) as [->|Hn']; [|by rewrite Hq'].
      rewrite <-Hq, elem_of_cons. naive_solver.
  - intros t' [Hn Hn']%not_elem_of_cons. rewrite upd_ne by done. auto.
  - intros q' Hpq. eapply (by_prio_ext (prio_of k)); [done|].
    destruct (decide (q' = q)) as [->|Hn']; [auto|rewrite Hq'; auto].
  - intros x. by rewrite Hp.
  - intros [_ ?]%not_elem_of_cons. auto.
  - intros t' [_ ?]%not_elem_of_cons. auto.
Qed.

(** A move ends when state and place agree. *)
Lemma qinv_settle F F' loc k :
  qinv F loc k →
  (∀ t, t ∈ F → t ∈ F' ∨ loc_ok (loc t) (thd k t) ∧ (p_state (thd k t) = CURRENT ↔ t = currp k)) →
  qinv F' loc k.
Proof.
  intros [] Hs. split; try done.
  - intros t Hn. destruct (decide (t ∈ F)) as [Hf|]; [|auto]. destruct (Hs t Hf) as [|[? _]]; done.
  - intros Hn. destruct (decide (currp k ∈ F)) as [Hf|]; [|auto]. destruct (Hs _ Hf) as [|[_ ?]]; [done|naive_solver].
  - intros t Hn. destruct (decide (t ∈ F)) as [Hf|]; [|auto]. destruct (Hs _ Hf) as [|[_ ?]]; [done|naive_solver].
Qed.

Lemma qinv_start F loc k t : qinv [] loc k → t ∈ F → qinv F loc k.
Proof. intros H _. eapply qinv_settle; [done|]. by intros ? ?%elem_of_nil. Qed.

(** The processor given to [r], the previous thread being moved. *)
Lemma qinv_currp F loc k r :
  qinv F loc k → currp k ∈ F → r ∈ F → qinv F loc (k_set_currp r k).
Proof. intros [] Hc Hr. split; try done. intros t Hn Ht. naive_solver. Qed.

Definition do_run_first (r : nat) (l : list nat) (k : kernel) : kernel :=
  set_thread r (t_state CURRENT) (k_set_currp r (set_queue QReady l k)).

Lemma run_first_eq k r l : queues k QReady = r :: l → run_first k = Ok (tt, do_run_first r l k).
Proof. intros E. unfold run_first, queue_fifo_remove. by rewrite fw_bind_eq, E. Qed.

Lemma qinv_run_first F loc k r l :
  qinv F loc k → queues k QReady = r :: l → currp k ∈ F → r ∉ F →
  qinv F (upd loc r None) (do_run_first r l k).
Proof.
  intros H E Hc Hr.
  assert (qinv (r :: F) (upd loc r None) (set_queue QReady l k)) as H1.
  { apply (qinv_unplace F loc k _ r QReady); try done.
    - by rewrite queues_set_queue, decide_True, E.
    - intros q' Hq. by rewrite queues_set_queue, decide_False.
    - intros _. rewrite queues_set_queue, decide_True by done.
      pose proof (q_sorted _ _ _ H QReady I) as Hs. rewrite E in Hs. by inversion Hs. }
  apply (qinv_currp _ _ _ r) in H1; [|by right|by left].
  apply (qinv_thread _ _ _ r (t_state CURRENT)) in H1; [|by left|done|by right].
  eapply qinv_settle; [exact H1|]. intros t [->|Ht]%elem_of_cons; [|by left]. right.
  rewrite upd_eq. cbn. rewrite upd_eq. done.
Qed.

(** Some thread is always ready while another one runs. *)
Lemma qinv_ready F loc k : qinv F loc k → idle ∉ F → currp k ≠ idle → ∃ r l, queues k QReady = r :: l.
Proof.
  intros [] HF Hc. destruct q_idle0 as [Hi|Hi]; [|by apply q_cur2 in Hi].
  pose proof (q_ok0 idle HF) as Hok. destruct (loc idle) as [q|] eqn:El.
  - assert (q = QReady) as ->.
    { destruct q; cbn in Hok; [done|..]; rewrite Hi in Hok; naive_solver. }
    apply q_loc0 in El. destruct (queues k QReady) as [|r l]; [by apply elem_of_nil in El|by eauto].
  - cbn in Hok. unfold in_none in Hok. by rewrite Hi in Hok.
Qed.

(** ** Making a thread ready *)

Definition do_ready (t : nat) (k : kernel) : kernel :=
  let k := set_thread t (t_state READY) k in
  set_queue QReady (link_before (λ cp, prio_of k cp <? prio_of k t) t (queues k QReady)) k.

Lemma chSchReadyI_eq t k : 0 < prio_of k t → chSchReadyI t k = Ok (t, do_ready t k).
Proof.
  intros Hp. unfold chSchReadyI. rewrite (fw_bind_ok _ _ _ _ _ eq_refl), (fw_bind_ok _ _ _ _ _ eq_refl).
  rewrite prio_set_thread by done. by rewrite (proj2 (Z.leb_gt _ _)) by (unfold NOPRIO; lia).
Qed.

Lemma do_ready_perm t k q :
  queues (do_ready t k) q ≡ₚ if decide (q = QReady) then t :: queues k q else queues k q.
Proof. unfold do_ready. rewrite queues_set_queue. case_decide; subst; [apply link_before_perm|done]. Qed.

Lemma ready_sorted (k : kernel) t l (stop : nat → bool) :
  (∀ c, stop c = true → prio_of k c <= prio_of k t) → (∀ c, stop c = false → prio_of k t <= prio_of k c) →
  by_prio (prio_of k) l → by_prio (prio_of k) (link_before stop t l).
Proof. intros H1 H2. apply link_before_sorted. intros c _. destruct (stop c) eqn:E; auto. Qed.

Lemma qinv_ready_keep F loc k t :
  qinv F loc k → t ∈ F → loc t = None → qinv F (upd loc t (Some QReady)) (do_ready t k).
Proof.
  intros H Ht Hl. unfold do_ready. set (k1 := set_thread t (t_state READY) k).
  assert (qinv F loc k1) as H1 by (apply qinv_thread; try done; intros _; by left).
  apply (qinv_place F loc k1 _ t QReady); try done.
  - rewrite queues_set_queue, decide_True by done. apply link_before_perm.
  - intros q' Hq. by rewrite queues_set_queue, decide_False.
  - intros _. rewrite queues_set_queue, decide_True by done.
    apply ready_sorted; [intros c; rewrite Z.ltb_lt; lia|intros c; rewrite Z.ltb_ge; lia|].
    by apply (q_sorted _ _ _ H1).
Qed.

Lemma qinv_do_ready F loc k t :
  qinv F loc k → t ∈ F → t ≠ currp k → loc t = None →
  qinv (filter (λ x, x ≠ t) F) (upd loc t (Some QReady)) (do_ready t k).
Proof.
  intros H Ht Hc Hl. eapply qinv_settle; [by apply qinv_ready_keep|].
  intros x Hx. destruct (decide (x = t)) as [->|Hn]; [right|left; by apply list_elem_of_filter].
  rewrite upd_eq. cbn. rewrite upd_eq. done.
Qed.

End invariant.

End Sched.
