(* ===== verification/KInv.v ===== *)
(** * The kernel's invariant and safe executions

    The invariant of the kernel's state, what one thread's running may change of
    another thread, and the executions that never fail and keep both at every
    point where the processor is given up. *)

From S2P Require Import Prelude SysTime Fw VTimers Memory Kernel Sync Sched.
From stdpp Require Import list.
Import SysTime VTimers Kernel Sem Sched.
#[local] Open Scope Z_scope.

Module KInv.

(** States in which a thread may have its timer armed. *)
Definition timed (st : tstate) : bool :=
  match st with
  | READY | SUSPENDED | QUEUED | WTSEM | WTCOND | SLEEPING | WTOREVT | WTANDEVT => true
  | _ => false
  end.

Definition armed (k : kernel) (t : nat) : Prop := t ∈ vt_id <$> vt_list (k_vtl k).

(** A semaphore of [E] is being reset. *)
Definition sinv (E : list nat) (k : kernel) : Prop :=
  ∀ n, n ∉ E → Z.of_nat (length (queues k (QSem n))) = Z.max 0 (- s_cnt k n).

Record tinv (F : list nat) (k : kernel) : Prop := {
  t_timed t : armed k t → t ∉ F → t = currp k ∨ timed (p_state (thd k t)) = true;
  t_wakeup : Forall (λ x, vt_func x = WAKEUP ∧ vt_par x = vt_id x) (vt_list (k_vtl k));
  t_nodup : NoDup (vt_id <$> vt_list (k_vtl k));
  t_deltas : deltas_ok (vt_list (k_vtl k))
}.

Definition rinv (F : list nat) (k : kernel) : Prop :=
  ∀ r t, trefs k r = Some t → t ∉ F → p_state (thd k t) = SUSPENDED ∧ p_u (thd k t) = WtTrp r.

Record minv (k : kernel) : Prop := {
  m_own m t : m_owner k m = Some t ↔ m ∈ p_mtxlist (thd k t);
  m_nodup t : NoDup (p_mtxlist (thd k t));
  m_wait m : queues k (QMtx m) ≠ [] → m_owner k m ≠ None;
  m_reg m t : m_owner k m = Some t → t ∈ registry k;
  m_real t : 0 < p_realprio (thd k t)
}.

(** A thread that has started and not ended is registered. *)
Definition ginv (F : list nat) (k : kernel) : Prop :=
  ∀ t, t ∉ F → p_state (thd k t) = WTSTART ∨ p_state (thd k t) = FINAL ∨ t ∈ registry k.

Section inv.
Variable idle : nat.

Record inv (E F : list nat) (loc : nat → option qid) (k : kernel) : Prop := {
  i_q : qinv idle F loc k;
  i_s : sinv E k;
  i_t : tinv F k;
  i_r : rinv F k;
  i_m : minv k;
  i_g : ginv F k
}.

(** The kernel's invariant, with nothing being moved. *)
Definition kinv (k : kernel) : Prop := ∃ loc, inv [] [] loc k.

(** ** What a thread finds when it runs again

    [awake]: not waiting for anything but the processor. A thread that gave up
    the processor in state [st] with union [u] finds on its return the message
    it was woken with, the sender that woke it, or the mutex it waited for. *)
Definition awake (th : thread) : Prop := p_state th = READY ∨ p_state th = CURRENT.

Definition msg_state (st : tstate) : bool :=
  match st with
  | SUSPENDED | QUEUED | WTSEM | WTCOND | SLEEPING | WTOREVT | WTANDEVT | SNDMSGQ | SNDMSG => true
  | _ => false
  end.

Definition know (st : tstate) (u : punion) (t : nat) (k : kernel) : Prop :=
  (msg_state st = true → ∃ m, p_u (thd k t) = RdyMsg m)
  ∧ (st = WTMSG → queues k (QMsg t) ≠ [])
  ∧ (∀ m, st = WTMTX → u = WtMtx m → m_owner k m = Some t).

(** A sender whose message was taken goes on waiting. *)
Definition wst (th : thread) : tstate := match p_state th with SNDMSG => SNDMSGQ | st => st end.

Lemma know_wst th t k : know (wst th) (p_u th) t k ↔ know (p_state th) (p_u th) t k.
Proof. unfold know, wst. destruct (p_state th); cbn; naive_solver. Qed.

Lemma wst_awake th th' : wst th = wst th' → awake th → awake th'.
Proof. unfold awake, wst. destruct (p_state th), (p_state th'); naive_solver. Qed.

Definition evolves (t : nat) (k k' : kernel) : Prop :=
  (awake (thd k t) → awake (thd k' t) ∧ p_u (thd k' t) = p_u (thd k t))
  ∧ (¬ awake (thd k t) →
     (wst (thd k' t) = wst (thd k t) ∧ p_u (thd k' t) = p_u (thd k t))
     ∨ (awake (thd k' t) ∧ know (wst (thd k t)) (p_u (thd k t)) t k'))
  ∧ (queues k (QMsg t) ≠ [] → queues k' (QMsg t) ≠ [])
  ∧ (∀ m, m_owner k m = Some t → m_owner k' m = Some t)
  ∧ (armed k' t → armed k t).

(** What the thread [me] may do to the others. *)
Definition evolve (me : nat) (k k' : kernel) : Prop := ∀ t, t ≠ me → evolves t k k'.

Lemma evolve_refl me k : evolve me k k.
Proof. intros t _. unfold evolves. destruct (p_state (thd k t)) eqn:E; unfold awake; rewrite E; naive_solver. Qed.

Lemma awake_dec th : awake th ∨ ¬ awake th.
Proof. unfold awake. destruct (p_state th); naive_solver. Qed.

Lemma know_evolves st u t k k' : awake (thd k t) → know st u t k → evolves t k k' → know st u t k'.
Proof.
  intros Ha (H1 & H2 & H3) (E1 & _ & E3 & E4 & _). destruct (E1 Ha) as [_ Eu].
  split_and!; [intros Hm; rewrite Eu; auto|auto|eauto].
Qed.

Lemma evolve_trans me k1 k2 k3 : evolve me k1 k2 → evolve me k2 k3 → evolve me k1 k3.
Proof.
  intros H1 H2 t Ht. specialize (H1 t Ht). specialize (H2 t Ht).
  pose proof H1 as (A1 & B1 & C1 & D1 & F1). pose proof H2 as (A2 & B2 & C2 & D2 & F2).
  split_and!; [| |by auto|by auto|by auto].
  - intros Ha. destruct (A1 Ha) as [Ha' Eu]. destruct (A2 Ha') as [Ha'' Eu']. split; [done|congruence].
  - intros Ha. destruct (B1 Ha) as [[Es Eu]|[Ha' Hk]].
    + assert (¬ awake (thd k2 t)) as Ha' by (intros Hx; by apply Ha, (wst_awake (thd k2 t))).
      rewrite <-Es, <-Eu. destruct (B2 Ha') as [[Es' Eu']|]; [left|by right]. split; congruence.
    + right. destruct (A2 Ha') as [? _]. split; [done|]. by apply (know_evolves _ _ _ k2).
Qed.

(** ** Safe executions

    The thread [me] may find the state [k'] when it goes on after it gave up the
    processor in [k]. *)
Record resumable (me : nat) (k k' : kernel) : Prop := {
  r_inv : kinv k';
  r_cur : currp k' = me;
  r_know : know (p_state (thd k me)) (p_u (thd k me)) me k';
  r_armed : armed k' me → armed k me
}.

(** [me] has given up the processor in [k], having run since [k0]. *)
Record yields (me : nat) (k0 k : kernel) : Prop := {
  y_inv : kinv k;
  y_evolve : evolve me k0 k;
  y_cur : currp k ≠ me;
  y_state : p_state (thd k me) ≠ CURRENT
}.

(** [Q] is told the state the last segment started in. *)
Fixpoint safe {A} (me : nat) (Q : kernel → A → kernel → Prop) (k0 : kernel) (o : out A) : Prop :=
  match o with
  | Done a k => Q k0 a k
  | Switch k r => yields me k0 k ∧ ∀ k', resumable me k k' → safe me Q k' (r k')
  | Fail _ => False
  end.

(** A call of the kernel has returned. *)
Definition returned {A} (me : nat) (k0 : kernel) (_ : A) (k : kernel) : Prop :=
  kinv k ∧ currp k = me ∧ evolve me k0 k ∧ ¬ armed k me.

Lemma safe_bind {A B} me (Q : kernel → B → kernel → Prop) (f : A → kern B) k0 (o : out A) :
  safe me (λ k1 a k, safe me Q k1 (f a k)) k0 o → safe me Q k0 (out_bind f o).
Proof.
  revert k0. induction o as [a k|k r IH|e]; intros k0; cbn; [done| |done].
  intros (? & Hr). split; [done|]. intros k' Hk'. by apply IH, Hr.
Qed.

Lemma safe_mono {A} me (Q Q' : kernel → A → kernel → Prop) k0 (o : out A) :
  (∀ k1 a k, Q k1 a k → Q' k1 a k) → safe me Q k0 o → safe me Q' k0 o.
Proof.
  intros HQ. revert k0. induction o as [a k|k r IH|e]; intros k0; cbn; [by apply HQ| |done].
  intros (? & Hr). split; [done|]. intros k' Hk'. by apply IH, Hr.
Qed.

Lemma iclass_bind_eq {A B} (m : fw kernel A) (f : A → kern B) k a k' :
  m k = Ok (a, k') → (iclass m ≫= f) k = f a k'.
Proof. intros E. unfold mbind, kern_bind, iclass. by rewrite E. Qed.

Lemma iclass_bind_err {A B} (m : fw kernel A) (f : A → kern B) k e :
  m k = Err e → (iclass m ≫= f) k = Fail e.
Proof. intros E. unfold mbind, kern_bind, iclass. by rewrite E. Qed.

Lemma safe_iclass {A B} me (Q : kernel → B → kernel → Prop) (m : fw kernel A) (f : A → kern B) k0 k a k' :
  m k = Ok (a, k') → safe me Q k0 (f a k') → safe me Q k0 ((iclass m ≫= f) k).
Proof. intros E H. unfold mbind, kern_bind, iclass. rewrite E. done. Qed.

Lemma safe_iclass_end {A} me (Q : kernel → A → kernel → Prop) (m : fw kernel A) k0 k a k' :
  m k = Ok (a, k') → Q k0 a k' → safe me Q k0 (iclass m k).
Proof. intros E H. unfold iclass. by rewrite E. Qed.

Lemma safe_self {B} me (Q : kernel → B → kernel → Prop) (f : nat → kern B) k0 k :
  safe me Q k0 (f (currp k) k) → safe me Q k0 ((self ≫= f) k).
Proof. done. Qed.

(** ** Making a thread ready *)

(** Only threads and queues differ. *)
Definition same_rest (k k' : kernel) : Prop := k_set_queues (queues k) (k_set_thd (thd k) k') = k.

Lemma rest_currp k k' : same_rest k k' → currp k' = currp k.
Proof. by intros H%(f_equal currp). Qed.
Lemma rest_cnt k k' : same_rest k k' → s_cnt k' = s_cnt k.
Proof. by intros H%(f_equal s_cnt). Qed.
Lemma rest_owner k k' : same_rest k k' → m_owner k' = m_owner k.
Proof. by intros H%(f_equal m_owner). Qed.
Lemma rest_trefs k k' : same_rest k k' → trefs k' = trefs k.
Proof. by intros H%(f_equal trefs). Qed.
Lemma rest_registry k k' : same_rest k k' → registry k' = registry k.
Proof. by intros H%(f_equal registry). Qed.
Lemma rest_vtl k k' : same_rest k k' → k_vtl k' = k_vtl k.
Proof. by intros H%(f_equal k_vtl). Qed.

(** [t] was made ready with the union [u]. *)
Record woken (t : nat) (u : punion) (k k' : kernel) : Prop := {
  wk_t : thd k' t = t_state READY (t_u u (thd k t));
  wk_o t' : t' ≠ t → thd k' t' = thd k t';
  wk_q q : q ≠ QReady → queues k' q = queues k q;
  wk_r : same_rest k k'
}.

Lemma inv_woken E F F' loc loc' k k' t u :
  inv E F loc k → qinv idle F' loc' k' → woken t u k k' →
  (∀ x, x ∉ F' → x ≠ t → x ∉ F) → (∀ r, trefs k r ≠ Some t) → t ∈ registry k → inv E F' loc' k'.
Proof.
  intros [Hq Hs [Ht1 Ht2 Ht3 Ht4] Hr [Hm1 Hm2 Hm3 Hm4 Hm5] Hg] Hq' [W1 W2 W3 W4] HF Hno Hrg.
  assert (∀ x, armed k' x ↔ armed k x) as Harm by (intros x; unfold armed; by rewrite (rest_vtl _ _ W4)).
  assert (∀ x, p_mtxlist (thd k' x) = p_mtxlist (thd k x)) as Hml.
  { intros x. destruct (decide (x = t)) as [->|]; [by rewrite W1|by rewrite W2]. }
  split; [done|..].
  - intros n Hn. rewrite W3, (rest_cnt _ _ W4) by done. by apply Hs.
  - split; rewrite ?(rest_vtl _ _ W4); try done. intros x Hx Hn.
    destruct (decide (x = t)) as [->|Hne]; [right; by rewrite W1|].
    rewrite W2, (rest_currp _ _ W4) by done. apply Ht1; [by apply Harm|auto].
  - intros r x. rewrite (rest_trefs _ _ W4). intros Hx Hn.
    assert (x ≠ t) as Hne by (intros ->; by apply (Hno r)). rewrite W2 by done. auto.
  - assert (∀ x, p_realprio (thd k' x) = p_realprio (thd k x)) as Hrp.
    { intros x. destruct (decide (x = t)) as [->|]; [by rewrite W1|by rewrite W2]. }
    split; intros *; rewrite ?(rest_owner _ _ W4), ?(rest_registry _ _ W4), ?Hml, ?Hrp; try done.
    + by apply Hm3 || (rewrite W3 by done; apply Hm3).
    + apply Hm4.
  - intros x Hn. rewrite (rest_registry _ _ W4). destruct (decide (x = t)) as [->|Hne]; [auto|].
    rewrite W2 by done. auto.
Qed.

(** The two orders in which the code sets the union and the state. *)
Lemma wake_set_ready E F loc k t u :
  inv E F loc k → t ∈ F → t ≠ currp k → loc t = None → (∀ r, trefs k r ≠ Some t) → t ∈ registry k →
  ∃ k', (thd_set t (t_u u);; chSchReadyI t;; ret tt) k = Ok (tt, k')
    ∧ inv E (filter (λ x, x ≠ t) F) (upd loc t (Some QReady)) k' ∧ woken t u k k'.
Proof.
  intros H Ht Hc Hl Hno Hrg. set (k1 := set_thread t (t_u u) k).
  assert (qinv idle F loc k1) as H1 by (apply qinv_neutral; [apply H|done|done|by right; left]).
  assert (woken t u k (do_ready t k1)) as Hw.
  { unfold do_ready, k1. split; try done.
    - cbn. by rewrite !upd_eq.
    - intros t' Hn. cbn. by rewrite !upd_ne.
    - intros q Hn. cbn. by rewrite upd_ne.
    - unfold same_rest. by destruct k. }
  exists (do_ready t k1). split_and!; [|eapply inv_woken; try done|done].
  - rewrite (fw_bind_ok _ _ _ _ _ eq_refl). fold k1.
    by rewrite (fw_bind_ok _ _ _ _ _ (chSchReadyI_eq t k1 ltac:(apply (q_prio _ _ _ _ H1)))).
  - by apply qinv_do_ready.
  - intros x Hx Hne Hin. apply Hx. by apply list_elem_of_filter.
Qed.

Lemma wake_ready_with E F loc k t m :
  inv E F loc k → t ∈ F → t ≠ currp k → loc t = None → (∀ r, trefs k r ≠ Some t) → t ∈ registry k →
  ∃ k', ready_with t m k = Ok (tt, k')
    ∧ inv E (filter (λ x, x ≠ t) F) (upd loc t (Some QReady)) k' ∧ woken t (RdyMsg m) k k'.
Proof.
  intros H Ht Hc Hl Hno Hrg. set (k1 := set_thread t (t_u (RdyMsg m)) (do_ready t k)).
  assert (woken t (RdyMsg m) k k1) as Hw.
  { unfold do_ready, k1. split; try done.
    - cbn. by rewrite !upd_eq.
    - intros t' Hn. cbn. by rewrite !upd_ne.
    - intros q Hn. cbn. by rewrite upd_ne.
    - unfold same_rest. by destruct k. }
  exists k1. split_and!; [|eapply inv_woken; try done|done].
  - unfold ready_with. by rewrite (fw_bind_ok _ _ _ _ _ (chSchReadyI_eq t k ltac:(apply (q_prio _ _ _ _ (i_q _ _ _ _ H))))).
  - apply qinv_neutral; [apply qinv_do_ready; try done; apply H|done|done|].
    right; right. rewrite upd_eq. cbn. by rewrite upd_eq.
  - intros x Hx Hne Hin. apply Hx. by apply list_elem_of_filter.
Qed.

(** What was done to a thread asleep is what it waited for. *)
Lemma evolve_woken me k k' t m :
  ¬ awake (thd k t) → p_state (thd k t) ≠ WTMSG → p_state (thd k t) ≠ WTMTX →
  woken t (RdyMsg m) k k' → evolve me k k'.
Proof.
  intros Ha H1 H2 [W1 W2 W3 W4] x Hx. unfold evolves, armed. rewrite (rest_owner _ _ W4), (rest_vtl _ _ W4), W3 by done.
  destruct (decide (x = t)) as [->|Hne].
  - split_and!; try done. intros _. right. split; [left; by rewrite W1|]. apply know_wst. split_and!; try done.
    intros _. exists m. by rewrite W1.
  - rewrite W2 by done. split_and!; try done. by left.
Qed.

End inv.

End KInv.
