(* ===== verification/KOps.v ===== *)
(** * Safe scheduling: sleeping, waking and rescheduling

    The context-switching functions of the scheduler, from any state in which
    the threads being moved are accounted for. *)

From S2P Require Import Prelude SysTime Fw VTimers Memory Kernel Sync Sched KInv.
From stdpp Require Import list.
Import SysTime VTimers Kernel Sem Sched KInv.
#[local] Open Scope Z_scope.

Module KOps.
Section ops.
Variable idle : nat.
Notation inv := (inv idle).
Notation kinv := (kinv idle).
Notation safe := (safe idle).

(** ** The invariant, step by step *)

Lemma inv_set E F loc k t g :
  inv E F loc k → t ∈ F → p_prio (g (thd k t)) = p_prio (thd k t) →
  p_mtxlist (g (thd k t)) = p_mtxlist (thd k t) → p_realprio (g (thd k t)) = p_realprio (thd k t) →
  (t = idle → p_state (g (thd k t)) = READY ∨ p_state (g (thd k t)) = CURRENT) →
  inv E F loc (set_thread t g k).
Proof.
  intros [Hq Hs [T1 T2 T3 T4] Hr [M1 M2 M3 M4 M5] Hg] Ht Hp Hml Hrp Hi.
  assert (∀ x, p_mtxlist (thd (set_thread t g k) x) = p_mtxlist (thd k x)) as Hml'.
  { intros x. rewrite thd_set_thread. by case_decide; subst. }
  assert (∀ x, x ∉ F → thd (set_thread t g k) x = thd k x) as Hne.
  { intros x Hn. by rewrite thd_set_thread, decide_False by (by intros ->). }
  split; [by apply qinv_thread|done|split; [|done..]| |split; try done|].
  - intros x Ha Hn. rewrite Hne by done. by apply T1.
  - intros r x Hx Hn. rewrite Hne by done. by apply Hr.
  - intros m x. rewrite Hml'. apply M1.
  - intros x. rewrite Hml'. apply M2.
  - intros x. rewrite thd_set_thread. case_decide; [subst; rewrite Hrp|]; apply M5.
  - intros x Hn. rewrite Hne by done. by apply Hg.
Qed.

Lemma inv_thread E F loc k t st :
  inv E F loc k → t ∈ F → t ≠ idle ∨ st = READY ∨ st = CURRENT → inv E F loc (set_thread t (t_state st) k).
Proof. intros H Ht Hi. apply inv_set; try done. intros E0. by destruct Hi. Qed.

Lemma inv_thread_u E F loc k t u : inv E F loc k → t ∈ F → inv E F loc (set_thread t (t_u u) k).
Proof.
  intros H Ht. apply inv_set; try done. intros ->. apply H.
Qed.

Lemma inv_currp E F loc k r :
  inv E F loc k → currp k ∈ F → r ∈ F → inv E F loc (k_set_currp r k).
Proof.
  intros [Hq Hs [T1 T2 T3 T4] Hr Hm] Hc Hin. split; try done; [by apply qinv_currp| |by destruct Hm].
  split; try done. intros x Ha Hn. right. destruct (T1 x Ha Hn) as [->|]; done.
Qed.

Lemma inv_place E F loc loc' k k' :
  inv E F loc k → qinv idle F loc' k' → thd k' = thd k → same_rest k k' → sinv E k' →
  (∀ m, queues k' (QMtx m) ≠ [] → m_owner k m ≠ None) → inv E F loc' k'.
Proof.
  intros [Hq Hs [T1 T2 T3 T4] Hr [M1 M2 M3 M4 M5] Hg] Hq' Ht Hsr Hs' Hm. unfold armed in *.
  split; [done|done|split|intros r t|split|intros t]; unfold armed;
    rewrite ?Ht, ?(rest_vtl _ _ Hsr), ?(rest_trefs _ _ Hsr), ?(rest_owner _ _ Hsr), ?(rest_registry _ _ Hsr), ?(rest_currp _ _ Hsr); auto.
Qed.

(** A queue of the ready threads does not count for the semaphores. *)
Lemma inv_place_ready E F loc loc' k l :
  inv E F loc k → qinv idle F loc' (set_queue QReady l k) → inv E F loc' (set_queue QReady l k).
Proof.
  intros H Hq'. eapply inv_place; try done; [by destruct k| |].
  - apply H.
  - intros m. apply H.
Qed.

Lemma inv_ready_keep E F loc k t :
  inv E F loc k → t ∈ F → loc t = None → inv E F (upd loc t (Some QReady)) (do_ready t k).
Proof.
  intros H Ht Hl. apply (inv_thread _ _ _ _ t READY) in H as H1; [|done|by right; left].
  eapply inv_place_ready; [exact H1|]. apply qinv_ready_keep; try done. apply H.
Qed.

Lemma inv_settle E F F' loc k :
  inv E F loc k →
  (∀ t, t ∈ F → t ∈ F' ∨
     loc_ok (loc t) (thd k t) ∧ (p_state (thd k t) = CURRENT ↔ t = currp k)
     ∧ (armed k t → t = currp k ∨ timed (p_state (thd k t)) = true)
     ∧ (∀ r, trefs k r = Some t → p_state (thd k t) = SUSPENDED ∧ p_u (thd k t) = WtTrp r)
     ∧ (p_state (thd k t) = FINAL ∨ t ∈ registry k)) →
  inv E F' loc k.
Proof.
  intros [Hq Hs [T1 T2 T3 T4] Hr Hm Hg] HF. split; try done.
  - eapply qinv_settle; [done|]. intros t Ht. destruct (HF t Ht) as [|(? & ? & _)]; auto.
  - split; try done. intros t Ha Hn. destruct (decide (t ∈ F)) as [Ht|]; [|auto].
    destruct (HF t Ht) as [|(_ & _ & ? & _ & _)]; [done|auto].
  - intros r t Hx Hn. destruct (decide (t ∈ F)) as [Ht|]; [|auto].
    destruct (HF t Ht) as [|(_ & _ & _ & ? & _)]; [done|auto].
  - intros t Hn. destruct (decide (t ∈ F)) as [Ht|]; [|auto].
    destruct (HF t Ht) as [|(_ & _ & _ & _ & ?)]; [done|auto].
Qed.

Lemma inv_weaken E F' loc k : inv E [] loc k → inv E F' loc k.
Proof. intros H. eapply inv_settle; [done|]. by intros t ?%elem_of_nil. Qed.

Lemma inv_unready E F loc k r l :
  inv E F loc k → queues k QReady = r :: l → r ∉ F →
  inv E (r :: F) (upd loc r None) (set_queue QReady l k).
Proof.
  intros H Eq Hr. eapply inv_place_ready.
  - eapply inv_settle; [exact H|]. intros t Ht. left. by right.
  - apply (qinv_unplace idle F loc k _ r QReady); try done; [apply H|..].
    + by rewrite queues_set_queue, decide_True, Eq.
    + intros q' Hq. by rewrite queues_set_queue, decide_False.
    + intros _. rewrite queues_set_queue, decide_True by done.
      pose proof (q_sorted _ _ _ _ (i_q _ _ _ _ _ H) QReady I) as Hs. rewrite Eq in Hs. by inversion Hs.
Qed.

(** A ready thread: in the ready list, not suspended. *)
Lemma ready_facts E F loc k r l :
  inv E F loc k → queues k QReady = r :: l → r ∉ F →
  p_state (thd k r) = READY ∧ (∀ x, trefs k x ≠ Some r) ∧ r ≠ currp k ∧ loc r = Some QReady ∧ r ∈ registry k.
Proof.
  intros H Eq Hr. pose proof H as [Hq _ _ Hrf _ Hg].
  assert (loc r = Some QReady) as Hl by (apply (q_loc _ _ _ _ Hq); rewrite Eq; by left).
  pose proof (q_ok _ _ _ _ Hq r Hr) as Hok. rewrite Hl in Hok. cbn in Hok. split_and!; try done.
  - intros x Hx. by destruct (Hrf x r Hx Hr) as [? _]; congruence.
  - intros ->. by rewrite (q_cur _ _ _ _ Hq Hr) in Hok.
  - destruct (Hg r Hr) as [Hx|[Hx|]]; [by rewrite Hx in Hok..|done].
Qed.

Lemma inv_run_first E F loc k r l :
  inv E F loc k → queues k QReady = r :: l → currp k ∈ F → r ∉ F →
  inv E F (upd loc r None) (do_run_first r l k).
Proof.
  intros H Eq Hc Hr. destruct (ready_facts _ _ _ _ _ _ H Eq Hr) as (_ & Hno & _ & _ & Hrg).
  apply (inv_unready _ _ _ _ r l) in H; [|done..].
  apply (inv_currp _ _ _ _ r) in H; [|by right|by left].
  apply (inv_thread _ _ _ _ r CURRENT) in H; [|by left|by right; right].
  eapply inv_settle; [exact H|]. intros t [->|Ht]%elem_of_cons; [|by left]. right.
  rewrite upd_eq. cbn. rewrite upd_eq. split_and!; try done; [by left| |by right].
  intros x Hx. by apply Hno in Hx.
Qed.

(** A thread in state [READY] is linked in the ready list. *)
Lemma ready_queued k t : kinv k → p_state (thd k t) = READY → t ∈ queues k QReady.
Proof.
  intros [loc H] Hr. apply (q_loc _ _ _ _ (i_q _ _ _ _ _ H)).
  pose proof (q_ok _ _ _ _ (i_q _ _ _ _ _ H) t ltac:(apply not_elem_of_nil)) as Hq.
  destruct (loc t) as [[]|]; cbn in Hq; unfold in_none in Hq; rewrite Hr in Hq; naive_solver.
Qed.

(** The running thread: in no queue, not suspended, registered. *)
Lemma current_facts E F loc k :
  inv E F loc k → currp k ∉ F →
  p_state (thd k (currp k)) = CURRENT ∧ loc (currp k) = None
  ∧ (∀ x, trefs k x ≠ Some (currp k)) ∧ currp k ∈ registry k.
Proof.
  intros [Hq _ _ Hrf _ Hg] Hc. pose proof (q_cur _ _ _ _ Hq Hc) as Hcur.
  pose proof (q_ok _ _ _ _ Hq _ Hc) as Hok. split_and!; [done|..].
  - destruct (loc (currp k)) as [q|]; [|done]. destruct q; cbn in Hok; rewrite Hcur in Hok; naive_solver.
  - intros x Hx. destruct (Hrf _ _ Hx Hc) as [? _]. congruence.
  - destruct (Hg _ Hc) as [?|[?|]]; [congruence..|done].
Qed.

(** ** What it does to the others *)

Lemma evolve_run_first me k r l :
  p_state (thd k r) = READY → evolve me k (do_run_first r l k).
Proof.
  intros Hr x Hx. unfold do_run_first. unfold evolves, armed. cbn.
  unfold upd. destruct (decide (x = r)) as [->|Hne].
  - split_and!; try done. 2: { intros Ha. exfalso. apply Ha. by left. }
    intros _. split; [by right|done].
  - split_and!; try done. by left.
Qed.

(** Changes to [me] alone, and to the ready list. *)
Lemma evolve_self me k k' :
  (∀ t, t ≠ me → thd k' t = thd k t) → (∀ q, q ≠ QReady → queues k' q = queues k q) →
  m_owner k' = m_owner k → k_vtl k' = k_vtl k → evolve me k k'.
Proof.
  intros H1 H2 H3 H4 t Ht. unfold evolves, armed. rewrite H1, H2, H3, H4 by done.
  split_and!; try done. by left.
Qed.

(** ** Sleeping *)

Lemma safe_sleep me (Q : kernel → unit → kernel → Prop) k0 k loc st :
  inv [] [me] loc k → currp k = me → me ≠ idle → st ≠ CURRENT → st ≠ READY →
  loc_ok (loc me) (t_state st (thd k me)) →
  (armed k me → timed st = true) →
  (∀ r, trefs k r = Some me → st = SUSPENDED ∧ p_u (thd k me) = WtTrp r) →
  st = FINAL ∨ me ∈ registry k →
  evolve me k0 k →
  (∀ k1 k', p_state (thd k1 me) = st → p_u (thd k1 me) = p_u (thd k me) → (armed k1 me → armed k me) →
     resumable idle me k1 k' → Q k' tt k') →
  safe me Q k0 (chSchGoSleepS st k).
Proof.
  intros H Hc Hi H1 H2 Hl Ha Hr Hg He Hf. unfold chSchGoSleepS. apply safe_self. rewrite Hc. eapply safe_iclass; [reflexivity|].
  set (k1 := set_thread me (t_state st) k).
  assert (inv [] [me] loc k1) as I1 by (apply inv_thread; [done|by left|by left]).
  destruct (qinv_ready idle [me] loc k1) as (r & l & Eq); [apply I1|by intros ->%list_elem_of_singleton|cbn; congruence|].
  assert (r ≠ me) as Hrm.
  { intros ->. assert (loc me = Some QReady) as E by (apply (q_loc _ _ _ _ (i_q _ _ _ _ _ H)); cbn in Eq; rewrite Eq; by left).
    rewrite E in Hl. cbn in Hl. done. }
  assert (r ∉ [me]) as Hrn by (by rewrite list_elem_of_singleton).
  destruct (ready_facts _ _ _ _ _ _ I1 Eq Hrn) as (Hst & _).
  eapply safe_iclass; [by apply run_first_eq|]. set (k2 := do_run_first r l k1).
  assert (thd k2 me = t_state st (thd k me)) as E2 by (unfold k2, k1; cbn; rewrite upd_ne by done; by rewrite upd_eq).
  assert (inv [] [me] (upd loc r None) k2) as I2 by (apply inv_run_first; try done; rewrite list_elem_of_singleton; done).
  split.
  - split.
    + eexists. eapply inv_settle; [exact I2|]. intros t ->%list_elem_of_singleton. right.
      rewrite upd_ne, E2 by done. split_and!; try done. intros Hm. right. by apply Ha.
    + eapply evolve_trans; [exact He|]. eapply (evolve_trans _ _ k1); [|by apply evolve_run_first].
      apply evolve_self; try done. intros t Ht. unfold k1. by rewrite thd_set_thread, decide_False.
    + done.
    + by rewrite E2.
  - intros k' Hk'. apply (Hf k2 k'); try done; by rewrite E2.
Qed.

(** ** Being preempted *)

(** The current thread is made ready behind or ahead of its equals. *)
Lemma inv_preempted me loc k r l stop :
  inv [] [] loc k → currp k = me → queues k QReady = r :: l →
  (∀ c, stop c = true → prio_of k c <= prio_of k me) → (∀ c, stop c = false → prio_of k me <= prio_of k c) →
  let k1 := do_run_first r l k in
  let k2 := set_thread me (t_state READY) k1 in
  let k3 := set_queue QReady (link_before stop me (queues k2 QReady)) k2 in
  r ≠ me ∧ kinv k3 ∧ evolve me k k3 ∧ currp k3 = r ∧ thd k3 me = t_state READY (thd k me) ∧ k_vtl k3 = k_vtl k.
Proof.
  intros H Hc Eq Hs1 Hs2 k1 k2 k3.
  destruct (ready_facts _ _ _ _ _ _ H Eq ltac:(apply not_elem_of_nil)) as (Hst & Hno & Hrc & Hlr & _).
  assert (r ≠ me) as Hrm by congruence.
  assert (r ∉ [me]) as Hrn by (by rewrite list_elem_of_singleton).
  destruct (current_facts _ _ _ _ H ltac:(apply not_elem_of_nil)) as (Hcur & Hlm & Hnm & Hgm). rewrite Hc in *.
  apply (inv_weaken _ [me]) in H.
  assert (inv [] [me] (upd loc r None) k1) as I1 by (apply inv_run_first; try done; rewrite Hc; by left).
  assert (inv [] [me] (upd loc r None) k2) as I2 by (apply inv_thread; [done|by left|by right; left]).
  assert (thd k2 me = t_state READY (thd k me)) as E2 by (unfold k2, k1; cbn; by rewrite upd_eq, upd_ne).
  assert (∀ x, prio_of k2 x = prio_of k x) as Hp.
  { intros x. unfold k2. rewrite prio_set_thread by done. unfold k1, do_run_first. by rewrite prio_set_thread. }
  assert (inv [] [me] (upd (upd loc r None) me (Some QReady)) k3) as I3.
  { eapply inv_place_ready; [exact I2|]. apply (qinv_place idle [me] (upd loc r None) k2 _ me QReady); try done.
    - apply I2.
    - by rewrite upd_ne.
    - rewrite queues_set_queue, decide_True by done. apply link_before_perm.
    - intros q' Hq'. by rewrite queues_set_queue, decide_False.
    - intros _. rewrite queues_set_queue, decide_True by done. apply link_before_sorted.
      + intros c _. rewrite !Hp. destruct (stop c) eqn:Ec; auto.
      + by apply (q_sorted _ _ _ _ (i_q _ _ _ _ _ I2)).
    - intros Hn. exfalso. apply Hn. by left. }
  split_and!; try done.
  - eexists. eapply inv_settle; [exact I3|]. intros t ->%list_elem_of_singleton. right.
    change (thd k3) with (thd k2). rewrite upd_eq, E2. cbn. split_and!; try done; [by right| |by right].
    intros x Hx. by apply Hnm in Hx.
  - eapply (evolve_trans _ _ k1); [by apply evolve_run_first|]. apply evolve_self; try done.
    + intros t Ht. change (thd k3) with (thd k2). unfold k2. by rewrite thd_set_thread, decide_False.
    + intros q Hq'. unfold k3. by rewrite queues_set_queue, decide_False.
Qed.

Lemma firstprio_above k p : 0 <= p → p < firstprio k → ∃ r l, queues k QReady = r :: l.
Proof. unfold firstprio, NOPRIO. destruct (queues k QReady); [lia|eauto]. Qed.

Definition after (me : nat) (k k1 k' : kernel) : Prop :=
  kinv k' ∧ currp k' = me ∧ evolve me k1 k' ∧ (armed k' me → armed k me).

Lemma after_resumed me k k3 k' :
  resumable idle me k3 k' → k_vtl k3 = k_vtl k → after me k k' k'.
Proof.
  intros [? ? _ Ha] E. split_and!; try done; [apply evolve_refl|]. intros H%Ha. unfold armed in *. by rewrite <-E.
Qed.

Lemma safe_ahead me (Q : kernel → unit → kernel → Prop) k0 k loc r l :
  inv [] [] loc k → currp k = me → evolve me k0 k → queues k QReady = r :: l →
  (∀ k1 k', after me k k1 k' → Q k1 tt k') →
  safe me Q k0 (chSchDoRescheduleAhead k).
Proof.
  intros H Hc He Eq Hf. unfold chSchDoRescheduleAhead.
  destruct (inv_preempted me loc k r l (λ cp, prio_of (set_thread me (t_state READY) (do_run_first r l k)) cp <=? prio_of (set_thread me (t_state READY) (do_run_first r l k)) me) H Hc Eq)
    as (Hr & Hk & He' & Hc' & Hm & Hv).
  { intros c. rewrite !prio_set_thread by done. unfold do_run_first. rewrite !prio_set_thread by done.
    intros ?%Z.leb_le. done. }
  { intros c. rewrite !prio_set_thread by done. unfold do_run_first. rewrite !prio_set_thread by done.
    intros ?%Z.leb_gt. unfold prio_of in *. cbn in *. lia. }
  apply safe_self. rewrite Hc.
  eapply safe_iclass; [by apply run_first_eq|]. eapply safe_iclass; [reflexivity|]. eapply safe_iclass; [reflexivity|].
  cbn [chSysSwitch]. split.
  - split; try done. 2: { by rewrite Hm. } by eapply evolve_trans.
  - intros k' Hk'. apply Hf. by apply (after_resumed _ _ _ _ Hk').
Qed.

Lemma after_refl me k k0 : kinv k → currp k = me → evolve me k0 k → after me k k0 k.
Proof. done. Qed.

Lemma safe_resched me (Q : kernel → unit → kernel → Prop) k0 k :
  kinv k → currp k = me → evolve me k0 k →
  (∀ k1 k', after me k k1 k' → Q k1 tt k') → safe me Q k0 (chSchRescheduleS k).
Proof.
  intros [loc H] Hc He Hf. unfold chSchRescheduleS. eapply safe_iclass; [reflexivity|].
  destruct (Z.ltb_spec (prio_of k (currp k)) (firstprio k)) as [L|L]; cbn [kwhen].
  - pose proof (q_prio _ _ _ _ (i_q _ _ _ _ _ H) (currp k)) as Hp.
    destruct (firstprio_above k (prio_of k (currp k))) as (r & l & Eq); [lia|done|].
    by apply (safe_ahead me Q k0 k loc r l).
  - apply Hf. split_and!; try done. by exists loc.
Qed.

Lemma safe_yield me (Q : kernel → unit → kernel → Prop) k0 k :
  kinv k → currp k = me → evolve me k0 k →
  (∀ k1 k', after me k k1 k' → Q k1 tt k') → safe me Q k0 (chSchDoYieldS k).
Proof.
  intros [loc H] Hc He Hf. unfold chSchDoYieldS. eapply safe_iclass; [reflexivity|].
  pose proof (q_prio _ _ _ _ (i_q _ _ _ _ _ H) (currp k)) as Hp0.
  destruct (Z.leb_spec (prio_of k (currp k)) (firstprio k)) as [L|L]; cbn [kwhen].
  2: { apply Hf. split_and!; try done. by exists loc. }
  destruct (firstprio_above k 0) as (r & l & Eq); [lia..|].
  destruct (inv_preempted me loc k r l
    (λ cp, prio_of (set_thread me (t_state READY) (do_run_first r l k)) cp
           <? prio_of (set_thread me (t_state READY) (do_run_first r l k)) me) H Hc Eq)
    as (Hr & Hk & He' & Hc' & Hm & Hv).
  { intros c. rewrite !prio_set_thread by done. unfold do_run_first. rewrite !prio_set_thread by done.
    intros ?%Z.ltb_lt. unfold prio_of in *. cbn in *. lia. }
  { intros c. rewrite !prio_set_thread by done. unfold do_run_first. rewrite !prio_set_thread by done.
    intros ?%Z.ltb_ge. unfold prio_of in *. cbn in *. lia. }
  unfold chSchDoRescheduleBehind. apply safe_self. rewrite Hc.
  eapply safe_iclass; [by apply run_first_eq|].
  eapply safe_iclass; [apply chSchReadyI_eq; unfold do_run_first; rewrite prio_set_thread by done; apply H|].
  split.
  - split; try done. 2: { intros E. by pose proof (eq_trans (eq_sym (f_equal p_state Hm)) E). } by eapply evolve_trans.
  - intros k' Hk'. apply Hf. by apply (after_resumed _ _ _ _ Hk').
Qed.

(** ** Waking another thread *)

Lemma woken_after k t u : woken t u k (do_ready t (set_thread t (t_u u) k)).
Proof.
  unfold do_ready. split; try done.
  - cbn. by rewrite !upd_eq.
  - intros t' Hn. cbn. by rewrite !upd_ne.
  - intros q Hn. cbn. by rewrite upd_ne.
  - unfold same_rest. by destruct k.
Qed.

(** A thread taken out of its queue, to be made ready. *)
Record movable (loc : nat → option qid) (k : kernel) (t : nat) : Prop := {
  mv_cur : t ≠ currp k;
  mv_idle : t ≠ idle;
  mv_loc : loc t = None;
  mv_ref r : trefs k r ≠ Some t;
  mv_reg : t ∈ registry k;
  mv_asleep : ¬ awake (thd k t);
  mv_msg : p_state (thd k t) ≠ WTMSG;
  mv_mtx : p_state (thd k t) ≠ WTMTX
}.

Lemma safe_wakeup me (Q : kernel → unit → kernel → Prop) k0 k loc t msg :
  inv [] [t] loc k → currp k = me → movable loc k t → evolve me k0 k →
  (∀ k1 k', after me k k1 k' → Q k1 tt k') → safe me Q k0 (chSchWakeupS t msg k).
Proof.
  intros H Hc [Ht Hi Hl Hno Hrg Ha H1 H2] He Hf. rewrite Hc in Ht. unfold chSchWakeupS. eapply safe_iclass; [reflexivity|].
  set (k1 := set_thread t (t_u (RdyMsg msg)) k). eapply safe_iclass; [reflexivity|].
  destruct (Z.leb_spec (prio_of k1 t) (prio_of k1 (currp k1))) as [L|L].
  - destruct (wake_set_ready idle [] [t] loc k t (RdyMsg msg)) as (k' & E & I' & W);
      [done|by left|by rewrite Hc|done|done|done|].
    rewrite (fw_bind_ok _ _ _ _ _ eq_refl) in E. fold k1 in E.
    apply fw_bind_Ok in E as (t' & k2 & E & E'). injection E' as <-.
    eapply safe_iclass; [exact E|]. apply Hf. split_and!.
    + exists (upd loc t (Some QReady)). by rewrite filter_cons_False, filter_nil in I' by (intros Hx; by apply Hx).
    + destruct W as [_ _ _ Hr]. by rewrite (rest_currp _ _ Hr).
    + eapply evolve_trans; [exact He|]. by eapply evolve_woken.
    + destruct W as [_ _ _ Hr]. unfold armed. by rewrite (rest_vtl _ _ Hr).
  - assert (currp k ∉ [t]) as Hm by (rewrite list_elem_of_singleton; congruence).
    destruct (current_facts _ _ _ _ H Hm) as (Hcur & Hlm & Hnm & Hgm). rewrite Hc in *.
    assert (inv [] [t] loc k1) as I1 by (apply inv_thread_u; [done|by left]).
    assert (inv [] [me; t] loc k1) as I1'.
    { eapply inv_settle; [exact I1|]. intros x ->%list_elem_of_singleton. left. right; left. }
    apply safe_self. change (currp k1) with (currp k). rewrite Hc.
    eapply safe_iclass; [apply chSchReadyI_eq, I1|]. eapply safe_iclass; [reflexivity|]. eapply safe_iclass; [reflexivity|].
    set (k2 := do_ready me k1). set (k4 := set_thread t (t_state CURRENT) (k_set_currp t k2)).
    assert (inv [] [me; t] (upd loc me (Some QReady)) k4) as I4.
    { apply inv_thread; [apply inv_currp; [apply inv_ready_keep; [done|by left|done]|cbn; rewrite Hc; by left|right; left]|right; left|by right; right]. }
    assert (thd k4 me = t_state READY (thd k me)) as Em.
    { unfold k4. cbn. rewrite upd_ne by done. unfold k2, k1. cbn. rewrite upd_eq. by rewrite upd_ne. }
    assert (thd k4 t = t_state CURRENT (t_u (RdyMsg msg) (thd k t))) as Et.
    { unfold k4. cbn. rewrite upd_eq. unfold k2, k1. cbn. rewrite upd_ne by done. by rewrite upd_eq. }
    split; [split|].
    + exists (upd loc me (Some QReady)). eapply inv_settle; [exact I4|].
      intros x [Hx|Hx%list_elem_of_singleton]%elem_of_cons; subst x; right.
      * rewrite upd_eq, Em. cbn. split_and!; try done; [by right| |by right]. intros r Hr. by apply Hnm in Hr.
      * rewrite upd_ne, Et, Hl by done. cbn. split_and!; try done; [by left| |by right]. intros r Hr. by apply Hno in Hr.
    + eapply evolve_trans; [exact He|]. intros x Hx.
      destruct (decide (x = t)) as [->|Hxt].
      * split_and!; try done. intros _. right. split; [right; by rewrite Et|]. apply know_wst. split_and!; try done.
        intros _. exists msg. by rewrite Et.
      * assert (thd k4 x = thd k x) as Ex.
        { unfold k4. cbn. rewrite upd_ne by done. unfold k2, k1. cbn. by rewrite !upd_ne. }
        unfold evolves. rewrite Ex. split_and!; try done. by left.
    + exact Ht.
    + intros E. by pose proof (eq_trans (eq_sym (f_equal p_state Em)) E).
    + intros k' Hk'. apply Hf. by apply (after_resumed _ k _ _ Hk').
Qed.

(** ** Sleeping with a time limit *)

Lemma NoDup_fmap_filter {A B} (f : A → B) P `{∀ x, Decision (P x)} (l : list A) :
  NoDup (f <$> l) → NoDup (f <$> filter P l).
Proof.
  induction l as [|x l IH]; [done|]. rewrite fmap_cons. intros [Hx Hl]%NoDup_cons.
  destruct (decide (P x)); [rewrite filter_cons_True by done|rewrite filter_cons_False by done; auto].
  rewrite fmap_cons. constructor; [|auto]. intros (y & E & [_ Hy]%list_elem_of_filter)%list_elem_of_fmap.
  apply Hx, list_elem_of_fmap. eauto.
Qed.

Lemma sig_ids (l : list virtual_timer) : (λ s : nat * nat * nat, s.1.1) <$> (vt_sig <$> l) = vt_id <$> l.
Proof. by rewrite <-list_fmap_compose. Qed.

Lemma armed_sig k t : armed k t ↔ t ∈ (λ s : nat * nat * nat, s.1.1) <$> (vt_sig <$> vt_list (k_vtl k)).
Proof. unfold armed. by rewrite sig_ids. Qed.

Lemma tinv_sig F k' (sigs : list (nat * nat * nat)) :
  (vt_sig <$> vt_list (k_vtl k')) ≡ₚ sigs →
  (∀ t, t ∈ (λ s : nat * nat * nat, s.1.1) <$> sigs → t ∉ F → t = currp k' ∨ timed (p_state (thd k' t)) = true) →
  Forall (λ s : nat * nat * nat, s.1.2 = WAKEUP ∧ s.2 = s.1.1) sigs →
  NoDup ((λ s : nat * nat * nat, s.1.1) <$> sigs) → deltas_ok (vt_list (k_vtl k')) → tinv F k'.
Proof.
  intros Hp H1 H2 H3 H4. split; [..|done].
  - intros t Ha. apply H1. rewrite <-Hp. by apply armed_sig.
  - rewrite <-Hp in H2. by rewrite Forall_fmap in H2.
  - rewrite <-Hp in H3. by rewrite <-list_fmap_compose in H3.
Qed.

Lemma inv_vtl E F loc k v : inv E F loc k → tinv F (k_set_vtl v k) → inv E F loc (k_set_vtl v k).
Proof. by intros [[] Hs _ Hr [] Hg] Ht. Qed.

(** The timer of the running thread, armed before it sleeps. *)
Lemma inv_arm me loc k time :
  inv [] [me] loc k → ¬ armed k me → 0 <= time < 2 ^ 32 →
  inv [] [me] loc (k_set_vtl (do_set {| vt_id := me; vt_delta := 0; vt_func := WAKEUP; vt_par := me |} (k_now k) time (k_vtl k)) k).
Proof.
  intros H Ha Htm. apply inv_vtl; [done|]. pose proof H as [_ _ [T1 T2 T3 T4] _ _ _].
  eapply (tinv_sig _); [apply do_set_sig|..].
  - intros t [->|Ht]%elem_of_cons Hn; [by rewrite list_elem_of_singleton in Hn|].
    apply T1; [by apply armed_sig|done].
  - constructor; [done|]. by rewrite Forall_fmap.
  - rewrite fmap_cons, sig_ids. constructor; [|done]. by apply Ha.
  - by apply do_set_deltas.
Qed.

Lemma inv_disarm k t now :
  kinv k → kinv (k_set_vtl (do_reset t now (k_vtl k)) k)
           ∧ (∀ x, armed (k_set_vtl (do_reset t now (k_vtl k)) k) x ↔ armed k x ∧ x ≠ t).
Proof.
  intros [loc H]. pose proof H as [_ _ [T1 T2 T3 T4] _ _ _]. pose proof (do_reset_sig t now _ T3) as Es.
  assert (NoDup ((λ s : nat * nat * nat, s.1.1) <$> (vt_sig <$> vt_list (k_vtl k)))) as Hnd by by rewrite sig_ids.
  assert (∀ x, armed (k_set_vtl (do_reset t now (k_vtl k)) k) x ↔ armed k x ∧ x ≠ t) as Hx.
  { intros x. rewrite !armed_sig. cbn [k_vtl k_set_vtl]. rewrite Es. split.
    - intros ([[i f] p] & -> & [Hi Hs]%list_elem_of_filter)%list_elem_of_fmap. split; [|done].
      apply list_elem_of_fmap. eauto.
    - intros [([[i f] p] & -> & Hs)%list_elem_of_fmap Hn]. apply list_elem_of_fmap. exists (i, f, p).
      split; [done|]. by apply list_elem_of_filter. }
  split; [|done]. exists loc. apply inv_vtl; [done|]. eapply (tinv_sig _); [cbn; by rewrite Es|..].
  - intros x Hin Hn. assert (armed k x) as Ha.
    { apply list_elem_of_fmap in Hin as (s & -> & [_ Hs]%list_elem_of_filter). apply armed_sig, list_elem_of_fmap. eauto. }
    by apply T1.
  - apply Forall_forall. intros s [_ Hs]%list_elem_of_filter. revert s Hs. apply Forall_forall. by rewrite Forall_fmap.
  - by apply NoDup_fmap_filter.
  - by apply do_reset_deltas.
Qed.

End ops.
End KOps.
