(* ===== verification/KWake.v ===== *)
(** * Safe operations that do not switch context

    Taking a thread out of its queue and making it ready, and the operations of
    interrupt handlers built on it: each succeeds from every state of the
    invariant, keeps it, and changes no other thread but by waking it with what
    it waits for. *)

From S2P Require Import Prelude SysTime Fw VTimers Memory Kernel Sync Threads Events Sched KInv KOps.
From stdpp Require Import list.
Import SysTime VTimers Kernel Sem Cond Threads Events Sched KInv KOps.
#[local] Open Scope Z_scope.

Module KWake.
Section wake.
Variable idle : nat.
Notation inv := (inv idle).
Notation kinv := (kinv idle).
Notation safe := (safe idle).
Notation movable := (movable idle).

(** ** Changing the queues and the counters *)

(** The same threads, in other queues, with other counters and references. *)
Record same_but_queues (k k' : kernel) : Prop := {
  sb_thd : thd k' = thd k;
  sb_cur : currp k' = currp k;
  sb_own : m_owner k' = m_owner k;
  sb_reg : registry k' = registry k;
  sb_vtl : k_vtl k' = k_vtl k
}.

Lemma inv_put E E' F F' loc loc' k k' :
  inv E F loc k → qinv idle F' loc' k' → same_but_queues k k' → sinv E' k' → F ⊆ F' →
  (∀ m, queues k' (QMtx m) ≠ [] → m_owner k m ≠ None) →
  (∀ r t, trefs k' r = Some t → t ∉ F' → trefs k r = Some t ∧ t ∉ F) → inv E' F' loc' k'.
Proof.
  intros [Hq Hs [T1 T2 T3 T4] Hr [M1 M2 M3 M4 M5] Hg] Hq' [S1 S2 S3 S4 S5] Hs' HF Hm Hr'. unfold armed in *.
  split; [done|done|split|intros r t|split|intros t]; unfold armed; rewrite ?S1, ?S2, ?S3, ?S4, ?S5; auto.
  intros Hx Hn. apply Hr' in Hx as [? ?]; auto.
Qed.

Lemma inv_sinv E E' F loc k : inv E F loc k → sinv E' k → inv E' F loc k.
Proof. by intros [] ?. Qed.

Lemma qinv_cnt F loc n c k : qinv idle F loc k → qinv idle F loc (set_cnt n c k).
Proof. by intros []. Qed.

Lemma inv_cnt E E' F loc k n c : inv E F loc k → sinv E' (set_cnt n c k) → inv E' F loc (set_cnt n c k).
Proof.
  intros H Hs. apply (inv_put E _ F _ loc _ k); try done; [by apply qinv_cnt, H|intros m; by apply H].
Qed.

Lemma inv_tref E F loc k r o :
  inv E F loc k → (∀ t, o = Some t → t ∈ F) → inv E F loc (set_tref r o k).
Proof.
  intros H Ho. apply (inv_put E _ F _ loc _ k); try done; [by destruct H as [[]]|by destruct H|intros m; by apply H|].
  intros r' t Ht Hn. split; [|done]. cbn in Ht. unfold upd in Ht. case_decide; [|done]. by apply Ho in Ht.
Qed.

(** A thread leaves its queue. *)
Lemma inv_unplace E E' loc k Q t q :
  inv E [] loc k → t :: Q q ≡ₚ queues k q → (∀ q', q' ≠ q → Q q' = queues k q') →
  (prio_queue q → by_prio (prio_of k) (Q q)) → sinv E' (k_set_queues Q k) →
  inv E' [t] (upd loc t None) (k_set_queues Q k).
Proof.
  intros H Hp Ho Hs Hs'. eapply (inv_put E); [exact H|eapply qinv_unplace; [apply H|done..]|done|done|by intros x ?%elem_of_nil| |].
  - intros m. cbn. destruct (decide (QMtx m = q)) as [<-|Hn]; [|rewrite Ho by done; by apply H].
    intros Hx. apply (m_wait _ (i_m _ _ _ _ _ H)). intros Hy. rewrite Hy in Hp. by apply Permutation_nil_r in Hp.
  - intros r x Hx _. split; [done|apply not_elem_of_nil].
Qed.

Lemma inv_unlink E E' loc k Q t q :
  inv E [] loc k → q ≠ QReady → t :: Q q ≡ₚ queues k q → (∀ q', q' ≠ q → Q q' = queues k q') →
  (prio_queue q → by_prio (prio_of k) (Q q)) → sinv E' (k_set_queues Q k) →
  inv E' [t] (upd loc t None) (k_set_queues Q k)
  ∧ t ≠ currp k ∧ t ≠ idle ∧ (∀ r, trefs k r ≠ Some t) ∧ t ∈ registry k ∧ in_queue q (thd k t) ∧ ¬ awake (thd k t).
Proof.
  intros H Hq Hp Ho Hs Hs'. pose proof H as [Hqi _ _ Hrf _ Hg].
  assert (loc t = Some q) as Hl by (apply (q_loc _ _ _ _ Hqi); rewrite <-Hp; by left).
  pose proof (q_ok _ _ _ _ Hqi t ltac:(apply not_elem_of_nil)) as Hok. rewrite Hl in Hok. cbn in Hok.
  assert (¬ awake (thd k t)) as Ha by (intros [Hx|Hx]; destruct q; cbn in Hok; rewrite Hx in Hok; naive_solver).
  split_and!; try done.
  - by apply (inv_unplace E _ _ _ _ _ q).
  - intros ->. apply Ha. right. apply (q_cur _ _ _ _ Hqi), not_elem_of_nil.
  - intros ->. apply Ha. apply Hqi.
  - intros r Hx. destruct (Hrf r t Hx ltac:(apply not_elem_of_nil)) as [Hy _].
    destruct q; cbn in Hok; rewrite Hy in Hok; naive_solver.
  - destruct (Hg t ltac:(apply not_elem_of_nil)) as [Hy|[Hy|]]; [..|done];
      destruct q; cbn in Hok; rewrite Hy in Hok; naive_solver.
Qed.

(** Queues whose threads wait for a message. *)
Definition msg_queue (q : qid) : Prop :=
  match q with QReady | QMtx _ | QMsg _ => False | _ => True end.

Lemma inv_take E E' loc k Q t q :
  inv E [] loc k → msg_queue q → t :: Q q ≡ₚ queues k q → (∀ q', q' ≠ q → Q q' = queues k q') →
  (prio_queue q → by_prio (prio_of k) (Q q)) → sinv E' (k_set_queues Q k) →
  inv E' [t] (upd loc t None) (k_set_queues Q k) ∧ movable (upd loc t None) (k_set_queues Q k) t.
Proof.
  intros H Hq Hp Ho Hs Hs'.
  destruct (inv_unlink E E' loc k Q t q) as (I' & ? & ? & ? & ? & Hin & ?); try done.
  - by intros ->.
  - split; [done|]. split; try done; [by rewrite upd_eq|..];
      destruct q; cbn in Hin |- *; naive_solver congruence.
Qed.

Lemma inv_pop E E' loc k t q l :
  inv E [] loc k → msg_queue q → t :: l ≡ₚ queues k q → (prio_queue q → by_prio (prio_of k) l) →
  sinv E' (set_queue q l k) →
  inv E' [t] (upd loc t None) (set_queue q l k) ∧ movable (upd loc t None) (set_queue q l k) t.
Proof.
  intros H Hq Hp Hs Hs'. apply (inv_take E E' loc k (upd (queues k) q l) t q); try done.
  - by rewrite upd_eq.
  - intros q' Hn. by rewrite upd_ne.
  - by rewrite upd_eq.
Qed.

(** ** What an operation that does not switch promises *)

Record ipost (k k' : kernel) : Prop := {
  ip_evolve me : evolve me k k';
  ip_cur : currp k' = currp k;
  ip_vtl : k_vtl k' = k_vtl k;
  ip_now : k_now k' = k_now k;
  ip_own : m_owner k' = m_owner k
}.

Lemma ipost_refl k : ipost k k.
Proof. split; [intros; apply evolve_refl|done..]. Qed.

Lemma ipost_trans k1 k2 k3 : ipost k1 k2 → ipost k2 k3 → ipost k1 k3.
Proof. intros [] []. split; [|congruence..]. intros. by eapply evolve_trans. Qed.

(** Neither the threads nor the queues of messages change. *)
Lemma ipost_same k k' :
  (∀ t, awake (thd k' t) ↔ awake (thd k t)) → (∀ t, wst (thd k' t) = wst (thd k t) ∧ p_u (thd k' t) = p_u (thd k t)) →
  (∀ t, queues k (QMsg t) ≠ [] → queues k' (QMsg t) ≠ []) → m_owner k' = m_owner k →
  k_vtl k' = k_vtl k → currp k' = currp k → k_now k' = k_now k → ipost k k'.
Proof.
  intros H1 H2 H3 H4 H5 H6 H7. split; [|done..]. intros me t _. unfold evolves, armed. rewrite H4, H5.
  destruct (H2 t). split_and!; auto. intros Ha. split; [by apply H1|done].
Qed.

Lemma ipost_pop k q l : msg_queue q → ipost k (set_queue q l k).
Proof.
  intros Hq. apply ipost_same; try done. intros t. cbn. rewrite upd_ne by (intros <-; done). done.
Qed.

(** Making it ready with a message, in the two orders of the code. *)
Definition set_ready (t : nat) (m : Z) : fw kernel unit := thd_set t (t_u (RdyMsg m));; chSchReadyI t;; ret tt.

Record woke (E : list nat) (t : nat) (m : Z) (k k' : kernel) : Prop := {
  wo_inv : ∃ loc, inv E [] loc k';
  wo_post : ipost k k';
  wo_woken : woken t (RdyMsg m) k k'
}.

Lemma woke_intro E loc k k' t m :
  movable loc k t → inv E (filter (λ x, x ≠ t) [t]) (upd loc t (Some QReady)) k' → woken t (RdyMsg m) k k' →
  woke E t m k k'.
Proof.
  intros M H W. split; [|split|done].
  - exists (upd loc t (Some QReady)). by rewrite filter_cons_False, filter_nil in H by (intros Hx; by apply Hx).
  - intros me. apply (evolve_woken me k k' t m); try apply M. done.
  - apply (rest_currp _ _ (wk_r _ _ _ _ W)).
  - apply (rest_vtl _ _ (wk_r _ _ _ _ W)).
  - by pose proof (f_equal k_now (wk_r _ _ _ _ W)).
  - apply (rest_owner _ _ (wk_r _ _ _ _ W)).
Qed.

Lemma set_ready_ok E loc k t m :
  inv E [t] loc k → movable loc k t → ∃ k', set_ready t m k = Ok (tt, k') ∧ woke E t m k k'.
Proof.
  intros H M. destruct (wake_set_ready idle E [t] loc k t (RdyMsg m)) as (k' & Eq & I' & W); try apply M; [done|by left|].
  exists k'. split; [done|]. by apply (woke_intro _ loc).
Qed.

Lemma ready_with_ok E loc k t m :
  inv E [t] loc k → movable loc k t → ∃ k', ready_with t m k = Ok (tt, k') ∧ woke E t m k k'.
Proof.
  intros H M. destruct (wake_ready_with idle E [t] loc k t m) as (k' & Eq & I' & W); try apply M; [done|by left|].
  exists k'. split; [done|]. by apply (woke_intro _ loc).
Qed.

(** ** Semaphores *)

Lemma sinv_cnt E k n c : sinv E k → sinv (n :: E) (set_cnt n c k).
Proof. intros H n' [Hn Hn']%not_elem_of_cons. cbn. rewrite upd_ne by done. by apply H. Qed.

Lemma sinv_queue E k q l : (∀ n, q ≠ QSem n) → sinv E k → sinv E (set_queue q l k).
Proof. intros Hq H n Hn. cbn. rewrite upd_ne by (by intros <-; apply (Hq n)). by apply H. Qed.

(** The counter of one semaphore and its queue, brought into agreement. *)
Lemma sinv_close E k n :
  sinv (n :: E) k → Z.of_nat (length (queues k (QSem n))) = Z.max 0 (- s_cnt k n) → sinv E k.
Proof.
  intros H He n' Hn'. destruct (decide (n' = n)) as [->|Hn]; [done|]. apply H. by apply not_elem_of_cons.
Qed.

(** Room to count up and down. *)
Definition count_ok (k : kernel) (n : nat) : Prop := INT32_MIN < s_cnt k n < INT32_MAX.

Lemma inc_counter_eq k n :
  count_ok k n → inc_counter n k = Ok (s_cnt k n + 1, set_cnt n (s_cnt k n + 1) k).
Proof.
  intros Hc. unfold inc_counter. fw_pure. unfold lift. rewrite fw_bind_eq, chk_s32_ok; [done|].
  unfold count_ok in Hc. lia.
Qed.

Lemma dec_counter_eq k n :
  count_ok k n → dec_counter n k = Ok (s_cnt k n - 1, set_cnt n (s_cnt k n - 1) k).
Proof.
  intros Hc. unfold dec_counter. fw_pure. unfold lift. rewrite fw_bind_eq, chk_s32_ok; [done|].
  unfold count_ok in Hc. lia.
Qed.

Lemma fifo_remove_eq k q t l : queues k q = t :: l → queue_fifo_remove q k = Ok (t, set_queue q l k).
Proof. unfold queue_fifo_remove. by intros ->. Qed.

Lemma lifo_remove_eq k q t l :
  reverse (queues k q) = t :: l → queue_lifo_remove q k = Ok (t, set_queue q (reverse l) k).
Proof. unfold queue_lifo_remove. by intros ->. Qed.

(** An operation that succeeds and keeps the invariant. *)
Definition iok {A} (m : fw kernel A) (k : kernel) : Prop := ∃ a k', m k = Ok (a, k') ∧ kinv k' ∧ ipost k k'.

Lemma sem_queue_length k n : kinv k → Z.of_nat (length (queues k (QSem n))) = Z.max 0 (- s_cnt k n).
Proof. intros [loc H]. apply H, not_elem_of_nil. Qed.

(** The counter changed by the call, the waiter taken out to match. *)
Lemma sem_pop loc k n t l c :
  inv [] [] loc k → t :: l ≡ₚ queues k (QSem n) → Z.of_nat (length l) = Z.max 0 (- c) →
  let k' := set_queue (QSem n) l (set_cnt n c k) in
  inv [] [t] (upd loc t None) k' ∧ movable (upd loc t None) k' t ∧ ipost k k'.
Proof.
  intros H Hp Hl k'. assert (inv [n] [] loc (set_cnt n c k)) as I1 by (eapply inv_cnt; [exact H|apply sinv_cnt, H]).
  destruct (inv_pop [n] [] loc (set_cnt n c k) t (QSem n) l) as [I2 M]; try done.
  - apply (sinv_close _ _ n); [|cbn; by rewrite !upd_eq].
    intros n' Hn. cbn. rewrite upd_ne by (intros [= ->]; apply Hn; by left). by apply I1.
  - split_and!; try done. apply (ipost_trans _ (set_cnt n c k)); [by apply ipost_same|by apply ipost_pop].
Qed.

Lemma inv_count_up loc k n :
  inv [] [] loc k → 0 <= s_cnt k n → inv [] [] loc (set_cnt n (s_cnt k n + 1) k).
Proof.
  intros H Hc. eapply inv_cnt; [exact H|]. apply (sinv_close _ _ n); [apply sinv_cnt, H|].
  cbn. rewrite upd_eq. rewrite (sem_queue_length k n) by by exists loc. lia.
Qed.

Lemma sem_waiter loc k n :
  inv [] [] loc k → s_cnt k n < 0 →
  ∃ t l, queues k (QSem n) = t :: l ∧ Z.of_nat (length l) = Z.max 0 (- (s_cnt k n + 1)).
Proof.
  intros H Hc. pose proof (sem_queue_length k n ltac:(by exists loc)) as Hl.
  destruct (queues k (QSem n)) as [|t l]; cbn in Hl; [lia|]. exists t, l. split; [done|]. lia.
Qed.

(** The threads of [ids], and no others, made ready with the message [m]. *)
Definition made_ready (ids : list nat) (m : Z) (k k' : kernel) : Prop :=
  ∀ x, thd k' x = if decide (x ∈ ids) then t_state READY (t_u (RdyMsg m) (thd k x)) else thd k x.

Lemma made_ready_one t m k0 k k' : woken t (RdyMsg m) k k' → thd k = thd k0 → made_ready [t] m k0 k'.
Proof.
  intros [W1 W2 _ _] E x. rewrite <-E. case_decide as Hx; rewrite list_elem_of_singleton in Hx; [by subst|by apply W2].
Qed.

Lemma made_ready_nil m k k' : thd k' = thd k → made_ready [] m k k'.
Proof. intros E x. rewrite E. by rewrite decide_False by apply not_elem_of_nil. Qed.

Lemma made_ready_cons t ids m k k1 k' :
  made_ready [t] m k k1 → made_ready ids m k1 k' → t ∉ ids → ∀ ids', (∀ x, x ∈ ids' ↔ x = t ∨ x ∈ ids) →
  made_ready ids' m k k'.
Proof.
  intros H1 H2 Hn ids' Hi x. rewrite H2, H1. pose proof (list_elem_of_singleton x t). specialize (Hi x).
  repeat case_decide; naive_solver.
Qed.

(** Counted up, the first waiter woken. *)
Definition signalled (m : fw kernel unit) (k : kernel) (n : nat) : Prop :=
  ∃ k', m k = Ok (tt, k') ∧ kinv k' ∧ ipost k k' ∧ s_cnt k' = upd (s_cnt k) n (s_cnt k n + 1)
    ∧ queues k' (QSem n) = tail (queues k (QSem n)) ∧ made_ready (take 1 (queues k (QSem n))) MSG_OK k k'.

Lemma signal_shape (f : nat → fw kernel unit) (m : fw kernel unit) k n :
  kinv k → count_ok k n →
  (∀ E loc k t, inv E [t] loc k → movable loc k t → ∃ k', f t k = Ok (tt, k') ∧ woke E t MSG_OK k k') →
  m k = (c ← inc_counter n; if c <=? 0 then t ← queue_fifo_remove (QSem n); f t else ret tt) k →
  signalled m k n.
Proof.
  intros [loc H] Hc Hf Hg. unfold signalled. rewrite Hg, (fw_bind_ok _ _ _ _ _ (inc_counter_eq k n Hc)).
  destruct (Z.leb_spec (s_cnt k n + 1) 0) as [L|L].
  - destruct (sem_waiter loc k n) as (t & l & Eq & Hl); [done|lia|].
    destruct (sem_pop loc k n t l (s_cnt k n + 1)) as (I & M & P); [done|by rewrite Eq|done|].
    destruct (Hf _ _ _ _ I M) as (k' & E & [I' P' W']). exists k'. split_and!; [|done|by eapply ipost_trans|..].
    + by rewrite (fw_bind_ok _ _ _ _ _ (fifo_remove_eq (set_cnt n (s_cnt k n + 1) k) (QSem n) t l Eq)).
    + by rewrite (rest_cnt _ _ (wk_r _ _ _ _ W')).
    + rewrite (wk_q _ _ _ _ W'), Eq by done. cbn. by rewrite upd_eq.
    + rewrite Eq. by apply (made_ready_one _ _ k _ _ W').
  - pose proof (sem_queue_length k n ltac:(by exists loc)) as Hl.
    assert (queues k (QSem n) = []) as Eq by (apply length_zero_iff_nil; lia).
    eexists. split_and!; [done|exists loc; apply inv_count_up; [done|lia]|by apply ipost_same|done|by cbn; rewrite Eq|].
    rewrite Eq. by apply made_ready_nil.
Qed.

Lemma signal_one_ok n k : kinv k → count_ok k n → signalled (signal_one n) k n.
Proof.
  intros H Hc. apply (signal_shape (λ t, ready_with t MSG_OK) (signal_one n) k n); try done.
  intros. by eapply ready_with_ok.
Qed.

Lemma chSemSignalI_signals n k : kinv k → count_ok k n → signalled (chSemSignalI n) k n.
Proof.
  intros H Hc. apply (signal_shape (λ t, set_ready t MSG_OK) (chSemSignalI n) k n); try done.
  intros. by eapply set_ready_ok.
Qed.

Lemma chSemSignalI_ok n k : kinv k → count_ok k n → iok (chSemSignalI n) k.
Proof. intros H Hc. destruct (chSemSignalI_signals n k H Hc) as (k' & ? & ? & ? & _). by exists tt, k'. Qed.

Lemma chSemAddCounterI_ok n c k :
  kinv k → INT32_MIN < s_cnt k n → s_cnt k n + c <= INT32_MAX → iok (chSemAddCounterI n c) k.
Proof.
  intros H Hlo Hc. unfold chSemAddCounterI. assert (s_cnt k n + Z.of_nat (Z.to_nat c) <= INT32_MAX ∨ Z.to_nat c = O) as Hc' by lia.
  clear Hc. generalize 0%nat. revert k H Hlo Hc'. induction (Z.to_nat c) as [|i IH]; intros k H Hlo Hc' j.
  { exists tt, k. split_and!; [done|done|apply ipost_refl]. }
  destruct (signal_one_ok n k H) as (k1 & E1 & H1 & P1 & C1 & _); [split; lia|].
  destruct (λ a b, IH k1 H1 a b (S j)) as ([] & k' & E' & H' & P').
  - rewrite C1, upd_eq. lia.
  - rewrite C1, upd_eq. lia.
  - exists tt, k'. cbn [for_upto]. rewrite fw_bind_eq, E1. split_and!; [done|done|by eapply ipost_trans].
Qed.

(** Loops that take the threads of a queue out one by one. *)
Lemma reset_loop n k i c :
  (∃ loc, inv [n] [] loc k) → length (queues k (QSem n)) = c →
  ∃ k', for_upto c i (λ _, tp ← queue_lifo_remove (QSem n); ready_with tp MSG_RESET) k = Ok (tt, k')
    ∧ (∃ loc, inv [n] [] loc k') ∧ ipost k k' ∧ queues k' (QSem n) = [] ∧ s_cnt k' = s_cnt k
    ∧ made_ready (queues k (QSem n)) MSG_RESET k k'.
Proof.
  revert k i. induction c as [|c IH]; intros k i [loc H] Hl.
  { apply length_zero_iff_nil in Hl. exists k. split_and!; [done|by exists loc|apply ipost_refl|done|done|].
    rewrite Hl. by apply made_ready_nil. }
  cbn [for_upto].
  destruct (reverse (queues k (QSem n))) as [|t l] eqn:Er.
  { apply (f_equal length) in Er. rewrite length_reverse, Hl in Er. done. }
  assert (t :: reverse l ≡ₚ queues k (QSem n)) as Hp by by rewrite reverse_Permutation, <-Er, reverse_Permutation.
  destruct (inv_pop [n] [n] loc k t (QSem n) (reverse l)) as [I M]; try done.
  { intros n' Hn. cbn. rewrite upd_ne by (intros [= ->]; apply Hn; by left). by apply H. }
  destruct (ready_with_ok _ _ _ _ MSG_RESET I M) as (k1 & E & [I1 P1 W1]).
  destruct (IH k1 (S i)) as (k' & E' & I' & P' & Q' & C' & M'); [exact I1|..].
  - rewrite (wk_q _ _ _ _ W1) by done. cbn. rewrite upd_eq, length_reverse.
    apply (f_equal length) in Er. rewrite length_reverse, Hl in Er. by injection Er.
  - exists k'. split_and!; try done.
    + rewrite fw_bind_eq, (fw_bind_ok _ _ _ _ _ (lifo_remove_eq _ _ _ _ Er)), E. exact E'.
    + apply (ipost_trans _ (set_queue (QSem n) (reverse l) k)); [by apply ipost_pop|by eapply ipost_trans].
    + rewrite C'. by rewrite (rest_cnt _ _ (wk_r _ _ _ _ W1)).
    + assert (queues k1 (QSem n) = reverse l) as E1 by (rewrite (wk_q _ _ _ _ W1) by done; cbn; by rewrite upd_eq).
      rewrite E1 in M'. pose proof (q_nodup _ _ _ _ (i_q _ _ _ _ _ H) (QSem n)) as Hnd. rewrite <-Hp in Hnd.
      apply NoDup_cons in Hnd as [Hnd _].
      apply (made_ready_cons t (reverse l) _ k k1); [by apply (made_ready_one _ _ k _ _ W1)|done|done|].
      intros x. rewrite <-Hp. apply elem_of_cons.
Qed.

Lemma chSemResetI_ok n c k : kinv k → 0 <= c → iok (chSemResetI n c) k.
Proof.
  intros [loc H] Hc. pose proof (sem_queue_length k n ltac:(by exists loc)) as Hl.
  destruct (reset_loop n (set_cnt n c k) 0 (Z.to_nat (- s_cnt k n))) as (k' & E & [loc' I'] & P & Q & C & _).
  - exists loc. eapply inv_cnt; [exact H|apply sinv_cnt, H].
  - cbn. lia.
  - exists tt, k'. split_and!; [done| |].
    + exists loc'. eapply inv_sinv; [exact I'|]. apply (sinv_close _ _ n); [apply I'|].
      rewrite Q, C. cbn. rewrite upd_eq. lia.
    + eapply ipost_trans; [|exact P]. by apply ipost_same.
Qed.

(** ** Queues of threads *)

Lemma evolve_woken_know me k k' t u :
  ¬ awake (thd k t) → know (p_state (thd k t)) (p_u (thd k t)) t k' → woken t u k k' → evolve me k k'.
Proof.
  intros Ha Hk [W1 W2 W3 W4] x Hx. unfold evolves, armed. rewrite (rest_owner _ _ W4), (rest_vtl _ _ W4), W3 by done.
  destruct (decide (x = t)) as [->|Hne].
  - split_and!; try done. intros _. right. split; [left; by rewrite W1|by apply know_wst].
  - rewrite W2 by done. split_and!; try done. by left.
Qed.

(** Made ready with its union as it is. *)
Lemma wake_plain_among E F loc k t :
  inv E F loc k → t ∈ F → t ≠ currp k → loc t = None → (∀ r, trefs k r ≠ Some t) → t ∈ registry k →
  chSchReadyI t k = Ok (t, do_ready t k) ∧ inv E (filter (λ x, x ≠ t) F) (upd loc t (Some QReady)) (do_ready t k)
  ∧ woken t (p_u (thd k t)) k (do_ready t k).
Proof.
  intros H Ht Hc Hl Hno Hrg.
  assert (woken t (p_u (thd k t)) k (do_ready t k)) as W.
  { unfold do_ready. split; try done.
    - cbn. rewrite upd_eq. by destruct (thd k t).
    - intros t' Hn. cbn. by rewrite upd_ne.
    - intros q Hn. cbn. by rewrite upd_ne.
    - unfold same_rest. by destruct k. }
  split_and!; [apply chSchReadyI_eq, H| |done]. eapply (inv_woken _ _ F); try done.
  - by apply qinv_do_ready; [apply H|..].
  - intros x Hx Hn Hin. apply Hx. by apply list_elem_of_filter.
Qed.

Lemma wake_plain E loc k t :
  inv E [t] loc k → t ≠ currp k → loc t = None → (∀ r, trefs k r ≠ Some t) → t ∈ registry k →
  chSchReadyI t k = Ok (t, do_ready t k) ∧ (∃ loc, inv E [] loc (do_ready t k))
  ∧ woken t (p_u (thd k t)) k (do_ready t k).
Proof.
  intros H Hc Hl Hno Hrg. destruct (wake_plain_among E [t] loc k t) as (? & I & ?); try done; [by left|].
  split_and!; try done. eexists. by rewrite filter_cons_False, filter_nil in I by (intros Hx; by apply Hx).
Qed.

(** [m] takes the first thread out of [q], of which [P] holds then. *)
Definition pops (P : list nat → kernel → kernel → Prop) (q : qid) (m : fw kernel unit) : Prop :=
  ∀ k t l, kinv k → queues k q = t :: l →
  ∃ k', m k = Ok (tt, k') ∧ kinv k' ∧ ipost k k' ∧ queues k' q = l ∧ P [t] k k'.

(** What is said of the threads taken out adds up. *)
Definition adds_up (P : list nat → kernel → kernel → Prop) : Prop :=
  (∀ k, P [] k k) ∧ ∀ t l k k1 k', t ∉ l → P [t] k k1 → P l k1 k' → P (t :: l) k k'.

(** The threads of [l] are made ready with the message [m], and nothing else
    changes but queues. *)
Definition readied (m : Z) (l : list nat) (k k' : kernel) : Prop := made_ready l m k k' ∧ same_rest k k'.

Lemma same_rest_trans k1 k2 k3 : same_rest k1 k2 → same_rest k2 k3 → same_rest k1 k3.
Proof. destruct k1, k2, k3. unfold same_rest. cbn. intros [=] [=]. by subst. Qed.

Lemma readied_adds_up m : adds_up (readied m).
Proof.
  split; [intros []; split; [by apply made_ready_nil|done]|]. intros t l k k1 k' Hn [H1 R1] [H2 R2].
  split; [|by eapply same_rest_trans].
  apply (made_ready_cons t l m k k1); [done..|]. intros x. apply elem_of_cons.
Qed.

Lemma true_adds_up : adds_up (λ _ _ _, True).
Proof. by split. Qed.

Lemma pops_with (q : qid) (f : nat → fw kernel unit) (m : Z) :
  msg_queue q → (∀ n, q ≠ QSem n) →
  (∀ E loc k t, inv E [t] loc k → movable loc k t → ∃ k', f t k = Ok (tt, k') ∧ woke E t m k k') →
  pops (readied m) q (tp ← queue_fifo_remove q; f tp).
Proof.
  intros Hq Hs Hf k t l [loc H] Eq.
  destruct (inv_pop [] [] loc k t q l) as [I M]; try done.
  - by rewrite Eq.
  - intros Hp. pose proof (q_sorted _ _ _ _ (i_q _ _ _ _ _ H) q Hp) as Hx. rewrite Eq in Hx. by inversion Hx.
  - apply sinv_queue; [done|apply H].
  - destruct (Hf _ _ _ _ I M) as (k' & E & [I' P' W']). exists k'.
    rewrite (fw_bind_ok _ _ _ _ _ (fifo_remove_eq _ _ _ _ Eq)). split_and!; try done.
    + eapply ipost_trans; [by apply ipost_pop|exact P'].
    + rewrite (wk_q _ _ _ _ W') by (by intros ->). cbn. by rewrite upd_eq.
    + split; [by apply (made_ready_one _ _ k _ _ W')|]. apply (same_rest_trans k (set_queue q l k)); [by destruct k|apply W'].
Qed.

Lemma drain_queue P q m k :
  adds_up P → pops P q m → kinv k →
  ∃ k', while_notempty q m k = Ok (tt, k') ∧ kinv k' ∧ ipost k k' ∧ queues k' q = [] ∧ P (queues k q) k k'.
Proof.
  intros [Pnil Pcons] Hm. unfold while_notempty. remember (queues k q) as l eqn:El. revert k El.
  induction l as [|t l IH]; intros k El H; cbn [length while_fuel]; unfold queue_notempty at 1;
    erewrite fw_bind_ok by reflexivity; rewrite <-El; cbn.
  - exists k. split_and!; [done|done|apply ipost_refl|done|apply Pnil].
  - destruct (Hm k t l H (eq_sym El)) as (k1 & E & H1 & P1 & Q1 & M1).
    destruct (IH k1 (eq_sym Q1) H1) as (k' & E' & H' & P' & Q' & M'). exists k'.
    rewrite fw_bind_eq, E. split_and!; [exact E'|done|by eapply ipost_trans|done|].
    destruct H as [loc H]. pose proof (q_nodup _ _ _ _ (i_q _ _ _ _ _ H) q) as Hnd. rewrite <-El in Hnd.
    apply NoDup_cons in Hnd as [Hnd _]. by apply (Pcons t l k k1).
Qed.

Lemma drain_ok P q m k : adds_up P → pops P q m → kinv k → iok (while_notempty q m) k.
Proof. intros HP Hm H. destruct (drain_queue P q m k HP Hm H) as (k' & ? & ? & ? & _). by exists tt, k'. Qed.

Lemma pop_if_ok P q m k :
  pops P q m → kinv k → iok (b ← queue_notempty q; when b m) k.
Proof.
  intros Hm H. unfold iok, queue_notempty. fw_pure. destruct (queues k q) as [|t l] eqn:Eq; cbn.
  - exists tt, k. split_and!; [done|done|apply ipost_refl].
  - destruct (Hm k t l H Eq) as (k' & ? & ? & ? & _). by exists tt, k'.
Qed.

Lemma set_ready_shape (m : Z) t : (thd_set t (t_u (RdyMsg m));; chSchReadyI t;; ret tt) = set_ready t m.
Proof. done. Qed.

Lemma pops_set_ready q m : msg_queue q → (∀ n, q ≠ QSem n) →
  pops (readied m) q (tp ← queue_fifo_remove q; set_ready tp m).
Proof. intros. apply (pops_with q _ m); try done. intros. by eapply set_ready_ok. Qed.

Lemma pops_ready_with q m : msg_queue q → (∀ n, q ≠ QSem n) →
  pops (readied m) q (tp ← queue_fifo_remove q; ready_with tp m).
Proof. intros. apply (pops_with q _ m); try done. intros. by eapply ready_with_ok. Qed.

Lemma chThdDequeueNextI_ok tq m k : kinv k → iok (chThdDequeueNextI tq m) k.
Proof. eapply pop_if_ok. by apply pops_set_ready. Qed.
Lemma chThdDequeueAllI_ok tq m k : kinv k → iok (chThdDequeueAllI tq m) k.
Proof. eapply drain_ok; [apply readied_adds_up|by apply pops_set_ready]. Qed.
Lemma chCondSignalI_ok c k : kinv k → iok (chCondSignalI c) k.
Proof. eapply pop_if_ok. by apply pops_set_ready. Qed.
Lemma chCondBroadcastI_ok c k : kinv k → iok (chCondBroadcastI c) k.
Proof. eapply drain_ok; [apply readied_adds_up|by apply pops_ready_with]. Qed.

(** The threads waiting for one to end. *)
Lemma pops_exit t : pops (λ _ _ _, True) (QWait t) (w ← list_remove (QWait t); chSchReadyI w;; ret tt).
Proof.
  intros k w l [loc H] Eq.
  destruct (inv_unlink [] [] loc k (upd (queues k) (QWait t) l) w (QWait t)) as (I & Hc & Hi & Hno & Hrg & Hin & Ha); try done.
  - by rewrite upd_eq, Eq.
  - intros q' Hn. by rewrite upd_ne.
  - apply (sinv_queue [] k (QWait t) l); [done|apply H].
  - destruct (wake_plain _ _ _ _ I) as (E & I' & W); try done; [by rewrite upd_eq|].
    eexists. rewrite (fw_bind_ok _ _ _ _ _ (fifo_remove_eq _ _ _ _ Eq)), (fw_bind_ok _ _ _ _ _ E).
    split_and!; [done|done| | |done].
    + apply (ipost_trans _ (set_queue (QWait t) l k)); [by apply ipost_pop|].
      split; [|by rewrite (rest_currp _ _ (wk_r _ _ _ _ W))|done..].
      intros me. eapply evolve_woken_know; [exact Ha| |exact W]. cbn in Hin. cbn. rewrite Hin. split_and!; done.
    + rewrite (wk_q _ _ _ _ W) by done. cbn. by rewrite upd_eq.
Qed.

(** ** Threads waiting outside any queue *)

(** States of a thread waiting for a message or an event, in no queue. *)
Definition lone (st : tstate) : bool :=
  match st with SUSPENDED | SLEEPING | WTOREVT | WTANDEVT | SNDMSG => true | _ => false end.

Lemma lone_facts loc k t :
  inv [] [] loc k → lone (p_state (thd k t)) = true →
  t ≠ currp k ∧ t ≠ idle ∧ loc t = None ∧ t ∈ registry k ∧ ¬ awake (thd k t)
  ∧ (∀ r, trefs k r = Some t → p_state (thd k t) = SUSPENDED ∧ p_u (thd k t) = WtTrp r).
Proof.
  intros [Hq _ _ Hrf _ Hg] Hl.
  assert (¬ awake (thd k t)) as Ha by (intros [Hx|Hx]; by rewrite Hx in Hl).
  split_and!; try done.
  - intros ->. apply Ha. right. apply (q_cur _ _ _ _ Hq), not_elem_of_nil.
  - intros ->. apply Ha. apply Hq.
  - pose proof (q_ok _ _ _ _ Hq t ltac:(apply not_elem_of_nil)) as Hok. destruct (loc t) as [q|]; [|done].
    exfalso. destruct q; cbn in Hok; try match type of Hok with _ ∧ _ => destruct Hok as [Hok _] end; by rewrite Hok in Hl.
  - destruct (Hg t ltac:(apply not_elem_of_nil)) as [Hy|[Hy|]]; [by rewrite Hy in Hl..|done].
  - intros r Hx. by apply (Hrf r t Hx), not_elem_of_nil.
Qed.

Lemma lone_movable loc k t :
  inv [] [] loc k → lone (p_state (thd k t)) = true → p_state (thd k t) ≠ SUSPENDED →
  inv [] [t] loc k ∧ movable loc k t.
Proof.
  intros H Hl Hu. destruct (lone_facts loc k t H Hl) as (? & ? & ? & ? & ? & Hr).
  split; [by apply inv_weaken|]. split; try done.
  - intros r Hx. by destruct (Hr r Hx).
  - intros Hx. by rewrite Hx in Hl.
  - intros Hx. by rewrite Hx in Hl.
Qed.

Lemma suspended_movable loc k r t :
  inv [] [] loc k → p_state (thd k t) = SUSPENDED → p_u (thd k t) = WtTrp r →
  let k' := set_tref r None k in
  inv [] [t] loc k' ∧ movable loc k' t ∧ ipost k k'.
Proof.
  intros H Hst Hu k'.
  destruct (lone_facts loc k t H) as (? & ? & ? & ? & ? & Hr); [by rewrite Hst|].
  split_and!; [by apply inv_tref; [apply inv_weaken|]|split; try done|by apply ipost_same].
  - intros r' Hx. cbn in Hx. unfold upd in Hx. case_decide as E; [done|].
    apply Hr in Hx as [_ Hx]. rewrite Hu in Hx. by injection Hx as ->.
  - cbn. by rewrite Hst.
  - cbn. by rewrite Hst.
Qed.

Lemma chThdResumeI_ok r m k : kinv k → iok (chThdResumeI r m) k.
Proof.
  intros [loc H]. unfold iok, chThdResumeI. fw_pure. destruct (trefs k r) as [t|] eqn:Et.
  - destruct (i_r _ _ _ _ _ H r t Et ltac:(apply not_elem_of_nil)) as [Hst Hu].
    destruct (suspended_movable loc k r t H Hst Hu) as (I & M & P).
    destruct (set_ready_ok _ _ _ _ m I M) as (k' & E & [I' P' _]). exists tt, k'.
    split_and!; [|done|by eapply ipost_trans].
    rewrite (fw_bind_ok _ _ _ _ _ eq_refl). exact E.
  - exists tt, k. split_and!; [done|by exists loc|apply ipost_refl].
Qed.

(** ** Events *)

(** A change that leaves alone what the invariant is about; the priority may
    change outside the ordered queues. *)
Record inv_but_mutexes (E F : list nat) (loc : nat → option qid) (k : kernel) : Prop := {
  b_q : qinv idle F loc k;
  b_s : sinv E k;
  b_t : tinv F k;
  b_r : rinv F k;
  b_g : ginv F k
}.

Lemma inv_but E F loc k : inv E F loc k ↔ inv_but_mutexes E F loc k ∧ minv k.
Proof. split; [by intros []|by intros [[] ?]]. Qed.

Lemma but_neutral E F loc k t g :
  inv_but_mutexes E F loc k → p_state (g (thd k t)) = p_state (thd k t) → p_u (g (thd k t)) = p_u (thd k t) →
  p_prio (g (thd k t)) = p_prio (thd k t)
    ∨ 0 < p_prio (g (thd k t)) ∧ (∀ q, prio_queue q → loc t ≠ Some q) →
  inv_but_mutexes E F loc (set_thread t g k).
Proof.
  intros [Hq Hs [T1 T2 T3 T4] Hr Hg] G1 G2 G5. set (k' := set_thread t g k).
  assert (∀ x, p_state (thd k' x) = p_state (thd k x)) as H1 by (intros x; unfold k'; rewrite thd_set_thread; by case_decide; subst).
  assert (∀ x, p_u (thd k' x) = p_u (thd k x)) as H2 by (intros x; unfold k'; rewrite thd_set_thread; by case_decide; subst).
  split; [|done|split; [|done..]| |].
  - destruct Hq as [Q1 Q2 Q3 Q4 Q5 Q6 Q7 Q8]. split; try done.
    + intros x Hn. specialize (Q3 x Hn). destruct (loc x) as [[]|]; cbn in *; unfold in_none in *; by rewrite ?H1, ?H2.
    + intros q Hpq. eapply by_prio_ext; [|by apply Q4]. intros x Hx. unfold prio_of, k'.
      rewrite thd_set_thread. case_decide as E0; [subst x|done]. destruct G5 as [?|[_ G5]]; [done|].
      by apply Q2, G5 in Hx.
    + intros x. unfold prio_of, k'. rewrite thd_set_thread. case_decide; [subst x|apply Q5].
      destruct G5 as [->|[? _]]; [apply Q5|done].
    + intros Hn. rewrite H1. by apply Q6.
    + intros x Hn. rewrite H1. by apply Q7.
    + by rewrite H1.
  - intros x. rewrite H1. apply T1.
  - intros r x. rewrite H1, H2. apply Hr.
  - intros x. rewrite H1. apply Hg.
Qed.

Lemma inv_neutral E F loc k t g :
  inv E F loc k → p_state (g (thd k t)) = p_state (thd k t) → p_u (g (thd k t)) = p_u (thd k t) →
  p_mtxlist (g (thd k t)) = p_mtxlist (thd k t) → 0 < p_realprio (g (thd k t)) →
  p_prio (g (thd k t)) = p_prio (thd k t)
    ∨ 0 < p_prio (g (thd k t)) ∧ (∀ q, prio_queue q → loc t ≠ Some q) →
  inv E F loc (set_thread t g k).
Proof.
  intros [Hb [M1 M2 M3 M4 M5]]%inv_but G1 G2 G3 G4 G5. apply inv_but. split; [by apply but_neutral|].
  assert (∀ x, p_mtxlist (thd (set_thread t g k) x) = p_mtxlist (thd k x)) as H3 by (intros x; rewrite thd_set_thread; by case_decide; subst).
  split; try done.
  - intros m x. rewrite H3. apply M1.
  - intros x. rewrite H3. apply M2.
  - intros x. rewrite thd_set_thread. case_decide; [by subst x|apply M5].
Qed.

Lemma inv_epending E F loc k t e : inv E F loc k → inv E F loc (set_thread t (t_epending e) k).
Proof. intros H. apply inv_neutral; try done; [apply H|by left]. Qed.

Lemma ipost_epending k t e : ipost k (set_thread t (t_epending e) k).
Proof.
  apply ipost_same; try done; intros x; unfold awake, wst; rewrite thd_set_thread; by case_decide; subst.
Qed.

Lemma chEvtSignalI_ok t e k : kinv k → iok (chEvtSignalI t e) k.
Proof.
  intros [loc H]. unfold iok, chEvtSignalI. fw_pure. set (e' := Z.lor (p_epending (thd k t)) e).
  pose proof (inv_epending _ _ _ _ t e' H) as H1. pose proof (ipost_epending k t e') as P1.
  change (set_thread t _ k) with (set_thread t (t_epending e') k).
  set (k1 := set_thread t (t_epending e') k) in *.
  destruct (evt_wakes (thd k1 t)) eqn:Ew; cbn [when].
  - assert (lone (p_state (thd k1 t)) = true ∧ p_state (thd k1 t) ≠ SUSPENDED) as [Hl Hu].
    { unfold evt_wakes in Ew. by destruct (p_state (thd k1 t)), (p_u (thd k1 t)). }
    destruct (lone_movable loc k1 t H1 Hl Hu) as [I M].
    destruct (set_ready_ok _ _ _ _ MSG_OK I M) as (k' & E & [I' P' _]). exists tt, k'.
    split_and!; [exact E|done|by eapply ipost_trans].
  - exists tt, k1. split_and!; [done|by exists loc|done].
Qed.

Lemma inv_lsn E F loc k l : inv E F loc k → inv E F loc (k_set_lsn l k).
Proof. by intros [[] ? [] ? [] ?]. Qed.

Lemma notify_all_ok flags l k : kinv k → iok (notify_all flags l) k.
Proof.
  revert k. induction l as [|el l IH]; intros k H.
  { exists tt, k. split_and!; [done|done|apply ipost_refl]. }
  cbn [notify_all]. unfold iok. rewrite fw_bind_eq. unfold notify_listener. fw_pure.
  set (k1 := k_set_lsn _ k). assert (kinv k1) as H1 by (destruct H as [loc H]; exists loc; by apply inv_lsn).
  assert (ipost k k1) as P1 by by apply ipost_same.
  assert (∀ b, iok (when b (chEvtSignalI (el_listener (lsn k1 el)) (el_events (lsn k1 el)))) k1) as Hn.
  { intros []; [by apply chEvtSignalI_ok|]. exists tt, k1. split_and!; [done|done|apply ipost_refl]. }
  destruct (Hn ((flags =? 0) || negb (Z.land (el_flags (lsn k1 el)) (el_wflags (lsn k1 el)) =? 0)))
    as ([] & k2 & E2 & H2 & P2).
  rewrite E2. destruct (IH k2 H2) as ([] & k' & E' & H' & P'). exists tt, k'.
  split_and!; [exact E'|done|]. eapply ipost_trans; [exact P1|]. by eapply ipost_trans.
Qed.

Lemma chEvtBroadcastFlagsI_ok es flags k : kinv k → iok (chEvtBroadcastFlagsI es flags) k.
Proof. intros H. unfold iok, chEvtBroadcastFlagsI. fw_pure. by apply notify_all_ok. Qed.

(** ** The end of a time limit *)

Lemma filter_ne_id (t : nat) (l : list nat) : t ∉ l → filter (λ x, x ≠ t) l = l.
Proof.
  induction l as [|x l IH]; [done|]. intros [Hx Hl]%not_elem_of_cons.
  rewrite filter_cons_True by (by intros ->). by rewrite IH.
Qed.

Lemma filter_ne_perm (t : nat) (l : list nat) : NoDup l → t ∈ l → t :: filter (λ x, x ≠ t) l ≡ₚ l.
Proof.
  induction l as [|x l IH]; [by intros _ ?%elem_of_nil|]. intros [Hx Hl]%NoDup_cons [->|Ht]%elem_of_cons.
  - rewrite filter_cons_False by (intros Hy; by apply Hy). by rewrite filter_ne_id.
  - rewrite filter_cons_True by (by intros ->). rewrite Permutation_swap. by rewrite IH.
Qed.

Definition dequeued (t : nat) (k : kernel) : kernel :=
  k_set_queues (λ q, filter (λ x, x ≠ t) (queues k q)) k.

Lemma ipost_dequeued t k : p_state (thd k t) ≠ SNDMSGQ → kinv k → ipost k (dequeued t k).
Proof.
  intros Hst [loc H]. apply ipost_same; try done. intros r Hn. cbn. rewrite filter_ne_id; [done|].
  intros Hin. apply (q_loc _ _ _ _ (i_q _ _ _ _ _ H)) in Hin.
  pose proof (q_ok _ _ _ _ (i_q _ _ _ _ _ H) t ltac:(apply not_elem_of_nil)) as Hok. rewrite Hin in Hok.
  by destruct Hok.
Qed.

Lemma dequeue_take E' loc k q t :
  inv [] [] loc k → msg_queue q → loc t = Some q → sinv E' (dequeued t k) →
  inv E' [t] (upd loc t None) (dequeued t k) ∧ movable (upd loc t None) (dequeued t k) t.
Proof.
  intros H Hq Hl Hs. pose proof (i_q _ _ _ _ _ H) as Hqi.
  apply (inv_take [] E' loc k _ t q); try done.
  - apply filter_ne_perm; [apply Hqi|by apply (q_loc _ _ _ _ Hqi)].
  - intros q' Hn. apply filter_ne_id. rewrite (q_loc _ _ _ _ Hqi). congruence.
  - intros Hp. by apply by_prio_filter, Hqi.
Qed.

Lemma sinv_dequeued loc k t q n :
  inv [] [] loc k → loc t = Some q → q ≠ QSem n →
  length (queues (dequeued t k) (QSem n)) = length (queues k (QSem n)).
Proof.
  intros H Hl Hq. cbn. rewrite filter_ne_id; [done|].
  rewrite (q_loc _ _ _ _ (i_q _ _ _ _ _ H)). congruence.
Qed.

(** [loc] of a thread in a state that determines its queue. *)
Lemma queued_loc loc k t :
  inv [] [] loc k →
  match p_state (thd k t) with
  | WTSEM => ∃ n, p_u (thd k t) = WtSem n ∧ loc t = Some (QSem n)
  | WTCOND => ∃ n, loc t = Some (QCond n)
  | QUEUED => ∃ n, loc t = Some (QThd n)
  | SUSPENDED => ∃ r, p_u (thd k t) = WtTrp r
  | WTOREVT | WTANDEVT => ∃ m, p_u (thd k t) = EwMask m
  | _ => True
  end.
Proof.
  intros [Hq _ _ _ _ _]. pose proof (q_ok _ _ _ _ Hq t ltac:(apply not_elem_of_nil)) as Hok.
  destruct (loc t) as [[]|]; cbn in Hok; unfold in_none in Hok; destruct (p_state (thd k t)); naive_solver.
Qed.

(** The thread is made ready with a timeout, and no other thread changes. *)
Record timed_out (t : nat) (k k' : kernel) : Prop := {
  to_inv : kinv k';
  to_post : ipost k k';
  to_thd : thd k' t = t_state READY (t_u (RdyMsg MSG_TIMEOUT) (thd k t));
  to_other x : x ≠ t → thd k' x = thd k x
}.

Lemma timeout_from loc k0 k t :
  inv [] [t] loc k → movable loc k t → ipost k0 k → thd k = thd k0 →
  ∃ k', set_ready t MSG_TIMEOUT k = Ok (tt, k') ∧ timed_out t k0 k'.
Proof.
  intros I M P Ht. destruct (set_ready_ok _ _ _ _ MSG_TIMEOUT I M) as (k' & E & [I' P' [W1 W2 _ _]]).
  exists k'. split; [done|]. split; [done|by eapply ipost_trans|by rewrite W1, Ht|]. intros x Hx. by rewrite W2, Ht.
Qed.

Lemma timeout_take loc k q t :
  inv [] [] loc k → msg_queue q → (∀ n, q ≠ QSem n) → loc t = Some q → p_state (thd k t) ≠ SNDMSGQ →
  ∃ k', (queue_dequeue t;; set_ready t MSG_TIMEOUT) k = Ok (tt, k') ∧ timed_out t k k'.
Proof.
  intros H Hq Hs Hl Hst. destruct (dequeue_take [] loc k q t) as [I M]; try done.
  { intros n Hn. rewrite (sinv_dequeued loc _ _ q) by done. by apply H. }
  apply (timeout_from _ k _ t I M); [|done]. apply ipost_dequeued; [done|by exists loc].
Qed.

Lemma timeout_sem loc k n t :
  inv [] [] loc k → loc t = Some (QSem n) → p_state (thd k t) ≠ SNDMSGQ →
  ∃ k', (chSemFastSignalI n;; queue_dequeue t;; set_ready t MSG_TIMEOUT) k = Ok (tt, k') ∧ timed_out t k k'.
Proof.
  intros H Hl Hst. pose proof (i_q _ _ _ _ _ H) as Hqi. pose proof (sem_queue_length k n ltac:(by exists loc)) as Hn.
  assert (t :: filter (λ x, x ≠ t) (queues k (QSem n)) ≡ₚ queues k (QSem n)) as Hp
    by (apply filter_ne_perm; [apply Hqi|by apply (q_loc _ _ _ _ Hqi)]).
  set (k1 := set_cnt n (s_cnt k n + 1) k).
  assert (chSemFastSignalI n k = Ok (tt, k1)) as E1.
  { unfold chSemFastSignalI. fw_pure. apply Permutation_length in Hp. cbn in Hp. unfold INT32_MAX.
    by rewrite (proj2 (Z.eqb_neq _ _)) by lia. }
  rewrite (fw_bind_ok _ _ _ _ _ E1). assert (inv [n] [] loc k1) as I1 by (eapply inv_cnt; [exact H|apply sinv_cnt, H]).
  assert (sinv [] (dequeued t k1)) as Hs.
  { apply (sinv_close _ _ n).
    - intros n' Hn'. etransitivity; [|exact (i_s _ _ _ _ _ I1 n' Hn')]. cbn. rewrite filter_ne_id; [done|].
      change (queues k1) with (queues k). rewrite (q_loc _ _ _ _ Hqi), Hl. intros [= ->]. apply Hn'. by left.
    - apply Permutation_length in Hp. cbn in Hp |- *. rewrite upd_eq. lia. }
  destruct (inv_take [n] [] loc k1 (λ q, filter (λ x, x ≠ t) (queues k q)) t (QSem n)) as [I M]; try done.
  { intros q' Hn'. apply filter_ne_id. change (queues k1) with (queues k). rewrite (q_loc _ _ _ _ Hqi). congruence. }
  apply (timeout_from _ k _ t I M); [|done].
  apply (ipost_trans _ (dequeued t k)); [apply ipost_dequeued; [done|by exists loc]|by apply ipost_same].
Qed.

Lemma timeout_lone loc k t :
  inv [] [] loc k → lone (p_state (thd k t)) = true → p_state (thd k t) ≠ SUSPENDED →
  ∃ k', set_ready t MSG_TIMEOUT k = Ok (tt, k') ∧ timed_out t k k'.
Proof.
  intros H Hl Hu. destruct (lone_movable loc k t H Hl Hu) as [I M].
  apply (timeout_from _ k _ t I M); [apply ipost_refl|done].
Qed.

Lemma wakeup_ok t k :
  kinv k → timed (p_state (thd k t)) = true →
  ∃ k', wakeup t k = Ok (tt, k') ∧ (if decide (p_state (thd k t) = READY) then k' = k else timed_out t k k').
Proof.
  intros [loc H] Ht. pose proof (queued_loc loc k t H) as Hl. pose proof (timeout_lone loc k t H) as HL.
  unfold wakeup. fw_pure. fold (set_ready t MSG_TIMEOUT).
  destruct (p_state (thd k t)) eqn:Est; try done; cbn [decide tstate_eq_dec].
  - by exists k.
  - destruct Hl as [r Hu]. rewrite Hu. destruct (suspended_movable loc k r t H Est Hu) as (I & M & P).
    destruct (timeout_from _ k _ t I M P eq_refl) as (k' & E & T). exists k'. split; [|done].
    rewrite (fw_bind_ok _ _ _ _ _ eq_refl). exact E.
  - destruct Hl as [n Hl]. apply (timeout_take loc k (QThd n)); try done. congruence.
  - destruct Hl as (n & -> & Hl). apply (timeout_sem loc k n); try done. congruence.
  - destruct Hl as [n Hl]. apply (timeout_take loc k (QCond n)); try done. congruence.
  - by apply HL.
  - by apply HL.
  - by apply HL.
Qed.

(** ** The tick *)

(** What a tick does to the thread of an expired timer. *)
Definition fired_thd (t : thread) : thread :=
  match p_state t with READY => t | _ => t_state READY (t_u (RdyMsg MSG_TIMEOUT) t) end.

(** The state after the threads of [ids] were woken. *)
Record ticked (ids : list nat) (k k' : kernel) : Prop := {
  tk_inv : kinv k';
  tk_evolve me : evolve me k k';
  tk_cur : currp k' = currp k;
  tk_armed x : armed k' x ↔ armed k x ∧ x ∉ ids;
  tk_thd x : thd k' x = if decide (x ∈ ids) then fired_thd (thd k x) else thd k x
}.

Lemma ticked_nil k : kinv k → ticked [] k k.
Proof.
  intros H. split; try done; [intros; apply evolve_refl|].
  intros x. split; [intros ?; split; [done|apply not_elem_of_nil]|by intros []].
Qed.

(** The first timer taken out, and its thread woken. *)
Lemma fire_one k t l v :
  kinv k → ¬ armed k (currp k) → vt_list (k_vtl k) = t :: l → vt_list v = l →
  ∃ k', call_timer (vt_func t) (vt_par t) (k_set_vtl v k) = Ok (tt, k') ∧ ticked [vt_id t] k k'
    ∧ k_vtl k' = v ∧ k_now k' = k_now k.
Proof.
  intros [loc H] Ha El Ev. pose proof H as [_ _ [T1 T2 T3 T4] _ _ _]. rewrite El in T2, T3, T4.
  apply Forall_cons_1 in T2 as [[Tf Tp] T2]. apply NoDup_cons in T3 as [Tn T3]. apply Forall_cons_1 in T4 as [Td T4].
  set (k1 := k_set_vtl v k).
  assert (∀ x, armed k1 x ↔ armed k x ∧ x ≠ vt_id t) as Hsub.
  { intros x. unfold armed. cbn. rewrite Ev, El, fmap_cons, elem_of_cons. split; [|naive_solver].
    intros Hx. split; [by right|]. by intros ->. }
  assert (armed k (vt_id t)) as Hat by (unfold armed; rewrite El; by left).
  assert (kinv k1) as H1.
  { exists loc. apply inv_vtl; [done|]. split; cbn; rewrite ?Ev; try done. intros x Hx Hn. by apply T1; [apply Hsub|]. }
  assert (∀ me, evolve me k k1) as He1.
  { intros me x Hx. unfold evolves. split_and!; try done; [by left|intros ?%Hsub; naive_solver]. }
  assert (timed (p_state (thd k1 (vt_id t))) = true) as Htm.
  { destruct (T1 _ Hat ltac:(apply not_elem_of_nil)) as [E|]; [|done]. by rewrite E in Hat. }
  destruct (wakeup_ok (vt_id t) k1 H1 Htm) as (k2 & E2 & H2). exists k2.
  assert (call_timer (vt_func t) (vt_par t) k1 = Ok (tt, k2)) as Ec.
  { cbn [call_timer kernel_vt]. by rewrite Tf, Tp, decide_True. }
  split; [done|]. change (thd k1) with (thd k) in *.
  case_decide as Er.
  - subst k2. split_and!; try done. split; try done.
    + intros x. rewrite Hsub, list_elem_of_singleton. done.
    + intros x. case_decide as Ex; [|done]. apply list_elem_of_singleton in Ex. subst x.
      unfold fired_thd. by rewrite Er.
  - destruct H2 as [I2 P2 Ht Ho]. split_and!; [|apply P2..]. split; [done| |apply P2| |].
    + intros me. eapply evolve_trans; [apply He1|apply P2].
    + intros x. rewrite list_elem_of_singleton, <-Hsub. unfold armed. by rewrite (ip_vtl _ _ P2).
    + intros x. case_decide as Ex; rewrite list_elem_of_singleton in Ex; [subst x|by apply Ho].
      rewrite Ht. change (thd k1) with (thd k). unfold fired_thd. by destruct (p_state (thd k (vt_id t))).
Qed.

Lemma ticked_cons id ids k k1 k' : id ∉ ids → ticked [id] k k1 → ticked ids k1 k' → ticked (id :: ids) k k'.
Proof.
  intros Hn [A1 A2 A3 A4 A5] [B1 B2 B3 B4 B5]. split; [done| |congruence| |].
  - intros me. by eapply evolve_trans.
  - intros x. rewrite B4, A4, list_elem_of_singleton, elem_of_cons. naive_solver.
  - intros x. rewrite B5, A5. destruct (decide (x = id)) as [->|Hx].
    + rewrite (decide_False (P := id ∈ ids)), !decide_True by (done || by left). done.
    + rewrite (decide_False (P := x ∈ [id])) by by rewrite list_elem_of_singleton.
      destruct (decide (x ∈ ids)) as [Hi|Hi]; [by rewrite decide_True by by right|].
      by rewrite decide_False by by apply not_elem_of_cons.
Qed.

(** The timers [fired] expire by the time of the tick, the others do not. *)
Lemma tick_loop_ok fired rest k :
  kinv k → ¬ armed k (currp k) → vt_list (k_vtl k) = fired ++ rest →
  elapsed (k_now k) (k_vtl k) < 2 ^ 32 - 1 → total fired <= elapsed (k_now k) (k_vtl k) →
  (∀ t l, rest = t :: l → elapsed (k_now k) (k_vtl k) < total fired + vt_delta t) → ∀ fuel, (length fired < fuel)%nat →
  ∃ k', tick_loop fuel k = Ok (tt, k') ∧ ticked (vt_id <$> fired) k k'.
Proof.
  revert k. induction fired as [|t fired IH]; intros k H Ha El He Hf Hr fuel Hfu;
    (destruct fuel as [|fuel]; [lia|]); cbn [tick_loop]; change (vtl k) with (k_vtl k);
    change (st_time k) with (k_now k); fold (elapsed (k_now k) (k_vtl k)); rewrite El; cbn [app].
  - exists k. split; [|by apply ticked_nil]. destruct rest as [|t l].
    + by rewrite (proj2 (Z.leb_gt _ _)) by (unfold vt_sentinel; lia).
    + specialize (Hr t l eq_refl). change (total []) with 0 in Hr. by rewrite (proj2 (Z.leb_gt _ _)) by lia.
  - cbn [app] in El. assert (total (t :: fired) = vt_delta t + total fired) as Et by done. rewrite Et in *.
    pose proof H as [loc HI]. pose proof (t_deltas _ _ (i_t _ _ _ _ _ HI)) as Hd. rewrite El in Hd.
    apply Forall_cons_1 in Hd as [Ht Hd]. pose proof (total_nonneg fired ltac:(by apply Forall_app in Hd as [? _])).
    pose proof (t_nodup _ _ (i_t _ _ _ _ _ HI)) as Hnd. rewrite El, fmap_cons, NoDup_cons, fmap_app, elem_of_app in Hnd.
    rewrite (proj2 (Z.leb_le _ _)) by lia.
    set (v := {| vt_list := fired ++ rest; vt_lasttime := _; alarm := _ |}). change (set_vtl v k) with (k_set_vtl v k).
    destruct (fire_one k t (fired ++ rest) v H Ha El eq_refl) as (k1 & E1 & T1 & Ev & En).
    assert (elapsed (k_now k1) (k_vtl k1) = elapsed (k_now k) (k_vtl k) - vt_delta t) as Ee.
    { rewrite Ev, En. unfold elapsed in *. cbn. apply elapsed_advance. lia. }
    destruct (IH k1) with (fuel := fuel) as (k' & E & T); rewrite ?Ee; try lia.
    + apply T1.
    + intros Hx%(tk_armed _ _ _ T1). rewrite (tk_cur _ _ _ T1) in Hx. by destruct Hx.
    + by rewrite Ev.
    + intros t' l' ->. specialize (Hr t' l' eq_refl). lia.
    + cbn in Hfu. lia.
    + exists k'. split; [by rewrite fw_bind_eq, E1|]. rewrite fmap_cons. eapply ticked_cons; [|exact T1|exact T].
      naive_solver.
Qed.

Lemma chVTDoTickI_ticks fired rest k :
  kinv k → ¬ armed k (currp k) → vt_list (k_vtl k) = fired ++ rest →
  elapsed (k_now k) (k_vtl k) < 2 ^ 32 - 1 → total fired <= elapsed (k_now k) (k_vtl k) →
  (∀ t l, rest = t :: l → elapsed (k_now k) (k_vtl k) < total fired + vt_delta t) → ∀ fuel, (length fired < fuel)%nat →
  ∃ k', chVTDoTickI fuel k = Ok (tt, k') ∧ ticked (vt_id <$> fired) k k'.
Proof.
  intros H Ha El He Hf Hr fuel Hfu. destruct (tick_loop_ok fired rest k H Ha El He Hf Hr fuel Hfu) as (k1 & E & [H1 P1 C1 A1 T1]).
  assert (vt_list (tick_alarm (k_now k1) (k_vtl k1)) = vt_list (k_vtl k1)) as Ea
    by (unfold tick_alarm; destruct (vt_list (k_vtl k1)) eqn:E0; cbn; rewrite ?E0; done).
  exists (k_set_vtl (tick_alarm (k_now k1) (k_vtl k1)) k1). split.
  - unfold chVTDoTickI. by rewrite (fw_bind_ok _ _ _ _ _ E).
  - assert (∀ x, armed (k_set_vtl (tick_alarm (k_now k1) (k_vtl k1)) k1) x ↔ armed k1 x) as Hx
      by (intros x; unfold armed; cbn; by rewrite Ea).
    destruct H1 as [loc H1]. split; [| |done| |done].
    + exists loc. apply inv_vtl; [done|]. pose proof (i_t _ _ _ _ _ H1) as [B1 B2 B3 B4].
      split; cbn; rewrite ?Ea; try done. intros x ?%Hx. by apply B1.
    + intros me. eapply evolve_trans; [apply P1|]. intros x Hn. unfold evolves. rewrite Hx.
      split_and!; try done. by left.
    + intros x. by rewrite Hx, A1.
Qed.

(** The timers split at the time of the tick. *)
Lemma expired_split l e :
  deltas_ok l → 0 <= e →
  ∃ fired rest, l = fired ++ rest ∧ total fired <= e ∧ ∀ t l, rest = t :: l → e < total fired + vt_delta t.
Proof.
  revert e. induction l as [|t l IH]; intros e Hok He; [by exists [], []|].
  apply Forall_cons_1 in Hok as [Ht Hok]. destruct (Z.leb_spec (vt_delta t) e) as [L|L].
  - destruct (IH (e - vt_delta t) Hok) as (fired & rest & -> & Hf & Hr); [lia|]. exists (t :: fired), rest.
    split_and!; [done| |]; cbn; unfold total in *.
    + lia.
    + intros t' l' E. specialize (Hr t' l' E). lia.
  - exists [], (t :: l). split_and!; [done|done|]. by intros ? ? [= <- <-].
Qed.

Lemma chVTDoTickI_ok fuel k :
  kinv k → ¬ armed k (currp k) → (length (vt_list (k_vtl k)) < fuel)%nat →
  elapsed (k_now k) (k_vtl k) < 2 ^ 32 - 1 →
  ∃ k', chVTDoTickI fuel k = Ok (tt, k') ∧ kinv k' ∧ (∀ me, evolve me k k') ∧ currp k' = currp k
    ∧ ¬ armed k' (currp k').
Proof.
  intros H Ha Hf He. pose proof H as [loc HI].
  destruct (expired_split (vt_list (k_vtl k)) (elapsed (k_now k) (k_vtl k))) as (fired & rest & El & H1 & H2);
    [apply HI|apply u32_range|].
  destruct (chVTDoTickI_ticks fired rest k H Ha El He H1 H2 fuel) as (k' & E & [T1 T2 T3 T4 T5]).
  { rewrite El, length_app in Hf. lia. }
  exists k'. split_and!; try done. rewrite T3. intros Hx%T4. by destruct Hx.
Qed.

End wake.
End KWake.
