(* ===== verification/KSafe.v ===== *)
(** * Safe operations of threads

    The calls a thread makes, run from any state of the invariant: none fails,
    and at every point where the processor is given up, and on return, the
    invariant holds and the other threads have at most been woken with what they
    wait for. *)

From S2P Require Import Prelude SysTime Fw VTimers Memory Kernel Sync Threads Events Sched KInv KOps KWake.
From stdpp Require Import list.
Import SysTime VTimers Kernel Sem Cond Threads Msg Events Sched KInv KOps KWake.
#[local] Open Scope Z_scope.

Module KSafe.
Section safe.
Variable idle : nat.
Notation inv := (inv idle).
Notation kinv := (kinv idle).
Notation safe := (safe idle).
Notation movable := (movable idle).
Notation returned := (returned idle).
Notation iok := (iok idle).

(** ** A thread about to wait *)

Record running (E : list nat) (me : nat) (loc : nat → option qid) (k : kernel) : Prop := {
  ru_inv : inv E [me] loc k;
  ru_cur : currp k = me;
  ru_loc : loc me = None;
  ru_ref r : trefs k r ≠ Some me;
  ru_reg : me ∈ registry k;
  ru_armed : ¬ armed k me
}.

(** It is where its next state puts it. *)
Record blocking (me : nat) (st : tstate) (loc : nat → option qid) (k : kernel) : Prop := {
  bl_inv : inv [] [me] loc k;
  bl_cur : currp k = me;
  bl_ok : loc_ok (loc me) (t_state st (thd k me));
  bl_ref r : trefs k r = Some me → st = SUSPENDED ∧ p_u (thd k me) = WtTrp r;
  bl_reg : st = FINAL ∨ me ∈ registry k;
  bl_armed : ¬ armed k me;
  bl_state : st ≠ CURRENT ∧ st ≠ READY
}.

Lemma running_start me k :
  kinv k → currp k = me → ¬ armed k me → ∃ loc, inv [] [] loc k ∧ running [] me loc k.
Proof.
  intros [loc H] Hc Ha. destruct (current_facts _ _ _ _ _ H ltac:(apply not_elem_of_nil)) as (_ & Hl & Hr & Hg).
  rewrite Hc in *. exists loc. split; [done|]. split; try done. by apply inv_weaken.
Qed.

Lemma running_u E me loc k u : running E me loc k → running E me loc (set_thread me (t_u u) k).
Proof. intros []. split; try done. apply inv_thread_u; [done|by left]. Qed.

Lemma running_cnt E E' me loc k n c :
  running E me loc k → sinv E' (set_cnt n c k) → running E' me loc (set_cnt n c k).
Proof. intros [] Hs. split; try done. by eapply inv_cnt. Qed.

(** The running thread linked in a queue it may wait in. *)
Lemma running_insert E me loc k q l st :
  running E me loc k → l ≡ₚ me :: queues k q → (prio_queue q → by_prio (prio_of k) l) →
  sinv [] (set_queue q l k) → (∀ m, q = QMtx m → m_owner k m ≠ None) →
  in_queue q (t_state st (thd k me)) → st ≠ CURRENT → st ≠ READY →
  blocking me st (upd loc me (Some q)) (set_queue q l k).
Proof.
  intros [] Hp Hs Hs' Hm Hin H1 H2. split; try done.
  - eapply (inv_put _ E); [done| |done|done|done| |by intros].
    + eapply (qinv_place _ _ loc k _ me q); try done.
      * apply ru_inv0.
      * by rewrite queues_set_queue, decide_True.
      * intros q' Hn. by rewrite queues_set_queue, decide_False.
      * by rewrite queues_set_queue, decide_True.
      * intros Hn. exfalso. apply Hn. by left.
    + intros m. rewrite queues_set_queue. case_decide as E0; [intros _; by apply Hm|]. by apply ru_inv0.
  - rewrite upd_eq. exact Hin.
  - intros r Hr. by apply ru_ref0 in Hr.
  - by right.
Qed.

Lemma running_lone me loc k st :
  running [] me loc k → in_none (t_state st (thd k me)) → st ≠ CURRENT → st ≠ READY → blocking me st loc k.
Proof.
  intros [] Hn H1 H2. split; try done; [by rewrite ru_loc0| |by right]. intros r Hr. by apply ru_ref0 in Hr.
Qed.

(** What the wait ends with. *)
Record resumed (me : nat) (st : tstate) (u : punion) (k : kernel) : Prop := {
  re_inv : kinv k;
  re_cur : currp k = me;
  re_armed : ¬ armed k me;
  re_know : know st u me k
}.

Lemma safe_block me (Q : kernel → unit → kernel → Prop) k0 k loc st :
  blocking me st loc k → me ≠ idle → evolve me k0 k →
  (∀ k', resumed me st (p_u (thd k me)) k' → Q k' tt k') → safe me Q k0 (chSchGoSleepS st k).
Proof.
  intros [B1 B2 B3 B4 B5 B6 [B7 B8]] Hi He Hf. eapply safe_sleep; try done.
  intros k1 k' Hst Hu Ha [R1 R2 R3 R4]. apply Hf. split; try done; [by intros ?%R4%Ha|]. by rewrite <-Hst, <-Hu.
Qed.

Lemma curr_rdymsg_eq me k m :
  currp k = me → p_u (thd k me) = RdyMsg m → curr_rdymsg k = Done m k.
Proof. intros <- E. unfold curr_rdymsg, iclass. by rewrite E. Qed.

Lemma safe_block_msg me (Q : kernel → Z → kernel → Prop) k0 k loc st :
  blocking me st loc k → me ≠ idle → evolve me k0 k → msg_state st = true →
  (∀ m k', resumed me st (p_u (thd k me)) k' → Q k' m k') → safe me Q k0 ((chSchGoSleepS st;; curr_rdymsg) k).
Proof.
  intros B Hi He Hm Hf. apply safe_bind. eapply safe_block; try done. intros k' R.
  destruct (proj1 (re_know _ _ _ _ R) Hm) as [m Eu]. cbv beta. rewrite (curr_rdymsg_eq me k' m); [by apply Hf|apply R|done].
Qed.

Lemma safe_block_timeout me (Q : kernel → Z → kernel → Prop) k0 k loc st time :
  blocking me st loc k → me ≠ idle → evolve me k0 k → msg_state st = true → timed st = true → 0 <= time < 2 ^ 32 →
  (∀ k1 m k', kinv k' → currp k' = me → ¬ armed k' me → evolve me k1 k' → Q k1 m k') →
  safe me Q k0 (chSchGoSleepTimeoutS st time k).
Proof.
  intros B Hi He Hm Ht Htm Hf. unfold chSchGoSleepTimeoutS. destruct (decide (time = TIME_INFINITE)).
  { eapply (safe_block_msg me Q k0 k loc st); try done. intros m k' []. apply Hf; try done. apply evolve_refl. }
  apply safe_bind. apply safe_self. pose proof B as [B1 B2 B3 B4 B5 B6 [B7 B8]]. rewrite B2.
  eapply safe_iclass; [reflexivity|]. set (k1 := set_vtl _ k).
  assert (inv [] [me] loc k1) as I1 by by apply inv_arm.
  apply safe_bind. eapply safe_sleep; try done.
  { eapply evolve_trans; [exact He|]. intros x Hx. unfold evolves. split_and!; try done; [by left|].
    intros Ha. apply armed_sig in Ha. cbn in Ha. unfold armed. rewrite do_set_sig, fmap_cons in Ha.
    apply elem_of_cons in Ha as [Ha|Ha]; [done|by rewrite sig_ids in Ha]. }
  intros k2 k' Hst Hu _ [R1 R2 R3 _]. eapply safe_iclass; [reflexivity|].
  rewrite Hst in R3. destruct (proj1 R3 Hm) as [m Eu].
  destruct (bool_decide (me ∈ vt_id <$> vt_list (vtl k'))) eqn:Eb; cbn [kwhen].
  - destruct (inv_disarm idle k' me (k_now k') R1) as [H' A'].
    eapply safe_iclass_end; [reflexivity|]. cbv beta. rewrite (curr_rdymsg_eq me _ m) by done. apply Hf; try done.
    + intros Ha. by apply A' in Ha as [_ ?].
    + intros x Hx. unfold evolves. split_and!; try done; [by left|]. intros Ha. by apply A' in Ha as [? _].
  - change (safe me Q k' (curr_rdymsg k')). rewrite (curr_rdymsg_eq me _ m) by done. apply Hf; try done; [|apply evolve_refl].
    by apply bool_decide_eq_false in Eb.
Qed.

(** ** Shapes of the calls *)

Definition op_safe {A} (me : nat) (m : kern A) (k : kernel) : Prop :=
  kinv k → currp k = me → ¬ armed k me → safe me (returned me) k (m k).

Lemma returned_id {A} me (a : A) k : kinv k → currp k = me → ¬ armed k me → returned me k a k.
Proof. intros. split_and!; try done. apply evolve_refl. Qed.

Lemma ipost_run me k k' :
  ipost k k' → currp k = me → ¬ armed k me → currp k' = me ∧ ¬ armed k' me ∧ evolve me k k'.
Proof. intros P Hc Ha. unfold armed. rewrite (ip_cur _ _ P), (ip_vtl _ _ P). split_and!; [done|done|apply P]. Qed.

Lemma returned_ipost {A} me (a : A) k k' :
  kinv k' → ipost k k' → currp k = me → ¬ armed k me → returned me k a k'.
Proof.
  intros H P Hc Ha. split_and!; [done|by rewrite (ip_cur _ _ P)|apply P|]. unfold armed. by rewrite (ip_vtl _ _ P).
Qed.

(** A run that starts later. *)
Lemma safe_from {A} me (Q : kernel → A → kernel → Prop) k0 k o :
  evolve me k0 k → (∀ a k', Q k a k' → Q k0 a k') → safe me Q k o → safe me Q k0 o.
Proof.
  intros He HQ. destruct o as [a k'|k' r|e]; cbn; [apply HQ| |done].
  intros [[] Hr]. split; [|done]. split; try done. by eapply evolve_trans.
Qed.

Lemma returned_from {A} me (a : A) k0 k k' : evolve me k0 k → returned me k a k' → returned me k0 a k'.
Proof. intros He (? & ? & ? & ?). split_and!; try done. by eapply evolve_trans. Qed.

Lemma safe_iop {A} me (m : fw kernel A) k : iok m k → op_safe me (iclass m) k.
Proof. intros (a & k' & E & H & P) _ Hc Ha. eapply safe_iclass_end; [exact E|]. by apply returned_ipost. Qed.

(** After what an interrupt handler could have done, the thread goes on. *)
Lemma safe_iop_then {A B} me (m : fw kernel A) (f : A → kern B) k Q :
  iok m k → currp k = me → ¬ armed k me →
  (∀ a k', kinv k' → ipost k k' → currp k' = me → ¬ armed k' me → evolve me k k' → safe me Q k (f a k')) →
  safe me Q k ((iclass m ≫= f) k).
Proof.
  intros (a & k' & E & H & P) Hc Ha Hf. eapply safe_iclass; [exact E|].
  destruct (returned_ipost me a k k' H P Hc Ha) as (? & ? & ? & ?). by apply Hf.
Qed.

Lemma safe_resched_end me k0 k :
  kinv k → currp k = me → ¬ armed k me → evolve me k0 k → safe me (returned me) k0 (chSchRescheduleS k).
Proof.
  intros H Hc Ha He. apply safe_resched; try done. intros k1 k' (? & ? & ? & ?). split_and!; auto.
Qed.

Lemma safe_resched_ret {A} me (a : A) k0 k :
  kinv k → currp k = me → ¬ armed k me → evolve me k0 k →
  safe me (returned me) k0 ((chSchRescheduleS;; kret a) k).
Proof.
  intros H Hc Ha He. apply safe_bind. eapply safe_mono; [|by apply safe_resched_end].
  by intros k1 [] k' ?.
Qed.

Lemma safe_iop_resched me (m : fw kernel unit) k : iok m k → op_safe me (iclass m;; chSchRescheduleS) k.
Proof. intros Hm _ Hc Ha. apply safe_iop_then; try done. intros [] k' ? ? ? ? ?. by apply safe_resched_end. Qed.

Lemma safe_wakeup_end me k0 k loc t msg :
  inv [] [t] loc k → currp k = me → movable loc k t → evolve me k0 k → ¬ armed k me →
  safe me (returned me) k0 (chSchWakeupS t msg k).
Proof.
  intros H Hc M He Ha. eapply safe_wakeup; try done. intros k1 k' (? & ? & ? & ?). split_and!; auto.
Qed.

(** ** Semaphores *)

Lemma chSemReset_safe me n c k : 0 <= c → op_safe me (chSemReset n c) k.
Proof. intros Hc H. apply safe_iop_resched; [|done]. by apply chSemResetI_ok. Qed.

Lemma chSemSignal_safe me n k : count_ok k n → op_safe me (chSemSignal n) k.
Proof.
  intros Hn H Hc Ha. destruct H as [loc H]. eapply safe_iclass; [by apply inc_counter_eq|].
  destruct (Z.leb_spec (s_cnt k n + 1) 0) as [L|L].
  - destruct (sem_waiter idle loc k n) as (t & l & Eq & Hl); [done|lia|].
    destruct (sem_pop idle loc k n t l (s_cnt k n + 1)) as (I & M & P); [done|by rewrite Eq|done|].
    eapply safe_iclass; [by apply (fifo_remove_eq _ _ t l)|].
    destruct (ipost_run me _ _ P Hc Ha) as (? & ? & ?). by eapply safe_wakeup_end.
  - apply returned_ipost; try done; [exists loc; apply inv_count_up; [done|lia]|by apply ipost_same].
Qed.

(** Changes to [me], and to queues in which no message is lost. *)
Lemma evolve_me me k k' :
  (∀ t, t ≠ me → thd k' t = thd k t) → (∀ r, queues k (QMsg r) ≠ [] → queues k' (QMsg r) ≠ []) →
  m_owner k' = m_owner k → k_vtl k' = k_vtl k → evolve me k k'.
Proof.
  intros H1 H2 H3 H4 t Ht. unfold evolves, armed. rewrite H1, H3, H4 by done.
  split_and!; try done; [by left|apply H2].
Qed.

Lemma thd_other me g k t : t ≠ me → thd (set_thread me g k) t = thd k t.
Proof. intros. by rewrite thd_set_thread, decide_False. Qed.

Lemma sem_block me loc k n :
  inv [] [] loc k → running [] me loc k → s_cnt k n <= 0 →
  let k1 := set_thread me (t_u (WtSem n)) (set_cnt n (s_cnt k n - 1) k) in
  let k2 := set_queue (QSem n) (queues k1 (QSem n) ++ [me]) k1 in
  blocking me WTSEM (upd loc me (Some (QSem n))) k2 ∧ evolve me k k2.
Proof.
  intros H R Hc k1 k2.
  assert (running [n] me loc k1) as R1.
  { apply running_u. eapply running_cnt; [exact R|]. apply sinv_cnt, H. }
  split.
  - apply (running_insert _ _ _ _ _ _ _ R1); try done.
    + by rewrite Permutation_app_comm.
    + apply (sinv_close _ _ n).
      * intros n' Hn. cbn. rewrite upd_ne by (intros [= ->]; apply Hn; by left). by apply (i_s _ _ _ _ _ (ru_inv _ _ _ _ R1)).
      * cbn. rewrite !upd_eq, length_app. cbn. pose proof (sem_queue_length idle k n ltac:(by exists loc)). lia.
    + cbn. rewrite upd_eq. done.
  - apply evolve_me; try done. intros. by apply (thd_other me _ (set_cnt n (s_cnt k n - 1) k)).
Qed.

Lemma returned_take {A} me (Q : kernel → A → kernel → Prop) n k a :
  kinv k → currp k = me → ¬ armed k me → 0 < s_cnt k n →
  (∀ k', kinv k' → currp k' = me → ¬ armed k' me → evolve me k k' → Q k a k') →
  Q k a (set_cnt n (s_cnt k n - 1) k).
Proof.
  intros [loc H] Hc Ha Hp Hf. apply Hf; try done; [|by apply evolve_me].
  exists loc. eapply inv_cnt; [exact H|]. apply (sinv_close _ _ n); [apply sinv_cnt, H|].
  cbn. rewrite upd_eq, (sem_queue_length idle k n) by by exists loc. lia.
Qed.

Lemma chSemWaitS_safe me n k : count_ok k n → me ≠ idle → op_safe me (chSemWaitS n) k.
Proof.
  intros Hn Hi H Hc Ha. destruct (running_start me k H Hc Ha) as (loc & HI & R).
  eapply safe_iclass; [by apply dec_counter_eq|]. destruct (Z.ltb_spec (s_cnt k n - 1) 0) as [L|L].
  - destruct (sem_block me loc k n HI R ltac:(lia)) as [B He]. apply safe_self. cbn [currp set_cnt k_set_s_cnt]. rewrite Hc.
    eapply safe_iclass; [reflexivity|]. eapply safe_iclass; [reflexivity|].
    eapply (safe_block_msg me _ k _ _ WTSEM); [exact B|done|exact He|done|]. intros m k' []. by apply returned_id.
  - apply (returned_take me (returned me) n k MSG_OK); try done. lia.
Qed.

(** Waiting with a limit, followed by anything. *)
Lemma safe_sem_timeout me (Q : kernel → Z → kernel → Prop) n time k :
  count_ok k n → me ≠ idle → 0 <= time < 2 ^ 32 → kinv k → currp k = me → ¬ armed k me →
  (∀ k1 m k', kinv k' → currp k' = me → ¬ armed k' me → evolve me k1 k' → Q k1 m k') →
  safe me Q k (chSemWaitTimeoutS n time k).
Proof.
  intros Hn Hi Htm H Hc Ha Hf. destruct (running_start me k H Hc Ha) as (loc & HI & R).
  eapply safe_iclass; [by apply dec_counter_eq|]. destruct (Z.ltb_spec (s_cnt k n - 1) 0) as [L|L].
  - destruct (decide (time = TIME_IMMEDIATE)).
    + assert (count_ok (set_cnt n (s_cnt k n - 1) k) n ∨ s_cnt k n - 1 = INT32_MIN) as Hn'
        by (unfold count_ok in *; cbn; rewrite upd_eq; lia).
      eapply safe_iclass.
      { unfold inc_counter. fw_pure. cbn [s_cnt set_cnt k_set_s_cnt]. rewrite upd_eq. unfold lift.
        rewrite fw_bind_eq, chk_s32_ok by (unfold count_ok in Hn; lia). reflexivity. }
      apply Hf; try done; [|by apply evolve_me].
      exists loc. eapply inv_cnt; [eapply inv_cnt; [exact HI|apply sinv_cnt, HI]|].
      apply (sinv_close _ _ n).
      * intros n' Hn''. cbn. rewrite !upd_ne by (intros ->; apply Hn''; by left). apply HI, not_elem_of_nil.
      * cbn. rewrite upd_eq, (sem_queue_length idle k n) by done. lia.
    + destruct (sem_block me loc k n HI R ltac:(lia)) as [B He]. apply safe_self. cbn [currp set_cnt k_set_s_cnt]. rewrite Hc.
      eapply safe_iclass; [reflexivity|]. eapply safe_iclass; [reflexivity|].
      eapply (safe_block_timeout me _ k _ _ WTSEM); [exact B|done|exact He|done..].
  - apply (returned_take me Q n k MSG_OK); [done..|lia|]. intros. by apply Hf.
Qed.

Lemma chSemWaitTimeoutS_safe me n time k :
  count_ok k n → me ≠ idle → 0 <= time < 2 ^ 32 → op_safe me (chSemWaitTimeoutS n time) k.
Proof. intros Hn Hi Htm H Hc Ha. by apply safe_sem_timeout. Qed.

Lemma chSemSignalWait_safe me sps spw k :
  count_ok k sps → count_ok k spw → s_cnt k spw + 1 < INT32_MAX → me ≠ idle →
  op_safe me (chSemSignalWait sps spw) k.
Proof.
  intros H1 H2 H3 Hi H Hc Ha. destruct (signal_one_ok idle sps k H H1) as (k1 & E & Hk1 & P & C & _).
  eapply safe_iclass; [exact E|]. destruct (ipost_run me k k1 P Hc Ha) as (Hc1 & Ha1 & He1).
  assert (count_ok k1 spw) as Hn.
  { unfold count_ok. rewrite C. unfold upd. case_decide; subst; unfold count_ok in *; lia. }
  destruct (running_start me k1 Hk1 Hc1 Ha1) as (loc & HI & R).
  eapply safe_iclass; [by apply dec_counter_eq|]. destruct (Z.ltb_spec (s_cnt k1 spw - 1) 0) as [L|L].
  - destruct (sem_block me loc k1 spw HI R ltac:(lia)) as [B He]. apply safe_self. cbn [currp set_cnt k_set_s_cnt]. rewrite Hc1.
    eapply safe_iclass; [reflexivity|]. eapply safe_iclass; [reflexivity|]. apply safe_bind.
    eapply (safe_block me _ k _ _ WTSEM); [exact B|done|by eapply evolve_trans|].
    intros k' R'. destruct (proj1 (re_know _ _ _ _ R') eq_refl) as [m Eu].
    eapply safe_iclass_end; [by rewrite Eu|]. destruct R'. by apply returned_id.
  - set (k2 := set_cnt spw (s_cnt k1 spw - 1) k1).
    apply (returned_take me (λ _ _ k2, safe me (returned me) k ((chSchRescheduleS;; kret MSG_OK) k2)) spw k1 MSG_OK); try done; [lia|].
    intros k' ? ? ? ?. apply safe_resched_ret; try done. by eapply evolve_trans.
Qed.

(** ** Threads *)

Lemma running_lone_u me loc k u st :
  running [] me loc k → in_none (t_state st (t_u u (thd k me))) → st ≠ CURRENT → st ≠ READY →
  blocking me st loc (set_thread me (t_u u) k) ∧ evolve me k (set_thread me (t_u u) k).
Proof.
  intros R Hn H1 H2. split; [|by apply evolve_me; try done; intros; apply thd_other].
  apply running_lone; [by apply running_u|cbn; by rewrite upd_eq|done..].
Qed.

(** The reference set, the thread suspended. *)
Lemma suspend_block me loc k r :
  running [] me loc k →
  let k2 := set_thread me (t_u (WtTrp r)) (set_tref r (Some me) k) in
  blocking me SUSPENDED loc k2 ∧ evolve me k k2.
Proof.
  intros R k2. assert (inv [] [me] loc (set_tref r (Some me) k)) as I1.
  { apply inv_tref; [apply R|]. intros t [= <-]. by left. }
  destruct R. split.
  - split; try done.
    + apply inv_thread_u; [done|by left].
    + rewrite ru_loc0. cbn. rewrite upd_eq. by exists r.
    + intros r' Hr. cbn in *. rewrite upd_eq. split; [done|]. unfold upd in Hr. case_decide; [by subst|].
      by apply ru_ref0 in Hr.
    + by right.
  - apply evolve_me; try done. intros. by apply (thd_other me _ (set_tref r (Some me) k)).
Qed.

Lemma chThdSuspendS_safe me r k : me ≠ idle → op_safe me (chThdSuspendS r) k.
Proof.
  intros Hi H Hc Ha. destruct (running_start me k H Hc Ha) as (loc & HI & R).
  destruct (suspend_block me loc k r R) as [B He]. apply safe_self. rewrite Hc.
  eapply safe_iclass; [reflexivity|]. eapply safe_iclass; [reflexivity|].
  eapply (safe_block_msg me _ k _ _ SUSPENDED); [exact B|done|exact He|done|]. intros m k' []. by apply returned_id.
Qed.

Lemma chThdSuspendTimeoutS_safe me r time k :
  me ≠ idle → 0 <= time < 2 ^ 32 → op_safe me (chThdSuspendTimeoutS r time) k.
Proof.
  intros Hi Htm H Hc Ha. destruct (running_start me k H Hc Ha) as (loc & HI & R).
  destruct (suspend_block me loc k r R) as [B He]. apply safe_self. rewrite Hc.
  destruct (decide (time = TIME_IMMEDIATE)); [by apply returned_id|].
  eapply safe_iclass; [reflexivity|]. eapply safe_iclass; [reflexivity|].
  eapply (safe_block_timeout me _ k _ _ SUSPENDED); [exact B|done|exact He|done..].
Qed.

Lemma chThdResumeS_safe me r m k : op_safe me (chThdResumeS r m) k.
Proof.
  intros [loc H] Hc Ha. eapply safe_iclass; [reflexivity|]. destruct (trefs k r) as [t|] eqn:Et.
  - destruct (i_r _ _ _ _ _ H r t Et ltac:(apply not_elem_of_nil)) as [Hst Hu].
    destruct (suspended_movable idle loc k r t H Hst Hu) as (I & M & P).
    eapply safe_iclass; [reflexivity|]. destruct (ipost_run me _ _ P Hc Ha) as (? & ? & ?).
    by eapply safe_wakeup_end.
  - apply returned_id; try done. by exists loc.
Qed.

Lemma chThdEnqueueTimeoutS_safe me tq time k :
  me ≠ idle → 0 <= time < 2 ^ 32 → op_safe me (chThdEnqueueTimeoutS tq time) k.
Proof.
  intros Hi Htm H Hc Ha. destruct (running_start me k H Hc Ha) as (loc & HI & R). unfold chThdEnqueueTimeoutS.
  destruct (decide (time = TIME_IMMEDIATE)); [by apply returned_id|]. apply safe_self. rewrite Hc.
  eapply safe_iclass; [reflexivity|].
  eapply (safe_block_timeout me _ k _ _ QUEUED); [|done|by apply evolve_me|done..].
  apply (running_insert _ _ _ _ _ _ _ R); try done.
  - by rewrite Permutation_app_comm.
  - apply (sinv_queue []); [done|apply HI].
Qed.

Lemma chThdSleepS_safe me time k : me ≠ idle → 0 <= time < 2 ^ 32 → op_safe me (chThdSleepS time) k.
Proof.
  intros Hi Htm H Hc Ha. destruct (running_start me k H Hc Ha) as (loc & HI & R). apply safe_bind.
  eapply (safe_block_timeout me _ k _ _ SLEEPING); [by apply running_lone|done|apply evolve_refl|done..|].
  intros. by split_and!.
Qed.

Lemma chThdSleepUntil_safe me time k : me ≠ idle → op_safe me (chThdSleepUntil time) k.
Proof.
  intros Hi H Hc Ha. eapply safe_iclass; [reflexivity|]. cbv beta zeta. destruct (0 <? u32 (time - k_now k)); cbn [kwhen]; [|by apply returned_id].
  apply chThdSleepS_safe; try done. apply u32_range.
Qed.

Lemma chThdSleepUntilWindowed_safe me prev next k : me ≠ idle → op_safe me (chThdSleepUntilWindowed prev next) k.
Proof.
  intros Hi H Hc Ha. eapply safe_iclass; [reflexivity|]. apply safe_bind. cbv beta.
  destruct (chVTIsTimeWithinX (k_now k) prev next); cbn [kwhen]; [|by apply returned_id].
  eapply safe_mono; [|apply chThdSleepS_safe; try done; apply u32_range]. by intros k1 [] k' ?.
Qed.

Lemma chThdYield_safe me k : op_safe me chThdYield k.
Proof.
  intros H Hc Ha. apply safe_yield; try done; [apply evolve_refl|].
  intros k1 k' (? & ? & ? & ?). split_and!; auto.
Qed.

End safe.
End KSafe.
