(* ===== verification/KCalls.v ===== *)
(** * Safe operations of threads, continued

    Priorities, starting and ending threads, events and synchronous messages. *)

From S2P Require Import Prelude SysTime Fw VTimers Memory Kernel Sync Threads Events Sched KInv KOps KWake KSafe.
From stdpp Require Import list.
Import SysTime VTimers Kernel Sem Cond Threads Msg Events Sched KInv KOps KWake KSafe.
#[local] Open Scope Z_scope.

Module KCalls.
Section calls.
Variable idle : nat.
Notation inv := (inv idle).
Notation kinv := (kinv idle).
Notation safe := (safe idle).
Notation movable := (movable idle).
Notation returned := (returned idle).
Notation iok := (iok idle).
Notation running := (running idle).
Notation blocking := (blocking idle).
Notation op_safe := (op_safe idle).

(** ** Priority *)

Lemma chThdSetPriority_safe me p k : 0 < p → op_safe me (chThdSetPriority p) k.
Proof.
  intros Hp H Hc Ha. destruct (running_start idle me k H Hc Ha) as (loc & HI & [_ _ Hl _ _ _]).
  apply safe_self. rewrite Hc. eapply safe_iclass; [reflexivity|].
  set (b := (_ || _) : bool).
  assert (∃ k1, (when b (thd_set me (t_prio p))) k = Ok (tt, k1) ∧ inv [] [] loc k1 ∧ ipost k k1) as (k1 & E1 & I1 & P1).
  { destruct b.
    - exists (set_thread me (t_prio p) k). split_and!; [done| |].
      + apply inv_neutral; try done; [apply HI|]. right. split; [done|]. intros q _. by rewrite Hl.
      + apply ipost_same; try done; intros x; unfold awake, wst; rewrite thd_set_thread; by case_decide; subst.
    - exists k. split_and!; [done|done|apply ipost_refl]. }
  eapply safe_iclass; [exact E1|]. eapply safe_iclass; [reflexivity|].
  set (k2 := set_thread me (t_realprio p) k1).
  assert (inv [] [] loc k2) as I2 by (apply inv_neutral; try done; by left).
  assert (ipost k k2) as P2.
  { eapply ipost_trans; [exact P1|]. apply ipost_same; try done; intros x; unfold awake, wst, k2; rewrite thd_set_thread; by case_decide; subst. }
  destruct (ipost_run me k k2 P2 Hc Ha) as (? & ? & ?). apply safe_resched_ret; try done. by exists loc.
Qed.

(** ** Starting a thread *)

(** Never started, and nothing refers to it. *)
Record unborn (k : kernel) (t : nat) : Prop := {
  ub_state : p_state (thd k t) = WTSTART;
  ub_mtx : p_mtxlist (thd k t) = [];
  ub_wait : queues k (QWait t) = [];
  ub_msg : queues k (QMsg t) = []
}.

Lemma start_loc loc k t : inv [] [] loc k → p_state (thd k t) = WTSTART → loc t = None.
Proof.
  intros H Hst. pose proof (q_ok _ _ _ _ (i_q _ _ _ _ _ H) t ltac:(apply not_elem_of_nil)) as Hok.
  destruct (loc t) as [[]|]; cbn in Hok; naive_solver congruence.
Qed.

Lemma start_movable loc k t :
  inv [] [] loc k → p_state (thd k t) = WTSTART → t ∈ registry k → inv [] [t] loc k ∧ movable loc k t.
Proof.
  intros H Hst Hg. split; [by apply inv_weaken|]. pose proof (start_loc _ _ _ H Hst) as Hl.
  assert (¬ awake (thd k t)) as Ha by (intros [Hx|Hx]; congruence).
  destruct H as [Hq _ _ Hr _ _]. split; try done; [| | |congruence..].
  - intros ->. apply Ha. right. apply (q_cur _ _ _ _ Hq), not_elem_of_nil.
  - intros ->. apply Ha, Hq.
  - intros r Hx. destruct (Hr r t Hx ltac:(apply not_elem_of_nil)). congruence.
Qed.

Lemma inv_registry_grow E F loc k t : inv E F loc k → inv E F loc (k_set_registry (registry k ++ [t]) k).
Proof.
  intros [[] Hs [] Hr [M1 M2 M3 M4 M5] Hg]. split; try done.
  - split; try done. intros m x Hx. apply elem_of_app. left. by eapply M4.
  - intros x Hn. destruct (Hg x Hn) as [|[|]]; [by left|by right; left|]. right; right. apply elem_of_app. by left.
Qed.

Lemma inv_queue_same E F loc k q : inv E F loc k → queues k q = [] → inv E F loc (set_queue q [] k).
Proof.
  intros H Hq. assert (∀ q', queues (set_queue q [] k) q' = queues k q') as He.
  { intros q'. rewrite queues_set_queue. by case_decide; subst. }
  apply (inv_put idle E _ F _ loc _ k); try done.
  - destruct H as [[] _ _ _ _ _]. split; try done; intros *; rewrite He; auto.
  - intros n Hn. rewrite He. by apply H.
  - intros m. rewrite He. apply H.
Qed.

Lemma thread_init_ok tp prio k :
  kinv k → unborn k tp → 0 < prio →
  ∃ k', _thread_init tp prio k = Ok (tp, k') ∧ (∃ loc, inv [] [] loc k') ∧ ipost k k'
    ∧ p_state (thd k' tp) = WTSTART ∧ tp ∈ registry k'.
Proof.
  intros [loc H] [U1 U2 U3 U4] Hp. pose proof (start_loc _ _ _ H U1) as Hl.
  eexists. split_and!; [reflexivity| | | |].
  - exists loc. apply inv_queue_same; [|by cbn; rewrite upd_ne]. apply inv_queue_same; [|done].
    apply inv_registry_grow. apply inv_neutral; try done.
    right. split; [done|]. intros q _. by rewrite Hl.
  - apply ipost_same; try done.
    + intros t. cbn. unfold upd. case_decide; subst; [|done]. unfold awake. cbn. by rewrite U1.
    + intros t. cbn. unfold upd. case_decide; subst; [|done]. unfold wst. cbn. by rewrite U1.
    + intros t Ht. cbn. unfold upd. case_decide as E; [injection E as ->; by rewrite U4 in Ht|]. by case_decide.
  - cbn. by rewrite upd_eq.
  - cbn. apply elem_of_app. right. by left.
Qed.

Lemma chThdCreateI_ok tp prio k : kinv k → unborn k tp → 0 < prio → iok (chThdCreateI tp prio) k.
Proof. intros H U Hp. destruct (thread_init_ok tp prio k H U Hp) as (k' & ? & ? & ? & _). by exists tp, k'. Qed.

Lemma chThdCreateStatic_safe me tp prio k :
  unborn k tp → 0 < prio → op_safe me (chThdCreateStatic tp prio) k.
Proof.
  intros U Hp H Hc Ha. destruct (thread_init_ok tp prio k H U Hp) as (k1 & E & [loc I] & P & S & G).
  eapply safe_iclass; [exact E|]. destruct (ipost_run me k k1 P Hc Ha) as (? & ? & ?).
  destruct (start_movable loc k1 tp I S G) as [I' M]. apply safe_bind.
  eapply safe_mono; [|by eapply safe_wakeup_end]. by intros k2 [] k' ?.
Qed.

Lemma chThdStartI_ok tp k :
  kinv k → p_state (thd k tp) = WTSTART → tp ∈ registry k → iok (chThdStartI tp) k.
Proof.
  intros [loc H] Hst Hg. destruct (start_movable loc k tp H Hst Hg) as [I []].
  destruct (wake_plain idle _ _ _ _ I) as (E & I' & W); try done.
  exists tp, (do_ready tp k). split_and!; [exact E|done|].
  split; try by rewrite ?(rest_currp _ _ (wk_r _ _ _ _ W)), ?(rest_vtl _ _ (wk_r _ _ _ _ W)), ?(rest_owner _ _ (wk_r _ _ _ _ W)).
  intros me. eapply evolve_woken_know; [done| |exact W]. rewrite Hst. by split_and!.
Qed.

(** ** Ending a thread *)

Lemma running_kinv me loc k :
  running [] me loc k → p_state (thd k me) = CURRENT → kinv k.
Proof.
  intros [] Hst. exists loc. eapply inv_settle; [done|]. intros t ->%list_elem_of_singleton. right.
  rewrite ru_loc0. cbn. unfold in_none. rewrite Hst. split_and!; [done|done|by left| |by right].
  intros r Hr. by apply ru_ref0 in Hr.
Qed.

Lemma unregister_blocking me loc k :
  running [] me loc k → p_mtxlist (thd k me) = [] →
  blocking me FINAL loc (k_set_registry (filter (λ x, x ≠ me) (registry k)) k).
Proof.
  intros [[[] Hs [] Hr [M1 M2 M3 M4 M5] Hg] Hc Hl Hrf _ Ha] Hm. split; try done.
  - split; try done.
    + split; try done. intros m t Hx. apply list_elem_of_filter. split; [|by eapply M4].
      intros ->. apply M1 in Hx. rewrite Hm in Hx. by apply elem_of_nil in Hx.
    + intros t Hn. destruct (Hg t Hn) as [|[|]]; [by left|by right; left|]. right; right.
      apply list_elem_of_filter. split; [|done]. by rewrite list_elem_of_singleton in Hn.
  - by rewrite Hl.
  - intros r Hx. by apply Hrf in Hx.
  - by left.
Qed.

(** The call does not return. *)
Lemma chThdExitS_safe me m k :
  me ≠ idle → p_mtxlist (thd k me) = [] → op_safe me (chThdExitS m) k.
Proof.
  intros Hi Hm H Hc Ha. destruct (running_start idle me k H Hc Ha) as (loc & HI & R).
  apply safe_self. rewrite Hc. eapply safe_iclass; [reflexivity|]. set (k1 := set_thread me (t_u (ExitCode m)) k).
  assert (p_state (thd k me) = CURRENT) as Hcur by (rewrite <-Hc; by eapply current_facts, not_elem_of_nil).
  assert (kinv k1) as H1.
  { apply (running_kinv me loc); [by apply running_u|]. unfold k1. rewrite thd_set_thread, decide_True by done. exact Hcur. }
  assert (evolve me k k1) as He1 by (apply evolve_me; try done; intros; by apply thd_other).
  destruct (drain_ok idle _ (QWait me) _ k1 true_adds_up (pops_exit idle me) H1) as ([] & k2 & E2 & H2 & P2).
  eapply safe_iclass; [exact E2|]. eapply safe_iclass; [reflexivity|]. cbv beta.
  destruct (ipost_run me k1 k2 P2 Hc Ha) as (Hc2 & Ha2 & He2).
  destruct (running_start idle me k2 H2 Hc2 Ha2) as (loc2 & HI2 & R2).
  assert (p_mtxlist (thd k2 me) = []) as Hm2.
  { destruct (p_mtxlist (thd k2 me)) as [|x l] eqn:El; [done|].
    assert (m_owner k2 x = Some me) as Hx by (apply HI2; rewrite El; by left).
    rewrite (ip_own _ _ P2) in Hx. apply HI in Hx. rewrite Hm in Hx. by apply elem_of_nil in Hx. }
  set (b := (_ =? _) : bool).
  assert (∃ k3, (when b (REG_REMOVE me)) k2 = Ok (tt, k3) ∧ blocking me FINAL loc2 k3 ∧ evolve me k2 k3) as (k3 & E3 & B3 & He3).
  { destruct b.
    - eexists. split_and!; [reflexivity|by apply unregister_blocking|by apply evolve_me].
    - exists k2. split_and!; [done|by apply running_lone|apply evolve_refl]. }
  eapply safe_iclass; [exact E3|]. eapply (safe_block idle me _ k k3 loc2 FINAL); [done|done| |].
  - eapply evolve_trans; [exact He1|]. by eapply evolve_trans.
  - intros k' []. by apply returned_id.
Qed.

(** ** Waiting for events *)

Lemma wait_for_safe me (Q : kernel → unit → kernel → Prop) st ev k :
  me ≠ idle → kinv k → currp k = me → ¬ armed k me → st = WTOREVT ∨ st = WTANDEVT →
  (∀ k', kinv k' → currp k' = me → ¬ armed k' me → Q k' tt k') → safe me Q k (wait_for me st ev k).
Proof.
  intros Hi H Hc Ha Hst Hf. destruct (running_start idle me k H Hc Ha) as (loc & HI & R).
  destruct (running_lone_u idle me loc k (EwMask ev) st R) as [B He];
    [destruct Hst; subst; by exists ev|destruct Hst; by subst..|].
  eapply safe_iclass; [reflexivity|]. eapply safe_block; [exact B|done|exact He|]. intros k' []. by apply Hf.
Qed.

Lemma clear_events_ret {A} me m (a : A) k0 k :
  kinv k → currp k = me → ¬ armed k me → evolve me k0 k →
  safe me (returned me) k0 ((clear_events me m;; kret a) k).
Proof.
  intros [loc H] Hc Ha He. eapply safe_iclass; [reflexivity|].
  set (e := Z.ldiff (p_epending (thd k me)) m).
  destruct (ipost_run me k _ (ipost_epending k me e) Hc Ha) as (? & ? & ?).
  split_and!; [exists loc; by apply (inv_epending _ _ _ _ _ me e)|done|by eapply evolve_trans|done].
Qed.

Lemma chEvtWaitOne_safe me ev k : me ≠ idle → op_safe me (chEvtWaitOne ev) k.
Proof.
  intros Hi H Hc Ha. apply safe_self. rewrite Hc. eapply safe_iclass; [reflexivity|]. cbv beta. apply safe_bind.
  destruct (_ =? 0).
  - apply safe_bind. apply wait_for_safe; try done; [by left|]. intros k' H' Hc' Ha'.
    eapply safe_iclass_end; [reflexivity|]. apply clear_events_ret; try done. apply evolve_refl.
  - apply clear_events_ret; try done. apply evolve_refl.
Qed.

Lemma chEvtWaitAny_safe me ev k : me ≠ idle → op_safe me (chEvtWaitAny ev) k.
Proof.
  intros Hi H Hc Ha. apply safe_self. rewrite Hc. eapply safe_iclass; [reflexivity|]. cbv beta. apply safe_bind.
  destruct (_ =? 0).
  - apply safe_bind. apply wait_for_safe; try done; [by left|]. intros k' H' Hc' Ha'.
    eapply safe_iclass_end; [reflexivity|]. apply clear_events_ret; try done. apply evolve_refl.
  - apply clear_events_ret; try done. apply evolve_refl.
Qed.

Lemma chEvtWaitAll_safe me ev k : me ≠ idle → op_safe me (chEvtWaitAll ev) k.
Proof.
  intros Hi H Hc Ha. apply safe_self. rewrite Hc. eapply safe_iclass; [reflexivity|]. cbv beta. apply safe_bind.
  destruct (negb _); cbn [kwhen].
  - apply wait_for_safe; try done; [by right|]. intros k' H' Hc' Ha'.
    apply clear_events_ret; try done. apply evolve_refl.
  - apply clear_events_ret; try done. apply evolve_refl.
Qed.

(** The waits with a time limit, followed by anything. *)
Lemma wait_timeout_safe me (Q : kernel → bool → kernel → Prop) st ev time k :
  me ≠ idle → 0 <= time < 2 ^ 32 → kinv k → currp k = me → ¬ armed k me → st = WTOREVT ∨ st = WTANDEVT →
  (∀ k1 b k', kinv k' → currp k' = me → ¬ armed k' me → evolve me k1 k' → Q k1 b k') →
  safe me Q k (wait_timeout me st ev time k).
Proof.
  intros Hi Htm H Hc Ha Hst Hf. unfold wait_timeout. destruct (decide (time = TIME_IMMEDIATE)).
  { apply Hf; try done. apply evolve_refl. }
  destruct (running_start idle me k H Hc Ha) as (loc & HI & R).
  destruct (running_lone_u idle me loc k (EwMask ev) st R) as [B He];
    [destruct Hst; subst; by exists ev|destruct Hst; by subst..|].
  eapply safe_iclass; [reflexivity|]. apply safe_bind.
  eapply (safe_block_timeout idle me _ k _ loc st); [exact B|done|exact He|by destruct Hst; subst..|done|].
  intros k1 m k' ? ? ? ?. by apply Hf.
Qed.

Lemma wait_or_timeout_safe me (Q : kernel → option Z → kernel → Prop) ev time k :
  me ≠ idle → 0 <= time < 2 ^ 32 → kinv k → currp k = me → ¬ armed k me →
  (∀ k1 r k', kinv k' → currp k' = me → ¬ armed k' me → evolve me k1 k' → Q k1 r k') →
  safe me Q k (wait_or_timeout me ev time k).
Proof.
  intros Hi Htm H Hc Ha Hf. eapply safe_iclass; [reflexivity|]. cbv beta. destruct (_ =? 0).
  - apply safe_bind. apply wait_timeout_safe; try done; [by left|]. intros k1 [] k' ? ? ? ?.
    + eapply safe_iclass; [reflexivity|]. by apply Hf.
    + by apply Hf.
  - apply Hf; try done. apply evolve_refl.
Qed.

Lemma chEvtWaitOneTimeout_safe me ev time k :
  me ≠ idle → 0 <= time < 2 ^ 32 → op_safe me (chEvtWaitOneTimeout ev time) k.
Proof.
  intros Hi Htm H Hc Ha. apply safe_self. rewrite Hc. apply safe_bind. apply wait_or_timeout_safe; try done.
  intros k1 [m|] k' ? ? ? ?; [by apply clear_events_ret|by split_and!].
Qed.

Lemma chEvtWaitAnyTimeout_safe me ev time k :
  me ≠ idle → 0 <= time < 2 ^ 32 → op_safe me (chEvtWaitAnyTimeout ev time) k.
Proof.
  intros Hi Htm H Hc Ha. apply safe_self. rewrite Hc. apply safe_bind. apply wait_or_timeout_safe; try done.
  intros k1 [m|] k' ? ? ? ?; [by apply clear_events_ret|by split_and!].
Qed.

Lemma chEvtWaitAllTimeout_safe me ev time k :
  me ≠ idle → 0 <= time < 2 ^ 32 → op_safe me (chEvtWaitAllTimeout ev time) k.
Proof.
  intros Hi Htm H Hc Ha. apply safe_self. rewrite Hc. eapply safe_iclass; [reflexivity|]. cbv beta. apply safe_bind.
  destruct (_ =? ev).
  - apply clear_events_ret; try done. apply evolve_refl.
  - apply wait_timeout_safe; try done; [by right|].
    intros k1 [] k' ? ? ? ?; [by apply clear_events_ret|by split_and!].
Qed.

(** ** Synchronous messages *)

Lemma inv_more E F F' loc k : inv E F loc k → F ⊆ F' → inv E F' loc k.
Proof. intros H HF. eapply inv_settle; [exact H|]. intros t Ht. left. by apply HF. Qed.

Lemma send_block me tp m loc k :
  running [] me loc k →
  let k1 := set_thread me (t_u (WtMsg tp)) (set_thread me (t_msg m) k) in
  let k2 := set_queue (QMsg tp) (queues k (QMsg tp) ++ [me]) k1 in
  blocking me SNDMSGQ (upd loc me (Some (QMsg tp))) k2 ∧ evolve me k k2.
Proof.
  intros R k1 k2. assert (running [] me loc k1) as R1.
  { apply running_u. destruct R. split; try done. apply inv_set; try done; [by left|]. intros ->. apply ru_inv0. }
  split.
  - apply (running_insert idle _ _ _ _ _ _ _ R1); try done.
    + by rewrite Permutation_app_comm.
    + apply (sinv_queue [] k1 (QMsg tp)); [done|apply R1].
    + cbn. by rewrite upd_eq.
  - apply evolve_me; try done.
    + intros t Ht. change (thd k2) with (thd k1). unfold k1. by rewrite !thd_other.
    + intros r Hr. cbn. unfold upd. case_decide; [|done]. by destruct (queues k (QMsg tp)).
Qed.

Lemma chMsgSend_safe me tp m k : me ≠ idle → op_safe me (chMsgSend tp m) k.
Proof.
  intros Hi H Hc Ha. destruct (running_start idle me k H Hc Ha) as (loc & HI & R).
  destruct (send_block me tp m loc k R) as [B He]. apply safe_self. rewrite Hc.
  do 4 (eapply safe_iclass; [reflexivity|]). cbv beta.
  set (k2 := set_queue (QMsg tp) _ _) in *. change (set_queue (QMsg tp) _ _) with k2.
  assert (∃ k3 loc', when (bool_decide (p_state (thd k2 tp) = WTMSG)) (chSchReadyI tp;; ret tt) k2 = Ok (tt, k3)
     ∧ blocking me SNDMSGQ loc' k3 ∧ evolve me k k3) as (k3 & loc' & E3 & B3 & He3).
  { case_bool_decide as Ew; cbn [when]; [|by exists k2, (upd loc me (Some (QMsg tp)))].
    assert (p_state (thd k me) = CURRENT) as Hcur by (rewrite <-Hc; by eapply current_facts, not_elem_of_nil).
    assert (tp ≠ me) as Hne.
    { intros ->. cbn in Ew. rewrite !upd_eq in Ew. cbn in Ew. congruence. }
    assert (thd k2 tp = thd k tp) as Etp by (cbn; by rewrite !upd_ne).
    rewrite Etp in Ew.
    assert (loc tp = None) as Hl.
    { pose proof (q_ok _ _ _ _ (i_q _ _ _ _ _ HI) tp ltac:(apply not_elem_of_nil)) as Hok.
      destruct (loc tp) as [[]|]; cbn in Hok; naive_solver congruence. }
    destruct (wake_plain_among idle [] [tp; me] (upd loc me (Some (QMsg tp))) k2 tp) as (E & I & W).
    - eapply inv_more; [apply B|]. intros x Hx. by right.
    - by left.
    - cbn. congruence.
    - by rewrite upd_ne.
    - intros r Hx. destruct (i_r _ _ _ _ _ HI r tp Hx ltac:(apply not_elem_of_nil)). congruence.
    - destruct (i_g _ _ _ _ _ HI tp ltac:(apply not_elem_of_nil)) as [|[|]]; [congruence..|done].
    - exists (do_ready tp k2). eexists. split_and!; [by rewrite (fw_bind_ok _ _ _ _ _ E)| |].
      + rewrite filter_cons_False, filter_cons_True, filter_nil in I by (done || (intros Hx; by apply Hx)).
        destruct B as [B1 B2 B3 B4 B5 B6 B7]. split; [exact I|..].
        * by rewrite (rest_currp _ _ (wk_r _ _ _ _ W)).
        * rewrite upd_ne, (wk_o _ _ _ _ W) by done. exact B3.
        * intros r. rewrite (rest_trefs _ _ (wk_r _ _ _ _ W)), (wk_o _ _ _ _ W) by done. apply B4.
        * rewrite (rest_registry _ _ (wk_r _ _ _ _ W)). exact B5.
        * unfold armed. rewrite (rest_vtl _ _ (wk_r _ _ _ _ W)). exact B6.
        * exact B7.
      + eapply evolve_trans; [exact He|]. eapply evolve_woken_know; [| |exact W]; [|rewrite Etp, Ew; split_and!].
        * unfold awake. rewrite Etp, Ew. naive_solver.
        * done.
        * intros _. rewrite (wk_q _ _ _ _ W) by done. cbn. rewrite upd_eq. by destruct (queues k (QMsg tp)).
        * done. }
  eapply safe_iclass; [exact E3|]. apply safe_bind.
  eapply (safe_block idle me _ k k3 loc' SNDMSGQ); [done..|]. intros k' R'.
  destruct (proj1 (re_know _ _ _ _ _ R') eq_refl) as [m' Eu].
  eapply safe_iclass_end; [by rewrite Eu|]. destruct R'. by apply returned_id.
Qed.

(** The first message taken out: its sender goes on waiting for the release. *)
Lemma take_message me t l k :
  kinv k → currp k = me → ¬ armed k me → queues k (QMsg me) = t :: l →
  returned me k t (set_thread t (t_state SNDMSG) (set_queue (QMsg me) l k)).
Proof.
  intros [loc H] Hc Ha Eq.
  destruct (inv_unlink idle [] [] loc k (upd (queues k) (QMsg me) l) t (QMsg me)) as (I & Hcur & Hi & Hno & Hrg & [Hst Hu] & Haw); try done.
  - by rewrite upd_eq, Eq.
  - intros q' Hn. by rewrite upd_ne.
  - apply (sinv_queue [] k (QMsg me) l); [done|apply H].
  - set (k1 := set_queue (QMsg me) l k). set (k2 := set_thread t (t_state SNDMSG) k1).
    assert (inv [] [t] (upd loc t None) k2) as I2 by (apply inv_thread; [exact I|by left|by left]).
    assert (thd k2 t = t_state SNDMSG (thd k t)) as Et by (unfold k2; cbn; by rewrite upd_eq).
    split_and!; [|done| |done].
    + eexists. eapply inv_settle; [exact I2|]. intros x ->%list_elem_of_singleton. right.
      rewrite upd_eq, Et. cbn. split_and!; [done|done| |intros r Hr; by apply Hno in Hr|by right].
      intros Hx. destruct H as [_ _ [T1 _ _ _] _ _ _].
      destruct (T1 t Hx ltac:(apply not_elem_of_nil)) as [->|Hy]; [done|]. by rewrite Hst in Hy.
    + intros x Hx. unfold evolves. change (m_owner k2) with (m_owner k).
      destruct (decide (x = t)) as [->|Hne].
      * rewrite Et. unfold wst. cbn. rewrite Hst. split_and!; try done; [by left|].
        intros Hq. unfold upd. case_decide; [congruence|done].
      * assert (thd k2 x = thd k x) as -> by (unfold k2; by rewrite thd_other). split_and!; try done; [by left|].
        intros Hq. cbn. unfold upd. case_decide; [congruence|done].
Qed.

Lemma chMsgWait_safe me k : me ≠ idle → op_safe me chMsgWait k.
Proof.
  intros Hi H Hc Ha. apply safe_self. rewrite Hc. eapply safe_iclass; [reflexivity|]. cbv beta.
  assert (∀ k', kinv k' → currp k' = me → ¬ armed k' me → queues k' (QMsg me) ≠ [] →
    safe me (returned me) k' ((tp ← iclass (λ k, queue_fifo_remove (QMsg (currp k)) k);
      iclass (thd_set tp (t_state SNDMSG));; kret tp) k')) as Htake.
  { intros k' H' Hc' Ha' Hq. destruct (queues k' (QMsg me)) as [|t l] eqn:Eq; [done|].
    eapply safe_iclass; [rewrite Hc'; by apply fifo_remove_eq|]. eapply safe_iclass; [reflexivity|]. by apply take_message. }
  apply safe_bind. destruct (queues k (QMsg me)) as [|t l] eqn:Eq; cbn [negb kwhen bool_decide].
  - rewrite bool_decide_false by (intros Hx; by apply Hx). cbn [negb kwhen].
    destruct (running_start idle me k H Hc Ha) as (loc & HI & R).
    eapply (safe_block idle me _ k k loc WTMSG); [by apply running_lone|done|apply evolve_refl|].
    intros k' [R1 R2 R3 R4]. apply Htake; try done. by apply R4.
  - rewrite bool_decide_true by done. cbn [negb kwhen]. apply Htake; try done. by rewrite Eq.
Qed.

Lemma chMsgRelease_safe me t m k : p_state (thd k t) = SNDMSG → op_safe me (chMsgRelease t m) k.
Proof.
  intros Hst [loc H] Hc Ha. destruct (lone_movable idle loc k t H) as [I M]; [by rewrite Hst|congruence|].
  eapply safe_wakeup_end; try done. apply evolve_refl.
Qed.

(** ** Events and condition variables signalled by threads *)

Lemma chEvtSignal_safe me t e k : op_safe me (chEvtSignal t e) k.
Proof. intros H. apply safe_iop_resched; [|done]. by apply chEvtSignalI_ok. Qed.

Lemma chEvtBroadcastFlags_safe me es f k : op_safe me (chEvtBroadcastFlags es f) k.
Proof. intros H. apply safe_iop_resched; [|done]. by apply chEvtBroadcastFlagsI_ok. Qed.

Lemma chCondBroadcast_safe me c k : op_safe me (chCondBroadcast c) k.
Proof. intros H. apply safe_iop_resched; [|done]. by apply chCondBroadcastI_ok. Qed.

Lemma chCondSignal_safe me c k : op_safe me (chCondSignal c) k.
Proof.
  intros [loc H] Hc Ha. eapply safe_iclass; [reflexivity|]. cbv beta.
  destruct (queues k (QCond c)) as [|t l] eqn:Eq.
  - rewrite bool_decide_false by (intros Hx; by apply Hx). apply returned_id; try done. by exists loc.
  - rewrite bool_decide_true by done. cbn [kwhen]. eapply safe_iclass; [by apply fifo_remove_eq|].
    destruct (inv_pop idle [] [] loc k t (QCond c) l) as [I M]; try done.
    + by rewrite Eq.
    + intros Hp. pose proof (q_sorted _ _ _ _ (i_q _ _ _ _ _ H) (QCond c) Hp) as Hx. rewrite Eq in Hx. by inversion Hx.
    + apply sinv_queue; [done|apply H].
    + destruct (ipost_run me k _ (ipost_pop k (QCond c) l Logic.I) Hc Ha) as (? & ? & ?). by eapply safe_wakeup_end.
Qed.

End calls.
End KCalls.
