(* ===== verification/KMtx.v ===== *)
(** * Safe mutexes and condition variables

    Priority inheritance terminates, keeps the queues in order, and the
    operations built on it never fail. *)

From S2P Require Import Prelude SysTime Fw VTimers Memory Kernel Sync Sched KInv KOps KWake KSafe.
From stdpp Require Import list.
Import SysTime VTimers Kernel Sem Mtx Cond Sched KInv KOps KWake KSafe.
#[local] Open Scope Z_scope.

Module KMtx.
Section mtx.
Variable idle : nat.
Notation inv := (inv idle).
Notation kinv := (kinv idle).
Notation safe := (safe idle).
Notation returned := (returned idle).
Notation iok := (iok idle).
Notation running := (running idle).
Notation blocking := (blocking idle).
Notation op_safe := (op_safe idle).

(** ** Priority inheritance *)

(** The registered threads the boost can still raise. *)
Definition below (prio : Z) (k : kernel) : nat := length (filter (λ t, prio_of k t < prio) (registry k)).

Lemma filter_length_lt {A} (P P' : A → Prop) `{∀ x, Decision (P x), ∀ x, Decision (P' x)} (l : list A) x :
  (∀ y, P' y → P y) → x ∈ l → P x → ¬ P' x → (length (filter P' l) < length (filter P l))%nat.
Proof.
  intros HP Hx HPx HPx'.
  assert (∀ l, (length (filter P' l) <= length (filter P l))%nat) as Hle.
  { induction l0 as [|y l0 IH]; [done|]. rewrite !filter_cons. repeat case_decide; cbn; try lia. naive_solver. }
  induction l as [|y l IH]; [by apply elem_of_nil in Hx|]. rewrite !filter_cons. specialize (Hle l).
  apply elem_of_cons in Hx as [->|Hx].
  - rewrite decide_False, decide_True by done. cbn. lia.
  - specialize (IH Hx). repeat case_decide; cbn; try lia. naive_solver.
Qed.

Lemma below_raise prio tp k k' :
  tp ∈ registry k → prio_of k tp < prio → registry k' = registry k →
  (∀ t, prio_of k' t = if decide (t = tp) then prio else prio_of k t) → (below prio k' < below prio k)%nat.
Proof.
  intros Hin Hp Hr Ht. unfold below. rewrite Hr. apply (filter_length_lt _ _ _ tp); try done.
  - intros y. cbn. rewrite Ht. case_decide; [lia|done].
  - cbn. rewrite Ht, decide_True by done. lia.
Qed.

(** Raised and in no queue. *)
Lemma raise_unlinked loc k tp q prio :
  inv [] [] loc k → loc tp = Some q → (∀ n, q ≠ QSem n) → 0 < prio →
  inv [] [tp] (upd loc tp None) (dequeued tp (set_thread tp (t_prio prio) k)).
Proof.
  intros H Hl Hs Hp. pose proof (i_q _ _ _ _ _ H) as Hqi.
  assert (inv [] [tp] (upd loc tp None) (dequeued tp k)) as I1.
  { apply (inv_unplace idle [] _ _ _ _ _ q); try done.
    - apply filter_ne_perm; [apply Hqi|by apply (q_loc _ _ _ _ Hqi)].
    - intros q' Hn. apply filter_ne_id. rewrite (q_loc _ _ _ _ Hqi). congruence.
    - intros Hq. by apply by_prio_filter, Hqi.
    - intros n Hn. pose proof (sinv_dequeued idle loc k tp q n H Hl (Hs n)) as Hd. unfold dequeued in Hd.
      rewrite Hd. by apply H. }
  apply (inv_neutral idle _ _ _ _ tp (t_prio prio)) in I1; try done; [apply I1|].
  right. split; [done|]. intros q' _. by rewrite upd_eq.
Qed.

(** What the boost may change. *)
Record boosted (k k' : kernel) : Prop := {
  bo_post : ipost k k';
  bo_inv : kinv k';
  bo_reg : registry k' = registry k
}.

Lemma thd_raised_same tp prio k k' :
  (∀ x, thd k' x = thd (set_thread tp (t_prio prio) k) x) →
  (∀ x, awake (thd k' x) ↔ awake (thd k x)) ∧ (∀ x, wst (thd k' x) = wst (thd k x) ∧ p_u (thd k' x) = p_u (thd k x))
  ∧ (∀ x, prio_of k' x = if decide (x = tp) then prio else prio_of k x).
Proof.
  intros E. unfold awake, wst, prio_of. split_and!; intros x; rewrite E, thd_set_thread; by case_decide; subst.
Qed.

(** One thread raised, in the queue it was in. *)
Record raised (prio : Z) (tp : nat) (k k' : kernel) : Prop := {
  ra_boosted : boosted k k';
  ra_prio x : prio_of k' x = if decide (x = tp) then prio else prio_of k x;
  ra_waits m x : x ∈ queues k' (QMtx m) ↔ x ∈ queues k (QMtx m)
}.

Lemma relinked_waits loc k tp q q' l x :
  inv [] [] loc k → loc tp = Some q → l ≡ₚ tp :: filter (λ x, x ≠ tp) (queues k q) →
  x ∈ queues (set_queue q l (dequeued tp k)) q' ↔ x ∈ queues k q'.
Proof.
  intros H Hl Hp. pose proof (i_q _ _ _ _ _ H) as Hq. rewrite queues_set_queue. case_decide as E; [subst|].
  - rewrite Hp, filter_ne_perm; [done|apply Hq|by apply (q_loc _ _ _ _ Hq)].
  - cbn. rewrite filter_ne_id; [done|]. rewrite (q_loc _ _ _ _ Hq). congruence.
Qed.

(** Raised and linked again in the queue it was in. *)
Lemma relink loc k tp q prio :
  inv [] [] loc k → loc tp = Some q → prio_queue q → 0 < prio →
  let k1 := dequeued tp (set_thread tp (t_prio prio) k) in
  let k' := set_queue q (link_before (λ cp, prio_of k1 cp <? prio_of k1 tp) tp (queues k1 q)) k1 in
  raised prio tp k k'.
Proof.
  intros H Hl Hq Hp k1 k'. assert (∀ n, q ≠ QSem n) as Hs by (by intros n ->).
  pose proof (raise_unlinked loc k tp q prio H Hl Hs Hp) as I1. fold k1 in I1.
  pose proof (i_q _ _ _ _ _ H) as Hqi.
  destruct (thd_raised_same tp prio k k') as (A1 & A2 & A3); [done|].
  split; [|done|intros m x; apply (relinked_waits loc k tp q (QMtx m) _ x H Hl); apply link_before_perm].
  assert (queues k1 q = filter (λ x, x ≠ tp) (queues k q)) as Eq by done.
  assert (loc_ok (Some q) (thd k' tp)) as Hok.
  { pose proof (q_ok _ _ _ _ Hqi tp ltac:(apply not_elem_of_nil)) as Hok. rewrite Hl in Hok.
    change (thd k' tp) with (thd (set_thread tp (t_prio prio) k) tp). rewrite thd_set_thread, decide_True by done.
    by destruct q. }
  split; [| |done].
  - apply ipost_same; try done. intros r Hr. unfold k'. rewrite queues_set_queue. case_decide as E; [by subst q|].
    cbn. rewrite filter_ne_id; [done|]. rewrite (q_loc _ _ _ _ Hqi), Hl. congruence.
  - exists (upd (upd loc tp None) tp (Some q)). eapply inv_settle.
    + eapply (inv_put idle [] [] [tp] [tp]); [exact I1| |done| |done| |by intros].
      * eapply (qinv_place idle [tp] (upd loc tp None) k1 _ tp q); try done; [apply I1|by rewrite upd_eq|..].
        -- unfold k'. rewrite queues_set_queue, decide_True by done. apply link_before_perm.
        -- intros q' Hn. unfold k'. by rewrite queues_set_queue, decide_False.
        -- intros _. unfold k'. rewrite queues_set_queue, decide_True by done.
           apply ready_sorted; [intros c; rewrite Z.ltb_lt; lia|intros c; rewrite Z.ltb_ge; lia|].
           by apply (q_sorted _ _ _ _ (i_q _ _ _ _ _ I1)).
      * apply (sinv_queue [] k1 q); [done|apply I1].
      * intros m. unfold k'. rewrite queues_set_queue. case_decide as E; [|apply I1]. intros _. subst q.
        apply (m_wait _ (i_m _ _ _ _ _ H)). intros Hx. apply (q_loc _ _ _ _ Hqi) in Hl. rewrite Hx in Hl.
        by apply elem_of_nil in Hl.
    + intros t ->%list_elem_of_singleton. right. rewrite upd_eq.
      assert (∀ th, in_queue q th → p_state th ≠ CURRENT ∧ p_state th ≠ SUSPENDED ∧ p_state th ≠ WTSTART ∧ p_state th ≠ FINAL) as Hcls.
      { intros th Hx. destruct q; cbn in Hx; try done; [by rewrite Hx|by destruct Hx as [-> _]..]. }
      destruct (Hcls _ Hok) as (Hst & Hsu & _).
      assert (p_state (thd k' tp) = p_state (thd k tp)) as Es.
      { change (thd k' tp) with (thd (set_thread tp (t_prio prio) k) tp). by rewrite thd_set_thread, decide_True. }
      assert (tp ≠ currp k) as Hne.
      { intros ->. rewrite Es in Hst. apply Hst, (q_cur _ _ _ _ Hqi), not_elem_of_nil. }
      split_and!; [done| | | |].
      * split; [by intros ?%Hst|by intros E; destruct Hne].
      * intros Ha. rewrite Es. apply (i_t _ _ _ _ _ H); [done|apply not_elem_of_nil].
      * intros r Hx. destruct (i_r _ _ _ _ _ H r tp Hx ltac:(apply not_elem_of_nil)) as [Hy _]. congruence.
      * right. destruct (i_g _ _ _ _ _ H tp ltac:(apply not_elem_of_nil)) as [Hy|[Hy|]]; [..|done];
          rewrite <-Es in Hy; by destruct (Hcls _ Hok) as (? & ? & ? & ?).
Qed.

(** A ready thread raised and made ready again. *)
Lemma reready loc k tp prio :
  inv [] [] loc k → loc tp = Some QReady → 0 < prio →
  let k1 := dequeued tp (set_thread tp (t_prio prio) k) in
  chSchReadyI tp k1 = Ok (tp, do_ready tp k1) ∧ raised prio tp k (do_ready tp k1).
Proof.
  intros H Hl Hp k1. pose proof (raise_unlinked loc k tp QReady prio H Hl ltac:(done) Hp) as I1. fold k1 in I1.
  pose proof (q_ok _ _ _ _ (i_q _ _ _ _ _ H) tp ltac:(apply not_elem_of_nil)) as Hst. rewrite Hl in Hst. cbn in Hst.
  destruct (wake_plain idle [] (upd loc tp None) k1 tp I1) as (E & I2 & W).
  - cbn. intros ->. rewrite (q_cur _ _ _ _ (i_q _ _ _ _ _ H)) in Hst by apply not_elem_of_nil. done.
  - by rewrite upd_eq.
  - intros r Hx. destruct (i_r _ _ _ _ _ H r tp Hx ltac:(apply not_elem_of_nil)). congruence.
  - destruct (i_g _ _ _ _ _ H tp ltac:(apply not_elem_of_nil)) as [Hy|[Hy|]]; [congruence..|done].
  - split; [done|]. assert (∀ x, p_state (thd (do_ready tp k1) x) = p_state (thd k x)
       ∧ p_u (thd (do_ready tp k1) x) = p_u (thd k x)) as Hx.
    { intros x. destruct (decide (x = tp)) as [->|Hn].
      - rewrite (wk_t _ _ _ _ W). cbn. by rewrite upd_eq.
      - rewrite (wk_o _ _ _ _ W) by done. cbn. by rewrite upd_ne. }
    split.
    2: { intros x. unfold prio_of. case_decide as Ex; [subst; rewrite (wk_t _ _ _ _ W); cbn; by rewrite upd_eq|].
         rewrite (wk_o _ _ _ _ W) by done. cbn. by rewrite upd_ne. }
    2: { intros m x. rewrite (wk_q _ _ _ _ W) by done. cbn. rewrite filter_ne_id; [done|].
         rewrite (q_loc _ _ _ _ (i_q _ _ _ _ _ H)), Hl. done. }
    split; [|done|by rewrite (rest_registry _ _ (wk_r _ _ _ _ W))].
    apply ipost_same; try done.
    + intros x. unfold awake. by destruct (Hx x) as [-> _].
    + intros x. unfold wst. by destruct (Hx x) as [-> ->].
    + intros r Hr. rewrite (wk_q _ _ _ _ W) by done. cbn. rewrite filter_ne_id; [done|].
      rewrite (q_loc _ _ _ _ (i_q _ _ _ _ _ H)), Hl. done.
Qed.

(** Raised where its queue is not ordered, or in none. *)
Lemma raise_only loc k tp prio :
  inv [] [] loc k → (∀ q, prio_queue q → loc tp ≠ Some q) → 0 < prio →
  raised prio tp k (set_thread tp (t_prio prio) k).
Proof.
  intros H Hl Hp. set (k' := set_thread tp (t_prio prio) k).
  destruct (thd_raised_same tp prio k k') as (A1 & A2 & A3); [done|]. split; [|done..].
  split; [by apply ipost_same| |done]. exists loc. apply inv_neutral; try done; [apply H|by right].
Qed.

Lemma boosted_trans k1 k2 k3 : boosted k1 k2 → boosted k2 k3 → boosted k1 k3.
Proof. intros [] []. split; [by eapply ipost_trans|done|congruence]. Qed.

Lemma boost_S fuel prio tp k :
  boost (S fuel) prio tp k =
  (if prio_of k tp <? prio then
     let k1 := set_thread tp (t_prio prio) k in
     match p_state (thd k1 tp) with
     | WTMTX =>
       match p_u (thd k1 tp) with
       | WtMtx m =>
         (queue_dequeue tp;; queue_prio_insert tp (QMtx m);;
          o ← gets (λ k, m_owner k m);
          match o with Some o => boost fuel prio o | None => throw NullPointer end) k1
       | _ => Err BadUnion
       end
     | WTCOND =>
       match p_u (thd k1 tp) with
       | WtCond c => (queue_dequeue tp;; queue_prio_insert tp (QCond c)) k1
       | _ => Err BadUnion
       end
     | READY => (queue_dequeue tp;; chSchReadyI tp;; ret tt) k1
     | _ => Ok (tt, k1)
     end
   else Ok (tt, k)).
Proof.
  cbn [boost]. fw_pure. destruct (prio_of k tp <? prio); [|done]. fw_pure.
  destruct (p_state _); try done; by destruct (p_u _).
Qed.

(** One round: the thread is raised, and the boost goes on with the owner of the
    mutex it waits for, if it waits for one. *)
Definition goes_on (fuel : nat) (prio : Z) (k2 : kernel) (next : option nat) : res (unit * kernel) :=
  match next with Some o => boost fuel prio o k2 | None => Ok (tt, k2) end.

Definition next_owner (k : kernel) (tp : nat) (next : option nat) : Prop :=
  match next with
  | Some o => ∃ m, m_owner k m = Some o ∧ tp ∈ queues k (QMtx m)
  | None => ∀ m, tp ∉ queues k (QMtx m)
  end.

Lemma boost_round fuel prio tp k :
  kinv k → 0 < prio → prio_of k tp < prio →
  ∃ k2 next, raised prio tp k k2 ∧ next_owner k tp next ∧ boost (S fuel) prio tp k = goes_on fuel prio k2 next.
Proof.
  intros [loc H] Hp L. rewrite boost_S, (proj2 (Z.ltb_lt _ _) L).
  cbv zeta. set (k1 := set_thread tp (t_prio prio) k).
  assert (p_state (thd k1 tp) = p_state (thd k tp) ∧ p_u (thd k1 tp) = p_u (thd k tp)) as [-> ->].
  { unfold k1. by rewrite thd_set_thread, decide_True. }
  pose proof (i_q _ _ _ _ _ H) as Hqi.
  pose proof (q_ok _ _ _ _ Hqi tp ltac:(apply not_elem_of_nil)) as Hok.
  assert (∀ m, tp ∈ queues k (QMtx m) → loc tp = Some (QMtx m)) as Hm by (intros m; apply (q_loc _ _ _ _ Hqi)).
  assert (∀ p, p = Ok (tt, k1) → (∀ q, prio_queue q → loc tp ≠ Some q) →
    ∃ k2 next, raised prio tp k k2 ∧ next_owner k tp next ∧ p = goes_on fuel prio k2 next) as Honly.
  { intros p -> Hl. exists k1, None. split_and!; [by eapply raise_only|by intros m Hx%Hm%Hl|done]. }
  destruct (loc tp) as [q|] eqn:El; cbn in Hok.
  - destruct q; cbn in Hok;
      try (apply Honly; [|by intros q' ? [= <-]]; match type of Hok with _ ∧ _ => by rewrite (proj1 Hok) | _ => by rewrite Hok end).
    + rewrite Hok. destruct (reready loc k tp prio H El Hp) as [E Hb]. eexists _, None.
      split_and!; [exact Hb|by intros m ?%Hm|].
      rewrite (fw_bind_ok _ _ _ _ _ eq_refl). by rewrite (fw_bind_ok _ _ _ _ _ E).
    + destruct Hok as [-> ->]. pose proof (relink loc k tp (QMtx n) prio H El Logic.I Hp) as Hb.
      cbv zeta in Hb. match type of Hb with raised _ _ _ ?x => set (k2 := x) in Hb end. apply (q_loc _ _ _ _ Hqi) in El.
      destruct (m_owner k n) as [o|] eqn:Eo.
      2: { exfalso. revert Eo. apply (m_wait _ (i_m _ _ _ _ _ H)). intros Hx. rewrite Hx in El. by apply elem_of_nil in El. }
      exists k2, (Some o). split_and!; [done|by exists n|].
      do 3 rewrite (fw_bind_ok _ _ _ _ _ eq_refl).
      change (match m_owner k n with Some o => boost fuel prio o | None => throw NullPointer end k2 = boost fuel prio o k2).
      by rewrite Eo.
    + destruct Hok as [-> ->]. pose proof (relink loc k tp (QCond n) prio H El Logic.I Hp) as Hb.
      eexists _, None. split_and!; [exact Hb|by intros m ?%Hm|done].
  - apply Honly; [|done]. unfold in_none in Hok. by destruct (p_state (thd k tp)).
Qed.

Lemma next_registered k tp o : kinv k → next_owner k tp (Some o) → o ∈ registry k.
Proof. intros [loc H] (m & Ho & _). by apply (m_reg _ (i_m _ _ _ _ _ H) m). Qed.

Lemma boost_ok fuel prio tp k :
  kinv k → 0 < prio → tp ∈ registry k → (below prio k < fuel)%nat →
  ∃ k', boost fuel prio tp k = Ok (tt, k') ∧ boosted k k'.
Proof.
  revert tp k. induction fuel as [|fuel IH]; intros tp k Hk Hp Hin Hf; [lia|].
  destruct (Z.ltb_spec (prio_of k tp) prio) as [L|L].
  2: { rewrite boost_S, (proj2 (Z.ltb_ge _ _) L). exists k. split; [done|]. split; [apply ipost_refl|done|done]. }
  destruct (boost_round fuel prio tp k Hk Hp L) as (k2 & [o|] & R & Hn & ->); cbn [goes_on].
  - pose proof R as [Hb Hpr _]. destruct (IH o k2) as (k' & E & Hb'); [apply Hb|done| | |].
    + rewrite (bo_reg _ _ Hb). by eapply next_registered.
    + pose proof (below_raise prio tp k k2 Hin L (bo_reg _ _ Hb) Hpr). lia.
    + exists k'. split; [done|by eapply boosted_trans].
  - exists k2. split; [done|apply R].
Qed.

(** ** Ownership *)

Lemma but_owner E F loc k m o :
  inv_but_mutexes idle E F loc k → inv_but_mutexes idle E F loc (set_owner m o k).
Proof. by intros [[] ? [] ? ?]. Qed.

Definition owned (m tp : nat) (k : kernel) : kernel :=
  set_thread tp (λ t, t_mtxlist (m :: p_mtxlist t) t) (set_owner m (Some tp) k).

Lemma own_eq m tp k : own m tp k = Ok (tt, owned m tp k).
Proof. done. Qed.

Lemma thd_owned m tp k t :
  p_state (thd (owned m tp k) t) = p_state (thd k t) ∧ p_u (thd (owned m tp k) t) = p_u (thd k t)
  ∧ prio_of (owned m tp k) t = prio_of k t ∧ p_realprio (thd (owned m tp k) t) = p_realprio (thd k t)
  ∧ p_mtxlist (thd (owned m tp k) t) = if decide (t = tp) then m :: p_mtxlist (thd k t) else p_mtxlist (thd k t).
Proof. unfold prio_of. cbn. unfold upd. by case_decide; subst. Qed.

(** A mutex nobody owns and nobody has in its list. *)
Lemma minv_own m tp k :
  (∀ m' t, m' ≠ m → m_owner k m' = Some t ↔ m' ∈ p_mtxlist (thd k t)) → (∀ t, m ∉ p_mtxlist (thd k t)) →
  (∀ t, NoDup (p_mtxlist (thd k t))) → (∀ m', m' ≠ m → queues k (QMtx m') ≠ [] → m_owner k m' ≠ None) →
  (∀ m' t, m' ≠ m → m_owner k m' = Some t → t ∈ registry k) → tp ∈ registry k →
  (∀ t, 0 < p_realprio (thd k t)) → minv (owned m tp k).
Proof.
  intros H1 H2 H3 H4 H5 H6 H7. pose proof (λ t, thd_owned m tp k t) as Ht. split.
  - intros m' t. destruct (Ht t) as (_ & _ & _ & _ & ->). cbn. unfold upd. destruct (decide (m' = m)) as [->|Hn].
    + case_decide; subst; [split; [by left|done]|]. split; [by intros [= ->]|by intros ?%H2].
    + rewrite H1 by done. case_decide; subst; [|done]. rewrite elem_of_cons. naive_solver.
  - intros t. destruct (Ht t) as (_ & _ & _ & _ & ->). case_decide; subst; [by constructor|done].
  - intros m'. cbn. unfold upd. case_decide; [done|]. by apply H4.
  - intros m' t. cbn. unfold upd. case_decide; [by intros [= <-]|by apply H5].
  - intros t. destruct (Ht t) as (_ & _ & _ & -> & _). apply H7.
Qed.

Lemma inv_own loc k m tp :
  inv [] [] loc k → m_owner k m = None → tp ∈ registry k → inv [] [] loc (owned m tp k).
Proof.
  intros H Ho Hg. pose proof H as [_ _ _ _ [M1 M2 M3 M4 M5] _]. apply inv_but. split.
  - unfold owned. apply but_neutral; [apply but_owner; by apply inv_but in H as [? _]|done|done|by left].
  - apply minv_own; [intros m' t _; apply M1|intros t Hx%M1; congruence|done|intros m' _; apply M3|intros m' t _; apply M4|done|done].
Qed.

Lemma evolve_owned me m k : m_owner k m = None → evolve me k (owned m me k).
Proof.
  intros Ho t Ht. assert (thd (owned m me k) t = thd k t) as Et by (cbn; by rewrite upd_ne).
  unfold evolves. rewrite Et. split_and!; try done; [by left|]. intros m' Hx. cbn. unfold upd.
  case_decide; [by subst; rewrite Hx in Ho|done].
Qed.

Lemma take_free me m loc k :
  inv [] [] loc k → currp k = me → ¬ armed k me → m_owner k m = None → returned me k tt (owned m me k).
Proof.
  intros H Hc Ha Ho. destruct (current_facts _ _ _ _ _ H ltac:(apply not_elem_of_nil)) as (_ & _ & _ & Hg).
  rewrite Hc in Hg. split_and!; [exists loc; by apply inv_own|done|by apply evolve_owned|done].
Qed.

Lemma chMtxTryLockS_safe me m k : op_safe me (iclass (chMtxTryLockS m)) k.
Proof.
  intros [loc H] Hc Ha.
  assert (chMtxTryLockS m k = match m_owner k m with
    Some _ => Ok (false, k) | None => Ok (true, owned m (currp k) k) end) as E.
  { unfold chMtxTryLockS. fw_pure. by destruct (m_owner k m). }
  destruct (m_owner k m) eqn:Eo; (eapply safe_iclass_end; [exact E|]).
  - apply returned_id; try done. by exists loc.
  - rewrite Hc. by apply (take_free me m loc k).
Qed.

(** The running thread linked in the queue of a mutex. *)
Lemma lock_block me m loc k :
  running [] me loc k → m_owner k m ≠ None →
  let l := link_before (λ cp, prio_of k cp <? prio_of k me) me (queues k (QMtx m)) in
  let k2 := set_thread me (t_u (WtMtx m)) (set_queue (QMtx m) l k) in
  blocking me WTMTX (upd loc me (Some (QMtx m))) k2 ∧ evolve me k k2.
Proof.
  intros R Ho l k2. set (k1 := set_thread me (t_u (WtMtx m)) k).
  change k2 with (set_queue (QMtx m) l k1). split.
  - apply (running_insert idle [] me loc k1 (QMtx m) l WTMTX (running_u idle _ _ _ _ _ R)); try done.
    + apply link_before_perm.
    + intros Hp. eapply (by_prio_ext (prio_of k)); [intros; unfold k1; by rewrite prio_set_thread|].
      apply ready_sorted; [intros c; rewrite Z.ltb_lt; lia|intros c; rewrite Z.ltb_ge; lia|].
      by apply (q_sorted _ _ _ _ (i_q _ _ _ _ _ (ru_inv _ _ _ _ _ R))).
    + apply (sinv_queue [] k1 (QMtx m)); [done|apply R].
    + by intros m' [= <-].
    + cbn. by rewrite upd_eq.
  - apply evolve_me; try done. intros t Ht. by apply (thd_other me _ k).
Qed.

Lemma below_registry p k : (below p k <= length (registry k))%nat.
Proof. apply length_filter. Qed.

Lemma safe_lock me (Q : kernel → unit → kernel → Prop) m k :
  me ≠ idle → kinv k → currp k = me → ¬ armed k me →
  (∀ k1 k', returned me k1 tt k' → m_owner k' m = Some me → Q k1 tt k') → safe me Q k (chMtxLockS m k).
Proof.
  intros Hi H Hc Ha Hf. apply safe_self. rewrite Hc. eapply safe_iclass; [reflexivity|]. cbv beta.
  destruct (m_owner k m) as [tp|] eqn:Eo.
  - destruct H as [loc H].
    destruct (boost_ok (S (length (registry k))) (prio_of k me) tp k) as (k1 & E & [P H1 G]).
    + by exists loc.
    + apply (q_prio _ _ _ _ (i_q _ _ _ _ _ H)).
    + by apply (m_reg _ (i_m _ _ _ _ _ H) m).
    + pose proof (below_registry (prio_of k me) k). lia.
    + eapply safe_iclass; [exact E|]. destruct (ipost_run me k k1 P Hc Ha) as (Hc1 & Ha1 & He1).
      destruct (running_start idle me k1 H1 Hc1 Ha1) as (loc1 & _ & R).
      destruct (lock_block me m loc1 k1 R) as [B He]; [by rewrite (ip_own _ _ P), Eo|].
      eapply safe_iclass; [reflexivity|]. eapply safe_iclass; [reflexivity|].
      eapply (safe_block idle me Q k _ _ WTMTX); [exact B|done|by eapply evolve_trans|].
      intros k' [R1 R2 R3 R4]. apply Hf; [by apply returned_id|]. apply R4; [done|]. cbn. by rewrite upd_eq.
  - eapply safe_iclass_end; [apply own_eq|]. destruct H as [loc H]. apply Hf; [by apply (take_free me m loc k)|].
    cbn. by rewrite upd_eq.
Qed.

Lemma chMtxLockS_safe me m k : me ≠ idle → op_safe me (chMtxLockS m) k.
Proof. intros Hi H Hc Ha. by apply safe_lock. Qed.

(** ** Unlocking *)

(** [me] has taken [m], its last mutex, out of its list, and may have lowered its
    priority; [m] still has its owner. *)
Record releasing (me m : nat) (l : list nat) (loc : nat → option qid) (k k1 : kernel) : Prop := {
  rl_inv : inv [] [] loc k;
  rl_cur : currp k = me;
  rl_armed : ¬ armed k me;
  rl_list : p_mtxlist (thd k me) = m :: l;
  rl_but : inv_but_mutexes idle [] [] loc k1;
  rl_state t : p_state (thd k1 t) = p_state (thd k t) ∧ p_u (thd k1 t) = p_u (thd k t);
  rl_mtx t : p_mtxlist (thd k1 t) = if decide (t = me) then l else p_mtxlist (thd k t);
  rl_real t : p_realprio (thd k1 t) = p_realprio (thd k t);
  rl_queues : queues k1 = queues k;
  rl_owner : m_owner k1 = m_owner k;
  rl_reg : registry k1 = registry k;
  rl_vtl : k_vtl k1 = k_vtl k;
  rl_currp : currp k1 = currp k
}.

Lemma releasing_start me m l loc k :
  inv [] [] loc k → currp k = me → ¬ armed k me → p_mtxlist (thd k me) = m :: l →
  releasing me m l loc k (set_thread me (t_mtxlist l) k).
Proof.
  intros H Hc Ha Hm. split; try done.
  - apply but_neutral; [by apply inv_but in H as [? _]|done|done|by left].
  - intros t. rewrite thd_set_thread. by case_decide; subst.
  - intros t. rewrite thd_set_thread. by case_decide; subst.
  - intros t. rewrite thd_set_thread. by case_decide; subst.
Qed.

Lemma releasing_prio me m l loc k k1 p :
  releasing me m l loc k k1 → 0 < p → releasing me m l loc k (set_thread me (t_prio p) k1).
Proof.
  intros [] Hp. assert (loc me = None) as Hl.
  { destruct (current_facts _ _ _ _ _ rl_inv0 ltac:(apply not_elem_of_nil)) as (_ & Hl & _). by rewrite rl_cur0 in Hl. }
  split; try done.
  - apply but_neutral; [done..|]. right. split; [done|]. intros q _. by rewrite Hl.
  - intros t. destruct (rl_state0 t) as [<- <-]. rewrite thd_set_thread. by case_decide; subst.
  - intros t. rewrite <-rl_mtx0, thd_set_thread. by case_decide; subst.
  - intros t. rewrite <-rl_real0, thd_set_thread. by case_decide; subst.
Qed.

(** The mutex is in no list any more. *)
Lemma releasing_unlisted me m l loc k k1 t : releasing me m l loc k k1 → m ∉ p_mtxlist (thd k1 t).
Proof.
  intros []. destruct (i_m _ _ _ _ _ rl_inv0) as [M1 M2 _ _ _]. rewrite rl_mtx0. case_decide as E.
  - specialize (M2 me). rewrite rl_list0 in M2. by apply NoDup_cons in M2 as [? _].
  - intros Hx%M1. assert (m_owner k m = Some me) as Hy by (apply M1; rewrite rl_list0; by left). congruence.
Qed.

Lemma releasing_others me m l loc k k1 m' t :
  releasing me m l loc k k1 → m' ≠ m → m_owner k1 m' = Some t ↔ m' ∈ p_mtxlist (thd k1 t).
Proof.
  intros [] Hn. destruct (i_m _ _ _ _ _ rl_inv0) as [M1 _ _ _ _]. rewrite rl_mtx0, rl_owner0, M1.
  case_decide as E; subst; [|done]. rewrite rl_list0, elem_of_cons. naive_solver.
Qed.

Lemma releasing_minv me m l loc k k1 : releasing me m l loc k k1 →
  (∀ t, NoDup (p_mtxlist (thd k1 t))) ∧ (∀ m', queues k1 (QMtx m') ≠ [] → m_owner k1 m' ≠ None)
  ∧ (∀ m' t, m_owner k1 m' = Some t → t ∈ registry k1) ∧ (∀ t, 0 < p_realprio (thd k1 t)).
Proof.
  intros []. destruct (i_m _ _ _ _ _ rl_inv0) as [_ M2 M3 M4 M5]. rewrite rl_queues0, rl_owner0, rl_reg0.
  split_and!; try done; intros t; [|by rewrite rl_real0]. rewrite rl_mtx0. case_decide; [|done].
  specialize (M2 me). rewrite rl_list0 in M2. by apply NoDup_cons in M2 as [_ ?].
Qed.

(** Nothing but what concerns [me] and its mutex. *)
Lemma releasing_evolve me m l loc k k1 k' :
  releasing me m l loc k k1 → (∀ t, p_state (thd k' t) = p_state (thd k1 t) ∧ p_u (thd k' t) = p_u (thd k1 t)) →
  queues k' = queues k1 → (∀ m', m' ≠ m → m_owner k' m' = m_owner k1 m') → k_vtl k' = k_vtl k1 →
  evolve me k k'.
Proof.
  intros [] H1 H2 H3 H4 t Ht. unfold evolves, armed, awake, wst. destruct (H1 t) as [-> ->].
  destruct (rl_state0 t) as [-> ->]. rewrite H2, H4, rl_queues0, rl_vtl0. split_and!; try done; [by left|].
  intros m' Hx. rewrite H3, rl_owner0; [done|]. intros ->.
  assert (m_owner k m = Some me) as Hy by (apply (i_m _ _ _ _ _ rl_inv0); rewrite rl_list0; by left). congruence.
Qed.

Record let_go (me : nat) (l : list nat) (k k' : kernel) : Prop := {
  lg_inv : kinv k';
  lg_cur : currp k' = me;
  lg_armed : ¬ armed k' me;
  lg_evolve : evolve me k k';
  lg_list : p_mtxlist (thd k' me) = l
}.

Lemma release_free me m l loc k k1 :
  releasing me m l loc k k1 → queues k (QMtx m) = [] → let_go me l k (set_owner m None k1).
Proof.
  intros R Hq. destruct (releasing_minv _ _ _ _ _ _ R) as (M2 & M3 & M4 & M5). pose proof R as [].
  split; [|cbn; congruence|unfold armed; cbn; by rewrite rl_vtl0| |].
  - exists loc. apply inv_but. split; [by apply but_owner|]. split; try done.
    + intros m' t. cbn. unfold upd. case_decide; subst; [|by eapply releasing_others].
      split; [done|]. intros Hx. by apply (releasing_unlisted _ _ _ _ _ _ t R) in Hx.
    + intros m'. cbn. unfold upd. case_decide; [subst; by rewrite rl_queues0, Hq|apply M3].
    + intros m' t. cbn. unfold upd. case_decide; [done|apply M4].
  - eapply releasing_evolve; [exact R|done..| |done]. intros m' Hn. cbn. by rewrite upd_ne.
  - cbn. by rewrite rl_mtx0, decide_True.
Qed.

Lemma release_hand_over me m l loc k k1 w q :
  releasing me m l loc k k1 → queues k (QMtx m) = w :: q →
  ∃ k', hand_over m k1 = Ok (tt, k') ∧ let_go me l k k'.
Proof.
  intros R Hq. destruct (releasing_minv _ _ _ _ _ _ R) as (M2 & M3 & M4 & M5). pose proof R as [].
  destruct (inv_unlink idle [] [] loc k (upd (queues k) (QMtx m) q) w (QMtx m)) as (_ & Hc & _ & _ & Hrg & _); try done;
    [by rewrite upd_eq, Hq|intros q' Hn; by rewrite upd_ne| | |].
  { intros Hp. rewrite upd_eq. pose proof (q_sorted _ _ _ _ (i_q _ _ _ _ _ rl_inv0) _ Hp) as Hs. rewrite Hq in Hs. by inversion Hs. }
  { apply (sinv_queue [] k (QMtx m) q); [done|apply rl_inv0]. }
  set (ko := owned m w k1).
  assert (inv [] [] loc ko) as Io.
  { apply inv_but. split; [unfold ko, owned; apply but_neutral; [by apply but_owner|done|done|by left]|].
    apply minv_own; try done; [intros; by eapply releasing_others|intros; by eapply releasing_unlisted
      |intros m' _; apply M3|intros m' t _; apply M4|by rewrite rl_reg0]. }
  assert (queues ko (QMtx m) = w :: q) as Eq by (change (queues ko) with (queues k1); by rewrite rl_queues0).
  destruct (inv_unlink idle [] [] loc ko (upd (queues ko) (QMtx m) q) w (QMtx m))
    as (I & Hc' & _ & Hno & Hrg' & [Hst Hu] & Haw); try done;
    [by rewrite upd_eq, Eq|intros q' Hn; by rewrite upd_ne| | |].
  { intros Hp. rewrite upd_eq. pose proof (q_sorted _ _ _ _ (i_q _ _ _ _ _ Io) _ Hp) as Hs. rewrite Eq in Hs. by inversion Hs. }
  { apply (sinv_queue [] ko (QMtx m) q); [done|apply Io]. }
  destruct (wake_plain idle _ _ _ _ I) as (E & I' & W); try done; [by rewrite upd_eq|].
  set (k2 := k_set_queues _ ko) in *. exists (do_ready w k2). split.
  - unfold hand_over. rewrite (fw_bind_ok _ _ _ _ _ (fifo_remove_eq k1 (QMtx m) w q ltac:(by rewrite rl_queues0))).
    rewrite (fw_bind_ok _ _ _ _ _ (own_eq _ _ _)). by rewrite (fw_bind_ok _ _ _ _ _ E).
  - pose proof (wk_r _ _ _ _ W) as Wr. assert (w ≠ me) as Hwm by congruence. split; [done| | | |].
    + rewrite (rest_currp _ _ Wr). cbn. congruence.
    + unfold armed. rewrite (rest_vtl _ _ Wr). cbn. by rewrite rl_vtl0.
    + eapply (evolve_trans _ _ ko).
      { eapply releasing_evolve; [exact R| |done| |done]; [intros t; by destruct (thd_owned m w k1 t) as (? & ? & _)|].
        intros m' Hn. cbn. by rewrite upd_ne. }
      eapply (evolve_trans _ _ k2).
      { apply (ip_evolve ko k2). apply ipost_same; try done. }
      eapply evolve_woken_know; [exact Haw| |exact W]. change (thd k2) with (thd ko). rewrite Hst, Hu.
      split_and!; [done|done|]. intros m' _ [= <-]. rewrite (rest_owner _ _ Wr). cbn. by rewrite upd_eq.
    + rewrite (wk_o _ _ _ _ W) by done. change (thd k2) with (thd (owned m w k1)).
      destruct (thd_owned m w k1 me) as (_ & _ & _ & _ & ->). by rewrite decide_False, rl_mtx0, decide_True.
Qed.

Lemma waiter_prio_le k m p : p <= waiter_prio k m p.
Proof. unfold waiter_prio. destruct (queues k (QMtx m)); [done|]. zcases; lia. Qed.

Lemma new_prio_le k l p : p <= new_prio k l p.
Proof.
  revert p. induction l as [|m l IH]; intros p; cbn [new_prio]; [done|].
  pose proof (waiter_prio_le k m p). specialize (IH (waiter_prio k m p)). lia.
Qed.

Lemma queue_notempty_eq q k : queue_notempty q k = Ok (bool_decide (queues k q ≠ []), k).
Proof. done. Qed.

Lemma chMtxUnlockS_ok me m l k :
  kinv k → currp k = me → ¬ armed k me → p_mtxlist (thd k me) = m :: l →
  ∃ b k', chMtxUnlockS m k = Ok (b, k') ∧ let_go me l k k'.
Proof.
  intros [loc H] Hc Ha Hm. unfold chMtxUnlockS. fw_pure. rewrite Hc, Hm. cbn [m_next]. rewrite decide_True by done.
  rewrite (fw_bind_ok _ _ _ _ _ eq_refl). pose proof (releasing_start me m l loc k H Hc Ha Hm) as R.
  set (k1 := set_thread me (t_mtxlist l) k) in *. change (modify _ k) with (Ok (tt, k1)).
  unfold chMtxQueueNotEmptyS. rewrite (fw_bind_ok _ _ _ _ _ (queue_notempty_eq _ _)).
  change (queues k1) with (queues k). destruct (queues k (QMtx m)) as [|w q] eqn:Eq.
  - rewrite bool_decide_false by (intros Hx; by apply Hx). exists false, (set_owner m None k1).
    split; [done|]. by eapply release_free.
  - rewrite bool_decide_true by done. fw_pure. set (p := new_prio k1 l _).
    assert (0 < p) as Hp.
    { pose proof (new_prio_le k1 l (p_realprio (thd k1 me))). pose proof (rl_real _ _ _ _ _ _ R me) as E.
      pose proof (m_real _ (i_m _ _ _ _ _ H) me). unfold p. lia. }
    pose proof (releasing_prio _ _ _ _ _ _ p R Hp) as R2.
    destruct (release_hand_over _ _ _ _ _ _ w q R2 Eq) as (k' & E & L). exists true, k'. split; [|done].
    by rewrite (fw_bind_ok _ _ _ _ _ E).
Qed.

Lemma let_go_returned {A} me l (a : A) k k' : let_go me l k k' → returned me k a k'.
Proof. intros []. by split_and!. Qed.

Lemma chMtxUnlock_safe me m l k : p_mtxlist (thd k me) = m :: l → op_safe me (chMtxUnlock m) k.
Proof.
  intros Hm H Hc Ha. destruct (chMtxUnlockS_ok me m l k H Hc Ha Hm) as (b & k' & E & L).
  eapply safe_iclass; [exact E|]. pose proof L as []. destruct b; cbn [kwhen].
  - by apply safe_resched_end.
  - by eapply let_go_returned.
Qed.

(** ** Unlocking all *)

Lemma let_go_trans me l1 l2 k1 k2 k3 : let_go me l1 k1 k2 → let_go me l2 k2 k3 → let_go me l2 k1 k3.
Proof. intros [] []. split; try done. by eapply evolve_trans. Qed.

Lemma unlock_list_ok me l k :
  kinv k → currp k = me → ¬ armed k me → p_mtxlist (thd k me) = l →
  ∃ k', unlock_list me l k = Ok (tt, k') ∧ let_go me [] k k'.
Proof.
  revert k. induction l as [|m l IH]; intros k H Hc Ha Hm.
  { exists k. split; [done|]. split; try done. apply evolve_refl. }
  assert (∃ k1, unlock_first me m l k = Ok (tt, k1) ∧ let_go me l k k1) as (k1 & E1 & L1).
  { destruct H as [loc H]. pose proof (releasing_start me m l loc k H Hc Ha Hm) as R.
    unfold unlock_first. rewrite (fw_bind_ok _ _ _ _ _ eq_refl). unfold chMtxQueueNotEmptyS.
    rewrite (fw_bind_ok _ _ _ _ _ (queue_notempty_eq _ _)). cbn [queues set_thread k_set_thd].
    destruct (queues k (QMtx m)) as [|w q] eqn:Eq.
    - rewrite bool_decide_false by (intros Hx; by apply Hx). eexists. split; [done|]. by eapply release_free.
    - rewrite bool_decide_true by done. by eapply release_hand_over. }
  destruct (IH k1) as (k' & E & L); [apply L1..|]. exists k'. split; [|by eapply let_go_trans].
  cbn [unlock_list]. by rewrite (fw_bind_ok _ _ _ _ _ E1).
Qed.

Lemma chMtxUnlockAll_safe me k : op_safe me chMtxUnlockAll k.
Proof.
  intros H Hc Ha. apply safe_self. rewrite Hc. eapply safe_iclass; [reflexivity|]. cbv beta.
  destruct (p_mtxlist (thd k me)) as [|m l] eqn:El; [by apply returned_id|].
  destruct (unlock_list_ok me (m :: l) k H Hc Ha El) as (k1 & E1 & []). eapply safe_iclass; [exact E1|].
  eapply safe_iclass; [reflexivity|].
  set (g := λ t, t_prio (p_realprio t) t). destruct lg_inv0 as [loc I1].
  assert (loc me = None) as Hl.
  { destruct (current_facts _ _ _ _ _ I1 ltac:(apply not_elem_of_nil)) as (_ & Hl & _). by rewrite lg_cur0 in Hl. }
  apply safe_resched_end; try done.
  - exists loc. apply inv_neutral; try done; [apply I1|]. right. split; [apply I1|]. intros q _. by rewrite Hl.
  - eapply evolve_trans; [exact lg_evolve0|]. apply evolve_me; try done. intros. by apply thd_other.
Qed.

(** ** Condition variables *)

Lemma safe_unlock_next me (Q : kernel → nat → kernel → Prop) k :
  kinv k → currp k = me → ¬ armed k me → p_mtxlist (thd k me) ≠ [] →
  (∀ m k', kinv k' → currp k' = me → ¬ armed k' me → evolve me k k' → Q k m k') → safe me Q k (unlock_next k).
Proof.
  intros H Hc Ha Hm Hf. unfold unlock_next. eapply safe_iclass; [reflexivity|]. rewrite Hc.
  destruct (p_mtxlist (thd k me)) as [|m l] eqn:El; [done|]. cbn [head].
  destruct (chMtxUnlockS_ok me m l k H Hc Ha El) as (b & k' & E & []). eapply safe_iclass; [exact E|]. by apply Hf.
Qed.

Lemma cond_block me c loc k :
  running [] me loc k →
  let k1 := set_thread me (t_u (WtCond c)) k in
  let l := link_before (λ cp, prio_of k1 cp <? prio_of k1 me) me (queues k1 (QCond c)) in
  let k2 := set_queue (QCond c) l k1 in
  blocking me WTCOND (upd loc me (Some (QCond c))) k2 ∧ evolve me k k2.
Proof.
  intros R k1 l k2. split.
  - apply (running_insert idle [] me loc k1 (QCond c) l WTCOND (running_u idle _ _ _ _ _ R)); try done.
    + apply link_before_perm.
    + intros Hp. apply ready_sorted; [intros x; rewrite Z.ltb_lt; lia|intros x; rewrite Z.ltb_ge; lia|].
      by apply (q_sorted _ _ _ _ (i_q _ _ _ _ _ (ru_inv _ _ _ _ _ (running_u idle _ _ _ _ (WtCond c) R)))).
    + apply (sinv_queue [] k1 (QCond c)); [done|apply R].
    + cbn. by rewrite upd_eq.
  - apply evolve_me; try done. intros t Ht. by apply (thd_other me _ k).
Qed.

Lemma chCondWaitS_safe me c k : me ≠ idle → p_mtxlist (thd k me) ≠ [] → op_safe me (chCondWaitS c) k.
Proof.
  intros Hi Hm H Hc Ha. apply safe_self. rewrite Hc. apply safe_bind.
  apply safe_unlock_next; try done. intros mp k1 H1 Hc1 Ha1 He1.
  destruct (running_start idle me k1 H1 Hc1 Ha1) as (loc & _ & R). destruct (cond_block me c loc k1 R) as [B He].
  eapply safe_iclass; [reflexivity|]. eapply safe_iclass; [reflexivity|]. apply safe_bind.
  eapply (safe_block idle me _ k _ _ WTCOND); [exact B|done|by eapply evolve_trans|].
  intros k' R'. destruct (proj1 (re_know _ _ _ _ _ R') eq_refl) as [m' Eu]. eapply safe_iclass; [by rewrite Eu|].
  apply safe_bind. destruct R'. eapply safe_mono; [|by apply chMtxLockS_safe]. by intros k2 [] k3 ?.
Qed.

Lemma chCondWaitTimeoutS_safe me c time k :
  me ≠ idle → 0 <= time < 2 ^ 32 → p_mtxlist (thd k me) ≠ [] → op_safe me (chCondWaitTimeoutS c time) k.
Proof.
  intros Hi Htm Hm H Hc Ha. apply safe_bind. apply safe_unlock_next; try done. intros mp k1 H1 Hc1 Ha1 He1.
  apply safe_self. rewrite Hc1.
  destruct (running_start idle me k1 H1 Hc1 Ha1) as (loc & _ & R). destruct (cond_block me c loc k1 R) as [B He].
  eapply safe_iclass; [reflexivity|]. eapply safe_iclass; [reflexivity|]. apply safe_bind.
  eapply (safe_block_timeout idle me _ k _ _ WTCOND); [exact B|done|by eapply evolve_trans|done..|].
  intros k2 m k' ? ? ? He2. apply safe_bind. destruct (negb _); cbn [kwhen]; [|by split_and!].
  eapply safe_from; [exact He2| |eapply safe_mono; [|by apply chMtxLockS_safe]].
  - intros [] k3. apply returned_from, He2.
  - by intros k3 [] k4 ?.
Qed.

End mtx.
End KMtx.
