(* ===== verification/Inherit.v ===== *)
(** * Priority inheritance (chmtx.c)

    No thread waits for a mutex whose owner has a lower priority: locking and
    unlocking keep it so, through any chain of owners that wait in their turn,
    and the one operation that does not. *)

From S2P Require Import Prelude SysTime Fw VTimers Memory Kernel Sync Threads Sched KInv KOps KWake KSafe KCalls KMtx.
From stdpp Require Import list.
Import SysTime VTimers Kernel Mtx Threads Sched KInv KOps KWake KSafe KCalls KMtx.
#[local] Open Scope Z_scope.

Module Inherit.

(** An owner has at least the priority of those that wait for its mutexes. *)
Definition inherits (k : kernel) : Prop :=
  ∀ m o w, m_owner k m = Some o → w ∈ queues k (QMtx m) → prio_of k w <= prio_of k o.

(** So it is but for the waiters of [tp], which have at most [prio]. *)
Definition inherits_but (tp : nat) (prio : Z) (k : kernel) : Prop :=
  ∀ m o w, m_owner k m = Some o → w ∈ queues k (QMtx m) →
  prio_of k w <= prio_of k o ∨ o = tp ∧ prio_of k w <= prio.

(** The state a call returns in, or first gives up the processor in. *)
Definition state_at {A} (o : out A) : option kernel :=
  match o with Done _ k => Some k | Switch k _ => Some k | Fail _ => None end.

Section inherit.
Variable idle : nat.
Notation kinv := (kinv idle).

Lemma inherits_raise prio tp k k2 :
  kinv k → inherits_but tp prio k → prio_of k tp < prio → raised idle prio tp k k2 →
  ∀ o, next_owner k tp o →
  match o with Some o => inherits_but o prio k2 | None => inherits k2 end.
Proof.
  intros [loc H] Hi L [[P _ _] Hp Hw] o Hn.
  assert (∀ m o', tp ∈ queues k (QMtx m) → m_owner k m = Some o' → o = Some o') as Hnext.
  { intros m o' Hin Ho. destruct o as [o|]; [|by apply Hn in Hin]. destruct Hn as (m' & Ho' & Hin').
    apply (q_loc _ _ _ _ (i_q _ _ _ _ _ H)) in Hin, Hin'. congruence. }
  assert (∀ m o' w, m_owner k2 m = Some o' → w ∈ queues k2 (QMtx m) →
    prio_of k2 w <= prio_of k2 o' ∨ o = Some o' ∧ prio_of k2 w <= prio) as Hall.
  { intros m o' w Ho Hin. rewrite (ip_own _ _ P) in Ho. apply Hw in Hin. rewrite !Hp.
    destruct (decide (w = tp)) as [->|Hwt]; [right; split; [by eapply Hnext|done]|].
    left. case_decide as Eo.
    - subst. destruct (Hi m tp w Ho Hin) as [?|[_ ?]]; lia.
    - by destruct (Hi m o' w Ho Hin) as [?|[-> _]]. }
  destruct o as [o|]; intros m o' w Ho Hin; destruct (Hall m o' w Ho Hin) as [?|[E ?]]; auto; [|done].
  injection E as ->. by right.
Qed.

Lemma boost_inherits fuel prio tp k k' :
  kinv k → 0 < prio → inherits_but tp prio k → boost fuel prio tp k = Ok (tt, k') →
  inherits k' ∧ prio <= prio_of k' tp ∧ (∀ m x, x ∈ queues k' (QMtx m) ↔ x ∈ queues k (QMtx m))
  ∧ m_owner k' = m_owner k
  ∧ ∀ x, prio_of k' x = prio_of k x ∨ prio_of k x < prio ∧ prio_of k' x = prio.
Proof.
  revert tp k. induction fuel as [|fuel IH]; intros tp k Hk Hp Hi Hb; [done|].
  destruct (Z.ltb_spec (prio_of k tp) prio) as [L|L].
  2: { rewrite boost_S, (proj2 (Z.ltb_ge _ _) L) in Hb. injection Hb as <-. split_and!; try done; [|by left].
       intros m o w Ho Hw. destruct (Hi m o w Ho Hw) as [?|[-> ?]]; lia. }
  destruct (boost_round idle fuel prio tp k Hk Hp L) as (k2 & next & R & Hn & E). rewrite E in Hb.
  pose proof (inherits_raise prio tp k k2 Hk Hi L R next Hn) as Hi2. pose proof R as [[P H2 _] Hpr Hw].
  destruct next as [o|]; cbn [goes_on] in Hb.
  - destruct (IH o k2 H2 Hp Hi2 Hb) as (I1 & I2 & I3 & I4 & I5). split_and!; [done| | | |].
    + destruct (I5 tp) as [->|[_ ->]]; [rewrite Hpr, decide_True by done|]; lia.
    + intros m x. by rewrite I3, Hw.
    + by rewrite I4, (ip_own _ _ P).
    + intros x. specialize (Hpr x). destruct (I5 x) as [->|[? ->]]; case_decide; subst; rewrite ?Hpr in *; auto.
  - injection Hb as <-. split_and!; [done|rewrite Hpr, decide_True by done; lia|done|apply P|].
    intros x. rewrite Hpr. case_decide; subst; auto.
Qed.

Lemma boost_more fuel prio tp k r : boost fuel prio tp k = Ok r → boost (S fuel) prio tp k = Ok r.
Proof.
  revert tp k. induction fuel as [|fuel IH]; intros tp k; [done|]. rewrite (boost_S fuel), (boost_S (S fuel)).
  destruct (_ <? _); [|done]. cbv zeta. set (k1 := set_thread tp _ k).
  destruct (p_state (thd k1 tp)); try done. destruct (p_u (thd k1 tp)); try done.
  do 6 rewrite (fw_bind_ok _ _ _ _ _ eq_refl). destruct (m_owner _ _); [apply IH|done].
Qed.

Lemma boost_fuel f f' prio tp k r : (f <= f')%nat → boost f prio tp k = Ok r → boost f' prio tp k = Ok r.
Proof. induction 1; [done|]. intros. by apply boost_more, IHle. Qed.

Lemma boost_raises fuel prio tp k k' :
  kinv k → 0 < prio → boost fuel prio tp k = Ok (tt, k') →
  (∀ x, prio_of k x <= prio_of k' x <= Z.max (prio_of k x) prio) ∧ prio <= prio_of k' tp.
Proof.
  revert tp k. induction fuel as [|fuel IH]; intros tp k Hk Hp Hb; [done|].
  destruct (Z.ltb_spec (prio_of k tp) prio) as [L|L].
  2: { rewrite boost_S, (proj2 (Z.ltb_ge _ _) L) in Hb. injection Hb as <-. split; [intros; lia|done]. }
  destruct (boost_round idle fuel prio tp k Hk Hp L) as (k2 & next & [[_ H2 _] Hpr _] & _ & E). rewrite E in Hb.
  assert (∀ x, prio_of k x <= prio_of k2 x <= Z.max (prio_of k x) prio) as H12.
  { intros x. rewrite Hpr. case_decide; subst; lia. }
  assert (prio <= prio_of k2 tp) as Ht by (rewrite Hpr, decide_True by done; lia).
  destruct next as [o|]; cbn [goes_on] in Hb; [|by injection Hb as <-].
  destruct (IH o k2 H2 Hp Hb) as [I1 I2]. split; [intros x; specialize (H12 x)|specialize (I1 tp)]; [specialize (I1 x)|]; lia.
Qed.

(** C23 (termination). The loop of [chMtxLock] that hands a priority on from owner
    to owner ends for every chain of owners, also for one that closes into a
    cycle: it takes at most one round more than there are registered threads, and
    with more fuel than that its result is the same. The owner has at least the
    priority then, no thread has lost priority, and none has gained more. *)
Theorem boost_terminates (prio : Z) (tp : nat) (k : kernel) :
  kinv k → 0 < prio → tp ∈ registry k →
  ∃ k', (∀ fuel, (length (registry k) < fuel)%nat → boost fuel prio tp k = Ok (tt, k'))
    ∧ kinv k' ∧ prio <= prio_of k' tp
    ∧ ∀ x, prio_of k x <= prio_of k' x <= Z.max (prio_of k x) prio.
Proof.
  intros Hk Hp Hin. destruct (boost_ok idle (S (length (registry k))) prio tp k Hk Hp Hin) as (k' & E & B).
  { unfold below. pose proof (length_filter (λ t, prio_of k t < prio) (registry k)). lia. }
  destruct (boost_raises _ _ _ _ _ Hk Hp E) as [R1 R2].
  exists k'. split_and!; [intros fuel Hf; by eapply boost_fuel|apply B|done|done].
Qed.

(** Only the ready list and states differ. *)
Record same_waits (k k' : kernel) : Prop := {
  sw_prio x : prio_of k' x = prio_of k x;
  sw_queue m : queues k' (QMtx m) = queues k (QMtx m);
  sw_owner : m_owner k' = m_owner k
}.

Lemma same_waits_inherits k k' : same_waits k k' → inherits k' ↔ inherits k.
Proof. intros [H1 H2 H3]. unfold inherits. split; intros Hi m o w; [rewrite <-H2, <-H3, <-!H1|rewrite H2, H3, !H1]; apply Hi. Qed.

Lemma run_first_same k k' : run_first k = Ok (tt, k') → same_waits k k'.
Proof.
  destruct (queues k QReady) as [|r l] eqn:Eq; [unfold run_first, queue_fifo_remove; rewrite fw_bind_eq, Eq; done|].
  rewrite (run_first_eq k r l Eq). intros [= <-]. split; try done. intros x. unfold do_run_first. by rewrite prio_set_thread.
Qed.

Lemma sleep_same st k k' : state_at (chSchGoSleepS st k) = Some k' → same_waits k k'.
Proof.
  unfold chSchGoSleepS, self, mbind, kern_bind, iclass. cbn. set (k1 := set_thread _ _ k).
  destruct (run_first k1) as [[[] k2]|] eqn:E; cbn; [|done]. intros [= <-].
  destruct (run_first_same _ _ E) as [H1 H2 H3]. split; try done. intros x. rewrite H1. unfold k1. by rewrite prio_set_thread.
Qed.

(** C2 (invariant). Priority inheritance holds through any chain of owners that
    wait themselves: when no thread waits for a mutex of an owner with a lower
    priority, it is still so in the state in which [chMtxLock] returns or gives
    up the processor. The owner the thread waits for has at least its priority,
    and every other thread keeps its own or is raised to the thread's. *)
Theorem lock_inherits (m : nat) (k : kernel) :
  kinv k → inherits k → currp k ≠ idle → ¬ armed k (currp k) →
  ∃ k', state_at (chMtxLock m k) = Some k' ∧ inherits k'
    ∧ (∀ o, m_owner k m = Some o → prio_of k (currp k) <= prio_of k' o ∧ currp k ∈ queues k' (QMtx m))
    ∧ ∀ x, prio_of k' x = prio_of k x ∨ prio_of k x < prio_of k (currp k) ∧ prio_of k' x = prio_of k (currp k).
Proof.
  intros Hk Hi Hne Ha. pose proof (chMtxLockS_safe idle (currp k) m k Hne Hk eq_refl Ha) as Hs.
  change (chMtxLock m k) with (chMtxLockS m k) in *.
  assert (∃ k', state_at (chMtxLockS m k) = Some k') as [k' E] by (destruct (chMtxLockS m k); [by eexists..|done]).
  exists k'. split; [done|]. clear Hs. unfold chMtxLockS, self in E. unfold mbind at 1, kern_bind at 1 in E. cbn [out_bind] in E.
  erewrite iclass_bind_eq in E by reflexivity. cbv beta in E.
  destruct (m_owner k m) as [tp|] eqn:Eo.
  - destruct (boost (S (length (registry k))) (prio_of k (currp k)) tp k) as [[[] k1]|e] eqn:Eb.
    2: { by rewrite (iclass_bind_err (λ k0, boost (S (length (registry k0))) (prio_of k0 (currp k)) tp k0) _ _ _ Eb) in E. }
    rewrite (iclass_bind_eq (λ k0, boost (S (length (registry k0))) (prio_of k0 (currp k)) tp k0) _ _ _ _ Eb) in E.
    set (me := currp k) in *. set (p := prio_of k me) in *. do 2 (erewrite iclass_bind_eq in E by reflexivity).
    pose proof Hk as [loc H].
    destruct (boost_inherits (S (length (registry k))) p tp k k1 Hk) as (I1 & I2 & I3 & I4 & I5); [|by intros m' o w Ho Hw; left; eapply Hi|done|].
    { apply (q_prio _ _ _ _ (i_q _ _ _ _ _ H)). }
    assert (prio_of k1 me = p) as Ep by (destruct (I5 me) as [->|[? _]]; [done|unfold p in *; lia]).
    destruct (sleep_same _ _ _ E) as [S1 S2 S3].
    assert (∀ x, prio_of k' x = prio_of k1 x) as Hp' by (intros x; rewrite S1; by rewrite prio_set_thread).
    assert (∀ m' x, x ∈ queues k' (QMtx m') ↔ m' = m ∧ x = me ∨ x ∈ queues k1 (QMtx m')) as Hq'.
    { intros m' x. rewrite S2. cbn. unfold upd. case_decide as Em.
      - injection Em as ->. rewrite elem_of_link_before. naive_solver.
      - naive_solver. }
    split_and!.
    + intros m' o w. rewrite S3. cbn. rewrite Hq', !Hp'. intros Ho [[-> ->]|Hw]; [|by eapply I1].
      rewrite I4, Eo in Ho. injection Ho as <-. rewrite Ep. exact I2.
    + intros o [= <-]. rewrite Hp'. split; [exact I2|]. apply Hq'. by left.
    + intros x. rewrite Hp'. apply I5.
  - cbn in E. injection E as <-. split_and!; [|done|intros x; left; by destruct (thd_owned m (currp k) k x) as (_ & _ & ? & _)].
    intros m' o w. cbn. unfold upd. case_decide; subst.
    + intros _ Hw. exfalso. destruct Hk as [loc H]. apply (m_wait _ (i_m _ _ _ _ _ H) m); [|done].
      intros Hx. rewrite Hx in Hw. by apply elem_of_nil in Hw.
    + intros Ho Hw. specialize (Hi m' o w Ho Hw). unfold prio_of. cbn. unfold upd. repeat case_decide; by subst.
Qed.

(** ** Unlocking *)

Lemma same_waits_refl k : same_waits k k.
Proof. done. Qed.

Lemma same_waits_trans k1 k2 k3 : same_waits k1 k2 → same_waits k2 k3 → same_waits k1 k3.
Proof. intros [] []. split; congruence. Qed.

Lemma same_waits_set k t g : p_prio (g (thd k t)) = p_prio (thd k t) → same_waits k (set_thread t g k).
Proof. intros E. split; try done. intros x. by rewrite prio_set_thread. Qed.

Lemma same_waits_ready k l : same_waits k (set_queue QReady l k).
Proof. done. Qed.

Lemma resched_same k k' : state_at (chSchRescheduleS k) = Some k' → same_waits k k'.
Proof.
  unfold chSchRescheduleS. erewrite iclass_bind_eq by reflexivity. cbv beta.
  destruct (_ <? _); cbn [kwhen]; [|by intros [= <-]].
  unfold chSchDoRescheduleAhead, self. unfold mbind at 1, kern_bind at 1. cbn [out_bind].
  destruct (run_first k) as [[[] k1]|e] eqn:E1; [|by rewrite (iclass_bind_err _ _ _ _ E1)].
  rewrite (iclass_bind_eq _ _ _ _ _ E1). do 2 (erewrite iclass_bind_eq by reflexivity). cbn.
  intros [= <-]. eapply same_waits_trans; [by apply run_first_same|].
  eapply same_waits_trans; [by apply (same_waits_set _ (currp k) (t_state READY))|apply same_waits_ready].
Qed.

Lemma hand_over_eq m k w q :
  queues k (QMtx m) = w :: q → 0 < prio_of k w →
  hand_over m k = Ok (tt, do_ready w (set_queue (QMtx m) q (owned m w k))).
Proof.
  intros Eq Hp. unfold hand_over. rewrite (fw_bind_ok _ _ _ _ _ (fifo_remove_eq _ _ _ _ Eq)).
  rewrite (fw_bind_ok _ _ _ _ _ (own_eq _ _ _)).
  assert (0 < prio_of (owned m w (set_queue (QMtx m) q k)) w) as Hp'.
  { by destruct (thd_owned m w (set_queue (QMtx m) q k) w) as (_ & _ & -> & _). }
  by rewrite (fw_bind_ok _ _ _ _ _ (chSchReadyI_eq w _ Hp')).
Qed.

(** The priority left to a thread: its own, or the highest of those that wait for
    the mutexes it keeps. *)
Definition left_prio (k : kernel) (l : list nat) (real p : Z) : Prop :=
  real <= p ∧ (∀ m w, m ∈ l → w ∈ queues k (QMtx m) → prio_of k w <= p)
  ∧ (p = real ∨ ∃ m w, m ∈ l ∧ w ∈ queues k (QMtx m) ∧ p = prio_of k w).

Lemma waiter_prio_spec k m p :
  by_prio (prio_of k) (queues k (QMtx m)) →
  p <= waiter_prio k m p ∧ (∀ w, w ∈ queues k (QMtx m) → prio_of k w <= waiter_prio k m p)
  ∧ (waiter_prio k m p = p ∨ ∃ w, w ∈ queues k (QMtx m) ∧ waiter_prio k m p = prio_of k w).
Proof.
  unfold waiter_prio. destruct (queues k (QMtx m)) as [|w0 l]; intros Hs.
  { split_and!; [lia|by intros w ?%elem_of_nil|by left]. }
  assert (∀ w, w ∈ w0 :: l → prio_of k w <= prio_of k w0) as Hh.
  { intros w [->|Hw]%elem_of_cons; [lia|]. inversion Hs as [|? ? _ Hf]; subst. rewrite Forall_forall in Hf. by apply Hf. }
  destruct (Z.ltb_spec p (prio_of k w0)); split_and!; try lia.
  - done.
  - right. exists w0. split; [by left|done].
  - intros w Hw%Hh. lia.
Qed.

Lemma new_prio_spec k l p : (∀ m, by_prio (prio_of k) (queues k (QMtx m))) → left_prio k l p (new_prio k l p).
Proof.
  intros Hs. revert p. induction l as [|m l IH]; intros p; cbn [new_prio].
  { split_and!; [lia|by intros m w ?%elem_of_nil|by left]. }
  destruct (waiter_prio_spec k m p (Hs m)) as (W1 & W2 & W3). destruct (IH (waiter_prio k m p)) as (I1 & I2 & I3).
  split_and!; [lia| |].
  - intros m' w [->|Hm]%elem_of_cons Hw; [specialize (W2 w Hw); lia|by eapply I2].
  - destruct I3 as [->|(m' & w & ? & ? & ?)]; [|right; exists m', w; split_and!; [by right|done..]].
    destruct W3 as [->|(w & ? & ?)]; [by left|]. right. exists m, w. split_and!; [by left|done..].
Qed.

Lemma left_prio_same k k1 l r p : same_waits k k1 → left_prio k1 l r p → left_prio k l r p.
Proof.
  intros [W1 W2 _] (L1 & L2 & L3). split_and!; [done| |].
  - intros m w Hm Hw. rewrite <-W1. apply (L2 m); [done|by rewrite W2].
  - destruct L3 as [->|(m & w & Hm & Hw & ->)]; [by left|]. right. exists m, w. rewrite <-W2, W1. done.
Qed.

(** What unlocking does to owners, waiters and priorities. *)
Definition unlocked (m : nat) (l : list nat) (k k1 : kernel) : Prop :=
  match queues k (QMtx m) with
  | [] => m_owner k1 m = None ∧ ∀ x, prio_of k1 x = prio_of k x
  | w :: q => m_owner k1 m = Some w ∧ queues k1 (QMtx m) = q
      ∧ left_prio k l (p_realprio (thd k (currp k))) (prio_of k1 (currp k))
      ∧ ∀ x, x ≠ currp k → prio_of k1 x = prio_of k x
  end.

Lemma handed_inherits m l w q p k k1 loc :
  inv idle [] [] loc k → inherits k → p_mtxlist (thd k (currp k)) = m :: l → queues k (QMtx m) = w :: q →
  left_prio k l (p_realprio (thd k (currp k))) p →
  (∀ x, prio_of k1 x = if decide (x = currp k) then p else prio_of k x) →
  (∀ m', queues k1 (QMtx m') = if decide (m' = m) then q else queues k (QMtx m')) →
  (∀ m', m_owner k1 m' = if decide (m' = m) then Some w else m_owner k m') → inherits k1.
Proof.
  intros H Hi Hm Eq (_ & L2 & _) Hp Hq Ho. set (me := currp k) in *.
  assert (∀ m', me ∉ queues k (QMtx m')) as Hme.
  { intros m' Hin. apply (q_loc _ _ _ _ (i_q _ _ _ _ _ H)) in Hin.
    destruct (current_facts _ _ _ _ _ H ltac:(apply not_elem_of_nil)) as (_ & Hl & _). fold me in Hl. congruence. }
  intros m' o x. rewrite Ho, Hq, !Hp. destruct (decide (m' = m)) as [->|Hn].
  - intros [= <-] Hx. assert (x ∈ queues k (QMtx m) ∧ w ∈ queues k (QMtx m)) as [Hx' Hw'] by (rewrite Eq; split; [by right|by left]).
    rewrite !decide_False by (by intros ->; eapply Hme).
    pose proof (q_sorted _ _ _ _ (i_q _ _ _ _ _ H) (QMtx m) Logic.I) as Hs. rewrite Eq in Hs.
    inversion Hs as [|? ? _ Hf]; subst. rewrite Forall_forall in Hf. by apply Hf.
  - intros Hx Hin. rewrite (decide_False (P := x = me)) by (by intros ->; eapply Hme).
    case_decide as E; [|by eapply Hi]. subst o. apply (L2 m'); [|done].
    apply (m_own _ (i_m _ _ _ _ _ H)) in Hx. rewrite Hm in Hx. by apply elem_of_cons in Hx as [?|?].
Qed.

Lemma unlockS_inherits m l k :
  kinv k → inherits k → ¬ armed k (currp k) → p_mtxlist (thd k (currp k)) = m :: l →
  ∃ b k1, chMtxUnlockS m k = Ok (b, k1) ∧ inherits k1 ∧ unlocked m l k k1.
Proof.
  intros [loc H] Hi Ha Hm. unfold chMtxUnlockS, unlocked. fw_pure. rewrite Hm. cbn [m_next]. rewrite decide_True by done.
  rewrite (fw_bind_ok _ _ _ _ _ eq_refl). set (me := currp k) in *.
  set (k1 := set_thread me (t_mtxlist l) k). change (modify _ k) with (Ok (tt, k1)).
  assert (same_waits k k1) as W by by apply same_waits_set.
  unfold chMtxQueueNotEmptyS. rewrite (fw_bind_ok _ _ _ _ _ (queue_notempty_eq _ _)).
  change (queues k1) with (queues k). destruct (queues k (QMtx m)) as [|w q] eqn:Eq.
  - rewrite bool_decide_false by (intros Hx; by apply Hx). exists false, (set_owner m None k1). split_and!; [done| | |apply W].
    + intros m' o x Ho Hx. cbn in Ho. unfold upd in Ho. case_decide; [done|]. change (prio_of k1 x <= prio_of k1 o).
      rewrite !(sw_prio _ _ W). by eapply Hi.
    + cbn. by rewrite upd_eq.
  - rewrite bool_decide_true by done. fw_pure. set (p := new_prio k1 l _).
    assert (p_realprio (thd k1 me) = p_realprio (thd k me)) as Er by (cbn; by rewrite upd_eq).
    assert (left_prio k l (p_realprio (thd k me)) p) as Hl.
    { apply (left_prio_same k k1); [done|]. rewrite <-Er. apply new_prio_spec. intros m'.
      eapply (by_prio_ext (prio_of k)); [intros; by rewrite (sw_prio _ _ W)|].
      by apply (q_sorted _ _ _ _ (i_q _ _ _ _ _ H)). }
    set (k2 := set_thread me (t_prio p) k1).
    assert (w ≠ me) as Hwm.
    { intros ->. destruct (current_facts _ _ _ _ _ H ltac:(apply not_elem_of_nil)) as (_ & Hloc & _). fold me in Hloc.
      assert (me ∈ queues k (QMtx m)) as Hin by (rewrite Eq; by left).
      apply (q_loc _ _ _ _ (i_q _ _ _ _ _ H)) in Hin. congruence. }
    assert (∀ x, prio_of k2 x = if decide (x = me) then p else prio_of k x) as Hp2.
    { intros x. unfold prio_of, k2. rewrite thd_set_thread. case_decide; [done|]. apply (sw_prio _ _ W). }
    assert (0 < prio_of k2 w) as Hw0 by (rewrite Hp2, decide_False by done; apply (q_prio _ _ _ _ (i_q _ _ _ _ _ H))).
    set (k3 := do_ready w (set_queue (QMtx m) q (owned m w k2))).
    assert (∀ x, prio_of k3 x = if decide (x = me) then p else prio_of k x) as Hp3.
    { intros x. unfold k3, do_ready. change (prio_of (set_thread w (t_state READY) (owned m w k2)) x = (if decide (x = me) then p else prio_of k x)).
      rewrite prio_set_thread by done. rewrite <-Hp2. by destruct (thd_owned m w k2 x) as (_ & _ & -> & _). }
    exists true, k3. split_and!.
    + by rewrite (fw_bind_ok _ _ _ _ _ (hand_over_eq m k2 w q Eq Hw0)).
    + apply (handed_inherits m l w q p k k3 loc); try done.
      intros m'. cbn. unfold upd. repeat case_decide; congruence.
    + cbn. by rewrite upd_eq.
    + cbn. by rewrite upd_ne, upd_eq.
    + rewrite Hp3, decide_True by done. exact Hl.
    + intros x Hx. by rewrite Hp3, decide_False.
Qed.

(** C15 (invariant). Unlocking the mutex locked last keeps priority inheritance.
    Nobody waiting, the mutex is free; otherwise it goes to its first waiter,
    the one of the highest priority, and the thread that unlocks it is left
    with its own priority or, when that is higher, the highest among the threads
    that wait for the mutexes it still owns. *)
Theorem unlock_inherits (m : nat) (l : list nat) (k : kernel) :
  kinv k → inherits k → ¬ armed k (currp k) → p_mtxlist (thd k (currp k)) = m :: l →
  ∃ k', state_at (chMtxUnlock m k) = Some k' ∧ inherits k'
    ∧ unlocked m l k k'.
Proof.
  intros Hk Hi Ha Hm. set (me := currp k) in *.
  destruct (unlockS_inherits m l k Hk Hi Ha Hm) as (b & k1 & E & I1 & S1). unfold unlocked in S1.
  pose proof (chMtxUnlock_safe idle me m l k Hm Hk eq_refl Ha) as Hs.
  assert (∃ k', state_at (chMtxUnlock m k) = Some k') as [k' E'] by (destruct (chMtxUnlock m k); [by eexists..|done]).
  exists k'. split; [done|]. clear Hs. unfold chMtxUnlock in E'. rewrite (iclass_bind_eq _ _ _ _ _ E) in E'.
  assert (same_waits k1 k') as W.
  { destruct b; cbn [kwhen] in E'; [by apply resched_same|by injection E' as <-]. }
  split; [by apply (same_waits_inherits k1)|]. unfold unlocked. destruct W as [W1 W2 W3].
  destruct (queues k (QMtx m)); rewrite W3, ?W2, ?W1; setoid_rewrite W1; done.
Qed.

(** ** Changing one's own priority *)

Lemma setprio_same p k k' :
  state_at (chThdSetPriority p k) = Some k' →
  let me := currp k in
  let b := (p_prio (thd k me) =? p_realprio (thd k me)) || (p_prio (thd k me) <? p) in
  (∀ x, prio_of k' x = if decide (x = me) then if b then p else prio_of k me else prio_of k x)
  ∧ (∀ m, queues k' (QMtx m) = queues k (QMtx m)) ∧ m_owner k' = m_owner k.
Proof.
  intros E me b. unfold chThdSetPriority, self in E. unfold mbind at 1, kern_bind at 1 in E. cbn [out_bind] in E.
  erewrite iclass_bind_eq in E by reflexivity. cbv beta zeta in E. fold me in E.
  change ((p_prio (thd k me) =? p_realprio (thd k me)) || (p_prio (thd k me) <? p)) with b in E.
  set (k1 := if b then set_thread me (t_prio p) k else k).
  erewrite (iclass_bind_eq _ _ _ tt k1) in E by (unfold k1, when; destruct b; reflexivity).
  erewrite iclass_bind_eq in E by reflexivity.
  set (k2 := set_thread me (t_realprio p) k1) in E.
  assert (state_at (chSchRescheduleS k2) = Some k') as E2.
  { unfold mbind, kern_bind in E. change (modify _ k1) with (Ok (tt, k2)) in E. by destruct (chSchRescheduleS k2). }
  apply resched_same in E2 as [W1 W2 W3]. split_and!.
  - intros x. rewrite W1. unfold k2. rewrite prio_set_thread by done. unfold k1, prio_of.
    destruct b; [rewrite thd_set_thread|]; case_decide; by subst.
  - intros m. rewrite W2. unfold k2, k1. by destruct b.
  - rewrite W3. unfold k2, k1. by destruct b.
Qed.

(** C38 (error). A thread may set its own priority while it owns mutexes. When it
    was not raised by inheritance, or asks for more, it gets the new priority,
    also one below that of the threads that wait for its mutexes: priority
    inheritance is kept exactly when the priority left to it is not below any
    of theirs. *)
Theorem setprio_inherits (p : Z) (k : kernel) :
  kinv k → inherits k → ¬ armed k (currp k) → 0 < p →
  let me := currp k in
  let t := thd k me in
  let p' := if (p_prio t =? p_realprio t) || (p_prio t <? p) then p else p_prio t in
  ∃ k', state_at (chThdSetPriority p k) = Some k' ∧ prio_of k' me = p'
    ∧ (inherits k' ↔ ∀ m w, m ∈ p_mtxlist t → w ∈ queues k (QMtx m) → prio_of k w <= p').
Proof.
  intros Hk Hi Ha Hp me t p'. pose proof (chThdSetPriority_safe idle me p k Hp Hk eq_refl Ha) as Hs.
  assert (∃ k', state_at (chThdSetPriority p k) = Some k') as [k' E] by (destruct (chThdSetPriority p k); [by eexists..|done]).
  destruct (setprio_same p k k' E) as (S1 & S2 & S3). fold me t in S1.
  assert (∀ x, prio_of k' x = if decide (x = me) then p' else prio_of k x) as S1'.
  { intros x. rewrite S1. unfold p', t, prio_of. by case_decide; case_match. }
  exists k'. split_and!; [done|by rewrite S1', decide_True|].
  destruct Hk as [loc H]. destruct (i_m _ _ _ _ _ H) as [M1 _ _ _ _].
  assert (∀ m', me ∉ queues k (QMtx m')) as Hme.
  { intros m' Hin. apply (q_loc _ _ _ _ (i_q _ _ _ _ _ H)) in Hin.
    destruct (current_facts _ _ _ _ _ H ltac:(apply not_elem_of_nil)) as (_ & Hl & _). fold me in Hl. congruence. }
  split.
  - intros Hi' m w Hm Hw. specialize (Hi' m me w). rewrite S3, S2, !S1' in Hi'. rewrite (decide_True (P := me = me)) in Hi' by done.
    rewrite (decide_False (P := w = me)) in Hi' by (intros ->; by eapply Hme). apply Hi'; [by apply M1|done].
  - intros Hall m o w. rewrite S3, S2, !S1'. intros Ho Hw. rewrite (decide_False (P := w = me)) by (intros ->; by eapply Hme).
    case_decide; [subst; apply (Hall m); [by apply M1|done]|by eapply Hi].
Qed.

End inherit.
End Inherit.
