(* ===== verification/Safety.v ===== *)
(** * The kernel at work

    Threads calling the kernel, switched by it, and interrupted: a transition
    system over the kernel's state and the calls in progress, and the theorem
    that no reachable state breaks the invariant or leads to an error. *)

From S2P Require Import Prelude SysTime Fw VTimers Memory Kernel Sync Threads Events System Sched KInv KOps KWake KSafe KCalls KMtx.
From stdpp Require Import list.
Import SysTime VTimers Kernel Sem Mtx Cond Threads Msg Events System Sched KInv KOps KWake KSafe KCalls KMtx.
#[local] Open Scope Z_scope.

Module Safety.

(** ** The calls *)

Inductive api :=
  | SemReset (n : nat) (c : Z) | SemWait (n : nat) | SemWaitTimeout (n : nat) (time : Z)
  | SemSignal (n : nat) | SemAddCounter (n : nat) (c : Z) | SemSignalWait (sps spw : nat)
  | MtxLock (m : nat) | MtxTryLock (m : nat) | MtxUnlock (m : nat) | MtxUnlockAll
  | CondSignal (c : nat) | CondBroadcast (c : nat) | CondWait (c : nat) | CondWaitTimeout (c : nat) (time : Z)
  | EvtSignal (t : nat) (e : Z) | EvtBroadcastFlags (es : nat) (flags : Z)
  | EvtWaitOne (e : Z) | EvtWaitAny (e : Z) | EvtWaitAll (e : Z)
  | EvtWaitOneTimeout (e time : Z) | EvtWaitAnyTimeout (e time : Z) | EvtWaitAllTimeout (e time : Z)
  | MsgSend (t : nat) (m : Z) | MsgWait | MsgRelease (t : nat) (m : Z)
  | ThdCreateI (t : nat) (prio : Z) | ThdCreateStatic (t : nat) (prio : Z) | ThdStart (t : nat)
  | ThdSetPriority (prio : Z) | ThdYield | ThdExit (m : Z)
  | ThdSleep (time : Z) | ThdSleepUntil (time : Z) | ThdSleepUntilWindowed (prev next : Z)
  | ThdSuspend (r : nat) | ThdSuspendTimeout (r : nat) (time : Z) | ThdResume (r : nat) (m : Z)
  | ThdEnqueueTimeout (tq : nat) (time : Z).

Definition drop {A} (m : kern A) : kern unit := m;; kret tt.

Definition run (c : api) : kern unit :=
  match c with
  | SemReset n c => drop (chSemReset n c)
  | SemWait n => drop (chSemWait n)
  | SemWaitTimeout n time => drop (chSemWaitTimeout n time)
  | SemSignal n => drop (chSemSignal n)
  | SemAddCounter n c => drop (iclass (chSemAddCounterI n c);; chSchRescheduleS)
  | SemSignalWait sps spw => drop (chSemSignalWait sps spw)
  | MtxLock m => drop (chMtxLock m)
  | MtxTryLock m => drop (chMtxTryLock m)
  | MtxUnlock m => drop (chMtxUnlock m)
  | MtxUnlockAll => drop chMtxUnlockAll
  | CondSignal c => drop (chCondSignal c)
  | CondBroadcast c => drop (chCondBroadcast c)
  | CondWait c => drop (chCondWait c)
  | CondWaitTimeout c time => drop (chCondWaitTimeout c time)
  | EvtSignal t e => drop (chEvtSignal t e)
  | EvtBroadcastFlags es flags => drop (chEvtBroadcastFlags es flags)
  | EvtWaitOne e => drop (chEvtWaitOne e)
  | EvtWaitAny e => drop (chEvtWaitAny e)
  | EvtWaitAll e => drop (chEvtWaitAll e)
  | EvtWaitOneTimeout e time => drop (chEvtWaitOneTimeout e time)
  | EvtWaitAnyTimeout e time => drop (chEvtWaitAnyTimeout e time)
  | EvtWaitAllTimeout e time => drop (chEvtWaitAllTimeout e time)
  | MsgSend t m => drop (chMsgSend t m)
  | MsgWait => drop chMsgWait
  | MsgRelease t m => drop (chMsgRelease t m)
  | ThdCreateI t prio => drop (iclass (chThdCreateI t prio))
  | ThdCreateStatic t prio => drop (chThdCreateStatic t prio)
  | ThdStart t => drop (chThdStart t)
  | ThdSetPriority prio => drop (chThdSetPriority prio)
  | ThdYield => drop chThdYield
  | ThdExit m => drop (chThdExit m)
  | ThdSleep time => drop (chThdSleep time)
  | ThdSleepUntil time => drop (chThdSleepUntil time)
  | ThdSleepUntilWindowed prev next => drop (chThdSleepUntilWindowed prev next)
  | ThdSuspend r => drop (chThdSuspendS r)
  | ThdSuspendTimeout r time => drop (chThdSuspendTimeoutS r time)
  | ThdResume r m => drop (chThdResume r m)
  | ThdEnqueueTimeout tq time => drop (chThdEnqueueTimeoutS tq time)
  end.

(** The calls of interrupt handlers, and the tick. *)
Inductive iapi :=
  | ISemSignal (n : nat) | ISemReset (n : nat) (c : Z) | ISemAddCounter (n : nat) (c : Z)
  | ICondSignal (c : nat) | ICondBroadcast (c : nat)
  | IEvtSignal (t : nat) (e : Z) | IEvtBroadcastFlags (es : nat) (flags : Z)
  | IThdResume (r : nat) (m : Z) | IThdDequeueNext (tq : nat) (m : Z) | IThdDequeueAll (tq : nat) (m : Z)
  | ISysTimer.

Definition irun (c : iapi) : fw kernel unit := λ k,
  match c with
  | ISemSignal n => chSemSignalI n k
  | ISemReset n c => chSemResetI n c k
  | ISemAddCounter n c => chSemAddCounterI n c k
  | ICondSignal c => chCondSignalI c k
  | ICondBroadcast c => chCondBroadcastI c k
  | IEvtSignal t e => chEvtSignalI t e k
  | IEvtBroadcastFlags es flags => chEvtBroadcastFlagsI es flags k
  | IThdResume r m => chThdResumeI r m k
  | IThdDequeueNext tq m => chThdDequeueNextI tq m k
  | IThdDequeueAll tq m => chThdDequeueAllI tq m k
  | ISysTimer => chSysTimerHandlerI (S (length (vt_list (k_vtl k)))) k
  end.

(** ** When a call may be made *)

Section legal.
Variable idle : nat.

Definition time_ok (time : Z) : Prop := 0 <= time < 2 ^ 32.

(** The idle thread never waits; counters keep clear of the limits of their
    type; a thread unlocks the mutex it locked last, and none when it owns none;
    messages are released once; threads are created once. *)
Definition legal (k : kernel) (c : api) : Prop :=
  let me := currp k in
  match c with
  | SemReset n c => 0 <= c
  | SemWait n => count_ok k n ∧ me ≠ idle
  | SemWaitTimeout n time => count_ok k n ∧ me ≠ idle ∧ time_ok time
  | SemSignal n => count_ok k n
  | SemAddCounter n c => INT32_MIN < s_cnt k n ∧ s_cnt k n + c <= INT32_MAX
  | SemSignalWait sps spw => count_ok k sps ∧ count_ok k spw ∧ s_cnt k spw + 1 < INT32_MAX ∧ me ≠ idle
  | MtxLock m => me ≠ idle
  | MtxUnlock m => head (p_mtxlist (thd k me)) = Some m
  | CondWait c => me ≠ idle ∧ p_mtxlist (thd k me) ≠ []
  | CondWaitTimeout c time => me ≠ idle ∧ time_ok time ∧ p_mtxlist (thd k me) ≠ []
  | EvtWaitOne _ | EvtWaitAny _ | EvtWaitAll _ | MsgSend _ _ | MsgWait | ThdSuspend _
  | ThdSleepUntil _ | ThdSleepUntilWindowed _ _ => me ≠ idle
  | EvtWaitOneTimeout _ time | EvtWaitAnyTimeout _ time | EvtWaitAllTimeout _ time | ThdSleep time
  | ThdSuspendTimeout _ time | ThdEnqueueTimeout _ time => me ≠ idle ∧ time_ok time
  | MsgRelease t m => p_state (thd k t) = SNDMSG
  | ThdCreateI t prio | ThdCreateStatic t prio => unborn k t ∧ 0 < prio
  | ThdStart t => p_state (thd k t) = WTSTART ∧ t ∈ registry k
  | ThdSetPriority prio => 0 < prio
  | ThdExit m => me ≠ idle ∧ p_mtxlist (thd k me) = []
  | _ => True
  end.

(** The counter of time has not gone a whole turn since the last tick. *)
Definition ilegal (k : kernel) (c : iapi) : Prop :=
  match c with
  | ISemSignal n => count_ok k n
  | ISemReset n c => 0 <= c
  | ISemAddCounter n c => INT32_MIN < s_cnt k n ∧ s_cnt k n + c <= INT32_MAX
  | ISysTimer => elapsed (k_now k) (k_vtl k) < 2 ^ 32 - 1
  | _ => True
  end.

(** ** The system

    The kernel's state, and for each thread that gave up the processor inside
    the kernel what it goes on with. An error of the kernel is [None]. *)
Record sys := { s_k : kernel; s_pend : nat → option (kernel → out unit) }.

Definition settle (me : nat) (pend : nat → option (kernel → out unit)) (o : out unit) : option sys :=
  match o with
  | Done _ k => Some {| s_k := k; s_pend := upd pend me None |}
  | Switch k r => Some {| s_k := k; s_pend := upd pend me (Some r) |}
  | Fail _ => None
  end.

(** An interrupt handler, and the switch at its end. *)
Definition handler (c : iapi) : kern unit := iclass (irun c);; chSchPreemption.

(** The running thread calls the kernel, or goes on inside it; it is interrupted
    outside the kernel only, where interrupts are enabled; time passes. *)
Inductive step (s : sys) : option sys → Prop :=
  | step_call c :
    s_pend s (currp (s_k s)) = None → legal (s_k s) c →
    step s (settle (currp (s_k s)) (s_pend s) (run c (s_k s)))
  | step_resume r :
    s_pend s (currp (s_k s)) = Some r →
    step s (settle (currp (s_k s)) (s_pend s) (r (s_k s)))
  | step_interrupt c :
    s_pend s (currp (s_k s)) = None → ilegal (s_k s) c →
    step s (settle (currp (s_k s)) (s_pend s) (handler c (s_k s)))
  | step_time now :
    0 <= now < 2 ^ 32 → step s (Some {| s_k := k_set_now now (s_k s); s_pend := s_pend s |}).

Inductive reachable (s0 : sys) : option sys → Prop :=
  | reach_start : reachable s0 (Some s0)
  | reach_step s o : reachable s0 (Some s) → step s o → reachable s0 o.

Notation kinv := (kinv idle).
Notation safe := (safe idle).
Notation returned := (returned idle).
Notation op_safe := (op_safe idle).

Lemma drop_safe {A} me (m : kern A) k : op_safe me m k → op_safe me (drop m) k.
Proof.
  intros Hm H Hc Ha. apply safe_bind. eapply safe_mono; [|by apply Hm]. by intros k1 a k' ?.
Qed.

Lemma run_safe k c : legal k c → op_safe (currp k) (run c) k.
Proof.
  intros Hl. destruct c; cbn in Hl; apply drop_safe; intros H.
  - by apply chSemReset_safe.
  - by apply chSemWaitS_safe; [apply Hl..|].
  - destruct Hl as (? & ? & ?). by apply chSemWaitTimeoutS_safe.
  - by apply chSemSignal_safe.
  - apply safe_iop_resched; [|done]. by apply chSemAddCounterI_ok; [|apply Hl..].
  - destruct Hl as (? & ? & ? & ?). by apply chSemSignalWait_safe.
  - by apply chMtxLockS_safe.
  - by apply chMtxTryLockS_safe.
  - destruct (p_mtxlist _) as [|m' l] eqn:El; [done|]. injection Hl as <-. by eapply chMtxUnlock_safe.
  - by apply chMtxUnlockAll_safe.
  - by apply chCondSignal_safe.
  - by apply chCondBroadcast_safe.
  - destruct Hl. by apply chCondWaitS_safe.
  - destruct Hl as (? & ? & ?). by apply chCondWaitTimeoutS_safe.
  - by apply chEvtSignal_safe.
  - by apply chEvtBroadcastFlags_safe.
  - by apply chEvtWaitOne_safe.
  - by apply chEvtWaitAny_safe.
  - by apply chEvtWaitAll_safe.
  - destruct Hl. by apply chEvtWaitOneTimeout_safe.
  - destruct Hl. by apply chEvtWaitAnyTimeout_safe.
  - destruct Hl. by apply chEvtWaitAllTimeout_safe.
  - by apply chMsgSend_safe.
  - by apply chMsgWait_safe.
  - by apply chMsgRelease_safe.
  - destruct Hl. apply safe_iop; [|done]. by apply chThdCreateI_ok.
  - destruct Hl. by apply chThdCreateStatic_safe.
  - destruct Hl. apply safe_iop; [|done]. by apply chThdStartI_ok.
  - by apply chThdSetPriority_safe.
  - by apply chThdYield_safe.
  - destruct Hl. by apply chThdExitS_safe.
  - destruct Hl. by apply chThdSleepS_safe.
  - by apply chThdSleepUntil_safe.
  - by apply chThdSleepUntilWindowed_safe.
  - by apply chThdSuspendS_safe.
  - destruct Hl. by apply chThdSuspendTimeoutS_safe.
  - by apply chThdResumeS_safe.
  - destruct Hl. by apply chThdEnqueueTimeoutS_safe.
Qed.

Lemma handler_safe k c : ilegal k c → op_safe (currp k) (handler c) k.
Proof.
  intros Hl H Hc Ha.
  assert (∃ k', irun c k = Ok (tt, k') ∧ kinv k' ∧ (∀ me, evolve me k k') ∧ currp k' = currp k ∧ ¬ armed k' (currp k'))
    as (k' & E & H' & He & Hc' & Ha').
  { assert (∀ m, irun c k = m k → iok idle m k → ∃ k', irun c k = Ok (tt, k') ∧ kinv k' ∧ (∀ me, evolve me k k')
      ∧ currp k' = currp k ∧ ¬ armed k' (currp k')) as Hi.
    { intros m -> ([] & k' & -> & H' & P). exists k'. split_and!; try apply P; try done.
      rewrite (ip_cur _ _ P). unfold armed. by rewrite (ip_vtl _ _ P). }
    destruct c; cbn in Hl; [eapply Hi; [reflexivity|]..|].
    - by apply chSemSignalI_ok.
    - by apply chSemResetI_ok.
    - by apply chSemAddCounterI_ok; [|apply Hl..].
    - by apply chCondSignalI_ok.
    - by apply chCondBroadcastI_ok.
    - by apply chEvtSignalI_ok.
    - by apply chEvtBroadcastFlagsI_ok.
    - by apply chThdResumeI_ok.
    - by apply chThdDequeueNextI_ok.
    - by apply chThdDequeueAllI_ok.
    - apply (chVTDoTickI_ok idle); try done. lia. }
  eapply safe_iclass; [exact E|]. change chSchPreemption with chSchRescheduleS.
  apply safe_resched_end; try done. by rewrite <-Hc'.
Qed.

(** ** The invariant of the system *)

(** What the thread [t] goes on with, [r], is safe whenever it is resumed. *)
Definition pending_ok (t : nat) (r : kernel → out unit) (k : kernel) : Prop :=
  ∃ st u (timer : Prop),
    (¬ awake (thd k t) → wst (thd k t) = st ∧ p_u (thd k t) = u) ∧ (awake (thd k t) → know st u t k)
    ∧ (armed k t → timer)
    ∧ ∀ k', kinv k' → currp k' = t → know st u t k' → (armed k' t → timer) → safe t (returned t) k' (r k').

Record sys_inv (s : sys) : Prop := {
  si_k : kinv (s_k s);
  si_free t : s_pend s t = None → ¬ armed (s_k s) t;
  si_pend t r : s_pend s t = Some r → pending_ok t r (s_k s)
}.

Lemma pending_evolves t r k k' : pending_ok t r k → evolves t k k' → pending_ok t r k'.
Proof.
  intros (st & u & a & H1 & H2 & H3 & H4) He. exists st, u, a.
  pose proof He as (E1 & E2 & E3 & E4 & E5). split_and!; [| |auto|done].
  - intros Ha'. assert (¬ awake (thd k t)) as Ha by (intros Hx; by apply Ha', E1).
    destruct (E2 Ha) as [[-> ->]|[? _]]; [auto|done].
  - intros Ha'. destruct (awake_dec (thd k t)) as [Ha|Ha].
    + eapply know_evolves; [exact Ha|auto|done].
    + destruct (H1 Ha) as [<- <-]. destruct (E2 Ha) as [[Hw _]|[_ Hk]]; [|done].
      exfalso. apply Ha. by apply (wst_awake (thd k' t)).
Qed.

(** A safe run from a state of the system ends in one, with no error. *)
Lemma settle_inv s me o :
  sys_inv s → currp (s_k s) = me → safe me (returned me) (s_k s) o →
  ∃ s', settle me (s_pend s) o = Some s' ∧ sys_inv s'.
Proof.
  intros [I1 I2 I3] Hc Ho.
  assert (∀ k' p, kinv k' → evolve me (s_k s) k' → (p = None → ¬ armed k' me) → (∀ r, p = Some r → pending_ok me r k') →
    sys_inv {| s_k := k'; s_pend := upd (s_pend s) me p |}) as Hnext.
  { intros k' p Hk He Hp Hr. split; cbn; [done|..].
    - intros t. unfold upd. case_decide as E; [subst; auto|]. intros Hx Ha. apply (I2 t Hx). by apply (He t).
    - intros t r. unfold upd. case_decide as E; [subst; auto|]. intros Hx.
      eapply pending_evolves; [by apply I3|by apply He]. }
  destruct o as [[] k'|k' r|e]; cbn [settle] in *; [| |done].
  - destruct Ho as (? & ? & ? & ?). eexists. split; [done|]. by apply Hnext.
  - destruct Ho as [[Y1 Y2 Y3 Y4] Hr]. eexists. split; [done|]. apply Hnext; try done.
    intros r' [= <-]. exists (wst (thd k' me)), (p_u (thd k' me)), (armed k' me). split_and!; try done.
    + intros Ha. apply know_wst. destruct Ha as [Ha|Ha]; [|done]. rewrite Ha. by split_and!.
    + intros k2 R1 R2 R3 R4. apply Hr. split; try done. by apply know_wst.
Qed.

Lemma kinv_now k now : kinv k → kinv (k_set_now now k).
Proof. intros [loc [[] Hs [] Hr [] Hg]]. by exists loc. Qed.

Lemma pending_now t r k now : pending_ok t r k → pending_ok t r (k_set_now now k).
Proof. done. Qed.

Lemma step_inv s o : sys_inv s → step s o → ∃ s', o = Some s' ∧ sys_inv s'.
Proof.
  intros I Hs. pose proof I as [I1 I2 I3]. destruct Hs as [c Hp Hl|r Hp|c Hp Hl|now Hn].
  - apply settle_inv; try done. apply run_safe; auto.
  - apply settle_inv; try done. destruct (I3 _ _ Hp) as (st & u & a & H1 & H2 & H3 & H4). apply H4; try done.
    apply H2. right. destruct I1 as [loc H]. by eapply current_facts, not_elem_of_nil.
  - apply settle_inv; try done. apply handler_safe; auto.
  - eexists. split; [done|]. split; cbn; [by apply kinv_now|apply I2|]. intros t r Hx. by apply pending_now, I3.
Qed.

Lemma reachable_inv s0 o : sys_inv s0 → reachable s0 o → ∃ s, o = Some s ∧ sys_inv s.
Proof.
  intros H0. induction 1 as [|s o _ IH Hs]; [by exists s0|].
  destruct IH as (s' & [= <-] & I). by apply (step_inv s).
Qed.

End legal.
(** ** From the start of the system *)

(** The statically initialised objects, and thread records not in use: state
    [WTSTART] stands for memory that is no thread yet. *)
Record blank (k : kernel) : Prop := {
  bk_state t : p_state (thd k t) = WTSTART;
  bk_mtx t : p_mtxlist (thd k t) = [];
  bk_prio t : 0 < prio_of k t;
  bk_real t : 0 < p_realprio (thd k t);
  bk_queues q : queues k q = [];
  bk_cnt n : 0 <= s_cnt k n;
  bk_owner m : m_owner k m = None;
  bk_refs r : trefs k r = None
}.

(** The kernel's state when [chSysInit] returns. *)
Record booted (main idle : nat) (k : kernel) : Prop := {
  bt_main : p_state (thd k main) = CURRENT;
  bt_idle : p_state (thd k idle) = READY;
  bt_other t : t ≠ main → t ≠ idle → p_state (thd k t) = WTSTART;
  bt_cur : currp k = main;
  bt_mtx t : p_mtxlist (thd k t) = [];
  bt_prio t : 0 < prio_of k t ∧ 0 < p_realprio (thd k t);
  bt_ready : queues k QReady = [idle];
  bt_queues q : q ≠ QReady → queues k q = [];
  bt_cnt n : 0 <= s_cnt k n;
  bt_owner m : m_owner k m = None;
  bt_refs r : trefs k r = None;
  bt_reg : registry k = [main; idle];
  bt_vtl : vt_list (k_vtl k) = []
}.

Lemma booted_inv main idle k : main ≠ idle → booted main idle k → sys_inv idle {| s_k := k; s_pend := λ _, None |}.
Proof.
  intros Hn []. split; [|intros t _; unfold armed; cbn; rewrite bt_vtl0; apply not_elem_of_nil|done].
  assert (∀ t, p_state (thd k t) = CURRENT → t = main) as Hcur.
  { intros t Ht. destruct (decide (t = main)) as [|Hm]; [done|]. destruct (decide (t = idle)) as [->|Hi]; [congruence|].
    by rewrite bt_other0 in Ht. }
  cbn [s_k]. exists (λ t, if decide (t = idle) then Some QReady else None). split.
  - split.
    + intros q. destruct (decide (q = QReady)) as [->|Hq]; [rewrite bt_ready0; apply NoDup_singleton|].
      rewrite bt_queues0 by done. constructor.
    + intros q t. destruct (decide (q = QReady)) as [->|Hq].
      * rewrite bt_ready0, list_elem_of_singleton. by case_decide.
      * rewrite bt_queues0 by done. split; [by intros ?%elem_of_nil|]. case_decide; [|done]. by intros [= <-].
    + intros t _. case_decide; [subst; exact bt_idle0|]. cbn. unfold in_none.
      destruct (decide (t = main)) as [->|]; [by rewrite bt_main0|by rewrite bt_other0].
    + intros q _. destruct (decide (q = QReady)) as [->|Hq]; [rewrite bt_ready0; by repeat constructor|].
      rewrite bt_queues0 by done. constructor.
    + apply bt_prio0.
    + intros _. by rewrite bt_cur0.
    + intros t _. rewrite bt_cur0. apply Hcur.
    + by left.
  - intros n _. cbn. rewrite bt_queues0 by done. specialize (bt_cnt0 n). cbn. lia.
  - split; unfold armed; cbn; rewrite bt_vtl0; [by intros t ?%elem_of_nil|constructor..].
  - intros r t. cbn. by rewrite bt_refs0.
  - split; cbn.
    + intros m t. rewrite bt_owner0, bt_mtx0. split; [done|by intros ?%elem_of_nil].
    + intros t. rewrite bt_mtx0. constructor.
    + intros m. by rewrite bt_queues0.
    + intros m t. by rewrite bt_owner0.
    + apply bt_prio0.
  - intros t _. cbn. rewrite bt_reg0. destruct (decide (t = main)) as [->|]; [right; right; by left|].
    destruct (decide (t = idle)) as [->|]; [right; right; right; by left|]. left. by apply bt_other0.
Qed.

Section boot.
Variable h_mtx : Z → nat.
Variable default_heap : Z.

(** The state after [_thread_init]. *)
Definition born (tp : nat) (prio : Z) (k : kernel) : kernel :=
  set_queue (QMsg tp) [] (set_queue (QWait tp) [] (k_set_registry (registry k ++ [tp])
    (set_thread tp (λ t, {| p_prio := prio; p_state := WTSTART; p_flags := CH_FLAG_MODE_STATIC; p_refs := 1;
       p_u := p_u t; p_msg := p_msg t; p_epending := 0; p_mtxlist := []; p_realprio := prio;
       p_mpool := p_mpool t |}) k))).

Lemma thread_init_eq tp prio k : _thread_init tp prio k = Ok (tp, born tp prio k).
Proof. done. Qed.

(** A thread created with a priority not above the running one's is made ready. *)
Lemma create_static_eq tp prio k :
  tp ≠ currp k → 0 < prio <= prio_of k (currp k) →
  chThdCreateStatic tp prio k = Done tp (do_ready tp (set_thread tp (t_u (RdyMsg MSG_OK)) (born tp prio k))).
Proof.
  intros Hn Hp. unfold chThdCreateStatic. rewrite (iclass_bind_eq _ _ _ _ _ (thread_init_eq tp prio k)).
  unfold chSchWakeupS. unfold mbind at 1, kern_bind at 1. erewrite iclass_bind_eq by reflexivity.
  set (k2 := set_thread tp (t_u (RdyMsg MSG_OK)) (born tp prio k)). erewrite iclass_bind_eq by reflexivity. cbv beta.
  assert (prio_of k2 tp = prio) as E1 by (unfold prio_of; cbn; by rewrite !upd_eq).
  assert (prio_of k2 (currp k2) = prio_of k (currp k)) as E2 by (unfold prio_of; cbn; by rewrite !upd_ne by congruence).
  rewrite E1, E2, (proj2 (Z.leb_le _ _)) by lia.
  rewrite (iclass_bind_eq _ _ _ _ _ (chSchReadyI_eq tp k2 ltac:(rewrite E1; lia))). done.
Qed.

Lemma chSysInit_boots heap_base heap_end main idle k :
  blank k → main ≠ idle →
  ∃ k', chSysInit h_mtx default_heap heap_base heap_end main idle k = Done tt k' ∧ booted main idle k'.
Proof.
  intros [] Hn. unfold chSysInit. do 5 (erewrite iclass_bind_eq by reflexivity).
  set (k1 := set_thread main (t_state CURRENT) _). unfold mbind at 1, kern_bind at 1.
  rewrite create_static_eq; [|done|].
  2: { unfold prio_of. cbn. rewrite !upd_eq. cbn. unfold IDLEPRIO, NORMALPRIO. lia. }
  eexists. split; [reflexivity|]. split.
  - cbn. rewrite !upd_ne, upd_eq by done. done.
  - cbn. by rewrite !upd_eq.
  - intros t H1 H2. cbn. rewrite !upd_ne by done. apply bk_state0.
  - done.
  - intros t. cbn. unfold upd. repeat case_decide; subst; try done; apply bk_mtx0.
  - intros t. unfold prio_of. cbn. unfold upd. repeat case_decide; subst; try done; split; try done; try apply bk_prio0; apply bk_real0.
  - cbn. by rewrite !upd_eq.
  - intros q Hq. cbn. rewrite upd_ne by done. unfold upd. repeat case_decide; subst; try done; apply bk_queues0.
  - apply bk_cnt0.
  - intros m. cbn. unfold upd. by case_decide.
  - apply bk_refs0.
  - done.
  - done.
Qed.

(** C1 (safety). From the state [chSysInit] makes, however the threads make
    [legal] calls, give up and get back the processor, and are interrupted by
    handlers and the tick, no call fails: no queue is taken from when it is empty,
    no union is read by another member than was written, no counter overflows and
    no walk runs out. Every state reached is well formed: each thread is in the
    queue its state says and in no other, the queues are in the order of
    priority, exactly the running thread is current, each semaphore's counter
    agrees with its waiters, the timers are those of threads that wait, and
    every mutex is in its owner's list. *)
Theorem kernel_safety (heap_base heap_end : Z) (main idle : nat) (k0 : kernel) :
  blank k0 → main ≠ idle →
  ∃ k1, chSysInit h_mtx default_heap heap_base heap_end main idle k0 = Done tt k1 ∧
    ∀ o, reachable idle {| s_k := k1; s_pend := λ _, None |} o →
    ∃ s, o = Some s ∧ kinv idle (s_k s).
Proof.
  intros Hb Hn. destruct (chSysInit_boots heap_base heap_end main idle k0 Hb Hn) as (k1 & E & Hk).
  exists k1. split; [done|]. intros o Ho.
  destruct (reachable_inv idle _ o (booted_inv main idle k1 Hn Hk) Ho) as (s & -> & []). by exists s.
Qed.

End boot.

End Safety.
