(* ===== verification/Preempt.v ===== *)
(** * Scheduling by priority, and time limits

    Which thread runs after the scheduler was called, where the one before goes,
    and which threads a tick wakes. *)

From Stdlib Require Import Sorted.
From S2P Require Import Prelude SysTime Fw VTimers Memory Kernel Sync Threads System Sched KInv KOps KWake KSafe KMtx Inherit.
From stdpp Require Import list.
Import SysTime VTimers Kernel Threads System Sched KInv KOps KWake KSafe Inherit.
#[local] Open Scope Z_scope.

Module Preempt.
Section preempt.
Variable idle : nat.
Notation kinv := (kinv idle).

(** Where [link_before] puts a thread. *)
Lemma link_before_split (p : nat → Z) (stop : nat → bool) t l :
  (∀ c c', p c' <= p c → stop c = true → stop c' = true) → by_prio p l →
  ∃ l1 l2, l = l1 ++ l2 ∧ link_before stop t l = l1 ++ t :: l2
    ∧ Forall (λ c, stop c = false) l1 ∧ Forall (λ c, stop c = true) l2.
Proof.
  intros Hm. induction 1 as [|c l Hl (l1 & l2 & -> & E & H1 & H2) Hc]; cbn [link_before]; [by exists [], []|].
  destruct (stop c) eqn:Ec.
  - exists [], (c :: l1 ++ l2). split_and!; [done|done|constructor|]. constructor; [done|].
    eapply Forall_impl; [exact Hc|]. cbn. intros x Hx. by apply (Hm c).
  - exists (c :: l1), l2. rewrite E. split_and!; [done|done|by constructor|done].
Qed.

(** The ready thread that waits longest among those of the highest priority. *)
Definition first_ready (k : kernel) (r : nat) (l : list nat) : Prop := queues k QReady = r :: l.

Lemma first_highest loc k r l t :
  inv idle [] [] loc k → first_ready k r l → t ∈ r :: l → prio_of k t <= prio_of k r.
Proof.
  intros H E. pose proof (q_sorted _ _ _ _ (i_q _ _ _ _ _ H) QReady Logic.I) as Hs. rewrite E in Hs.
  inversion Hs as [|? ? _ Hf]; subst. rewrite Forall_forall in Hf. intros [->|Ht]%elem_of_cons; [lia|by apply Hf].
Qed.

(** C27 (functional). A rescheduling, as at the end of an interrupt handler, lets
    the thread run that has the highest priority. While no ready thread has a
    higher one than the running thread nothing happens; otherwise the first ready
    thread runs, the one that waits longest among those of the highest priority,
    and the thread that ran goes ahead of the ready threads of its own priority,
    behind the others of a higher one. *)
Theorem preemption_by_priority (k : kernel) :
  kinv k → let me := currp k in
  ∃ k', state_at (chSchPreemption k) = Some k'
    ∧ (∀ t, t ∈ queues k' QReady → prio_of k' t <= prio_of k' (currp k'))
    ∧ match queues k QReady with
      | r :: l =>
        if prio_of k me <? prio_of k r then
          currp k' = r ∧ ∃ l1 l2, l = l1 ++ l2 ∧ queues k' QReady = l1 ++ me :: l2
            ∧ Forall (λ t, prio_of k me < prio_of k t) l1 ∧ Forall (λ t, prio_of k t <= prio_of k me) l2
        else k' = k
      | [] => k' = k
      end.
Proof.
  intros [loc H] me. pose proof (q_prio _ _ _ _ (i_q _ _ _ _ _ H) me) as Hp0.
  unfold chSchPreemption. erewrite iclass_bind_eq by reflexivity. cbv beta. unfold firstprio.
  destruct (queues k QReady) as [|r l] eqn:Eq.
  { rewrite (proj2 (Z.ltb_ge _ _)) by (unfold NOPRIO, me in *; lia). exists k. split_and!; [done| |done].
    rewrite Eq. by intros t ?%elem_of_nil. }
  fold me. destruct (Z.ltb_spec (prio_of k me) (prio_of k r)) as [L|L]; cbn [kwhen].
  2: { exists k. split_and!; [done| |done]. intros t. rewrite Eq. intros Ht.
       pose proof (first_highest loc k r l t H Eq Ht). unfold me in *. lia. }
  unfold chSchDoRescheduleAhead, self. unfold mbind at 1, kern_bind at 1. cbn [out_bind].
  rewrite (iclass_bind_eq _ _ _ _ _ (run_first_eq k r l Eq)). do 2 (erewrite iclass_bind_eq by reflexivity).
  cbn [chSysSwitch state_at]. eexists. split; [done|].
  set (k2 := set_thread me (t_state READY) (do_run_first r l k)).
  assert (∀ x, prio_of k2 x = prio_of k x) as Hp.
  { intros x. unfold k2, do_run_first. by rewrite !prio_set_thread. }
  change (currp k) with me. fold k2. change (queues k2 QReady) with (upd (queues k) QReady l QReady). rewrite upd_eq.
  set (stop := λ cp, prio_of k2 cp <=? prio_of k2 me).
  assert (by_prio (prio_of k2) l) as Hs.
  { eapply (by_prio_ext (prio_of k)); [intros; by rewrite Hp|].
    pose proof (q_sorted _ _ _ _ (i_q _ _ _ _ _ H) QReady Logic.I) as Hs. rewrite Eq in Hs. by inversion Hs. }
  destruct (link_before_split (prio_of k2) stop me l) as (l1 & l2 & El & E & H1 & H2); [|done|].
  { unfold stop. intros c c' Hc. rewrite !Z.leb_le. lia. }
  split_and!.
  - intros t. rewrite queues_set_queue, decide_True by done. rewrite elem_of_link_before.
    change (prio_of (set_queue QReady (link_before stop me l) k2)) with (prio_of k2). rewrite !Hp.
    change (currp (set_queue QReady (link_before stop me l) k2)) with r. intros [->|Ht]; [lia|]. apply (first_highest loc k r l); [done..|by right].
  - done.
  - exists l1, l2. split_and!; [done| | |].
    + rewrite queues_set_queue, decide_True by done. exact E.
    + eapply Forall_impl; [exact H1|]. intros x. unfold stop. rewrite !Hp. intros ?%Z.leb_gt. lia.
    + eapply Forall_impl; [exact H2|]. intros x. unfold stop. rewrite !Hp. intros ?%Z.leb_le. lia.
Qed.

(** Yielding is round robin among threads of one priority: the
    first ready thread runs unless its priority is lower, and the thread that
    yields goes behind all ready threads of its own priority, ahead of those of a
    lower one. *)
Theorem yield_round_robin (k : kernel) :
  kinv k → let me := currp k in
  ∃ k', state_at (chThdYield k) = Some k'
    ∧ match queues k QReady with
      | r :: l =>
        if prio_of k me <=? prio_of k r then
          currp k' = r ∧ ∃ l1 l2, l = l1 ++ l2 ∧ queues k' QReady = l1 ++ me :: l2
            ∧ Forall (λ t, prio_of k me <= prio_of k t) l1 ∧ Forall (λ t, prio_of k t < prio_of k me) l2
        else k' = k
      | [] => k' = k
      end.
Proof.
  intros [loc H] me. pose proof (q_prio _ _ _ _ (i_q _ _ _ _ _ H) me) as Hp0.
  unfold chThdYield, chSchDoYieldS. erewrite iclass_bind_eq by reflexivity. cbv beta. unfold firstprio.
  destruct (queues k QReady) as [|r l] eqn:Eq.
  { rewrite (proj2 (Z.leb_gt _ _)) by (unfold NOPRIO, me in *; lia). by exists k. }
  fold me. destruct (Z.leb_spec (prio_of k me) (prio_of k r)) as [L|L]; cbn [kwhen]; [|by exists k].
  unfold chSchDoRescheduleBehind, self. unfold mbind at 1, kern_bind at 1. cbn [out_bind].
  rewrite (iclass_bind_eq _ _ _ _ _ (run_first_eq k r l Eq)). fold me. set (k1 := do_run_first r l k).
  assert (∀ x, prio_of k1 x = prio_of k x) as Hp1 by (intros x; unfold k1, do_run_first; by rewrite prio_set_thread).
  rewrite (iclass_bind_eq _ _ _ _ _ (chSchReadyI_eq me k1 ltac:(rewrite Hp1; done))).
  cbn [chSysSwitch state_at]. eexists. split; [done|]. unfold do_ready. set (k2 := set_thread me (t_state READY) k1).
  assert (∀ x, prio_of k2 x = prio_of k x) as Hp by (intros x; unfold k2; by rewrite prio_set_thread).
  change (queues k2 QReady) with (upd (queues k) QReady l QReady). rewrite upd_eq.
  set (stop := λ cp, prio_of k2 cp <? prio_of k2 me).
  assert (by_prio (prio_of k2) l) as Hs.
  { eapply (by_prio_ext (prio_of k)); [intros; by rewrite Hp|].
    pose proof (q_sorted _ _ _ _ (i_q _ _ _ _ _ H) QReady Logic.I) as Hs. rewrite Eq in Hs. by inversion Hs. }
  destruct (link_before_split (prio_of k2) stop me l) as (l1 & l2 & El & E & H1 & H2); [|done|].
  { unfold stop. intros c c' Hc. rewrite !Z.ltb_lt. lia. }
  split; [done|]. exists l1, l2. split_and!; [done| | |].
  - rewrite queues_set_queue, decide_True by done. exact E.
  - eapply Forall_impl; [exact H1|]. intros x. unfold stop. rewrite !Hp. intros ?%Z.ltb_ge. lia.
  - eapply Forall_impl; [exact H2|]. intros x. unfold stop. rewrite !Hp. intros ?%Z.ltb_lt. lia.
Qed.

(** ** Time limits *)

Lemma expiries_app acc l1 l2 : expiries acc (l1 ++ l2) = expiries acc l1 ++ expiries (acc + total l1) l2.
Proof.
  revert acc. induction l1 as [|t l1 IH]; intros acc; cbn [app expiries].
  - change (total []) with 0. by rewrite Z.add_0_r.
  - rewrite IH. change (total (t :: l1)) with (vt_delta t + total l1). by rewrite Z.add_assoc.
Qed.

Lemma expiries_range acc l t e : deltas_ok l → (t, e) ∈ expiries acc l → acc <= e <= acc + total l.
Proof.
  revert acc. induction l as [|x l IH]; intros acc; cbn [expiries]; [by intros _ ?%elem_of_nil|].
  intros [Hx Hl]%Forall_cons_1. pose proof (total_nonneg l Hl). change (total (x :: l)) with (vt_delta x + total l).
  intros [[= -> ->]|Hin]%elem_of_cons; [lia|]. specialize (IH _ Hl Hin). lia.
Qed.

Lemma expiries_ids acc l t : t ∈ vt_id <$> l ↔ ∃ e, (t, e) ∈ expiries acc l.
Proof.
  revert acc. induction l as [|x l IH]; intros acc; cbn [expiries].
  - split; [by intros ?%elem_of_nil|by intros (e & ?%elem_of_nil)].
  - rewrite fmap_cons, elem_of_cons, (IH (acc + vt_delta x)). setoid_rewrite elem_of_cons. naive_solver.
Qed.

(** The limit of a thread that waits: ticks after the last tick. *)
Definition limit (k : kernel) (t : nat) (e : Z) : Prop := (t, e) ∈ expiries 0 (vt_list (k_vtl k)).

Lemma fired_ids k fired rest now t e :
  vt_list (k_vtl k) = fired ++ rest → deltas_ok (vt_list (k_vtl k)) →
  (∀ t l, rest = t :: l → now < total fired + vt_delta t) → limit k t e → e <= now → t ∈ vt_id <$> fired.
Proof.
  intros El Hok Hr Hl He. unfold limit in Hl. rewrite El, expiries_app in Hl. apply elem_of_app in Hl as [Hl|Hl].
  - apply (expiries_ids 0). by exists e.
  - rewrite El in Hok. apply Forall_app in Hok as [_ Hok]. exfalso. destruct rest as [|x rest]; [by apply elem_of_nil in Hl|].
    specialize (Hr x rest eq_refl). apply Forall_cons_1 in Hok as [Hx Hok]. cbn [expiries] in Hl.
    apply elem_of_cons in Hl as [[= -> ->]|Hl]; [lia|]. pose proof (expiries_range _ _ _ _ Hok Hl). lia.
Qed.

(** C16 (liveness). A tick wakes the threads whose time limits have passed, all of
    them and no other: each one that still waits is ready afterwards, taken out
    of what it waited in, with the message for a timeout; a thread woken before
    its limit keeps the message it was woken with. The tick ends. *)
Theorem tick_wakes (k : kernel) (fuel : nat) :
  kinv k → ¬ armed k (currp k) → elapsed (k_now k) (k_vtl k) < 2 ^ 32 - 1 →
  (length (vt_list (k_vtl k)) < fuel)%nat →
  ∃ k', chSysTimerHandlerI fuel k = Ok (tt, k') ∧ kinv k' ∧ currp k' = currp k
    ∧ (∀ t e, limit k t e → e <= elapsed (k_now k) (k_vtl k) →
        ¬ armed k' t ∧ t ∈ queues k' QReady
        ∧ thd k' t = (if decide (p_state (thd k t) = READY) then thd k t
                      else t_state READY (t_u (RdyMsg MSG_TIMEOUT) (thd k t))))
    ∧ (∀ t, (∀ e, limit k t e → elapsed (k_now k) (k_vtl k) < e) →
        thd k' t = thd k t ∧ (armed k' t ↔ armed k t)).
Proof.
  intros H Ha He Hf. pose proof H as [loc HI]. set (now := elapsed (k_now k) (k_vtl k)) in *.
  pose proof (t_deltas _ _ (i_t _ _ _ _ _ HI)) as Hok. pose proof (t_nodup _ _ (i_t _ _ _ _ _ HI)) as Hnd.
  destruct (expired_split (vt_list (k_vtl k)) now) as (fired & rest & El & H1 & H2); [done|apply u32_range|].
  destruct (chVTDoTickI_ticks idle fired rest k H Ha El He H1 H2 fuel) as (k' & E & [T1 T2 T3 T4 T5]).
  { rewrite El, length_app in Hf. lia. }
  exists k'. split_and!; [done|done|done|..].
  - intros t e Hl Hle. assert (t ∈ vt_id <$> fired) as Hin by by eapply fired_ids.
    assert (thd k' t = if decide (p_state (thd k t) = READY) then thd k t
      else t_state READY (t_u (RdyMsg MSG_TIMEOUT) (thd k t))) as Et.
    { rewrite T5, decide_True by done. unfold fired_thd. by destruct (p_state (thd k t)). }
    split_and!; [by intros [_ ?]%T4| |done]. apply (ready_queued idle); [exact T1|]. rewrite Et. by case_decide.
  - intros t Hn. assert (t ∉ vt_id <$> fired) as Hin.
    { intros (e & Hin)%(expiries_ids 0). rewrite El in Hok. apply Forall_app in Hok as [Hok _].
      pose proof (expiries_range _ _ _ _ Hok Hin). specialize (Hn e). unfold limit in Hn.
      rewrite El, expiries_app in Hn. specialize (Hn ltac:(apply elem_of_app; by left)). lia. }
    split; [by rewrite T5, decide_False|]. rewrite T4. naive_solver.
Qed.

End preempt.
End Preempt.
