(* ===== verification/KSpecs.v ===== *)
(** * What a semaphore promises (chsem.c)

    A semaphore is a number of permits or a queue of waiters: the abstract
    operations on it, and that waiting, signalling and resetting implement them. *)

From S2P Require Import Prelude SysTime Fw VTimers Memory Kernel Sync Sched KInv KOps KWake KSafe KMtx Inherit.
From stdpp Require Import list.
Import SysTime VTimers Kernel Sem Sched KInv KOps KWake KSafe Inherit.
#[local] Open Scope Z_scope.

Module KSpecs.

(** ** Semaphores *)

Inductive asem := Free (permits : Z) | Busy (waiters : list nat).

Definition absem (k : kernel) (n : nat) : asem :=
  if s_cnt k n <? 0 then Busy (queues k (QSem n)) else Free (s_cnt k n).

Definition a_wait (me : nat) (s : asem) : asem * bool :=
  match s with
  | Free c => if c =? 0 then (Busy [me], true) else (Free (c - 1), false)
  | Busy w => (Busy (w ++ [me]), true)
  end.

(** The semaphore afterwards, and the threads woken. *)
Definition a_signal (s : asem) : asem * list nat :=
  match s with
  | Free c => (Free (c + 1), [])
  | Busy [] => (Free 0, [])
  | Busy [t] => (Free 0, [t])
  | Busy (t :: w) => (Busy w, [t])
  end.

Definition a_waiters (s : asem) : list nat := match s with Free _ => [] | Busy w => w end.

Section sem.
Variable idle : nat.
Notation kinv := (kinv idle).

Lemma sleep_state st k r l :
  queues k QReady = r :: l →
  chSchGoSleepS st k = Switch (do_run_first r l (set_thread (currp k) (t_state st) k)) (λ k', Done tt k').
Proof.
  intros Eq. unfold chSchGoSleepS, self. unfold mbind at 1, kern_bind at 1. cbn [out_bind].
  erewrite iclass_bind_eq by reflexivity. by rewrite (iclass_bind_eq _ _ _ _ _ (run_first_eq (set_thread (currp k) (t_state st) k) r l Eq)).
Qed.

Lemma others_ready k : kinv k → currp k ≠ idle → ∃ r l, queues k QReady = r :: l ∧ r ≠ currp k.
Proof.
  intros [loc H] Hi. destruct (qinv_ready idle [] loc k) as (r & l & Eq); [apply H|apply not_elem_of_nil|done|].
  exists r, l. split; [done|]. by destruct (ready_facts _ _ _ _ _ _ _ H Eq ltac:(apply not_elem_of_nil)) as (_ & _ & ? & _).
Qed.

Lemma sem_counts k n : kinv k → Z.of_nat (length (queues k (QSem n))) = Z.max 0 (- s_cnt k n).
Proof. apply sem_queue_length. Qed.

Lemma absem_wait n k :
  kinv k → count_ok k n → currp k ≠ idle →
  ∃ k', state_at (chSemWait n k) = Some k' ∧ absem k' n = (a_wait (currp k) (absem k n)).1
    ∧ p_state (thd k' (currp k)) = if (a_wait (currp k) (absem k n)).2 then WTSEM else CURRENT.
Proof.
  intros H Hc Hi. pose proof (sem_counts k n H) as Hl. destruct (others_ready k H Hi) as (r & l & Eq & Hr).
  destruct H as [loc H]. destruct (current_facts _ _ _ _ _ H ltac:(apply not_elem_of_nil)) as (Hcur & _).
  unfold chSemWait, chSemWaitS. rewrite (iclass_bind_eq _ _ _ _ _ (dec_counter_eq k n Hc)).
  destruct (Z.ltb_spec (s_cnt k n - 1) 0) as [L|L].
  - unfold self. unfold mbind at 1, kern_bind at 1. cbn [out_bind]. do 2 (erewrite iclass_bind_eq by reflexivity).
    set (k2 := set_queue (QSem n) _ _).
    pose proof (sleep_state WTSEM k2 r l Eq) as Es. set (k' := do_run_first r l _) in Es.
    exists k'. split. { unfold mbind at 1, kern_bind at 1. by rewrite Es. }
    assert (s_cnt k' n = s_cnt k n - 1 ∧ queues k' (QSem n) = queues k (QSem n) ++ [currp k]) as [Ec Eqs].
    { split; [cbn; by rewrite upd_eq|]. cbn. by rewrite upd_ne, upd_eq. }
    split; [|].
    + unfold absem, a_wait. rewrite Ec, Eqs, (proj2 (Z.ltb_lt _ _)) by lia.
      destruct (Z.ltb_spec (s_cnt k n) 0); [done|]. rewrite (proj2 (Z.eqb_eq _ _)) by lia. cbn.
      assert (queues k (QSem n) = []) as -> by (apply length_zero_iff_nil; lia). done.
    + unfold absem, a_wait. transitivity WTSEM.
      * cbn. rewrite upd_ne by done. by rewrite upd_eq.
      * destruct (Z.ltb_spec (s_cnt k n) 0); [done|]. by rewrite (proj2 (Z.eqb_eq _ _)) by lia.
  - eexists. split; [done|]. unfold absem, a_wait. cbn. rewrite upd_eq, !(proj2 (Z.ltb_ge _ _)) by lia.
    rewrite (proj2 (Z.eqb_neq _ _)) by lia. done.
Qed.

Lemma absem_signal n k :
  kinv k → count_ok k n →
  ∃ k', chSemSignalI n k = Ok (tt, k') ∧ absem k' n = (a_signal (absem k n)).1
    ∧ made_ready (a_signal (absem k n)).2 MSG_OK k k'.
Proof.
  intros H Hc. pose proof (sem_counts k n H) as Hl.
  destruct (chSemSignalI_signals idle n k H Hc) as (k' & E & _ & _ & C & Q & M). exists k'. split; [done|].
  unfold absem. rewrite C, upd_eq, Q. destruct (Z.ltb_spec (s_cnt k n) 0) as [L|L].
  - destruct (queues k (QSem n)) as [|t [|t' w]]; cbn in *; [lia| |].
    + rewrite (proj2 (Z.ltb_ge _ _)) by lia. split; [|done]. f_equal. lia.
    + rewrite (proj2 (Z.ltb_lt _ _)) by lia. done.
  - assert (queues k (QSem n) = []) as Eq by (apply length_zero_iff_nil; lia). rewrite Eq in *. cbn in *.
    by rewrite (proj2 (Z.ltb_ge _ _)) by lia.
Qed.

Lemma absem_reset n c k :
  kinv k → 0 <= c →
  ∃ k', chSemResetI n c k = Ok (tt, k') ∧ absem k' n = Free c ∧ made_ready (a_waiters (absem k n)) MSG_RESET k k'.
Proof.
  intros H Hc. pose proof (sem_counts k n H) as Hl. destruct H as [loc H].
  destruct (reset_loop idle n (set_cnt n c k) 0 (Z.to_nat (- s_cnt k n))) as (k' & E & _ & _ & Q & C & M).
  - exists loc. eapply inv_cnt; [exact H|apply sinv_cnt, H].
  - cbn. lia.
  - exists k'. split; [exact E|]. unfold absem. rewrite C. cbn [s_cnt set_cnt k_set_s_cnt]. rewrite upd_eq.
    rewrite (proj2 (Z.ltb_ge c 0)) by lia. split; [done|]. unfold made_ready in *. cbn in M.
    destruct (Z.ltb_spec (s_cnt k n) 0) as [L|L]; [exact M|].
    assert (queues k (QSem n) = []) as Eq by (apply length_zero_iff_nil; lia). by rewrite Eq in M.
Qed.

(** C14 (refinement). A semaphore is either a number of permits or, when there are
    none, a first-in first-out queue of waiters: waiting takes a permit or joins
    the end of the queue and gives up the processor, signalling wakes the first
    waiter with [MSG_OK] or adds a permit, and resetting wakes every waiter with
    [MSG_RESET] and leaves the permits given. No other thread is woken. *)
Theorem sem_refines_fifo (n : nat) (k : kernel) :
  kinv k → count_ok k n → currp k ≠ idle →
  (∃ k', state_at (chSemWait n k) = Some k' ∧ absem k' n = (a_wait (currp k) (absem k n)).1
    ∧ p_state (thd k' (currp k)) = if (a_wait (currp k) (absem k n)).2 then WTSEM else CURRENT)
  ∧ (∃ k', chSemSignalI n k = Ok (tt, k') ∧ absem k' n = (a_signal (absem k n)).1
    ∧ made_ready (a_signal (absem k n)).2 MSG_OK k k')
  ∧ (∀ c, 0 <= c → ∃ k', chSemResetI n c k = Ok (tt, k') ∧ absem k' n = Free c
    ∧ made_ready (a_waiters (absem k n)) MSG_RESET k k').
Proof. intros. split_and!; [by apply absem_wait|by apply absem_signal|intros; by apply absem_reset]. Qed.

End sem.

End KSpecs.
