(* ===== verification/MbxSpecs.v ===== *)
(** * Mailboxes as bounded queues (chmboxes.c)

    The messages a mailbox holds while no thread waits on it, and what posting
    at either end, fetching and resetting do to them. *)

From S2P Require Import Prelude CBuf SysTime Fw Kernel Sync Mailboxes Queues Sched KInv KOps KWake.
From stdpp Require Import list.
Import SysTime Kernel Sem Mailboxes Queues KWake.
#[local] Open Scope Z_scope.

Module MbxSpecs.

(** The ring buffer of a mailbox, which counts with semaphores. *)
Definition ring_of (m : mailbox) : io_queue :=
  {| q_counter := 0; q_buffer := mb_buffer m; q_wrptr := mb_wrptr m; q_rdptr := mb_rdptr m |}.

(** The mailbox holds the messages [l], the next to be fetched first; both
    semaphores are free, which is to say that no thread waits. *)
Record holds (k : kernel) (mb : nat) (l : list Z) : Prop := {
  hd_ring : ring_wf (ring_of (mbx k mb)) (length l);
  hd_list : slice (mb_buffer (mbx k mb)) (mb_rdptr (mbx k mb)) (length l) = l;
  hd_size : Z.of_nat (mb_top (mbx k mb)) < INT32_MAX;
  hd_sems : mb_fullsem (mbx k mb) ≠ mb_emptysem (mbx k mb);
  hd_full : s_cnt k (mb_fullsem (mbx k mb)) = Z.of_nat (length l);
  hd_empty : s_cnt k (mb_emptysem (mbx k mb)) = Z.of_nat (mb_top (mbx k mb)) - Z.of_nat (length l)
}.

Inductive mop := Post (msg : Z) | PostAhead (msg : Z) | Fetch | MReset.

(** The operations on a bounded queue: the status with the message fetched. *)
Definition deque_step (cap : nat) (op : mop) (l : list Z) : (Z * Z) * list Z :=
  match op with
  | Post msg => if decide (length l < cap)%nat then ((MSG_OK, 0), l ++ [msg]) else ((MSG_TIMEOUT, 0), l)
  | PostAhead msg => if decide (length l < cap)%nat then ((MSG_OK, 0), msg :: l) else ((MSG_TIMEOUT, 0), l)
  | Fetch => match l with msg :: l => ((MSG_OK, msg), l) | [] => ((MSG_TIMEOUT, 0), []) end
  | MReset => ((MSG_OK, 0), [])
  end.

Definition mb_exec (mb : nat) (op : mop) : fw kernel (Z * Z) :=
  match op with
  | Post msg => s ← chMBPostI mb msg; ret (s, 0)
  | PostAhead msg => s ← chMBPostAheadI mb msg; ret (s, 0)
  | Fetch => chMBFetchI mb
  | MReset => chMBResetI mb;; ret (MSG_OK, 0)
  end.

Fixpoint deque_run (cap : nat) (ops : list mop) (l : list Z) : list (Z * Z) * list Z :=
  match ops with
  | [] => ([], l)
  | op :: ops => let '(r, l') := deque_step cap op l in let '(rs, l'') := deque_run cap ops l' in (r :: rs, l'')
  end.

Fixpoint mb_run (mb : nat) (ops : list mop) : fw kernel (list (Z * Z)) :=
  match ops with
  | [] => ret []
  | op :: ops => r ← mb_exec mb op; rs ← mb_run mb ops; ret (r :: rs)
  end.

(** ** The semaphores *)

Lemma inc_free n k : 0 <= s_cnt k n < INT32_MAX → chSemSignalI n k = Ok (tt, set_cnt n (s_cnt k n + 1) k).
Proof.
  intros Hc. unfold chSemSignalI. rewrite (fw_bind_ok _ _ _ _ _ (inc_counter_eq k n ltac:(unfold count_ok, INT32_MIN; lia))).
  by rewrite (proj2 (Z.leb_gt _ _)) by lia.
Qed.

Lemma dec_free n k : 0 < s_cnt k n < INT32_MAX → chSemFastWaitI n k = Ok (tt, set_cnt n (s_cnt k n - 1) k).
Proof.
  intros Hc. unfold chSemFastWaitI.
  by rewrite (fw_bind_ok _ _ _ _ _ (dec_counter_eq k n ltac:(unfold count_ok, INT32_MIN; lia))).
Qed.

Lemma reset_free n c k : 0 <= s_cnt k n → chSemResetI n c k = Ok (tt, set_cnt n c k).
Proof. intros Hc. unfold chSemResetI. fw_pure. replace (Z.to_nat (- s_cnt k n)) with 0%nat by lia. done. Qed.

(** ** The ring *)

Definition set_box (mb : nat) (m : mailbox) (k : kernel) : kernel := k_set_mbx (upd (mbx k) mb m) k.

Lemma mb_advance_ring m p : mb_advance m p = advance (ring_of m) p.
Proof. unfold mb_advance, advance. destruct (Nat.leb_spec (mb_top m) (S p)); case_decide as E; unfold mb_top, q_top in *; cbn in E; (done || lia). Qed.

Lemma store_eq mb msg k n :
  ring_wf (ring_of (mbx k mb)) n → (n < mb_top (mbx k mb))%nat →
  ∃ m', store mb msg k = Ok (tt, set_box mb m' k) ∧ ring_wf (ring_of m') (S n) ∧ mb_top m' = mb_top (mbx k mb)
    ∧ slice (mb_buffer m') (mb_rdptr m') (S n) = slice (mb_buffer (mbx k mb)) (mb_rdptr (mbx k mb)) n ++ [msg]
    ∧ mb_fullsem m' = mb_fullsem (mbx k mb) ∧ mb_emptysem m' = mb_emptysem (mbx k mb).
Proof.
  intros Hr Hn. set (m := mbx k mb) in *. destruct (push_spec (ring_of m) n 0 msg Hr Hn) as (q' & E & Hr' & _ & Ht & Hs).
  unfold push in E. cbn in E. assert (mb_wrptr m < mb_top m)%nat as Hw.
  { change (mb_wrptr m) with (q_wrptr (ring_of m)). rewrite (rw_wr _ _ Hr). apply Nat.mod_upper_bound. unfold mb_top in *. lia. }
  rewrite bwr_ok in E by done. cbn in E. injection E as <-.
  exists (with_ptrs m (<[mb_wrptr m := msg]> (mb_buffer m)) (mb_rdptr m) (mb_advance m (mb_wrptr m))). split_and!; try done.
  - unfold store. fw_pure. fold m. by rewrite (proj2 (Nat.ltb_lt _ _) Hw).
  - rewrite mb_advance_ring. by destruct Hr'.
Qed.

Lemma load_eq mb k n :
  ring_wf (ring_of (mbx k mb)) (S n) →
  ∃ b m', load mb k = Ok (b, set_box mb m' k) ∧ ring_wf (ring_of m') n ∧ mb_top m' = mb_top (mbx k mb)
    ∧ slice (mb_buffer (mbx k mb)) (mb_rdptr (mbx k mb)) (S n) = b :: slice (mb_buffer m') (mb_rdptr m') n
    ∧ mb_fullsem m' = mb_fullsem (mbx k mb) ∧ mb_emptysem m' = mb_emptysem (mbx k mb).
Proof.
  intros Hr. set (m := mbx k mb) in *. destruct (pop_spec (ring_of m) n 0 Hr) as (b & q' & E & Hr' & _ & Ht & Hs).
  unfold pop in E. cbn in E. destruct (lookup_lt_is_Some_2 (mb_buffer m) (mb_rdptr m)) as [x Hx]; [apply Hr|].
  rewrite (brd_ok _ _ _ Hx) in E. cbn in E. injection E as <- <-.
  exists x, (with_ptrs m (mb_buffer m) (mb_advance m (mb_rdptr m)) (mb_wrptr m)). split_and!; try done.
  - unfold load. fw_pure. fold m. by rewrite Hx.
  - rewrite mb_advance_ring. by destruct Hr'.
  - rewrite mb_advance_ring. done.
Qed.

(** Posting ahead is the inverse of fetching: it puts the reading pointer back. *)
Lemma store_ahead_eq mb msg k n :
  ring_wf (ring_of (mbx k mb)) n → (n < mb_top (mbx k mb))%nat →
  ∃ m', store_ahead mb msg k = Ok (tt, set_box mb m' k) ∧ ring_wf (ring_of m') (S n) ∧ mb_top m' = mb_top (mbx k mb)
    ∧ slice (mb_buffer m') (mb_rdptr m') (S n) = msg :: slice (mb_buffer (mbx k mb)) (mb_rdptr (mbx k mb)) n
    ∧ mb_fullsem m' = mb_fullsem (mbx k mb) ∧ mb_emptysem m' = mb_emptysem (mbx k mb).
Proof.
  intros [Hs Hle Hrd Hwr] Hn. set (m := mbx k mb) in *. unfold q_top, mb_top in *. cbn in *.
  set (b := mb_buffer m) in *. set (rd := mb_retreat m (mb_rdptr m)).
  assert (rd < length b)%nat as Hlt by (unfold rd, mb_retreat, mb_top; fold b; destruct (mb_rdptr m); lia).
  assert (∀ i, ((rd + S i) mod length b = (mb_rdptr m + i) mod length b)%nat) as Hmod.
  { intros i. unfold rd, mb_retreat, mb_top. fold b. destruct (mb_rdptr m) as [|p] eqn:Ep.
    - replace (length b - 1 + S i)%nat with (i + 1 * length b)%nat by lia. by rewrite Nat.Div0.mod_add.
    - f_equal. lia. }
  exists (with_ptrs m (<[rd := msg]> b) rd (mb_wrptr m)). split_and!; try done.
  - unfold store_ahead. fw_pure. fold m. fold rd. unfold mb_top. fold b. by rewrite (proj2 (Nat.ltb_lt _ _) Hlt).
  - constructor; unfold q_top; cbn; rewrite ?length_insert; try lia. by rewrite Hmod.
  - cbn. by rewrite length_insert.
  - cbn [with_ptrs mb_buffer mb_rdptr]. apply list_eq_same_length with (n := S n).
    + cbn [length]. by rewrite slice_length by (fold b; lia).
    + rewrite slice_length; [done|rewrite length_insert; lia].
    + intros i x y Hi. rewrite slice_lookup by (rewrite ?length_insert; lia). rewrite length_insert. destruct i as [|i].
      * rewrite Nat.add_0_r, Nat.mod_small, list_lookup_insert_eq by done. cbn. congruence.
      * cbn [lookup list_lookup]. rewrite slice_lookup by (fold b; lia). fold b. rewrite list_lookup_insert_ne, Hmod; [congruence|].
        intros E. apply (mod_distinct rd 0 (S i) (length b)); [lia..|]. rewrite Nat.add_0_r, Nat.mod_small by done. done.
Qed.

(** ** The operations *)

Lemma holds_length k mb l : holds k mb l → (length l <= mb_top (mbx k mb))%nat.
Proof. intros H. apply (rw_n _ _ (hd_ring _ _ _ H)). Qed.

(** A box with the semaphores of the one before, and the counters moved along. *)
Lemma holds_set k mb l m' l' kf ke :
  holds k mb l → ring_wf (ring_of m') (length l') → slice (mb_buffer m') (mb_rdptr m') (length l') = l' →
  mb_top m' = mb_top (mbx k mb) → mb_fullsem m' = mb_fullsem (mbx k mb) → mb_emptysem m' = mb_emptysem (mbx k mb) →
  kf = Z.of_nat (length l') → ke = Z.of_nat (mb_top m') - Z.of_nat (length l') →
  ∀ k', mbx k' mb = m' → s_cnt k' (mb_fullsem m') = kf → s_cnt k' (mb_emptysem m') = ke → holds k' mb l'.
Proof.
  intros [H1 H2 H3 H4 H5 H6] R S Ht Hf He -> -> k' Em Ef Ee. split; rewrite Em; try done; [by rewrite Ht|congruence].
Qed.

(** Posting, at whichever end: [put] is the assignment to the buffer. *)
Lemma post_with (put : fw kernel unit) mb l l' k :
  holds k mb l → length l' = S (length l) →
  (∀ k1, mbx k1 = mbx k → (length l < mb_top (mbx k mb))%nat →
    ∃ m', put k1 = Ok (tt, set_box mb m' k1) ∧ ring_wf (ring_of m') (S (length l)) ∧ mb_top m' = mb_top (mbx k mb)
    ∧ slice (mb_buffer m') (mb_rdptr m') (S (length l)) = l'
    ∧ mb_fullsem m' = mb_fullsem (mbx k mb) ∧ mb_emptysem m' = mb_emptysem (mbx k mb)) →
  ∃ k', (e ← emptysem mb;
         c ← chSemGetCounterI e;
         if c <=? 0 then ret MSG_TIMEOUT
         else chSemFastWaitI e;; put;; f ← fullsem mb; chSemSignalI f;; ret MSG_OK) k
        = Ok (if decide (length l < mb_top (mbx k mb))%nat then MSG_OK else MSG_TIMEOUT, k')
    ∧ holds k' mb (if decide (length l < mb_top (mbx k mb))%nat then l' else l)
    ∧ mb_top (mbx k' mb) = mb_top (mbx k mb).
Proof.
  intros H Hl Hput. pose proof H as [H1 H2 H3 H4 H5 H6]. pose proof (holds_length _ _ _ H) as Hle.
  unfold emptysem, chSemGetCounterI. do 2 rewrite (fw_bind_ok _ _ _ _ _ eq_refl). rewrite H6. case_decide as L.
  2: { rewrite (proj2 (Z.leb_le _ _)) by lia. by exists k. }
  rewrite (proj2 (Z.leb_gt _ _)) by lia. set (e := mb_emptysem (mbx k mb)) in *. set (f := mb_fullsem (mbx k mb)) in *.
  rewrite (fw_bind_ok _ _ _ _ _ (dec_free e k ltac:(rewrite H6; lia))). set (k1 := set_cnt e _ k).
  destruct (Hput k1 eq_refl L) as (m' & E & R & Ht & S & Hf & He). rewrite (fw_bind_ok _ _ _ _ _ E).
  unfold fullsem. rewrite (fw_bind_ok _ _ _ _ _ eq_refl). cbn [mbx set_box k_set_mbx]. rewrite upd_eq, Hf. fold f.
  assert (s_cnt (set_box mb m' k1) f = s_cnt k f) as Ec by (cbn; by rewrite upd_ne).
  rewrite (fw_bind_ok _ _ _ _ _ (inc_free f (set_box mb m' k1) ltac:(rewrite Ec, H5; lia))). rewrite Ec.
  eexists. split; [done|]. cbn [mbx set_cnt set_box k_set_mbx k_set_s_cnt]. rewrite upd_eq. split; [|done].
  eapply (holds_set k mb l m' l'); try done; rewrite ?Hl; try done; cbn; rewrite ?upd_eq, ?Hf, ?He; fold e f; try done.
  - rewrite upd_eq, H5. lia.
  - rewrite upd_ne, upd_eq, H6, Ht by done. lia.
Qed.

Lemma post_spec mb msg l k :
  holds k mb l →
  ∃ k', chMBPostI mb msg k = Ok (if decide (length l < mb_top (mbx k mb))%nat then MSG_OK else MSG_TIMEOUT, k')
    ∧ holds k' mb (if decide (length l < mb_top (mbx k mb))%nat then l ++ [msg] else l)
    ∧ mb_top (mbx k' mb) = mb_top (mbx k mb).
Proof.
  intros H. apply (post_with (store mb msg)); [done|rewrite length_app; cbn; lia|].
  intros k1 E L. destruct (store_eq mb msg k1 (length l)) as (m' & Es & R & Ht & S & Hf); [rewrite E; apply H|by rewrite E|].
  rewrite E in *. exists m'. split_and!; try done; [|apply Hf..]. by rewrite S, (hd_list _ _ _ H).
Qed.

Lemma post_ahead_spec mb msg l k :
  holds k mb l →
  ∃ k', chMBPostAheadI mb msg k = Ok (if decide (length l < mb_top (mbx k mb))%nat then MSG_OK else MSG_TIMEOUT, k')
    ∧ holds k' mb (if decide (length l < mb_top (mbx k mb))%nat then msg :: l else l)
    ∧ mb_top (mbx k' mb) = mb_top (mbx k mb).
Proof.
  intros H. apply (post_with (store_ahead mb msg)); [done..|].
  intros k1 E L. destruct (store_ahead_eq mb msg k1 (length l)) as (m' & Es & R & Ht & S & Hf); [rewrite E; apply H|by rewrite E|].
  rewrite E in *. exists m'. split_and!; try done; [|apply Hf..]. by rewrite S, (hd_list _ _ _ H).
Qed.

Lemma fetch_spec mb l k :
  holds k mb l →
  ∃ k', chMBFetchI mb k = Ok (match l with msg :: _ => (MSG_OK, msg) | [] => (MSG_TIMEOUT, 0) end, k')
    ∧ holds k' mb (tail l) ∧ mb_top (mbx k' mb) = mb_top (mbx k mb).
Proof.
  intros H. pose proof H as [H1 H2 H3 H4 H5 H6]. pose proof (holds_length _ _ _ H) as Hle.
  unfold chMBFetchI, fullsem, chSemGetCounterI. do 2 rewrite (fw_bind_ok _ _ _ _ _ eq_refl). rewrite H5.
  destruct l as [|b l]; cbn [length tail] in *; [by exists k|].
  rewrite (proj2 (Z.leb_gt _ _)) by lia. set (e := mb_emptysem (mbx k mb)) in *. set (f := mb_fullsem (mbx k mb)) in *.
  rewrite (fw_bind_ok _ _ _ _ _ (dec_free f k ltac:(rewrite H5; lia))). set (k1 := set_cnt f _ k).
  destruct (load_eq mb k1 (length l) H1) as (b' & m' & E & R & Ht & S & Hf & He). change (mbx k1) with (mbx k) in *.
  rewrite H2 in S. injection S as <- S. rewrite (fw_bind_ok _ _ _ _ _ E).
  unfold emptysem. rewrite (fw_bind_ok _ _ _ _ _ eq_refl). cbn [mbx set_box k_set_mbx]. rewrite upd_eq, He. fold e.
  assert (s_cnt (set_box mb m' k1) e = s_cnt k e) as Ec by (cbn; by rewrite upd_ne).
  rewrite (fw_bind_ok _ _ _ _ _ (inc_free e (set_box mb m' k1) ltac:(rewrite Ec, H6; lia))). rewrite Ec.
  eexists. split; [done|]. cbn [mbx set_cnt set_box k_set_mbx k_set_s_cnt]. rewrite upd_eq. split; [|done].
  eapply (holds_set k mb (b :: l) m' l); try done; cbn; rewrite ?upd_eq, ?Hf, ?He; fold e f; try done.
  - rewrite upd_ne, upd_eq, H5 by done. lia.
  - rewrite upd_eq, H6, Ht. lia.
Qed.

Lemma mreset_spec mb l k :
  holds k mb l → ∃ k', chMBResetI mb k = Ok (tt, k') ∧ holds k' mb [] ∧ mb_top (mbx k' mb) = mb_top (mbx k mb).
Proof.
  intros H. pose proof H as [H1 H2 H3 H4 H5 H6]. pose proof (holds_length _ _ _ H) as Hle.
  unfold chMBResetI. fw_pure. set (m := mbx k mb) in *. set (m' := with_ptrs m (mb_buffer m) 0 0).
  change (set_mbx mb m' k) with (Ok (tt, set_box mb m' k)).
  rewrite (fw_bind_ok _ _ _ _ _ (reset_free (mb_emptysem m) (Z.of_nat (mb_top m)) (set_box mb m' k) ltac:(cbn; lia))).
  rewrite (reset_free (mb_fullsem m) 0 _) by (cbn; rewrite upd_ne by done; lia).
  eexists. split; [done|]. cbn [mbx set_cnt set_box k_set_mbx k_set_s_cnt]. rewrite upd_eq. split; [|done].
  eapply (holds_set k mb l m' []); try done; cbn; rewrite ?upd_eq; try done.
  - destruct H1 as [R1 R2 R3 R4]. constructor; unfold q_top in *; cbn in *; try lia. by rewrite Nat.Div0.mod_0_l.
  - rewrite upd_ne, upd_eq by done. change (Z.of_nat (mb_top m) = Z.of_nat (mb_top m) - 0). lia.
Qed.

Lemma exec_refines mb op l k :
  holds k mb l →
  let '(r, l') := deque_step (mb_top (mbx k mb)) op l in
  ∃ k', mb_exec mb op k = Ok (r, k') ∧ holds k' mb l' ∧ mb_top (mbx k' mb) = mb_top (mbx k mb).
Proof.
  intros H. destruct op as [msg|msg| |]; cbn [mb_exec deque_step].
  - destruct (post_spec mb msg l k H) as (k' & E & P). rewrite (fw_bind_ok _ _ _ _ _ E). case_decide; by exists k'.
  - destruct (post_ahead_spec mb msg l k H) as (k' & E & P). rewrite (fw_bind_ok _ _ _ _ _ E). case_decide; by exists k'.
  - destruct (fetch_spec mb l k H) as (k' & E & P). destruct l; by exists k'.
  - destruct (mreset_spec mb l k H) as (k' & E & P). rewrite (fw_bind_ok _ _ _ _ _ E). by exists k'.
Qed.

(** C20 (refinement). While no thread waits on it a mailbox is a bounded
    double-ended queue: any sequence of posts at the end or ahead of the others,
    of fetches from the front and of resets answers as the queue does, [MSG_OK],
    or [MSG_TIMEOUT] for a post to a full one and a fetch from an empty one, and
    leaves the mailbox with the messages the queue holds. No access is outside
    the buffer. *)
Theorem mailbox_refines_deque (mb : nat) (ops : list mop) (l : list Z) (k : kernel) :
  holds k mb l →
  let '(rs, l') := deque_run (mb_top (mbx k mb)) ops l in
  ∃ k', mb_run mb ops k = Ok (rs, k') ∧ holds k' mb l'.
Proof.
  revert l k. induction ops as [|op ops IH]; intros l k H; cbn [deque_run mb_run]; [by exists k|].
  pose proof (exec_refines mb op l k H) as He. destruct (deque_step _ op l) as [r l1].
  destruct He as (k1 & E1 & H1 & Et). specialize (IH l1 k1 H1). rewrite Et in IH.
  destruct (deque_run _ ops l1) as [rs l']. destruct IH as (k' & E' & H'). exists k'. split; [|done].
  rewrite (fw_bind_ok _ _ _ _ _ E1). by rewrite (fw_bind_ok _ _ _ _ _ E').
Qed.

End MbxSpecs.
