(* ===== verification/EvtSpecs.v ===== *)
(** * Events as sets of bits (chevents.c)

    Signalled events stay pending until a wait takes them: what a signal adds
    and whom it wakes, which event a wait takes, and the calls of the dispatcher. *)

From S2P Require Import Prelude SysTime Fw VTimers Memory Kernel Events Sched KInv KOps KWake KSafe KMtx Inherit KSpecs.
From stdpp Require Import list numbers.
Import SysTime Kernel Events Sched KInv KOps KWake KSpecs.
#[local] Open Scope Z_scope.

Module EvtSpecs.

(** ** The lowest bit *)

Definition lowest_bit (m j : Z) : Prop := 0 <= j ∧ Z.testbit m j = true ∧ ∀ i, 0 <= i < j → Z.testbit m i = false.

Lemma lowest_double m : 0 < m < 2 ^ 31 → lowest (2 * m) = 2 * lowest m.
Proof.
  intros Hm. unfold lowest. rewrite !u32_id by lia. apply Z.bits_inj'. intros n Hn.
  rewrite Z.lxor_spec, Z.land_spec. destruct (decide (n = 0)) as [->|Hz].
  - by rewrite !Z.testbit_even_0.
  - replace n with (Z.succ (n - 1)) by lia. rewrite !Z.testbit_even_succ by lia.
    replace (2 * m - 1) with (2 * (m - 1) + 1) by lia. rewrite Z.testbit_odd_succ by lia.
    by rewrite Z.lxor_spec, Z.land_spec.
Qed.

Lemma lowest_odd m : 0 <= m < 2 ^ 31 → lowest (2 * m + 1) = 1.
Proof.
  intros Hm. unfold lowest. rewrite u32_id by lia. replace (2 * m + 1 - 1) with (2 * m) by lia.
  apply Z.bits_inj'. intros n Hn. rewrite Z.lxor_spec, Z.land_spec. destruct (decide (n = 0)) as [->|Hz].
  - by rewrite Z.testbit_odd_0, Z.testbit_even_0.
  - replace n with (Z.succ (n - 1)) by lia. rewrite Z.testbit_odd_succ, Z.testbit_even_succ by lia.
    rewrite andb_diag, xorb_nilpotent. symmetry. change 1 with (2 * 0 + 1).
    rewrite Z.testbit_odd_succ by lia. apply Z.testbit_0_l.
Qed.

Lemma lowest_spec m : 0 < m < 2 ^ 32 → ∃ j, lowest_bit m j ∧ lowest m = 2 ^ j.
Proof.
  intros [Hm Hb]. revert Hb. destruct m as [|p|p]; [lia| |lia]. clear Hm. induction p as [p IH|p IH|]; intros Hb.
  - exists 0. rewrite Pos2Z.inj_xI in *. rewrite lowest_odd by lia. split; [|done]. split_and!; [lia|apply Z.testbit_odd_0|lia].
  - destruct IH as (j & (J1 & J2 & J3) & E); [rewrite Pos2Z.inj_xO in *; lia|]. exists (Z.succ j).
    rewrite Pos2Z.inj_xO in *. rewrite lowest_double, E, Z.pow_succ_r by lia. split; [|done]. split_and!; [lia| |].
    + by rewrite Z.testbit_even_succ.
    + intros i Hi. destruct (decide (i = 0)) as [->|Hz]; [apply Z.testbit_even_0|].
      replace i with (Z.succ (i - 1)) by lia. rewrite Z.testbit_even_succ by lia. apply J3. lia.
  - exists 0. split; [|done]. split_and!; [lia|done|lia].
Qed.

Lemma nonzero_bit m : m ≠ 0 → 0 <= m → ∃ i, 0 <= i ∧ Z.testbit m i = true.
Proof. intros Hz Hm. exists (Z.log2 m). split; [apply Z.log2_nonneg|]. apply Z.bit_log2. lia. Qed.

Lemma below_bits m n : 0 <= n → 0 <= m < 2 ^ n → ∀ i, n <= i → Z.testbit m i = false.
Proof.
  intros Hn Hm i Hi. destruct (decide (m = 0)) as [->|]; [apply Z.testbit_0_l|].
  apply Z.bits_above_log2; [lia|]. assert (Z.log2 m < n) by (apply Z.log2_lt_pow2; lia). lia.
Qed.

(** ** Dispatching *)

Lemma event_mask_pow i : 0 <= i < 32 → EVENT_MASK i = 2 ^ i.
Proof.
  intros Hi. unfold EVENT_MASK. rewrite Z.shiftl_1_l. apply u32_id.
  assert (2 ^ i < 2 ^ 32) by (apply Z.pow_lt_mono_r; lia). lia.
Qed.

Lemma land_pow2_zero e i : 0 <= i → (Z.land e (2 ^ i) =? 0) = negb (Z.testbit e i).
Proof.
  intros Hi. destruct (Z.testbit e i) eqn:E; cbn.
  - apply Z.eqb_neq. intros H. assert (Z.testbit (Z.land e (2 ^ i)) i = true) as Ht.
    { by rewrite Z.land_spec, E, Z.pow2_bits_true. }
    by rewrite H, Z.testbit_0_l in Ht.
  - apply Z.eqb_eq, Z.bits_inj'. intros n Hn. rewrite Z.land_spec, Z.testbit_0_l.
    destruct (decide (n = i)) as [->|Hne]; [by rewrite E|]. by rewrite Z.pow2_bits_false, andb_false_r by done.
Qed.

Lemma ldiff_pow2_bit e i n : 0 <= i → 0 <= n → Z.testbit (Z.ldiff e (2 ^ i)) n = Z.testbit e n && negb (bool_decide (n = i)).
Proof.
  intros Hi Hn. rewrite Z.ldiff_spec. case_bool_decide as E; [subst; by rewrite Z.pow2_bits_true|].
  by rewrite Z.pow2_bits_false by congruence.
Qed.

Definition bits_from (eid events : Z) : list Z :=
  filter (λ i, Z.testbit events i = true) (seqZ eid (32 - eid)).

Lemma bits_from_cons eid events :
  0 <= eid < 32 → bits_from eid events = if Z.testbit events eid then eid :: bits_from (eid + 1) events else bits_from (eid + 1) events.
Proof.
  intros He. unfold bits_from. rewrite seqZ_cons by lia. replace (Z.pred (32 - eid)) with (32 - (eid + 1)) by lia.
  change (Z.succ eid) with (eid + 1). rewrite filter_cons. destruct (Z.testbit events eid); by case_decide.
Qed.

Lemma bits_from_ext eid e e' : (∀ i, eid <= i < 32 → Z.testbit e i = Z.testbit e' i) → bits_from eid e = bits_from eid e'.
Proof.
  intros H. unfold bits_from. assert (∀ l : list Z, (∀ i, i ∈ l → eid <= i < 32) →
    filter (λ i, Z.testbit e i = true) l = filter (λ i, Z.testbit e' i = true) l) as Hl.
  { induction l as [|x l IH]; intros Hx; [done|]. rewrite !filter_cons, H by (apply Hx; by left).
    rewrite IH; [done|]. intros i Hi. apply Hx. by right. }
  apply Hl. intros i Hi%elem_of_seqZ. lia.
Qed.

Lemma dispatch_loop_eq n eid events :
  eid = 32 - Z.of_nat n → (n <= 32)%nat → 0 <= events → (∀ i, 0 <= i → Z.testbit events i = true → eid <= i < 32) →
  dispatch_loop (S n) eid events = Ok (bits_from eid events).
Proof.
  revert eid events. induction n as [|n IH]; intros eid events He Hn H0 Hb.
  - destruct (decide (events = 0)) as [->|Hz]; [by rewrite He|].
    destruct (nonzero_bit events Hz H0) as (i & Hi & Ht). specialize (Hb i Hi Ht). lia.
  - remember (S n) as n' eqn:En. cbn [dispatch_loop]. subst n'. destruct (Z.eqb_spec events 0) as [->|Hz].
    { unfold bits_from. f_equal. induction (seqZ _ _) as [|x l IHl]; [done|]. rewrite filter_cons_False; [done|].
      by rewrite Z.testbit_0_l. }
    rewrite event_mask_pow by lia. rewrite land_pow2_zero, bits_from_cons by lia.
    destruct (Z.testbit events eid) eqn:Et; cbn [negb].
    + rewrite IH; [|lia|lia|apply Z.ldiff_nonneg; by left|].
      * f_equal. f_equal. apply bits_from_ext. intros i Hi. rewrite ldiff_pow2_bit by lia.
        rewrite bool_decide_false by lia. by rewrite andb_true_r.
      * intros i Hi. rewrite ldiff_pow2_bit by lia. intros [Ht Hne]%andb_prop. specialize (Hb i Hi Ht).
        apply negb_true_iff, bool_decide_eq_false in Hne. lia.
    + apply IH; [lia|lia|done|]. intros i Hi Ht. specialize (Hb i Hi Ht).
      destruct (decide (i = eid)) as [->|]; [congruence|lia].
Qed.

(** The dispatcher ends for every set of events, after at most
    33 rounds, and calls the handlers of exactly the events in the set, once
    each and in ascending order; an empty set calls none. *)
Theorem dispatch_terminates (events : Z) :
  0 <= events < 2 ^ 32 →
  chEvtDispatch events = Ok (filter (λ i, Z.testbit events i = true) (seqZ 0 32)).
Proof.
  intros He. unfold chEvtDispatch. apply (dispatch_loop_eq 32 0 events); [done|done|lia|].
  intros i Hi Ht. destruct (decide (i < 32)); [lia|]. by rewrite (below_bits events 32) in Ht by lia.
Qed.

(** ** Signalling *)

(** The events [p] are what the thread waits for. *)
Definition awaited (t : thread) (p : Z) : Prop :=
  (p_state t = WTOREVT ∧ ∃ m i, p_u t = EwMask m ∧ 0 <= i ∧ Z.testbit p i = true ∧ Z.testbit m i = true)
  ∨ (p_state t = WTANDEVT ∧ ∃ m, p_u t = EwMask m ∧ ∀ i, 0 <= i → Z.testbit m i = true → Z.testbit p i = true).

Lemma land_some p m : 0 <= p → Z.land p m ≠ 0 ↔ ∃ i, 0 <= i ∧ Z.testbit p i = true ∧ Z.testbit m i = true.
Proof.
  intros Hp. split.
  - intros Hz. destruct (nonzero_bit (Z.land p m)) as (i & Hi & Ht); [done|apply Z.land_nonneg; by left|].
    rewrite Z.land_spec in Ht. apply andb_prop in Ht. by exists i.
  - intros (i & Hi & H1 & H2) Hz. assert (Z.testbit (Z.land p m) i = true) as Ht by (by rewrite Z.land_spec, H1, H2).
    by rewrite Hz, Z.testbit_0_l in Ht.
Qed.

Lemma land_all p m : Z.land p m = m ↔ ∀ i, 0 <= i → Z.testbit m i = true → Z.testbit p i = true.
Proof.
  split.
  - intros Hz i Hi Ht. rewrite <-Hz, Z.land_spec in Ht. by apply andb_prop in Ht as [? _].
  - intros Hall. apply Z.bits_inj'. intros n Hn. rewrite Z.land_spec. specialize (Hall n Hn).
    destruct (Z.testbit m n); [by rewrite Hall|by rewrite andb_false_r].
Qed.

Lemma evt_wakes_spec t p : 0 <= p → evt_wakes (t_epending p t) = true ↔ awaited t p.
Proof.
  intros Hp. unfold evt_wakes, awaited. cbn [p_state p_u p_epending t_epending].
  destruct (p_state t); try (split; [done|by intros [[? _]|[? _]]]);
    (destruct (p_u t); try (split; [done|by intros [(_ & ? & ? & ? & _)|(_ & ? & ? & _)]])).
  - rewrite negb_true_iff, Z.eqb_neq, land_some by done. split.
    + intros (i & ?). left. split; [done|]. by eexists _, i.
    + intros [(_ & m' & i & [= <-] & ?)|[? _]]; [by exists i|done].
  - rewrite Z.eqb_eq, land_all. split.
    + intros Hall. right. split; [done|]. by eexists.
    + intros [[? _]|(_ & m' & [= <-] & ?)]; done.
Qed.

(** The thread [t] with the events added, woken when they are what it waits for. *)
Definition after_signal (t : thread) (e : Z) : thread :=
  let t1 := t_epending (Z.lor (p_epending t) e) t in
  if evt_wakes t1 then t_state READY (t_u (RdyMsg MSG_OK) t1) else t1.

Lemma signal_effect idle t e k :
  kinv idle k →
  ∃ k', chEvtSignalI t e k = Ok (tt, k') ∧ kinv idle k' ∧ es_next k' = es_next k ∧ lsn k' = lsn k
    ∧ (∀ x, thd k' x = if decide (x = t) then after_signal (thd k t) e else thd k x)
    ∧ (evt_wakes (t_epending (Z.lor (p_epending (thd k t)) e) (thd k t)) = false →
       k' = set_thread t (t_epending (Z.lor (p_epending (thd k t)) e)) k).
Proof.
  intros [loc H]. unfold chEvtSignalI. fw_pure. set (p := Z.lor (p_epending (thd k t)) e).
  change (set_thread t _ k) with (set_thread t (t_epending p) k).
  pose proof (inv_epending _ _ _ _ _ t p H) as H1. set (k1 := set_thread t (t_epending p) k) in *.
  assert (thd k1 t = t_epending p (thd k t)) as Et by (unfold k1; by rewrite thd_set_thread, decide_True).
  unfold after_signal. fold p. rewrite <-Et. destruct (evt_wakes (thd k1 t)) eqn:Ew; cbn [when].
  - assert (lone (p_state (thd k1 t)) = true ∧ p_state (thd k1 t) ≠ SUSPENDED) as [Hl Hu].
    { unfold evt_wakes in Ew. by destruct (p_state (thd k1 t)), (p_u (thd k1 t)). }
    destruct (lone_movable idle loc k1 t H1 Hl Hu) as [I M].
    destruct (set_ready_ok idle _ _ _ _ MSG_OK I M) as (k' & E & [I' P' [W1 W2 _ W4]]). exists k'.
    split_and!; [exact E|done|exact (f_equal es_next W4)|exact (f_equal lsn W4)| |done].
    intros x. case_decide as Ex; [by subst|]. rewrite W2 by done. unfold k1. by rewrite thd_set_thread, decide_False.
  - exists k1. split_and!; try done; [by exists loc|]. intros x. case_decide as Ex; [by subst|].
    unfold k1. by rewrite thd_set_thread, decide_False.
Qed.

(** Signalling adds the events to those pending for the thread
    and loses none. A thread that waits for one of several events is made ready,
    with [MSG_OK], when one of them is pending, a thread that waits for all when
    all are; any other goes on as it was, and no other thread is touched. *)
Theorem signal_latches (idle t : nat) (e : Z) (k : kernel) :
  kinv idle k → 0 <= e → 0 <= p_epending (thd k t) →
  let p := Z.lor (p_epending (thd k t)) e in
  ∃ k', chEvtSignalI t e k = Ok (tt, k')
    ∧ (∀ x, x ≠ t → thd k' x = thd k x)
    ∧ (awaited (thd k t) p →
        thd k' t = t_state READY (t_u (RdyMsg MSG_OK) (t_epending p (thd k t))) ∧ t ∈ queues k' QReady)
    ∧ (¬ awaited (thd k t) p → k' = set_thread t (t_epending p) k).
Proof.
  intros H He Hp p. assert (0 <= p) as Hp' by (apply Z.lor_nonneg; split; done).
  pose proof (evt_wakes_spec (thd k t) p Hp') as Hw.
  destruct (signal_effect idle t e k H) as (k' & E & H' & _ & _ & T & N). exists k'. split_and!; [done| | |].
  - intros x Hx. by rewrite T, decide_False.
  - intros Ha%Hw. specialize (T t). unfold after_signal in T. fold p in T. rewrite decide_True, Ha in T by done.
    split; [done|]. apply (ready_queued idle); [done|by rewrite T].
  - intros Ha. apply N. fold p. destruct (evt_wakes _); [by destruct Ha; apply Hw|done].
Qed.

(** ** Waiting *)

(** The wait ends with the lowest of the pending events it waits for, which it
    takes; the others stay pending. *)
Definition takes_lowest (me : nat) (events : Z) (k : kernel) (o : out Z) : Prop :=
  ∃ j, lowest_bit (Z.land (p_epending (thd k me)) events) j
    ∧ o = Done (2 ^ j) (set_thread me (λ t, t_epending (Z.clearbit (p_epending t) j) t) k).

Lemma take_lowest me events k :
  0 < Z.land (p_epending (thd k me)) events < 2 ^ 32 →
  takes_lowest me events k
    ((let m := lowest (Z.land (p_epending (thd k me)) events) in clear_events me m;; kret m) k).
Proof.
  intros Hm. destruct (lowest_spec _ Hm) as (j & Hj & E). exists j. split; [done|]. cbv zeta. rewrite E.
  unfold clear_events. erewrite iclass_bind_eq by reflexivity. unfold kret. do 2 f_equal. unfold set_thread. f_equal.
  unfold Z.clearbit. by rewrite Z.shiftl_1_l.
Qed.

Lemma wait_for_eq st events k r l :
  queues k QReady = r :: l →
  wait_for (currp k) st events k
  = Switch (do_run_first r l (set_thread (currp k) (t_state st) (set_thread (currp k) (t_u (EwMask events)) k)))
      (λ k', Done tt k').
Proof.
  intros Eq. unfold wait_for. erewrite iclass_bind_eq by reflexivity.
  exact (sleep_state st (set_thread (currp k) (t_u (EwMask events)) k) r l Eq).
Qed.

(** Waiting for one of several events takes the lowest one
    pending, at once when there is one. Otherwise the thread gives up the
    processor with the set of events recorded for whoever signals it, nothing
    pending being lost, and takes the lowest one pending when it runs again. *)
Theorem wait_one_takes_lowest (idle : nat) (events : Z) (k : kernel) :
  kinv idle k → currp k ≠ idle → 0 <= events < 2 ^ 32 → 0 <= p_epending (thd k (currp k)) →
  let me := currp k in
  if Z.land (p_epending (thd k me)) events =? 0 then
    ∃ k1 r, chEvtWaitOne events k = Switch k1 r
      ∧ thd k1 me = t_state WTOREVT (t_u (EwMask events) (thd k me))
      ∧ ∀ k', 0 <= p_epending (thd k' me) → Z.land (p_epending (thd k' me)) events ≠ 0 →
          takes_lowest me events k' (r k')
  else takes_lowest me events k (chEvtWaitOne events k).
Proof.
  intros H Hi He Hp me. destruct (others_ready idle k H Hi) as (r & l & Eq & Hr). fold me in Hr.
  assert (∀ p, 0 <= p → Z.land p events ≠ 0 → 0 < Z.land p events < 2 ^ 32) as Hrange.
  { intros p Hp' Hz. assert (0 <= Z.land p events) by (apply Z.land_nonneg; by left).
    assert (events ≠ 0) by (intros ->; by rewrite Z.land_0_r in Hz).
    split; [lia|]. apply Z.log2_lt_pow2; [lia|]. pose proof (Z.log2_land p events ltac:(lia) ltac:(lia)).
    assert (Z.log2 events < 32) by (apply Z.log2_lt_pow2; lia). lia. }
  assert (chEvtWaitOne events k = ((if Z.land (p_epending (thd k me)) events =? 0
    then wait_for me WTOREVT events;; pending_of me events else kret (Z.land (p_epending (thd k me)) events))
    ≫= λ m, let m := lowest m in clear_events me m;; kret m) k) as -> by done.
  destruct (Z.eqb_spec (Z.land (p_epending (thd k me)) events) 0) as [Hz|Hz].
  - pose proof (wait_for_eq WTOREVT events k r l Eq) as Ew. fold me in Ew. unfold mbind, kern_bind. rewrite Ew. cbn [out_bind].
    eexists _, _. split; [reflexivity|]. split.
    + unfold do_run_first. cbn. rewrite upd_ne by done. by rewrite !upd_eq.
    + intros k' Hp' Hz'. cbn [out_bind]. unfold pending_of. cbn [iclass gets out_bind]. by apply take_lowest, Hrange.
  - exact (take_lowest _ _ _ (Hrange _ Hp Hz)).
Qed.

End EvtSpecs.
