(* ===== verification/CanKernel.v ===== *)
(** * The CAN driver on the kernel

    The interface the driver's interrupt handlers run over, implemented by the
    kernel, and what its services do to the threads they concern. *)

From S2P Require Import Prelude SysTime Fw VTimers Memory Kernel Sync Threads Events System Osal Sched KInv KOps KWake EvtSpecs CanFrame CanDriver.
From stdpp Require Import list.
Import SysTime Kernel Threads Events Sched KInv KOps KWake EvtSpecs CanDriver.
#[local] Open Scope Z_scope.

Module CanKernel.

(** The kernel's state, the hardware and the driver's object. *)
Record board (HW : Type) := { b_k : kernel; b_hw : HW; b_drv : CANDriver }.
Arguments b_k {HW}.
Arguments b_hw {HW}.
Arguments b_drv {HW}.

Section board.
Context {HW : Type} `{CanHw HW}.

#[export] Instance board_hw : CanHw (board HW) := {
  can_rd b r := can_rd (b_hw b) r;
  can_wr r v b := {| b_k := b_k b; b_hw := can_wr r v (b_hw b); b_drv := b_drv b |};
  hw_call c b := {| b_k := b_k b; b_hw := hw_call c (b_hw b); b_drv := b_drv b |}
}.
#[export] Instance board_obj : CanObj (board HW) := {
  CAND1 := b_drv;
  set_CAND1 d b := {| b_k := b_k b; b_hw := b_hw b; b_drv := d |}
}.

(** The kernel objects in the driver's, and the calls that block, which no
    handler makes. *)
Variable queue_no : can_queue → nat.
Variable event_no : can_event → nat.
Variable enqueue : can_queue → Z → board HW → Z * board HW.
Variable sleep : Z → board HW → board HW.
Variable reschedule : board HW → board HW.

(** A kernel service; the state a failure is found in is the last one. *)
Definition on_kernel (m : fw kernel unit) (b : board HW) : board HW :=
  match m (b_k b) with
  | Ok (_, k) => {| b_k := k; b_hw := b_hw b; b_drv := b_drv b |}
  | Err _ => b
  end.

#[export] Instance board_osal : Osal (board HW) can_queue can_event := {
  osalThreadQueueObjectInit q := on_kernel (Osal.osalThreadQueueObjectInit (queue_no q));
  osalEventObjectInit e := on_kernel (Osal.osalEventObjectInit (event_no e));
  osalThreadEnqueueTimeoutS := enqueue;
  osalThreadDequeueAllI q msg := on_kernel (Osal.osalThreadDequeueAllI (queue_no q) msg);
  osalEventBroadcastFlagsI e flags := on_kernel (Osal.osalEventBroadcastFlagsI (event_no e) flags);
  osalThreadSleepS := sleep;
  osalOsRescheduleS := reschedule
}.

(** ** Threads told of events *)

Variable idle : nat.
Notation kinv := (kinv idle).

(** The thread is ready, with [MSG_OK]. *)
Definition woken_ok (k : kernel) (t : nat) : Prop := p_state (thd k t) = READY ∧ p_u (thd k t) = RdyMsg MSG_OK.

(** The events pending for a thread are kept, and it is left as it is or woken. *)
Record told (k k' : kernel) (t : nat) : Prop := {
  td_pending i : Z.testbit (p_epending (thd k t)) i = true → Z.testbit (p_epending (thd k' t)) i = true;
  td_state : p_state (thd k' t) = p_state (thd k t) ∧ p_u (thd k' t) = p_u (thd k t) ∨ woken_ok k' t
}.

(** The thread has the events [e] pending in [k'], and does not wait for them. *)
Record informed (t : nat) (e : Z) (k k' : kernel) : Prop := {
  in_pending i : 0 <= i → Z.testbit e i = true → Z.testbit (p_epending (thd k' t)) i = true;
  in_woken m : p_state (thd k t) = WTOREVT → p_u (thd k t) = EwMask m → Z.land e m ≠ 0 → woken_ok k' t
}.

Lemma told_refl k t : told k k t.
Proof. split; [done|by left]. Qed.

Lemma woken_told k k' t : woken_ok k t → told k k' t → woken_ok k' t.
Proof. intros [H1 H2] [_ [[E1 E2]|?]]; [|done]. unfold woken_ok. by rewrite E1, E2. Qed.

Lemma told_trans k1 k2 k3 t : told k1 k2 t → told k2 k3 t → told k1 k3 t.
Proof.
  intros [P1 S1] H23. pose proof H23 as [P2 S2]. split; [by eauto|].
  destruct S1 as [[E1 E2]|Hw]; [|right; by eapply woken_told]. destruct S2 as [[E3 E4]|Hw]; [|by right].
  left. split; congruence.
Qed.

Lemma informed_told t e k k1 k' : informed t e k k1 → told k1 k' t → informed t e k k'.
Proof. intros [I1 I2] H1. split; [intros; by apply (td_pending _ _ _ H1), I1|intros; eapply woken_told; eauto]. Qed.

Lemma told_informed t e k k1 k' : told k k1 t → informed t e k1 k' → told k1 k' t → informed t e k k'.
Proof.
  intros [_ S] I Hk. split; [apply I|]. intros m Hs Hu Hz. destruct S as [[E1 E2]|Hw]; [|by eapply woken_told].
  apply (in_woken _ _ _ _ I m); congruence.
Qed.

Lemma land_lor_nonzero a b m : Z.land b m ≠ 0 → Z.land (Z.lor a b) m ≠ 0.
Proof.
  intros Hb Hz. apply Hb, Z.bits_inj'. intros n Hn. pose proof (f_equal (λ x, Z.testbit x n) Hz) as E. cbn in E.
  rewrite Z.land_spec, Z.lor_spec in E. rewrite Z.land_spec. rewrite Z.testbit_0_l in *.
  by destruct (Z.testbit a n), (Z.testbit b n), (Z.testbit m n).
Qed.

(** ** A signal, and a broadcast *)

Lemma signal_tells t e k :
  kinv k →
  ∃ k', chEvtSignalI t e k = Ok (tt, k') ∧ kinv k' ∧ es_next k' = es_next k ∧ lsn k' = lsn k
    ∧ (∀ x, told k k' x) ∧ informed t e k k'.
Proof.
  intros Hk. destruct (signal_effect idle t e k Hk) as (k' & E & H' & En & El & T & _). exists k'.
  set (p := Z.lor (p_epending (thd k t)) e) in *.
  assert (p_epending (thd k' t) = p) as Ep.
  { rewrite T, decide_True by done. unfold after_signal. fold p. by destruct (evt_wakes _). }
  assert (evt_wakes (t_epending p (thd k t)) = true → woken_ok k' t) as Hw.
  { intros Hw. unfold woken_ok. rewrite T, decide_True by done. unfold after_signal. fold p. by rewrite Hw. }
  split_and!; [done..| |].
  - intros x. destruct (decide (x = t)) as [->|Hx].
    2: { specialize (T x). rewrite decide_False in T by done. split; [by rewrite T|left; by rewrite T]. }
    split; [intros i Hi; rewrite Ep; unfold p; by rewrite Z.lor_spec, Hi|].
    destruct (evt_wakes (t_epending p (thd k t))) eqn:Ew; [right; by apply Hw|left].
    rewrite T, decide_True by done. unfold after_signal. fold p. by rewrite Ew.
  - split; [intros i _ Hi; rewrite Ep; unfold p; rewrite Z.lor_spec, Hi; apply orb_true_r|].
    intros m Hs Hu Hz. apply Hw. unfold evt_wakes. cbn. rewrite Hs, Hu.
    apply negb_true_iff, Z.eqb_neq. by apply land_lor_nonzero.
Qed.

(** A listener keeps its thread, its events and the flags it wants. *)
Definition same_listener (l l' : listener) : Prop :=
  el_listener l' = el_listener l ∧ el_events l' = el_events l ∧ el_wflags l' = el_wflags l.

Lemma notify_tells flags el k :
  kinv k →
  ∃ k', notify_listener flags el k = Ok (tt, k') ∧ kinv k' ∧ es_next k' = es_next k
    ∧ (∀ x, same_listener (lsn k x) (lsn k' x)) ∧ (∀ x, told k k' x)
    ∧ (Z.land flags (el_wflags (lsn k el)) ≠ 0 → informed (el_listener (lsn k el)) (el_events (lsn k el)) k k').
Proof.
  intros Hk. unfold notify_listener. fw_pure. set (k1 := k_set_lsn _ k).
  assert (kinv k1) as H1 by (destruct Hk as [loc ?]; exists loc; by apply inv_lsn).
  assert (∀ x, same_listener (lsn k x) (lsn k1 x)) as Hl.
  { intros x. cbn. unfold upd, same_listener. by case_decide; subst. }
  destruct (Hl el) as (E1 & E2 & E3). rewrite E1, E2, E3.
  destruct ((flags =? 0) || negb (Z.land (el_flags (lsn k1 el)) (el_wflags (lsn k el)) =? 0)) eqn:Ec; cbn [when].
  - destruct (signal_tells (el_listener (lsn k el)) (el_events (lsn k el)) k1 H1) as (k' & E & H' & En & El & T & I).
    exists k'. split_and!; [done|done|done|by rewrite El|intros x; split; apply T|intros _; split; apply I].
  - exists k1. split_and!; try done; [intros x; split; [done|by left]|]. intros Hz. exfalso.
    apply orb_false_iff in Ec as [_ Ec%negb_false_iff%Z.eqb_eq]. revert Ec.
    assert (el_flags (lsn k1 el) = Z.lor (el_flags (lsn k el)) flags) as -> by (cbn; by rewrite upd_eq).
    by apply land_lor_nonzero.
Qed.

Lemma notify_all_tells flags l k :
  kinv k →
  ∃ k', notify_all flags l k = Ok (tt, k') ∧ kinv k' ∧ (∀ x, told k k' x)
    ∧ ∀ el, el ∈ l → Z.land flags (el_wflags (lsn k el)) ≠ 0 →
      informed (el_listener (lsn k el)) (el_events (lsn k el)) k k'.
Proof.
  revert k. induction l as [|el l IH]; intros k Hk.
  { exists k. split_and!; [done|done|intros; apply told_refl|by intros ? ?%elem_of_nil]. }
  destruct (notify_tells flags el k Hk) as (k1 & E1 & H1 & _ & L1 & T1 & I1).
  destruct (IH k1 H1) as (k' & E' & H' & T' & I'). exists k'.
  split_and!; [|done|intros; by eapply told_trans|].
  - cbn [notify_all]. by rewrite (fw_bind_ok _ _ _ _ _ E1).
  - intros x Hx Hz. apply elem_of_cons in Hx as [->|Hx]; [by apply (informed_told _ _ k k1); [apply I1|]|].
    destruct (L1 x) as (A1 & A2 & A3). rewrite <-A1, <-A2. apply (told_informed _ _ k k1); [done| |done].
    apply I'; [done|by rewrite A3].
Qed.

(** ** A queue emptied *)

Lemma dequeue_all_tells q k :
  kinv k →
  ∃ k', chThdDequeueAllI q MSG_OK k = Ok (tt, k') ∧ kinv k' ∧ (∀ x, told k k' x)
    ∧ (∀ x, x ∈ queues k (QThd q) → woken_ok k' x) ∧ es_next k' = es_next k ∧ lsn k' = lsn k.
Proof.
  intros Hk. destruct (drain_queue idle (readied MSG_OK) (QThd q) _ k (readied_adds_up MSG_OK)
    (pops_set_ready idle (QThd q) MSG_OK Logic.I ltac:(done)) Hk) as (k' & E & H' & P & Q & M & R).
  exists k'. split_and!; [exact E|done| | |exact (f_equal es_next R)|exact (f_equal lsn R)].
  - intros x. split; [|unfold woken_ok]; rewrite (M x); case_decide; [done|done|by right|by left].
  - intros x Hx. unfold woken_ok. by rewrite (M x), decide_True.
Qed.

End board.
End CanKernel.
