(* ===== verification/Mmio.v ===== *)
(** * Memory-mapped registers (nvic.c, stm32_rcc.h)

    The peripherals the drivers program, as registers: a read may change the
    device (time passes, a flag clears), a write always may. On top of them the
    clock gates, the interrupt controller, and a small calculus of weakest
    preconditions for the drivers' proofs. *)

From S2P Require Import Prelude Fw.

Module Mmio.

(** ** Registers *)

Inductive adc_reg := ADC_ISR | ADC_IER | ADC_CR | ADC_CFGR1 | ADC_CFGR2 | ADC_SMPR | ADC_TR | ADC_CHSELR | ADC_CCR.
Inductive dma_reg := DMA_ISR | DMA_IFCR | CCR (stream : nat) | CNDTR (stream : nat) | CPAR (stream : nat) | CMAR (stream : nat).
Inductive rcc_reg := AHBENR | APB1ENR | APB2ENR.
Inductive nvic_reg := IP (i : Z) | ICPR (i : Z) | ISER (i : Z) | ICER (i : Z).
Inductive usart := USART1 | USART2.
Inductive usart_reg := BRR | CR1 | CR2 | CR3 | ISR | ICR | RDR | TDR.
Inductive gpio := PA | PB | PC | PF.
Inductive gpio_reg := MODER | OTYPER | OSPEEDR | PUPDR | IDR | ODR | BSRR | BSRR_SET | BSRR_CLEAR | AFRL | AFRH.
Inductive iwdg_reg := KR | PR | RLR | SR | WINR.
Inductive tim_reg := TIM_CR1 | TIM_CR2 | TIM_DIER | TIM_SR | TIM_EGR | TIM_CCMR1 | TIM_CNT | TIM_PSC | TIM_ARR | TIM_CCR0.
(** The data register with an access of its width, and with one of a byte. *)
Inductive spi_reg := SPI_CR1 | SPI_CR2 | SPI_SR | SPI_DR | SPI_DR8.
(** The clocks, the resets of the peripherals, the power control, the flash. *)
Inductive sys_reg :=
  | RCC_CR | RCC_CR2 | RCC_CFGR | RCC_CFGR2 | RCC_CFGR3 | RCC_CSR | RCC_BDCR
  | AHBRSTR | APB1RSTR | APB2RSTR | PWR_CR | FLASH_ACR.

Inductive reg :=
  | rADC (r : adc_reg) | rDMA1 (r : dma_reg) | rRCC (r : rcc_reg) | rNVIC (r : nvic_reg)
  | rUSART (u : usart) (r : usart_reg) | rGPIO (p : gpio) (r : gpio_reg) | rIWDG (r : iwdg_reg)
  | rTIM2 (r : tim_reg) | rDBGMCU_APB1FZ | rSYS (r : sys_reg) | rSPI1 (r : spi_reg).

#[global] Instance adc_reg_eq_dec : EqDecision adc_reg.
Proof. solve_decision. Defined.
#[global] Instance dma_reg_eq_dec : EqDecision dma_reg.
Proof. solve_decision. Defined.
#[global] Instance rcc_reg_eq_dec : EqDecision rcc_reg.
Proof. solve_decision. Defined.
#[global] Instance nvic_reg_eq_dec : EqDecision nvic_reg.
Proof. solve_decision. Defined.
#[global] Instance usart_eq_dec : EqDecision usart.
Proof. solve_decision. Defined.
#[global] Instance usart_reg_eq_dec : EqDecision usart_reg.
Proof. solve_decision. Defined.
#[global] Instance gpio_eq_dec : EqDecision gpio.
Proof. solve_decision. Defined.
#[global] Instance gpio_reg_eq_dec : EqDecision gpio_reg.
Proof. solve_decision. Defined.
#[global] Instance iwdg_reg_eq_dec : EqDecision iwdg_reg.
Proof. solve_decision. Defined.
#[global] Instance tim_reg_eq_dec : EqDecision tim_reg.
Proof. solve_decision. Defined.
#[global] Instance spi_reg_eq_dec : EqDecision spi_reg.
Proof. solve_decision. Defined.
#[global] Instance sys_reg_eq_dec : EqDecision sys_reg.
Proof. solve_decision. Defined.
#[global] Instance reg_eq_dec : EqDecision reg.
Proof. solve_decision. Defined.

Class Mmio (W : Type) := {
  mm_rd : reg → W → Z * W;
  mm_wr : reg → Z → W → W
}.

(** A variable of the program in the world. *)
Class Obj (W T : Type) := {
  obj : W → T;
  set_obj : T → W → W
}.

(** A variable is no register. *)
Class ObjLaws (W T : Type) `{Mmio W, Obj W T} := {
  obj_set x w : obj (set_obj x w) = x;
  obj_rd r w : obj (mm_rd r w).2 = obj w;
  obj_wr r v w : obj (mm_wr r v w) = obj w
}.

Section registers.
Context {W : Type} `{Mmio W}.

Definition rd (r : reg) : fw W Z := λ w, Ok (mm_rd r w).
Definition wr (r : reg) (v : Z) : fw W unit := modify (mm_wr r v).
(** [r |= m] and [r &= ~m] *)
Definition or_bits (r : reg) (m : Z) : fw W unit := v ← rd r; wr r (Z.lor v m).
Definition clr_bits (r : reg) (m : Z) : fw W unit := v ← rd r; wr r (Z.ldiff v m).

(** [while (cond(r)) ;] with at most [fuel] polls. *)
Definition poll_while (fuel : nat) (r : reg) (busy : Z → bool) : fw W unit :=
  while_fuel fuel (v ← rd r; ret (busy v)) (ret tt).

(** ** Clock gates *)

Definition RCC_AHBENR_DMA1EN : Z := 0x1.
Definition RCC_APB1ENR_TIM2EN : Z := 0x1.
Definition RCC_APB1ENR_USART2EN : Z := 0x20000.
Definition RCC_APB2ENR_ADC1EN : Z := 0x200.
Definition RCC_APB2ENR_SPI1EN : Z := 0x1000.
Definition RCC_APB2ENR_USART1EN : Z := 0x4000.

Definition rccEnableAHB (mask : Z) : fw W unit := or_bits (rRCC AHBENR) mask.
Definition rccDisableAHB (mask : Z) : fw W unit := clr_bits (rRCC AHBENR) mask.
Definition rccEnableAPB1 (mask : Z) : fw W unit := or_bits (rRCC APB1ENR) mask.
Definition rccDisableAPB1 (mask : Z) : fw W unit := clr_bits (rRCC APB1ENR) mask.
Definition rccEnableAPB2 (mask : Z) : fw W unit := or_bits (rRCC APB2ENR) mask.
Definition rccDisableAPB2 (mask : Z) : fw W unit := clr_bits (rRCC APB2ENR) mask.

(** ** The interrupt controller *)

Definition NVIC_PRIO_BITS : Z := 2.
Definition NVIC_PRIORITY_MASK (prio : Z) : Z := u32 (Z.shiftl prio (8 - NVIC_PRIO_BITS)).
Definition IP_IDX (n : Z) : Z := Z.shiftr n 2.
Definition BIT_SHIFT (n : Z) : Z := Z.land n 3 * 8.

Definition nvicEnableVector (n prio : Z) : fw W unit :=
  v ← rd (rNVIC (IP (IP_IDX n)));
  wr (rNVIC (IP (IP_IDX n)))
    (Z.lor (Z.ldiff v (u32 (Z.shiftl 0xFF (BIT_SHIFT n)))) (u32 (Z.shiftl (NVIC_PRIORITY_MASK prio) (BIT_SHIFT n))));;
  wr (rNVIC (ICPR (Z.shiftr n 5))) (u32 (Z.shiftl 1 (Z.land n 0x1F)));;
  wr (rNVIC (ISER (Z.shiftr n 5))) (u32 (Z.shiftl 1 (Z.land n 0x1F))).

Definition nvicDisableVector (n : Z) : fw W unit :=
  wr (rNVIC (ICER (Z.shiftr n 5))) (u32 (Z.shiftl 1 (Z.land n 0x1F)));;
  clr_bits (rNVIC (IP (IP_IDX n))) (u32 (Z.shiftl 0xFF (BIT_SHIFT n))).

Definition nvicClearPending (n : Z) : fw W unit :=
  wr (rNVIC (ICPR (Z.shiftr n 5))) (u32 (Z.shiftl 1 (Z.land n 0x1F))).

End registers.

Section objects.
Context {W T : Type} `{Obj W T}.

Definition read_obj : fw W T := gets obj.
Definition write_obj (x : T) : fw W unit := modify (set_obj x).

End objects.

(** ** Weakest preconditions *)

Definition wp {W A} (m : fw W A) (Q : A → W → Prop) (w : W) : Prop :=
  match m w with Ok (a, w') => Q a w' | Err _ => False end.

Section wp.
Context {W : Type}.
Implicit Types w : W.

Lemma wp_elim {A} (m : fw W A) Q w : wp m Q w → ∃ a w', m w = Ok (a, w') ∧ Q a w'.
Proof. unfold wp. destruct (m w) as [[a w']|]; [eauto|done]. Qed.

Lemma wp_intro {A} (m : fw W A) (Q : A → W → Prop) w a w' : m w = Ok (a, w') → Q a w' → wp m Q w.
Proof. unfold wp. by intros ->. Qed.

Lemma wp_mono {A} (m : fw W A) (P Q : A → W → Prop) w : (∀ a w', P a w' → Q a w') → wp m P w → wp m Q w.
Proof. unfold wp. destruct (m w) as [[a w']|]; eauto. Qed.

Lemma wp_bind {A B} (m : fw W A) (f : A → fw W B) Q w : wp m (λ a, wp (f a) Q) w → wp (m ≫= f) Q w.
Proof. unfold wp. rewrite fw_bind_eq. by destruct (m w) as [[a w']|]. Qed.

(** Three statements, taken together. *)
Lemma wp_assoc3 {A B C D} (m1 : fw W A) (m2 : fw W B) (m3 : fw W C) (k : fw W D) Q w :
  wp ((m1;; m2;; m3);; k) Q w → wp (m1;; m2;; m3;; k) Q w.
Proof.
  unfold wp. rewrite !fw_bind_eq. destruct (m1 w) as [[a w1]|]; [|done]. rewrite !fw_bind_eq.
  destruct (m2 w1) as [[b w2]|]; [|done]. rewrite !fw_bind_eq. by destruct (m3 w2) as [[c w3]|].
Qed.

Lemma wp_ret {A} (a : A) (Q : A → W → Prop) w : Q a w → wp (ret a) Q w.
Proof. done. Qed.

Lemma wp_gets {A} (f : W → A) (Q : A → W → Prop) w : Q (f w) w → wp (gets f) Q w.
Proof. done. Qed.

Lemma wp_modify (f : W → W) Q w : Q tt (f w) → wp (modify f) Q w.
Proof. done. Qed.

Lemma wp_if {A} (b : bool) (m n : fw W A) Q w :
  (b = true → wp m Q w) → (b = false → wp n Q w) → wp (if b then m else n) Q w.
Proof. destruct b; auto. Qed.

Lemma wp_when (b : bool) m Q w :
  (b = true → wp m Q w) → (b = false → Q tt w) → wp (when b m) Q w.
Proof. destruct b; intros H1 H2; [by apply H1|by apply H2]. Qed.

Lemma wp_conj {A} (m : fw W A) (P Q : A → W → Prop) w : wp m P w → wp m Q w → wp m (λ a w', P a w' ∧ Q a w') w.
Proof. unfold wp. destruct (m w) as [[a w']|]; eauto. Qed.

Context `{Mmio W}.

Lemma wp_rd r (Q : Z → W → Prop) w : Q (mm_rd r w).1 (mm_rd r w).2 → wp (rd r) Q w.
Proof. unfold wp, rd. by destruct (mm_rd r w). Qed.

Lemma wp_wr r v Q w : Q tt (mm_wr r v w) → wp (wr r v) Q w.
Proof. done. Qed.

(** A device that leaves the condition within [n] further reads. *)
Fixpoint settles (n : nat) (r : reg) (busy : Z → bool) (w : W) : Prop :=
  busy (mm_rd r w).1 = false ∨ match n with O => False | S n => settles n r busy (mm_rd r w).2 end.

(** The loop ends, with what every read keeps. *)
Lemma wp_poll (I : W → Prop) n fuel r busy Q w :
  settles n r busy w → (n < fuel)%nat → I w →
  (∀ w', I w' → I (mm_rd r w').2) →
  (∀ w', I w' → busy (mm_rd r w').1 = false → Q tt (mm_rd r w').2) → wp (poll_while fuel r busy) Q w.
Proof.
  intros Hs Hn Hi HI HQ. revert n w Hs Hn Hi.
  induction fuel as [|fuel IH]; intros n w Hs Hn Hi; [lia|]. unfold poll_while. cbn [while_fuel].
  apply wp_bind, wp_bind, wp_rd, wp_ret. destruct (busy (mm_rd r w).1) eqn:Eb; [|apply wp_ret; by apply HQ].
  apply wp_bind, wp_ret. destruct n as [|n]; cbn in Hs; destruct Hs as [Hs|Hs]; try congruence; [done|].
  apply (IH n); [done|lia|by apply HI].
Qed.

End wp.

(** ** What a run leaves alone, whatever it does *)
Section frames.
Context {W B : Type} (f : W → B).

Definition frames {A} (m : fw W A) : Prop := ∀ w a w', m w = Ok (a, w') → f w' = f w.

Lemma frames_bind {A C} (m : fw W A) (k : A → fw W C) : frames m → (∀ a, frames (k a)) → frames (m ≫= k).
Proof. intros Hm Hk w c w' (a & w1 & H1 & H2)%fw_bind_Ok. rewrite (Hk _ _ _ _ H2). by eapply Hm. Qed.

Lemma frames_ret {A} (a : A) : frames (ret a).
Proof. by intros w a' w' [= _ <-]. Qed.

Lemma frames_throw {A} e : frames (throw e : fw W A).
Proof. done. Qed.

Lemma frames_gets {A} (g : W → A) : frames (gets g).
Proof. by intros w a' w' [= _ <-]. Qed.

Lemma frames_lift {A} (r : res A) : frames (lift r).
Proof. intros w a w' E. unfold lift in E. destruct r; [by injection E as _ <-|done]. Qed.

Lemma frames_modify g : (∀ w, f (g w) = f w) → frames (modify g).
Proof. by intros Hg w [] w' [= <-]. Qed.

Lemma frames_if {A} (b : bool) (m k : fw W A) : frames m → frames k → frames (if b then m else k).
Proof. by destruct b. Qed.

Lemma frames_when (b : bool) m : frames m → frames (when b m).
Proof. intros. apply frames_if; [done|apply frames_ret]. Qed.

Lemma wp_frame {A} (m : fw W A) (Q : A → W → Prop) w : frames m → wp m Q w → wp m (λ a w', Q a w' ∧ f w' = f w) w.
Proof. intros Hm. unfold wp. destruct (m w) as [[a w']|] eqn:E; [|done]. intros. split; [done|]. by eapply Hm. Qed.

Context `{Mmio W}.

Lemma frames_rd r : (∀ w, f (mm_rd r w).2 = f w) → frames (rd r).
Proof. intros Hr w a w' [= E]. specialize (Hr w). by rewrite E in Hr. Qed.

Lemma frames_wr r v : (∀ w, f (mm_wr r v w) = f w) → frames (wr r v).
Proof. intros. by apply frames_modify. Qed.

End frames.

(** Statement by statement; what is left are the accesses. *)
Ltac frames_tac :=
  repeat first
    [ apply frames_bind; [|intros ?] | apply frames_ret | apply frames_throw | apply frames_gets | apply frames_lift
    | apply frames_when | apply frames_if | apply frames_rd; intros | apply frames_wr; intros
    | progress unfold or_bits, clr_bits, read_obj
    | match goal with |- frames _ (match ?x with _ => _ end) => destruct x end
    | apply frames_modify; intros ].

(** Runs the next statement of a goal [wp m Q w]. *)
Ltac wp_step :=
  match goal with
  | |- wp (_ ≫= _) _ _ => apply wp_bind
  | |- wp (rd _) _ _ => apply wp_rd
  | |- wp (wr _ _) _ _ => apply wp_wr
  | |- wp (ret _) _ _ => apply wp_ret
  | |- wp (gets _) _ _ => apply wp_gets
  | |- wp read_obj _ _ => apply wp_gets
  | |- wp (modify _) _ _ => apply wp_modify
  | |- wp (write_obj _) _ _ => apply wp_modify
  | |- wp (or_bits _ _) _ _ => unfold or_bits
  | |- wp (clr_bits _ _) _ _ => unfold clr_bits
  end; cbv beta.
Ltac wp_steps := repeat wp_step.

(** ** What a sequence of accesses leaves alone

    [touched S w w'] : the world went from [w] to [w'] by reads, and by writes
    of the registers [S]. *)
Section touched.
Context {W : Type} `{Mmio W}.
Implicit Types (w : W) (S : reg → Prop).

Inductive touched S : W → W → Prop :=
  | touched_refl w : touched S w w
  | touched_rd r w w' : touched S (mm_rd r w).2 w' → touched S w w'
  | touched_wr r v w w' : S r → touched S (mm_wr r v w) w' → touched S w w'.

Lemma touched_trans S w1 w2 w3 : touched S w1 w2 → touched S w2 w3 → touched S w1 w3.
Proof. induction 1; eauto using touched. Qed.

Lemma touched_then_rd S r w w' : touched S w w' → touched S w (mm_rd r w').2.
Proof. intros Hw. eapply touched_trans; [done|]. eapply touched_rd, touched_refl. Qed.

Lemma touched_then_wr S r v w w' : S r → touched S w w' → touched S w (mm_wr r v w').
Proof. intros Hr Hw. eapply touched_trans; [done|]. eapply touched_wr; [done|]. apply touched_refl. Qed.

Lemma touched_mono S S' w w' : (∀ r, S r → S' r) → touched S w w' → touched S' w w'.
Proof. intros HS. induction 1; eauto using touched. Qed.

(** An observation that reads and those writes keep is kept. *)
Lemma touched_keeps {B} (f : W → B) S w w' :
  (∀ r w, f (mm_rd r w).2 = f w) → (∀ r v w, S r → f (mm_wr r v w) = f w) → touched S w w' → f w' = f w.
Proof. intros Hr Hw. induction 1 as [| |? ? ? ? ? ? IH]; [done|congruence|]. rewrite IH. auto. Qed.

Lemma wp_poll_touched n fuel r busy (Q : unit → W → Prop) w :
  settles n r busy w → (n < fuel)%nat →
  (∀ w', touched (λ _, False) w w' → Q tt w') → wp (poll_while fuel r busy) Q w.
Proof.
  intros Hs Hn HQ. apply (wp_poll (touched (λ _, False) w) n); [done..|apply touched_refl| |].
  - intros w'. apply touched_then_rd.
  - intros w' Hw _. by apply HQ, touched_then_rd.
Qed.

End touched.

Definition is_nvic (r : reg) : Prop := match r with rNVIC _ => True | _ => False end.
Definition is_rcc (r : reg) : Prop := match r with rRCC _ => True | _ => False end.

(** The writes to registers so far. *)
Class WriteLog (W : Type) `{Mmio W} := {
  writes : W → list (reg * Z);
  writes_rd r w : writes (mm_rd r w).2 = writes w;
  writes_wr r v w : writes (mm_wr r v w) = writes w ++ [(r, v)]
}.
Class WriteLogObj (W T : Type) `{WriteLog W, Obj W T} := { writes_set x w : writes (set_obj x w) = writes w }.

(** The accesses of a run, one by one. *)
Ltac touched_tac :=
  repeat first [apply touched_refl | apply touched_then_rd | apply touched_then_wr; [done|]].

(** ** What the clock gates and the interrupt controller do

    [rcc w r] is the register; [irq_on w n] says that vector [n] is enabled.
    The set and clear registers of the controller act on the bits written. *)

Definition vector_in (n i v : Z) : bool := (i =? Z.shiftr n 5) && Z.testbit v (Z.land n 0x1F).

Class CoreHw (W : Type) `{Mmio W} := {
  rcc : W → rcc_reg → Z;
  irq_on : W → Z → bool;
  rcc_val r w : (mm_rd (rRCC r) w).1 = rcc w r;
  rcc_rd r w r' : rcc (mm_rd r w).2 r' = rcc w r';
  rcc_wr r v w r' : rcc (mm_wr r v w) r' = match r with rRCC r => if decide (r = r') then v else rcc w r' | _ => rcc w r' end;
  irq_rd r w n : irq_on (mm_rd r w).2 n = irq_on w n;
  irq_wr r v w n : irq_on (mm_wr r v w) n =
    match r with
    | rNVIC (ISER i) => irq_on w n || vector_in n i v
    | rNVIC (ICER i) => irq_on w n && negb (vector_in n i v)
    | _ => irq_on w n
    end
}.

(** Nor are the clock gates and the interrupt controller variables. *)
Class CoreObjLaws (W T : Type) `{CoreHw W, Obj W T} := {
  rcc_set x w r : rcc (set_obj x w) r = rcc w r;
  irq_set x w n : irq_on (set_obj x w) n = irq_on w n
}.

Lemma land_ones32 n : Z.land n 0x1F = n mod 32.
Proof. apply (Z.land_ones n 5). lia. Qed.

Lemma vector_in_bit n k :
  vector_in k (Z.shiftr n 5) (u32 (Z.shiftl 1 (Z.land n 0x1F))) = (k =? n).
Proof.
  unfold vector_in, u32. rewrite !land_ones32, !Z.shiftr_div_pow2 by lia. change (2 ^ 5) with 32.
  pose proof (Z.mod_pos_bound n 32 ltac:(lia)). pose proof (Z.mod_pos_bound k 32 ltac:(lia)).
  change 4294967296 with (2 ^ 32). rewrite Z.mod_pow2_bits_low, Z.shiftl_spec by lia.
  pose proof (Z.div_mod n 32 ltac:(lia)) as Dn. pose proof (Z.div_mod k 32 ltac:(lia)) as Dk.
  destruct (Z.eqb_spec k n) as [->|Hn].
  - by rewrite Z.eqb_refl, Z.sub_diag.
  - destruct (Z.eqb_spec (n / 32) (k / 32)); [cbn|done].
    assert (k mod 32 - n mod 32 ≠ 0) as Hd by lia.
    destruct (decide (k mod 32 < n mod 32)); [by rewrite Z.testbit_neg_r by lia|].
    apply (Z.testbit_false 1); [lia|]. rewrite Z.div_small; [done|].
    split; [lia|]. apply Z.pow_gt_1; lia.
Qed.

Section core.
Context {W : Type} `{CoreHw W}.
Implicit Types w : W.

Lemma irq_wr_iser n w k : irq_on (mm_wr (rNVIC (ISER (Z.shiftr n 5))) (u32 (Z.shiftl 1 (Z.land n 0x1F))) w) k = (irq_on w k || (k =? n)).
Proof. rewrite irq_wr. by rewrite vector_in_bit. Qed.

Lemma irq_wr_icer n w k : irq_on (mm_wr (rNVIC (ICER (Z.shiftr n 5))) (u32 (Z.shiftl 1 (Z.land n 0x1F))) w) k = (irq_on w k && negb (k =? n)).
Proof. rewrite irq_wr. by rewrite vector_in_bit. Qed.

Lemma wp_nvicEnableVector n prio (Q : unit → W → Prop) w :
  (∀ w', touched is_nvic w w' → (∀ k, irq_on w' k = irq_on w k || (k =? n)) → Q tt w') →
  wp (nvicEnableVector n prio) Q w.
Proof.
  intros HQ. unfold nvicEnableVector. wp_steps. apply HQ.
  - touched_tac.
  - intros k. rewrite irq_wr_iser, !irq_wr. by rewrite irq_rd.
Qed.

Lemma wp_nvicDisableVector n (Q : unit → W → Prop) w :
  (∀ w', touched is_nvic w w' → (∀ k, irq_on w' k = irq_on w k && negb (k =? n)) → Q tt w') →
  wp (nvicDisableVector n) Q w.
Proof.
  intros HQ. unfold nvicDisableVector. wp_steps. apply HQ.
  - touched_tac.
  - intros k. rewrite irq_wr, irq_rd. apply irq_wr_icer.
Qed.

Lemma wp_rcc_or r m (Q : unit → W → Prop) w :
  (∀ w', touched is_rcc w w' → (∀ r', rcc w' r' = if decide (r = r') then Z.lor (rcc w r) m else rcc w r') → Q tt w') →
  wp (or_bits (rRCC r) m) Q w.
Proof.
  intros HQ. wp_steps. apply HQ; [touched_tac|].
  intros r'. rewrite rcc_wr, rcc_val, rcc_rd. done.
Qed.

Lemma wp_rcc_clr r m (Q : unit → W → Prop) w :
  (∀ w', touched is_rcc w w' → (∀ r', rcc w' r' = if decide (r = r') then Z.ldiff (rcc w r) m else rcc w r') → Q tt w') →
  wp (clr_bits (rRCC r) m) Q w.
Proof.
  intros HQ. wp_steps. apply HQ; [touched_tac|].
  intros r'. rewrite rcc_wr, rcc_val, rcc_rd. done.
Qed.

Lemma touched_rcc S r w w' : (∀ r, is_rcc r → ¬ S r) → touched S w w' → rcc w' r = rcc w r.
Proof.
  intros HS. apply (touched_keeps (λ w, rcc w r)); [intros; apply rcc_rd|].
  intros r' v w1 Hr. rewrite rcc_wr. destruct r' as [| |x| | | | | | | |]; try done. by destruct (HS (rRCC x) Logic.I).
Qed.

Lemma touched_irq S n w w' : (∀ r, is_nvic r → ¬ S r) → touched S w w' → irq_on w' n = irq_on w n.
Proof.
  intros HS. apply (touched_keeps (λ w, irq_on w n)); [intros; apply irq_rd|].
  intros r' v w1 Hr. rewrite irq_wr. destruct r' as [| | |x| | | | | | |]; try done. by destruct (HS (rNVIC x) Logic.I).
Qed.

End core.

Lemma touched_obj {W T} `{ObjLaws W T} S (w w' : W) : touched S w w' → (obj w' : T) = obj w.
Proof. apply (touched_keeps obj); intros; [apply obj_rd|apply obj_wr]. Qed.

End Mmio.
