(* ===== verification/CanWake.v ===== *)
(** * The whole CAN interrupt over the kernel

    CanKernel.v follows one FIFO's handler; here is the handler of the interrupt,
    which serves the transmitter, both FIFOs and the status in turn, and what it
    does to every thread that waits in [canTransmit] or [canReceive] or listens to
    the driver's events. *)

From S2P Require Import Prelude SysTime Fw VTimers Memory Kernel Sync Threads Events System Osal Sched KInv KOps KWake EvtSpecs CanFrame CanDriver CanKernel Mmio.
From stdpp Require Import list.
Import SysTime Kernel Threads Events Sched KInv KOps KWake EvtSpecs CanDriver CanKernel.
Import Mmio (frames, frames_bind, frames_ret, frames_throw, frames_gets, frames_lift, frames_when, frames_if, frames_modify, frames_rd, frames_wr, wp, wp_bind, wp_ret, wp_gets, wp_modify, wp_mono).
#[local] Open Scope Z_scope.

Module CanWake.

Section board.
Context {HW : Type} `{CanHw HW}.
Variable queue_no : can_queue → nat.
Variable event_no : can_event → nat.
Variable enqueue : can_queue → Z → board HW → Z * board HW.
Variable sleep : Z → board HW → board HW.
Variable reschedule : board HW → board HW.
Variable idle : nat.
Notation kinv := (kinv idle).
#[local] Existing Instance board_hw.
#[local] Existing Instance board_obj.
#[local] Instance osal : Osal (board HW) can_queue can_event := board_osal queue_no event_no enqueue sleep reschedule.

(** ** What one part of the handler leaves to the next

    Threads are told; those in a queue are still in it or woken; the events'
    listeners are registered as before. *)
Record stage (k k' : kernel) : Prop := {
  sg_inv : kinv k';
  sg_told x : told k k' x;
  sg_queue q x : x ∈ queues k (QThd q) → x ∈ queues k' (QThd q) ∨ woken_ok k' x;
  sg_next : es_next k' = es_next k;
  sg_lsn el : same_listener (lsn k el) (lsn k' el)
}.

Lemma stage_refl k : kinv k → stage k k.
Proof. intros Hk. split; [done|intros; apply told_refl|by left|done|done]. Qed.

Lemma stage_trans k1 k2 k3 : stage k1 k2 → stage k2 k3 → stage k1 k3.
Proof.
  intros [_ T1 Q1 N1 L1] [H2 T2 Q2 N2 L2]. split; [done| | |congruence|].
  - intros x. by eapply told_trans.
  - intros q x [Hx|Hw]%Q1; [by apply Q2|right]. by eapply woken_told.
  - intros el. destruct (L1 el) as (? & ? & ?), (L2 el) as (? & ? & ?). split_and!; congruence.
Qed.

(** A thread queue, the event sources and a listener. *)
Definition view (q el : nat) (k : kernel) : list nat * (nat → list nat) * (nat * Z * Z) :=
  (queues k (QThd q), es_next k, (el_listener (lsn k el), el_events (lsn k el), el_wflags (lsn k el))).

Lemma frames_ready q el t : frames (view q el) (chSchReadyI t).
Proof. unfold chSchReadyI, queue_prio_insert, thd_set. Mmio.frames_tac; done. Qed.

Lemma frames_notify q el flags l : frames (view q el) (notify_all flags l).
Proof.
  induction l as [|x l IH]; cbn [notify_all]; [apply frames_ret|]. unfold notify_listener, chEvtSignalI, thd_set.
  Mmio.frames_tac; try done. unfold view. cbn. unfold upd. by case_decide; subst.
Qed.

Lemma stage_broadcast e flags (b : board HW) :
  kinv (b_k b) →
  ∃ b', broadcast e flags b = Ok (tt, b') ∧ stage (b_k b) (b_k b') ∧ b_hw b' = b_hw b
    ∧ ∀ el, el ∈ es_next (b_k b) (event_no e) → Z.land flags (el_wflags (lsn (b_k b) el)) ≠ 0 →
      informed (el_listener (lsn (b_k b) el)) (el_events (lsn (b_k b) el)) (b_k b) (b_k b').
Proof.
  intros Hk. destruct (notify_all_tells idle flags (es_next (b_k b) (event_no e)) (b_k b) Hk) as (k' & E & H' & T & I).
  exists {| b_k := k'; b_hw := b_hw b; b_drv := b_drv b |}. split_and!; [|split; cbn|done|done]; [|done|done| | |].
  - assert (Osal.osalEventBroadcastFlagsI (event_no e) flags (b_k b) = Ok (tt, k')) as E1 by exact E.
    change (Ok (tt, on_kernel (Osal.osalEventBroadcastFlagsI (event_no e) flags) b) = Ok (tt, {| b_k := k'; b_hw := b_hw b; b_drv := b_drv b |})).
    unfold on_kernel. by rewrite E1.
  - intros q x Hx. left. by pose proof (frames_notify q 0 _ _ _ _ _ E) as [= -> _].
  - by pose proof (frames_notify 0 0 _ _ _ _ _ E) as [= _ ->].
  - intros el. pose proof (frames_notify 0 el _ _ _ _ _ E) as [= _ _ E1 E2 E3]. by split_and!.
Qed.

Lemma frames_pop q q' msg : q ≠ q' → frames (λ k, queues k (QThd q)) (chThdDoDequeueNextI q' msg).
Proof.
  intros Hq. unfold chThdDoDequeueNextI, thd_set. apply frames_bind.
  - intros k t k' E. unfold queue_fifo_remove in E. destruct (queues k (QThd q')); [done|]. injection E as _ <-.
    rewrite queues_set_queue, decide_False; [done|congruence].
  - intros t. Mmio.frames_tac; done.
Qed.

Lemma frames_dequeue q q' msg : q ≠ q' → frames (λ k, queues k (QThd q)) (chThdDequeueAllI q' msg).
Proof.
  intros Hq. unfold chThdDequeueAllI, while_notempty. intros k. generalize (S (length (queues k (QThd q')))) as n.
  intros n a k'. revert k. induction n as [|n IH]; [done|]. cbn [while_fuel]. intros k (c & k1 & [= <- <-] & E)%fw_bind_Ok.
  destruct (bool_decide _); [|by injection E as _ <-]. apply fw_bind_Ok in E as ([] & k2 & E1 & E2).
  rewrite (IH _ E2). by apply (frames_pop q q' msg Hq _ _ _ E1).
Qed.

Lemma stage_dequeue q (b : board HW) :
  kinv (b_k b) →
  ∃ b', dequeue_all q MSG_OK b = Ok (tt, b') ∧ stage (b_k b) (b_k b') ∧ b_hw b' = b_hw b
    ∧ ∀ x, x ∈ queues (b_k b) (QThd (queue_no q)) → woken_ok (b_k b') x.
Proof.
  intros Hk. destruct (dequeue_all_tells idle (queue_no q) (b_k b) Hk) as (k' & E & H' & T & W' & N & L).
  exists {| b_k := k'; b_hw := b_hw b; b_drv := b_drv b |}. split_and!; [|split; cbn|done|done]; [|done|done| |done|by rewrite L].
  - assert (Osal.osalThreadDequeueAllI (queue_no q) MSG_OK (b_k b) = Ok (tt, k')) as E1 by exact E.
    change (Ok (tt, on_kernel (Osal.osalThreadDequeueAllI (queue_no q) MSG_OK) b) = Ok (tt, {| b_k := k'; b_hw := b_hw b; b_drv := b_drv b |})).
    unfold on_kernel. by rewrite E1.
  - intros p x Hx. destruct (decide (p = queue_no q)) as [->|Hp]; [right; by apply W'|left].
    by rewrite (frames_dequeue p _ MSG_OK Hp _ _ _ E).
Qed.

(** ** The parts of the handler *)

(** Every thread in the queue is woken; every listener of the source that wants
    the flags is told. *)
Definition all_woken (q : can_queue) (k k' : kernel) : Prop := ∀ x, x ∈ queues k (QThd (queue_no q)) → woken_ok k' x.
Definition all_told (e : can_event) (flags : Z) (k k' : kernel) : Prop :=
  ∀ el, el ∈ es_next k (event_no e) → Z.land flags (el_wflags (lsn k el)) ≠ 0 →
  informed (el_listener (lsn k el)) (el_events (lsn k el)) k k'.

Lemma woken_later q k k1 k' : all_woken q k k1 → stage k1 k' → all_woken q k k'.
Proof. intros Hw [_ T _ _ _] x Hx. eapply woken_told; [by apply Hw|done]. Qed.
Lemma woken_past q k k1 k' : stage k k1 → all_woken q k1 k' → stage k1 k' → all_woken q k k'.
Proof. intros [_ _ Q _ _] Hw [_ T _ _ _] x [Hx|Hx]%Q; [by apply Hw|by eapply woken_told]. Qed.
Lemma told_later e f k k1 k' : all_told e f k k1 → stage k1 k' → all_told e f k k'.
Proof. intros Ht [_ T _ _ _] el Hel Hf. eapply informed_told; [by apply Ht|done]. Qed.
Lemma told_past e f k k1 k' : stage k k1 → all_told e f k1 k' → stage k1 k' → all_told e f k k'.
Proof.
  intros [_ T _ N L] Ht [_ T' _ _ _] el Hel Hf. rewrite <-N in Hel. destruct (L el) as (E1 & E2 & E3).
  rewrite <-E1, <-E2. eapply told_informed; [done| |done]. apply Ht; [done|by rewrite E3].
Qed.

(** A frame stays in its FIFO until the FIFO is released. *)
Definition pending (i : nat) (h : HW) : Prop := 0 < Z.land (can_rd h (RFR i)) CAN_RFR_FMP.
Hypothesis stays : ∀ r v h i, r ≠ RFR i → pending i h → pending i (can_wr r v h).

Definition set_hw (h : HW) (b : board HW) : board HW := {| b_k := b_k b; b_hw := h; b_drv := b_drv b |}.

Lemma rd_hw r (b : board HW) : rd r b = Ok (can_rd (b_hw b) r, b).
Proof. done. Qed.
Lemma wr_hw r v (b : board HW) : wr r v b = Ok (tt, set_hw (can_wr r v (b_hw b)) b).
Proof. done. Qed.
Lemma clr_hw r m (b : board HW) : clr_bits r m b = Ok (tt, set_hw (can_wr r (Z.ldiff (can_rd (b_hw b) r) m) (b_hw b)) b).
Proof. done. Qed.

(** The flags of the transmitter's event. *)
Definition tx_flags (h : HW) : Z :=
  let tsr := can_rd h TSR in Z.lor (Z.lor (tx_mailbox_flags tsr 0) (tx_mailbox_flags tsr 1)) (tx_mailbox_flags tsr 2).

Lemma tx_serves (b : board HW) :
  kinv (b_k b) →
  ∃ b', can_lld_tx_handler b = Ok (tt, b') ∧ stage (b_k b) (b_k b') ∧ (∀ i, pending i (b_hw b) → pending i (b_hw b'))
    ∧ all_woken txqueue (b_k b) (b_k b') ∧ all_told txempty_event (tx_flags (b_hw b)) (b_k b) (b_k b').
Proof using stays.
  intros Hk. set (b1 := set_hw (can_wr TSR (can_rd (b_hw b) TSR) (b_hw b)) b).
  destruct (stage_dequeue txqueue b1 Hk) as (b2 & E2 & S2 & H2 & W2).
  destruct (stage_broadcast txempty_event (tx_flags (b_hw b)) b2 (sg_inv _ _ S2)) as (b3 & E3 & S3 & H3 & T3).
  exists b3. split_and!; [|by eapply stage_trans| |by eapply woken_later|by eapply told_past].
  - unfold can_lld_tx_handler. do 2 rewrite (fw_bind_ok _ _ _ _ _ eq_refl). by rewrite (fw_bind_ok _ _ _ _ _ E2).
  - intros i Hi. rewrite H3, H2. by apply stays.
Qed.

Lemma rx_serves (i : nat) (b : board HW) :
  kinv (b_k b) →
  ∃ b', can_lld_rx_handler i b = Ok (tt, b') ∧ stage (b_k b) (b_k b') ∧ (∀ j, j ≠ i → pending j (b_hw b) → pending j (b_hw b'))
    ∧ (pending i (b_hw b) → all_woken rxqueue (b_k b) (b_k b')
        ∧ all_told rxfull_event (CAN_MAILBOX_TO_MASK (Z.of_nat i + 1)) (b_k b) (b_k b')).
Proof using stays.
  intros Hk. set (rfr := can_rd (b_hw b) (RFR i)). set (flags := CAN_MAILBOX_TO_MASK _).
  assert (∃ b1, when (0 <? Z.land rfr CAN_RFR_FMP)
      (clr_bits IER (FMPIE i);; dequeue_all rxqueue MSG_OK;; broadcast rxfull_event flags) b = Ok (tt, b1)
    ∧ stage (b_k b) (b_k b1) ∧ (∀ j, pending j (b_hw b) → pending j (b_hw b1))
    ∧ (pending i (b_hw b) → all_woken rxqueue (b_k b) (b_k b1) ∧ all_told rxfull_event flags (b_k b) (b_k b1)))
    as (b1 & E1 & S1 & H1 & W1).
  { unfold pending at 3. fold rfr. destruct (Z.ltb_spec 0 (Z.land rfr CAN_RFR_FMP)); cbn [when].
    2: { exists b. split_and!; [done|by apply stage_refl|done|lia]. }
    set (b1 := set_hw (can_wr IER (Z.ldiff (can_rd (b_hw b) IER) (FMPIE i)) (b_hw b)) b).
    destruct (stage_dequeue rxqueue b1 Hk) as (b2 & E2 & S2 & H2 & W2).
    destruct (stage_broadcast rxfull_event flags b2 (sg_inv _ _ S2)) as (b3 & E3 & S3 & H3 & T3).
    exists b3. split_and!; [|by eapply stage_trans| |].
    - rewrite (fw_bind_ok _ _ _ _ _ (clr_hw IER (FMPIE i) b)). by rewrite (fw_bind_ok _ _ _ _ _ E2).
    - intros j Hj. rewrite H3, H2. by apply stays.
    - intros _. split; [by eapply woken_later|by eapply told_past]. }
  assert (∃ b', when (0 <? Z.land rfr CAN_RFR_FOVR)
      (wr (RFR i) CAN_RFR_FOVR;; broadcast error_event CAN_OVERFLOW_ERROR) b1 = Ok (tt, b')
    ∧ stage (b_k b1) (b_k b') ∧ (∀ j, j ≠ i → pending j (b_hw b1) → pending j (b_hw b'))) as (b' & E' & S' & H').
  { destruct (0 <? Z.land rfr CAN_RFR_FOVR); cbn [when]; [|exists b1; split_and!; [done|apply stage_refl, S1|done]].
    set (b2 := set_hw (can_wr (RFR i) CAN_RFR_FOVR (b_hw b1)) b1).
    destruct (stage_broadcast error_event CAN_OVERFLOW_ERROR b2 (sg_inv _ _ S1)) as (b3 & E3 & S3 & H3 & _).
    exists b3. split_and!; [by rewrite (fw_bind_ok _ _ _ _ _ (wr_hw (RFR i) CAN_RFR_FOVR b1))|done|].
    intros j Hj Hp. rewrite H3. apply stays; [congruence|done]. }
  exists b'. split_and!; [|by eapply stage_trans|by eauto|].
  - unfold can_lld_rx_handler. rewrite (fw_bind_ok _ _ _ _ _ (rd_hw (RFR i) b)). by rewrite (fw_bind_ok _ _ _ _ _ E1).
  - intros Hp. destruct (W1 Hp). split; [by eapply woken_later|by eapply told_later].
Qed.

Lemma sce_serves (b : board HW) :
  kinv (b_k b) → ∃ b', can_lld_sce_handler b = Ok (tt, b') ∧ stage (b_k b) (b_k b').
Proof.
  intros Hk. unfold can_lld_sce_handler. rewrite (fw_bind_ok _ _ _ _ _ (rd_hw MSR b)), (fw_bind_ok _ _ _ _ _ (wr_hw MSR (can_rd (b_hw b) MSR) b)).
  set (msr := can_rd (b_hw b) MSR). set (b1 := set_hw _ b).
  assert (∃ b2, when (negb (Z.land msr CAN_MSR_WKUI =? 0)) (set_state CAN_READY;; clr_bits MCR CAN_MCR_SLEEP;; broadcast wakeup_event 0) b1 = Ok (tt, b2)
    ∧ stage (b_k b) (b_k b2)) as (b2 & E2 & S2).
  { destruct (negb (Z.land msr CAN_MSR_WKUI =? 0)); cbn [when]; [|exists b1; split; [done|by apply stage_refl]].
    set (b3 := {| b_k := b_k b; b_hw := b_hw b1; b_drv := {| state := CAN_READY; config := config (b_drv b) |} |}).
    assert (set_state CAN_READY b1 = Ok (tt, b3)) as E3 by reflexivity.
    rewrite (fw_bind_ok _ _ _ _ _ E3), (fw_bind_ok _ _ _ _ _ (clr_hw MCR CAN_MCR_SLEEP b3)).
    destruct (stage_broadcast wakeup_event 0 (set_hw (can_wr MCR (Z.ldiff (can_rd (b_hw b3) MCR) CAN_MCR_SLEEP) (b_hw b3)) b3) Hk) as (b' & E & S & _).
    by exists b'. }
  rewrite (fw_bind_ok _ _ _ _ _ E2). destruct (negb (Z.land msr CAN_MSR_ERRI =? 0)); cbn [when]; [|by exists b2].
  rewrite (fw_bind_ok _ _ _ _ _ (rd_hw ESR b2)).
  destruct (stage_broadcast error_event (u32 (Z.shiftl (can_rd (b_hw b2) ESR) 16)) b2 (sg_inv _ _ S2)) as (b' & E & S & _).
  exists b'. split; [done|by eapply stage_trans].
Qed.

(** C8 (liveness). The interrupt of the CAN controller reaches everyone it
    concerns. On the kernel in any well-formed state the handler ends, and
    afterwards: every thread that was blocked in [canTransmit] is ready with
    [MSG_OK]; when a FIFO holds a frame, so is every thread blocked in
    [canReceive]; a thread that listens to the transmitter's event for one of
    the flags of the mailboxes done, or to the receive event of a FIFO with a
    frame, has its events pending and is ready when it waits for one of them. No
    event pending before is lost, a thread that waits in another queue is still in it
    or woken, and the kernel is well formed. *)
Theorem can_interrupt_wakes (b : board HW) :
  kinv (b_k b) →
  ∃ b', STM32_CAN1_UNIFIED_HANDLER b = Ok (tt, b') ∧ kinv (b_k b')
    ∧ (∀ q x, q = txqueue ∨ q = rxqueue ∧ (∃ i, (i < 2)%nat ∧ pending i (b_hw b)) →
        x ∈ queues (b_k b) (QThd (queue_no q)) → x ∈ queues (b_k b') QReady ∧ woken_ok (b_k b') x)
    ∧ (∀ e flags el, e = txempty_event ∧ flags = tx_flags (b_hw b)
          ∨ e = rxfull_event ∧ (∃ i, (i < 2)%nat ∧ pending i (b_hw b) ∧ flags = CAN_MAILBOX_TO_MASK (Z.of_nat i + 1)) →
        el ∈ es_next (b_k b) (event_no e) → Z.land flags (el_wflags (lsn (b_k b) el)) ≠ 0 →
        informed (el_listener (lsn (b_k b) el)) (el_events (lsn (b_k b) el)) (b_k b) (b_k b'))
    ∧ (∀ x i, Z.testbit (p_epending (thd (b_k b) x)) i = true → Z.testbit (p_epending (thd (b_k b') x)) i = true)
    ∧ (∀ q x, x ∈ queues (b_k b) (QThd q) → x ∈ queues (b_k b') (QThd q) ∨ woken_ok (b_k b') x).
Proof using stays.
  intros Hk. destruct (tx_serves b Hk) as (b1 & E1 & S1 & P1 & W1 & T1).
  destruct (rx_serves 0 b1 (sg_inv _ _ S1)) as (b2 & E2 & S2 & P2 & R2).
  destruct (rx_serves 1 b2 (sg_inv _ _ S2)) as (b3 & E3 & S3 & _ & R3).
  destruct (sce_serves b3 (sg_inv _ _ S3)) as (b' & E4 & S4). exists b'.
  pose proof (stage_trans _ _ _ S3 S4) as S34. pose proof (stage_trans _ _ _ S2 S34) as S24.
  pose proof (stage_trans _ _ _ S1 S24) as S. pose proof (stage_trans _ _ _ S1 S2) as S12.
  assert (∀ i, (i < 2)%nat → pending i (b_hw b) → all_woken rxqueue (b_k b) (b_k b')
    ∧ all_told rxfull_event (CAN_MAILBOX_TO_MASK (Z.of_nat i + 1)) (b_k b) (b_k b')) as Hrx.
  { intros i Hi Hp. destruct i as [|[|]]; [|clear R2|lia].
    - destruct (R2 (P1 _ Hp)) as [A B].
      split; [exact (woken_past _ _ _ _ S1 (woken_later _ _ _ _ A S34) S24)|exact (told_past _ _ _ _ _ S1 (told_later _ _ _ _ _ B S34) S24)].
    - destruct (R3 (P2 1%nat ltac:(done) (P1 _ Hp))) as [A B].
      split; [exact (woken_past _ _ _ _ S12 (woken_later _ _ _ _ A S4) S34)|exact (told_past _ _ _ _ _ S12 (told_later _ _ _ _ _ B S4) S34)]. }
  split_and!; [|apply S4| | |intros x i; apply (sg_told _ _ S)|apply S].
  - unfold STM32_CAN1_UNIFIED_HANDLER. by rewrite (fw_bind_ok _ _ _ _ _ E1), (fw_bind_ok _ _ _ _ _ E2), (fw_bind_ok _ _ _ _ _ E3).
  - intros q x Hq Hx. assert (woken_ok (b_k b') x) as Hw.
    { destruct Hq as [->|[-> (i & Hi & Hp)]]; [|by apply (Hrx i Hi Hp)]. by eapply woken_later. }
    split; [|done]. apply (ready_queued idle); [apply S4|apply Hw].
  - intros e flags el He Hel Hf. destruct He as [[-> ->]|[-> (i & Hi & Hp & ->)]]; [|by apply (Hrx i Hi Hp)].
    by apply (told_later _ _ _ _ _ T1 S24).
Qed.

End board.
End CanWake.
