(* ===== verification/Typing.v ===== *)
(** * The tagged union of a thread

    [thread_t] has a union whose member in use is told by the thread's state, and
    links that put it into at most one queue. A typing judgement says which member
    and which queue go with a state; every reachable state is well typed. *)

From S2P Require Import Prelude SysTime Fw VTimers Memory Kernel Sync Threads Events System Sched KInv Safety.
From stdpp Require Import list.
Import SysTime VTimers Kernel Sem Mtx Threads Events System Sched KInv Safety.
#[local] Open Scope Z_scope.

Module Typing.

(** [typed k t st u]: the thread [t] may be in state [st] with union [u]. *)
Inductive typed (k : kernel) (t : nat) : tstate → punion → Prop :=
  | ty_ready u : t ∈ queues k QReady → typed k t READY u
  | ty_current u : t = currp k → typed k t CURRENT u
  | ty_wtstart u : typed k t WTSTART u
  | ty_suspended r : typed k t SUSPENDED (WtTrp r)
  | ty_queued q u : t ∈ queues k (QThd q) → typed k t QUEUED u
  | ty_wtsem n : t ∈ queues k (QSem n) → s_cnt k n < 0 → typed k t WTSEM (WtSem n)
  | ty_wtmtx m o : t ∈ queues k (QMtx m) → m_owner k m = Some o → m ∈ p_mtxlist (thd k o) → typed k t WTMTX (WtMtx m)
  | ty_wtcond c : t ∈ queues k (QCond c) → typed k t WTCOND (WtCond c)
  | ty_sleeping u : typed k t SLEEPING u
  | ty_wtexit x u : t ∈ queues k (QWait x) → typed k t WTEXIT u
  | ty_wtorevt m : typed k t WTOREVT (EwMask m)
  | ty_wtandevt m : typed k t WTANDEVT (EwMask m)
  | ty_sndmsgq r : t ∈ queues k (QMsg r) → typed k t SNDMSGQ (WtMsg r)
  | ty_sndmsg u : typed k t SNDMSG u
  | ty_wtmsg u : typed k t WTMSG u
  | ty_final u : typed k t FINAL u.

(** The queue a thread of that type is in, when the type says one. *)
Definition queue_of (st : tstate) (u : punion) (q : qid) : Prop :=
  match q with
  | QReady => st = READY
  | QSem n => st = WTSEM ∧ u = WtSem n
  | QMtx m => st = WTMTX ∧ u = WtMtx m
  | QCond c => st = WTCOND ∧ u = WtCond c
  | QMsg r => st = SNDMSGQ ∧ u = WtMsg r
  | QThd _ => st = QUEUED
  | QWait _ => st = WTEXIT
  end.

Record well_typed (k : kernel) : Prop := {
  wt_thread t : typed k t (p_state (thd k t)) (p_u (thd k t));
  wt_queue q t : t ∈ queues k q → queue_of (p_state (thd k t)) (p_u (thd k t)) q;
  wt_once q q' t : t ∈ queues k q → t ∈ queues k q' → q = q';
  wt_reference r t : trefs k r = Some t → p_state (thd k t) = SUSPENDED ∧ p_u (thd k t) = WtTrp r
}.

Section typing.
Variable idle : nat.

Lemma kinv_typed k : kinv idle k → well_typed k.
Proof.
  intros [loc [Hq Hs Ht Hr Hm Hg]]. split.
  - intros t. pose proof (q_ok _ _ _ _ Hq t ltac:(by intros ?%elem_of_nil)) as Hok.
    destruct (loc t) as [q|] eqn:El; cbn in Hok.
    + apply (q_loc _ _ _ _ Hq) in El. destruct q as [|n|m|c|q|r|x]; cbn in Hok.
      * rewrite Hok. by constructor.
      * destruct Hok as [-> ->]. constructor; [done|].
        pose proof (Hs n ltac:(by intros ?%elem_of_nil)) as Hn. destruct (queues k (QSem n)); [by apply elem_of_nil in El|].
        cbn [length] in Hn. lia.
      * destruct Hok as [-> ->]. destruct (m_owner k m) as [o|] eqn:Eo.
        -- econstructor; [done|exact Eo|]. by apply (m_own _ Hm).
        -- destruct (m_wait _ Hm m); [|done]. intros E. rewrite E in El. by apply elem_of_nil in El.
      * destruct Hok as [-> ->]. by constructor.
      * rewrite Hok. by econstructor.
      * destruct Hok as [-> ->]. by constructor.
      * rewrite Hok. by econstructor.
    + unfold in_none in Hok. destruct (p_state (thd k t)) eqn:Est; try done; try (by constructor).
      * constructor. by apply (q_cur1 _ _ _ _ Hq); [intros ?%elem_of_nil|].
      * destruct Hok as [r ->]. constructor.
      * destruct Hok as [m ->]. constructor.
      * destruct Hok as [m ->]. constructor.
  - intros q t Ht'. pose proof (q_ok _ _ _ _ Hq t ltac:(by intros ?%elem_of_nil)) as Hok.
    apply (q_loc _ _ _ _ Hq) in Ht'. rewrite Ht' in Hok. by destruct q.
  - intros q q' t H1%(q_loc _ _ _ _ Hq) H2%(q_loc _ _ _ _ Hq). congruence.
  - intros r t Hrt. by apply (Hr r t Hrt); intros ?%elem_of_nil.
Qed.

End typing.

(** C18 (type). From the start of the system on, in every state that calls of the
    threads, interrupts and the tick lead to, every thread is well typed: the
    member of its union in use is the one its state tells, naming the very
    semaphore, mutex, condition or receiver whose queue the thread is in - a
    semaphore that counts below zero, a mutex that is owned and in its owner's
    list. A thread is in no queue but the one its type tells, and a reference to a
    suspended thread is the one the thread names. *)
Theorem threads_well_typed (h_mtx : Z → nat) (default_heap heap_base heap_end : Z) (main idle : nat) (k0 : kernel) :
  blank k0 → main ≠ idle →
  ∃ k1, chSysInit h_mtx default_heap heap_base heap_end main idle k0 = Done tt k1 ∧
    ∀ o, reachable idle {| s_k := k1; s_pend := λ _, None |} o → ∃ s, o = Some s ∧ well_typed (s_k s).
Proof.
  intros Hb Hn. destruct (chSysInit_boots h_mtx default_heap heap_base heap_end main idle k0 Hb Hn) as (k1 & E & Hk).
  exists k1. split; [done|]. intros o Ho.
  destruct (reachable_inv idle _ o (booted_inv main idle k1 Hn Hk) Ho) as (s & -> & [Hs _ _]). exists s. by split; [|eapply kinv_typed].
Qed.

End Typing.
