(* ===== verification/KSim.v ===== *)
(** * The kernel at concrete inputs

    A kernel with two threads, started by [chSysInit] and driven through calls,
    interrupts and the passing of time; the theorems on the kernel at the states
    it comes to. *)

From S2P Require Import Prelude SysTime Fw VTimers Memory Kernel Sync Threads Events Mailboxes System Sched KInv KOps KWake KSafe KCalls KMtx Inherit Safety Preempt Typing KSpecs Queues MbxSpecs EvtSpecs CanFrame CanDriver CanKernel CanWake.
From stdpp Require Import list.
Import SysTime VTimers Memory Kernel Sem Mtx Threads Events Mailboxes System Sched KInv KOps KWake KSafe KCalls Inherit Safety.
#[local] Open Scope Z_scope.

Module KSim.

(** ** Driving the kernel *)

Inductive action := ACall (c : api) | AResume | AIrq (c : iapi) | ATime (now : Z).

Definition act (s : sys) (a : action) : option sys :=
  let me := currp (s_k s) in
  match a with
  | ACall c => settle me (s_pend s) (run c (s_k s))
  | AResume => r ← s_pend s me; settle me (s_pend s) (r (s_k s))
  | AIrq c => settle me (s_pend s) (handler c (s_k s))
  | ATime now => Some {| s_k := k_set_now now (s_k s); s_pend := s_pend s |}
  end.

(** The call may be made; of the calls used below, the others are not decided. *)
Definition legalb (idle : nat) (k : kernel) (c : api) : bool :=
  let me := currp k in
  match c with
  | SemWait n => (INT32_MIN <? s_cnt k n) && (s_cnt k n <? INT32_MAX) && bool_decide (me ≠ idle)
  | MtxLock m => bool_decide (me ≠ idle)
  | EvtWaitAny e => bool_decide (me ≠ idle)
  | ThdSleep time | ThdEnqueueTimeout _ time => bool_decide (me ≠ idle) && (0 <=? time) && (time <? 2 ^ 32)
  | ThdCreateStatic t prio =>
    bool_decide (p_state (thd k t) = WTSTART) && bool_decide (p_mtxlist (thd k t) = [])
    && bool_decide (queues k (QWait t) = []) && bool_decide (queues k (QMsg t) = []) && (0 <? prio)
  | _ => false
  end.
Definition ilegalb (k : kernel) (c : iapi) : bool :=
  match c with
  | ISemSignal n => (INT32_MIN <? s_cnt k n) && (s_cnt k n <? INT32_MAX)
  | _ => false
  end.
Definition mayb (idle : nat) (s : sys) (a : action) : bool :=
  let free := match s_pend s (currp (s_k s)) with Some _ => false | None => true end in
  match a with
  | ACall c => free && legalb idle (s_k s) c
  | AResume => negb free
  | AIrq c => free && ilegalb (s_k s) c
  | ATime now => (0 <=? now) && (now <? 2 ^ 32)
  end.

Fixpoint play (idle : nat) (s : sys) (l : list action) : option sys :=
  match l with
  | [] => Some s
  | a :: l => if mayb idle s a then s' ← act s a; play idle s' l else None
  end.

Ltac split_bools := repeat match goal with
  | H : _ && _ = true |- _ => apply andb_prop in H as [? ?]
  | H : bool_decide _ = true |- _ => apply bool_decide_eq_true in H
  | H : (_ <? _) = true |- _ => apply Z.ltb_lt in H
  | H : (_ <=? _) = true |- _ => apply Z.leb_le in H
  end.

Lemma legalb_legal idle k c : legalb idle k c = true → legal idle k c.
Proof. destruct c; cbn; intros H; try done; split_bools; repeat split; done. Qed.

Lemma ilegalb_ilegal k c : ilegalb k c = true → ilegal k c.
Proof. destruct c; cbn; intros H; try done; split_bools; by split. Qed.

Lemma act_step idle s a s' : mayb idle s a = true → act s a = Some s' → step idle s (Some s').
Proof.
  destruct a as [c| |c|now]; cbn; destruct (s_pend s (currp (s_k s))) as [r|] eqn:Er; try done; intros M E; split_bools.
  - rewrite <-E. apply step_call; [done|by apply legalb_legal].
  - cbn in E. rewrite <-E. by apply step_resume.
  - rewrite <-E. apply step_interrupt; [done|by apply ilegalb_ilegal].
  - injection E as <-. by apply step_time.
  - injection E as <-. by apply step_time.
Qed.

Lemma play_inv idle l s s' : sys_inv idle s → play idle s l = Some s' → sys_inv idle s'.
Proof.
  revert s. induction l as [|a l IH]; intros s I; cbn; [by intros [= <-]|].
  destruct (mayb idle s a) eqn:M; [|done]. destruct (act s a) as [s1|] eqn:E1; [|done]. cbn.
  destruct (step_inv idle s (Some s1) I) as (s2 & [= <-] & I1); [by apply (act_step idle s a)|]. by apply IH.
Qed.

(** ** The start *)

Definition no_thread : thread :=
  {| p_prio := 1; p_state := WTSTART; p_flags := 0; p_refs := 0; p_u := RdyMsg 0; p_msg := 0;
     p_epending := 0; p_mtxlist := []; p_realprio := 1; p_mpool := 0 |}.

(** Thread 1 listens to event source 5. The mailbox has three slots; semaphore 10 counts its messages, 11 its free
    slots. *)
Definition k0 : kernel :=
  {| thd := λ _, no_thread; queues := λ _, []; currp := 0; s_cnt := λ n, if decide (n = 11)%nat then 3 else 0; m_owner := λ _, None; trefs := λ _, None;
     registry := []; es_next := λ es, if decide (es = 5)%nat then [0%nat] else [];
     lsn := λ _, {| el_listener := 1; el_events := 1; el_flags := 0; el_wflags := 4294967295 |};
     mbx := λ _, {| mb_buffer := [0; 0; 0]; mb_rdptr := 0; mb_wrptr := 0; mb_fullsem := 10; mb_emptysem := 11 |};
     k_vtl := {| vt_list := []; vt_lasttime := 0; alarm := None |}; k_now := 0;
     k_mem := {| nextmem := 0; endmem := 0; headers := λ _, {| h_u := 0; h_size := 0 |};
                 heaps := λ _, {| h_provider := false |}; ph_next := λ _, 0;
                 pools := λ _, {| mp_next := 0; mp_object_size := 0; mp_provider := false |} |} |}.

Lemma k0_blank : blank k0.
Proof. split; try done. intros n. cbn. by case_decide. Qed.

(** The idle thread is 0, the main thread 1. *)
Definition boot : out unit := chSysInit (λ _, 9%nat) 536870912 536872000 536900000 1 0 k0.
Definition start : sys :=
  {| s_k := match boot with Done _ k => k | _ => k0 end; s_pend := λ _, None |}.

Lemma start_inv : sys_inv 0 start.
Proof.
  destruct (chSysInit_boots (λ _, 9%nat) 536870912 536872000 536900000 1 0 k0 k0_blank ltac:(done)) as (k & E & B).
  unfold start, boot. rewrite E. by apply (booted_inv 1 0).
Qed.

Definition scene (l : list action) : sys := default start (play 0 start l).

Lemma scene_inv l : bool_decide (is_Some (play 0 start l)) = true → sys_inv 0 (scene l).
Proof. intros [s E]%bool_decide_eq_true. unfold scene. rewrite E. by apply (play_inv 0 l start s start_inv). Qed.

(** The main thread owns mutex 0; a thread of priority 70 was created since and
    runs. *)
Definition contended : list action := [ACall (MtxLock 0); ACall (ThdCreateStatic 2 70)].
(** It has tried to lock the mutex; the main thread runs again. *)
Definition inherited : list action := contended ++ [ACall (MtxLock 0); AResume].
(** A thread of priority 60 waits for a mutex of the main thread, which runs with
    its own priority of 64 after a wait. *)
Definition waited : list action :=
  [ACall (MtxLock 0); ACall (ThdCreateStatic 2 60); ACall (SemWait 1); ACall (MtxLock 0); AIrq (ISemSignal 1); AResume].
(** The main thread sleeps for ten ticks, and they have passed. *)
Definition overslept : list action := [ACall (ThdSleep 10); ATime 12].
(** A second thread of the priority of the main thread is ready. *)
Definition paired : list action := [ACall (ThdCreateStatic 2 64)].
(** The main thread waits on semaphore 1. *)
Definition blocked : list action := [ACall (SemWait 1)].
(** The main thread waits for events 0 and 2. *)
Definition awaiting : list action := [ACall (EvtWaitAny 5)].
(** It waits in queue 0. *)
Definition queued : list action := [ACall (ThdEnqueueTimeout 0 TIME_INFINITE)].

(** A thread of priority 70 waits in queue 0, the main thread in queue 1. *)
Definition both_queued : list action :=
  [ACall (ThdCreateStatic 2 70); ACall (ThdEnqueueTimeout 0 TIME_INFINITE); AResume; ACall (ThdEnqueueTimeout 1 TIME_INFINITE)].

Ltac scene := apply scene_inv; vm_compute; reflexivity.
Lemma contended_inv : sys_inv 0 (scene contended). Proof. scene. Qed.
Lemma inherited_inv : sys_inv 0 (scene inherited). Proof. scene. Qed.
Lemma waited_inv : sys_inv 0 (scene waited). Proof. scene. Qed.
Lemma overslept_inv : sys_inv 0 (scene overslept). Proof. scene. Qed.
Lemma paired_inv : sys_inv 0 (scene paired). Proof. scene. Qed.
Lemma blocked_inv : sys_inv 0 (scene blocked). Proof. scene. Qed.
Lemma awaiting_inv : sys_inv 0 (scene awaiting). Proof. scene. Qed.
Lemma both_queued_inv : sys_inv 0 (scene both_queued). Proof. scene. Qed.
Lemma queued_inv : sys_inv 0 (scene queued). Proof. scene. Qed.

Lemma no_waiters k : (∀ m, queues k (QMtx m) = []) → inherits k.
Proof. intros H m o w _. rewrite H. by intros ?%elem_of_nil. Qed.

(** Only mutex 0 has an owner. *)
Lemma one_mutex k o :
  (∀ m, m_owner k (S m) = None) → m_owner k 0%nat = Some o →
  forallb (λ w, prio_of k w <=? prio_of k o) (queues k (QMtx 0)) = true → inherits k.
Proof.
  intros H E F m o' w. destruct m as [|m]; [|by rewrite H]. rewrite E. intros [= <-] Hw.
  rewrite forallb_forall in F. apply Z.leb_le, F. by apply list_elem_of_In.
Qed.

(** Case by case up to the mutex of the heap. *)
Ltac each m := do 10 (destruct m as [|m]; [vm_compute; reflexivity|]); vm_compute; reflexivity.

(** ** The theorems at these states *)

Lemma threads_well_typed_witness :
  ∃ k1, chSysInit (λ _, 9%nat) 536870912 536872000 536900000 1 0 k0 = Done tt k1 ∧
    ∀ o, reachable 0 {| s_k := k1; s_pend := λ _, None |} o → ∃ s, o = Some s ∧ Typing.well_typed (s_k s).
Proof. apply (Typing.threads_well_typed (λ _, 9%nat) 536870912 536872000 536900000 1 0 k0); [exact k0_blank|done]. Defined.

Lemma kernel_safety_witness :
  ∃ k1, chSysInit (λ _, 9%nat) 536870912 536872000 536900000 1 0 k0 = Done tt k1 ∧
    ∀ o, reachable 0 {| s_k := k1; s_pend := λ _, None |} o → ∃ s, o = Some s ∧ kinv 0 (s_k s).
Proof. apply (kernel_safety (λ _, 9%nat) 536870912 536872000 536900000 1 0 k0); [exact k0_blank|done]. Defined.

(** A thread of priority 70 wants the mutex of the main thread, of 64. *)
Lemma lock_inherits_witness :
  ∃ k', state_at (chMtxLock 0 (s_k (scene contended))) = Some k' ∧ inherits k' ∧ 70 <= prio_of k' 1%nat.
Proof.
  destruct (lock_inherits 0 0 (s_k (scene contended))) as (k' & E & I & O & _).
  - apply contended_inv.
  - apply no_waiters. intros m. each m.
  - vm_compute. discriminate.
  - apply contended_inv. vm_compute. reflexivity.
  - exists k'. split; [exact E|]. split; [exact I|].
    refine (proj1 (O 1%nat ltac:(vm_compute; reflexivity))).
Defined.

(** It unlocks it, and is back at 64. *)
Lemma unlock_inherits_witness :
  prio_of (s_k (scene inherited)) 1%nat = 70 ∧
  ∃ k', state_at (chMtxUnlock 0 (s_k (scene inherited))) = Some k' ∧ inherits k'
    ∧ unlocked 0 [] (s_k (scene inherited)) k'.
Proof.
  split; [vm_compute; reflexivity|].
  apply (unlock_inherits 0 0 [] (s_k (scene inherited))).
  - apply inherited_inv.
  - apply (one_mutex _ 1); [intros m; each m|vm_compute; reflexivity..].
  - apply inherited_inv. vm_compute. reflexivity.
  - vm_compute. reflexivity.
Defined.

(** Asking for 50 while a thread of 60 waits for its mutex, the main thread loses
    the inheritance. *)
Lemma setprio_inherits_witness :
  ∃ k', state_at (chThdSetPriority 50 (s_k (scene waited))) = Some k' ∧ prio_of k' 1%nat = 50 ∧ ¬ inherits k'.
Proof.
  destruct (setprio_inherits 0 50 (s_k (scene waited))) as (k' & E & P & I).
  - apply waited_inv.
  - apply (one_mutex _ 1); [intros m; each m|vm_compute; reflexivity..].
  - apply waited_inv. vm_compute. reflexivity.
  - reflexivity.
  - exists k'. split; [exact E|]. split; [revert P; by vm_compute (currp _)|].
    intros Hx. pose proof (proj1 I Hx 0%nat 2%nat ltac:(vm_compute; left) ltac:(vm_compute; left)) as Hf.
    revert Hf. vm_compute. congruence.
Defined.

Lemma boost_terminates_witness :
  ∃ k', (∀ fuel, (3 < fuel)%nat → boost fuel 70 1 (s_k (scene contended)) = Ok (tt, k'))
    ∧ 70 <= prio_of k' 1%nat.
Proof.
  destruct (boost_terminates 0 70 1 (s_k (scene contended))) as (k' & E & _ & P & _).
  - apply contended_inv.
  - reflexivity.
  - vm_compute. left.
  - exists k'. split; [|exact P]. intros fuel Hf. apply E. exact Hf.
Defined.

(** The signal of an interrupt has made the main thread ready, while the idle
    thread is current. *)
Definition signalled : kernel :=
  match chSemSignalI 1 (s_k (scene blocked)) with Ok (_, k) => k | Err _ => k0 end.
Lemma signalled_inv : kinv 0 signalled.
Proof.
  destruct (chSemSignalI_ok 0 1 (s_k (scene blocked))) as ([] & k & E & H & _).
  - apply blocked_inv.
  - split; vm_compute; reflexivity.
  - unfold signalled. by rewrite E.
Qed.

Lemma preemption_by_priority_witness :
  currp signalled = 0%nat ∧ ∃ k', state_at (chSchPreemption signalled) = Some k' ∧ currp k' = 1%nat.
Proof.
  split; [vm_compute; reflexivity|].
  destruct (Preempt.preemption_by_priority 0 signalled signalled_inv) as (k' & E & _ & H).
  exists k'. split; [exact E|]. change (queues signalled QReady) with [1%nat] in H.
  replace (prio_of signalled (currp signalled) <? prio_of signalled 1%nat) with true in H by (vm_compute; reflexivity).
  exact (proj1 H).
Defined.

Lemma yield_round_robin_witness :
  ∃ k', state_at (chThdYield (s_k (scene paired))) = Some k' ∧ currp k' = 2%nat.
Proof.
  destruct (Preempt.yield_round_robin 0 (s_k (scene paired))) as (k' & E & H); [apply paired_inv|].
  exists k'. split; [exact E|]. replace (queues (s_k (scene paired)) QReady) with [2%nat; 0%nat] in H by (vm_compute; reflexivity).
  replace (prio_of (s_k (scene paired)) (currp (s_k (scene paired))) <=? prio_of (s_k (scene paired)) 2%nat)
    with true in H by (vm_compute; reflexivity).
  exact (proj1 H).
Defined.

Lemma tick_wakes_witness :
  ∃ k', chSysTimerHandlerI 2 (s_k (scene overslept)) = Ok (tt, k') ∧ 1%nat ∈ queues k' QReady.
Proof.
  destruct (Preempt.tick_wakes 0 (s_k (scene overslept)) 2) as (k' & E & _ & _ & H & _).
  - apply overslept_inv.
  - apply overslept_inv. vm_compute. reflexivity.
  - vm_compute. reflexivity.
  - vm_compute. lia.
  - exists k'. split; [exact E|]. apply (H 1%nat 10); [vm_compute; left|vm_compute; discriminate].
Defined.

Lemma sem_refines_fifo_witness :
  ∃ k', state_at (chSemWait 1 (s_k (scene paired))) = Some k'
    ∧ KSpecs.absem k' 1 = KSpecs.Busy [1%nat] ∧ p_state (thd k' 1%nat) = WTSEM.
Proof.
  destruct (KSpecs.sem_refines_fifo 0 1 (s_k (scene paired))) as ((k' & E & A & P) & _).
  - apply paired_inv.
  - split; vm_compute; reflexivity.
  - vm_compute. discriminate.
  - exists k'. split; [exact E|]. split; [revert A; vm_compute (_.1); done|exact P].
Defined.

(** Posts at both ends, a fetch, and a post to a full mailbox. *)
Lemma mailbox_refines_deque_witness :
  ∃ k', MbxSpecs.mb_run 0 [MbxSpecs.Post 5; MbxSpecs.PostAhead 4; MbxSpecs.Post 6; MbxSpecs.Post 7; MbxSpecs.Fetch]
          (s_k start) = Ok ([(0, 0); (0, 0); (0, 0); (-1, 0); (0, 4)], k')
    ∧ MbxSpecs.holds k' 0 [5; 6].
Proof.
  apply (MbxSpecs.mailbox_refines_deque 0
    [MbxSpecs.Post 5; MbxSpecs.PostAhead 4; MbxSpecs.Post 6; MbxSpecs.Post 7; MbxSpecs.Fetch] [] (s_k start)).
  split; [split; vm_compute; (reflexivity || lia)|vm_compute; (reflexivity || discriminate)..].
Defined.

Lemma dispatch_terminates_witness : chEvtDispatch 2147483653 = Ok [0; 2; 31].
Proof. apply (EvtSpecs.dispatch_terminates 2147483653). vm_compute. split; [discriminate|reflexivity]. Defined.

Lemma signal_latches_witness :
  ∃ k', chEvtSignalI 1 6 (s_k (scene awaiting)) = Ok (tt, k') ∧ 1%nat ∈ queues k' QReady ∧ p_epending (thd k' 1%nat) = 6.
Proof.
  destruct (EvtSpecs.signal_latches 0 1 6 (s_k (scene awaiting))) as (k' & E & _ & A & _).
  - apply awaiting_inv.
  - discriminate.
  - vm_compute. discriminate.
  - exists k'. split; [exact E|]. destruct A as [T Q].
    + left. split; [vm_compute; reflexivity|]. exists 5, 2. repeat split; discriminate.
    + split; [exact Q|]. rewrite T. vm_compute. reflexivity.
Defined.

(** Events 1 and 2 pending, the thread waits for 2 or 3. *)
Lemma wait_one_takes_lowest_witness :
  let k := set_thread 1 (t_epending 6) (s_k (scene paired)) in
  EvtSpecs.takes_lowest 1 12 k (chEvtWaitOne 12 k).
Proof.
  intros k.
  assert (kinv 0 k) as H by (destruct (si_k _ _ paired_inv) as [loc H]; exists loc; by apply inv_epending).
  apply (EvtSpecs.wait_one_takes_lowest 0 12 k H); vm_compute; (discriminate || (split; [discriminate|reflexivity])).
Defined.

(** Every register of this controller reads as one: each FIFO holds a frame. *)
Definition one_hw : CanDriver.CanHw unit :=
  {| CanDriver.can_rd := λ _ _, 1; CanDriver.can_wr := λ _ _ h, h; CanDriver.hw_call := λ _ h, h |}.
Definition event_no (e : CanDriver.can_event) : nat :=
  match e with CanDriver.rxfull_event => 5 | CanDriver.error_event => 6 | _ => 7 end.

(** A thread blocked in [canTransmit] and one in [canReceive]. *)
Definition queue_no (q : CanDriver.can_queue) : nat := match q with CanDriver.txqueue => 0 | CanDriver.rxqueue => 1 end.
Definition blocked_board : CanKernel.board unit :=
  {| CanKernel.b_k := s_k (scene both_queued); CanKernel.b_hw := tt;
     CanKernel.b_drv := {| CanDriver.state := CanDriver.CAN_READY; CanDriver.config := None |} |}.

Lemma blocked_threads :
  2%nat ∈ queues (s_k (scene both_queued)) (QThd 0) ∧ 1%nat ∈ queues (s_k (scene both_queued)) (QThd 1).
Proof. split; vm_compute; left. Qed.
Lemma one_stays : ∀ r v h i, r ≠ CanDriver.RFR i → @CanWake.pending unit one_hw i h → @CanWake.pending unit one_hw i (@CanDriver.can_wr unit one_hw r v h).
Proof. done. Qed.
Lemma one_pending : @CanWake.pending unit one_hw 0 tt.
Proof. by vm_compute. Qed.

Lemma can_interrupt_wakes_witness :
  ∃ b', CanDriver.STM32_CAN1_UNIFIED_HANDLER
      (H := @CanKernel.board_hw unit one_hw) (H0 := CanKernel.board_obj)
      (H1 := CanKernel.board_osal queue_no event_no (λ _ _ b, (MSG_OK, b)) (λ _ b, b) (λ b, b)) blocked_board = Ok (tt, b')
    ∧ CanKernel.woken_ok (CanKernel.b_k b') 2 ∧ CanKernel.woken_ok (CanKernel.b_k b') 1.
Proof.
  destruct (@CanWake.can_interrupt_wakes unit one_hw queue_no event_no (λ _ _ b, (MSG_OK, b)) (λ _ b, b) (λ b, b) 0 one_stays blocked_board)
    as (b' & E & _ & W & _).
  - apply both_queued_inv.
  - exists b'. split; [exact E|]. split.
    + apply (W CanDriver.txqueue 2%nat (or_introl eq_refl) (proj1 blocked_threads)).
    + apply (W CanDriver.rxqueue 1%nat (or_intror (conj eq_refl (ex_intro _ 0%nat (conj Nat.lt_0_2 one_pending)))) (proj2 blocked_threads)).
Defined.

(** ** A reset that overtakes a thread

    The mailbox is full and a thread waits to post to it. An interrupt handler
    fetches a message, which wakes the thread with [MSG_OK], resets the mailbox
    and fills it again; the thread then posts to a full mailbox. *)
Definition refill : fw kernel unit :=
  chMBFetchI 0;; chMBResetI 0;; chMBPostI 0 1;; chMBPostI 0 2;; chMBPostI 0 3;; ret tt.
Definition overrun : kern Z :=
  iclass (chMBPostI 0 1;; chMBPostI 0 2;; chMBPostI 0 3);; chMBPost 0 9 TIME_INFINITE.
Definition after_reset : option (Z * Z * list Z) :=
  match overrun (s_k start) with
  | Switch k r =>
    match refill k with
    | Ok (_, k1) =>
      match (chSchPreemption k1) with
      | Switch k2 _ =>
        match r k2 with
        | Done status k3 => Some (status, s_cnt k3 10%nat, mb_buffer (mbx k3 0%nat))
        | _ => None
        end
      | _ => None
      end
    | Err _ => None
    end
  | _ => None
  end.

(** Four messages are counted in three slots; the oldest is lost. *)
Lemma mailbox_reset_overrun : after_reset = Some (MSG_OK, 4, [9; 2; 3]).
Proof. vm_compute. reflexivity. Qed.

End KSim.
