(* ===== verification/Dma.v ===== *)
(** * The DMA streams (stm32_dma.c, hal_lld.c)

    The streams a driver claims, the handler each one has, and the clock and the
    interrupt vectors they share. *)

From S2P Require Import Prelude Fw Mmio.
From stdpp Require Import list gmap.
Import Mmio.
#[local] Open Scope Z_scope.

Module Dma.

Definition STM32_DMA_CR_EN : Z := 0x1.
Definition STM32_DMA_CR_TCIE : Z := 0x2.
Definition STM32_DMA_CR_HTIE : Z := 0x4.
Definition STM32_DMA_CR_TEIE : Z := 0x8.
Definition STM32_DMA_CR_DIR_P2M : Z := 0.
Definition STM32_DMA_CR_CIRC : Z := 0x20.
Definition STM32_DMA_CR_MINC : Z := 0x80.
Definition STM32_DMA_CR_PSIZE_HWORD : Z := 0x100.
Definition STM32_DMA_CR_MSIZE_HWORD : Z := 0x400.
Definition STM32_DMA_CR_PL (n : Z) : Z := Z.shiftl n 12.
Definition STM32_DMA_CR_CHSEL (n : Z) : Z := 0.
Definition STM32_DMA_CR_DMEIE : Z := 0.
Definition STM32_DMA_ISR_MASK : Z := 0xE.
Definition STM32_DMA_ISR_DMEIF : Z := 0.
Definition STM32_DMA_ISR_TCIF : Z := 0x2.
Definition STM32_DMA_ISR_HTIF : Z := 0x4.
Definition STM32_DMA_ISR_TEIF : Z := 0x8.
Definition STM32_DMA_CCR_RESET_VALUE : Z := 0.

Definition STM32_DMA1_NUM_CHANNELS : nat := 5.
Definition STM32_DMA_STREAMS : nat := STM32_DMA1_NUM_CHANNELS.
Definition STM32_DMA1_STREAMS_MASK : Z := Z.shiftl 1 (Z.of_nat STM32_DMA1_NUM_CHANNELS) - 1.

(** A descriptor: the DMA unit is always DMA1, and [channel] is the number of
    the channel in it. *)
Record stm32_dma_stream_t := {
  channel : nat; cmask : Z; shift : Z; selfindex : nat; vector : Z
}.

Definition _stm32_dma_streams : list stm32_dma_stream_t := [
  {| channel := 1; cmask := 0x01; shift := 0;  selfindex := 0; vector := 9 |};
  {| channel := 2; cmask := 0x06; shift := 4;  selfindex := 1; vector := 10 |};
  {| channel := 3; cmask := 0x06; shift := 8;  selfindex := 2; vector := 10 |};
  {| channel := 4; cmask := 0x78; shift := 12; selfindex := 3; vector := 11 |};
  {| channel := 5; cmask := 0x78; shift := 16; selfindex := 4; vector := 11 |}
].

(** [F] is what handler pointers point to, [P] what their parameters do. *)
Record dma_isr_redir_t (F P : Type) := { dma_func : option F; dma_param : option P }.
Arguments dma_func {F P}.
Arguments dma_param {F P}.

Record dma_vars (F P : Type) := {
  dma_streams_mask : Z;
  _stm32_dma_isr_redir : list (dma_isr_redir_t F P)
}.
Arguments dma_streams_mask {F P}.
Arguments _stm32_dma_isr_redir {F P}.

Section dma.
Context {W F P : Type} `{Mmio W} `{!Obj W (dma_vars F P)}.
Implicit Types (s : stm32_dma_stream_t) (d : dma_vars F P).

Definition set_mask (m : Z) : fw W unit :=
  d ← read_obj; write_obj {| dma_streams_mask := m; _stm32_dma_isr_redir := _stm32_dma_isr_redir (d : dma_vars F P) |}.
Definition set_redir (i : nat) (f : option F) (p : option P) : fw W unit :=
  d ← read_obj;
  if (length (_stm32_dma_isr_redir d) <=? i)%nat then throw OutOfBounds
  else write_obj {| dma_streams_mask := dma_streams_mask d;
                    _stm32_dma_isr_redir := <[i := {| dma_func := f; dma_param := p |}]> (_stm32_dma_isr_redir d) |}.
Definition get_mask : fw W Z := d ← read_obj; ret (dma_streams_mask (d : dma_vars F P)).
Definition get_redir (i : nat) : fw W (dma_isr_redir_t F P) :=
  d ← read_obj; match _stm32_dma_isr_redir d !! i with Some x => ret x | None => throw OutOfBounds end.

(** The bit of a stream in the mask of the allocated ones. *)
Definition stream_bit s : Z := u32 (Z.shiftl 1 (Z.of_nat (selfindex s))).

(** ** Stream macros *)

Definition dmaStreamSetPeripheral s (addr : Z) : fw W unit := wr (rDMA1 (CPAR (channel s))) (u32 addr).
Definition dmaStreamSetMemory0 s (addr : Z) : fw W unit := wr (rDMA1 (CMAR (channel s))) (u32 addr).
Definition dmaStreamSetTransactionSize s (size : Z) : fw W unit := wr (rDMA1 (CNDTR (channel s))) (u32 size).
Definition dmaStreamGetTransactionSize s : fw W Z := rd (rDMA1 (CNDTR (channel s))).
Definition dmaStreamSetMode s (mode : Z) : fw W unit := wr (rDMA1 (CCR (channel s))) (u32 mode).
Definition dmaStreamEnable s : fw W unit := or_bits (rDMA1 (CCR (channel s))) STM32_DMA_CR_EN.
Definition dmaStreamClearInterrupt s : fw W unit := wr (rDMA1 DMA_IFCR) (u32 (Z.shiftl STM32_DMA_ISR_MASK (shift s))).
Definition dmaStreamDisable s : fw W unit :=
  clr_bits (rDMA1 (CCR (channel s)))
    (Z.lor (Z.lor STM32_DMA_CR_TCIE STM32_DMA_CR_HTIE) (Z.lor STM32_DMA_CR_TEIE STM32_DMA_CR_EN));;
  dmaStreamClearInterrupt s.

(** ** Functions *)

Fixpoint reset_streams (l : list stm32_dma_stream_t) (i : nat) : fw W unit :=
  match l with
  | [] => ret tt
  | s :: l =>
    wr (rDMA1 (CCR (channel s))) 0;;
    r ← get_redir i;
    set_redir i None (dma_param r);;
    reset_streams l (S i)
  end.

Definition dmaInit : fw W unit :=
  set_mask 0;;
  reset_streams _stm32_dma_streams 0;;
  wr (rDMA1 DMA_IFCR) 0xFFFFFFFF.

Definition dmaStreamAllocate s (priority : Z) (func : option F) (param : option P) : fw W bool :=
  m ← get_mask;
  if negb (Z.land m (stream_bit s) =? 0) then ret true
  else
    set_redir (selfindex s) func param;;
    m ← get_mask;
    when (Z.land m STM32_DMA1_STREAMS_MASK =? 0) (rccEnableAHB RCC_AHBENR_DMA1EN);;
    dmaStreamDisable s;;
    wr (rDMA1 (CCR (channel s))) STM32_DMA_CCR_RESET_VALUE;;
    m ← get_mask;
    when ((Z.land m (cmask s) =? 0) && bool_decide (is_Some func)) (nvicEnableVector (vector s) priority);;
    m ← get_mask;
    set_mask (Z.lor m (stream_bit s));;
    ret false.

Definition dmaStreamRelease s : fw W unit :=
  m ← get_mask;
  set_mask (Z.ldiff m (stream_bit s));;
  m ← get_mask;
  when (Z.land m (cmask s) =? 0) (nvicDisableVector (vector s));;
  set_redir (selfindex s) None None;;
  m ← get_mask;
  when (Z.land m STM32_DMA1_STREAMS_MASK =? 0) (rccDisableAHB RCC_AHBENR_DMA1EN).

(** ** Interrupts *)

(** What calling a handler pointer does. *)
Variable invoke : F → option P → Z → fw W unit.

Definition dmaServeInterrupt s : fw W unit :=
  isr ← rd (rDMA1 DMA_ISR);
  let flags := Z.land (Z.shiftr isr (shift s)) STM32_DMA_ISR_MASK in
  ccr ← rd (rDMA1 (CCR (channel s)));
  when (negb (Z.land flags ccr =? 0))
    (wr (rDMA1 DMA_IFCR) (u32 (Z.shiftl flags (shift s)));;
     r ← get_redir (selfindex s);
     match dma_func r with
     | Some f => invoke f (dma_param r) flags
     | None => ret tt
     end).

Definition stream (i : nat) : stm32_dma_stream_t :=
  nth i _stm32_dma_streams {| channel := 0; cmask := 0; shift := 0; selfindex := 0; vector := 0 |}.

Definition STM32_DMA1_CH1_HANDLER : fw W unit := dmaServeInterrupt (stream 0).
Definition STM32_DMA1_CH23_HANDLER : fw W unit := dmaServeInterrupt (stream 1);; dmaServeInterrupt (stream 2).
Definition STM32_DMA1_CH4567_HANDLER : fw W unit := dmaServeInterrupt (stream 3);; dmaServeInterrupt (stream 4).

End dma.

(** ** What a stream's control register keeps

    The interrupt enables of a stream are written by software only: the
    peripheral clears at most the channel enable. *)
Definition ie_of (v : Z) : Z := Z.land v STM32_DMA_ISR_MASK.

Class DmaHw (W : Type) `{Mmio W} := {
  ie : W → nat → Z;
  ie_val i w : ie_of (mm_rd (rDMA1 (CCR i)) w).1 = ie w i;
  ie_rd r w i : ie (mm_rd r w).2 i = ie w i;
  ie_wr r v w i : ie (mm_wr r v w) i =
    match r with rDMA1 (CCR j) => if decide (j = i) then ie_of v else ie w i | _ => ie w i end
}.
Class DmaObjLaws (W T : Type) `{DmaHw W, Obj W T} := { ie_set x w i : ie (set_obj x w) i = ie w i }.

Definition is_ccr (r : reg) : Prop := match r with rDMA1 (CCR _) => True | _ => False end.

(** The registers the macros of a stream write. *)
Definition dma_only (i : nat) (r : reg) : Prop := r = rDMA1 (CCR i) ∨ r = rDMA1 DMA_IFCR.

Lemma dma_only_not_rcc i r : is_rcc r → ¬ dma_only i r.
Proof. intros Hr [-> | ->]; done. Qed.
Lemma dma_only_not_nvic i r : is_nvic r → ¬ dma_only i r.
Proof. intros Hr [-> | ->]; done. Qed.
Lemma nvic_not_rcc r : is_rcc r → ¬ is_nvic r.
Proof. destruct r; cbn; tauto. Qed.
Lemma rcc_not_nvic r : is_nvic r → ¬ is_rcc r.
Proof. destruct r; cbn; tauto. Qed.
Lemma rcc_not_ccr r : is_ccr r → ¬ is_rcc r.
Proof. destruct r; cbn; tauto. Qed.
Lemma nvic_not_ccr r : is_ccr r → ¬ is_nvic r.
Proof. destruct r; cbn; tauto. Qed.

Lemma touched_ie {W} `{DmaHw W} S i (w w' : W) : (∀ r, is_ccr r → ¬ S r) → touched S w w' → ie w' i = ie w i.
Proof.
  intros HS. apply (touched_keeps (λ w, ie w i)); [intros; apply ie_rd|].
  intros r v w1 Hr. rewrite ie_wr. destruct r as [|[]| | | | | | | | |]; try done. by destruct (HS (rDMA1 (CCR stream0)) Logic.I).
Qed.

(** ** The streams as a map of claims *)

Definition bit_of (mask : Z) (i : nat) : bool := Z.testbit mask (Z.of_nat i).

(** Some claimed stream has the vector. *)
Definition busy (mask v : Z) : bool :=
  existsb (λ s, (vector s =? v) && bit_of mask (selfindex s)) _stm32_dma_streams.

Lemma existsb_congr {A} (f g : A → bool) l : (∀ x, x ∈ l → f x = g x) → existsb f l = existsb g l.
Proof.
  induction l as [|x l IH]; intros Hfg; [done|]. cbn. rewrite (Hfg x), IH; [done| |by left].
  intros y Hy. apply Hfg. by right.
Qed.

Lemma mask_any m : 0 <= m < 32 → negb (m =? 0) = existsb (λ s, bit_of m (selfindex s)) _stm32_dma_streams.
Proof.
  intros Hm. assert (forallb (λ m, eqb (negb (m =? 0)) (existsb (λ s, bit_of m (selfindex s)) _stm32_dma_streams))
    (Z.of_nat <$> seq 0 32) = true) as Ha by (vm_compute; reflexivity).
  rewrite forallb_forall in Ha. apply eqb_prop, Ha, list_elem_of_In, list_elem_of_fmap.
  exists (Z.to_nat m). rewrite elem_of_seq. lia.
Qed.

Lemma busy_mono m b v : busy (Z.ldiff m b) v = true → busy m v = true.
Proof.
  unfold busy. rewrite !existsb_exists. intros (s & Hs & Hb). exists s. split; [done|].
  apply andb_true_iff in Hb as [Hv Hb]. unfold bit_of in *. rewrite Z.ldiff_spec in Hb. by rewrite Hv; destruct (Z.testbit m _).
Qed.

(** The masks of the streams, checked for the 32 sets of streams. *)
Definition masks_ok (m : Z) : bool :=
  forallb (λ s,
    eqb (Z.land m (stream_bit s) =? 0) (negb (bit_of m (selfindex s))) &&
    eqb (Z.land m (cmask s) =? 0) (negb (busy m (vector s))) &&
    eqb (Z.land m STM32_DMA1_STREAMS_MASK =? 0) (m =? 0) &&
    bool_decide (0 <= Z.lor m (stream_bit s) < 32) && bool_decide (0 <= Z.ldiff m (stream_bit s) < 32) &&
    negb (Z.lor m (stream_bit s) =? 0) &&
    forallb (λ t,
      eqb (bit_of (Z.lor m (stream_bit s)) (selfindex t)) (bit_of m (selfindex t) || (selfindex t =? selfindex s)%nat) &&
      eqb (bit_of (Z.ldiff m (stream_bit s)) (selfindex t)) (bit_of m (selfindex t) && negb (selfindex t =? selfindex s)%nat) &&
      eqb (busy (Z.lor m (stream_bit s)) (vector t)) (busy m (vector t) || (vector t =? vector s)) &&
      (if vector t =? vector s then eqb (busy (Z.ldiff m (stream_bit s)) (vector t)) (busy (Z.ldiff m (stream_bit s)) (vector s))
       else eqb (busy (Z.ldiff m (stream_bit s)) (vector t)) (busy m (vector t)))) _stm32_dma_streams) _stm32_dma_streams.

Lemma masks_all m : 0 <= m < 32 → masks_ok m = true.
Proof.
  intros Hm. assert (forallb masks_ok (Z.of_nat <$> seq 0 32) = true) as Ha by (vm_compute; reflexivity).
  rewrite forallb_forall in Ha. apply Ha, list_elem_of_In, list_elem_of_fmap.
  exists (Z.to_nat m). rewrite elem_of_seq. lia.
Qed.

Record masks_facts (m : Z) (s : stm32_dma_stream_t) : Prop := {
  mf_bit : (Z.land m (stream_bit s) =? 0) = negb (bit_of m (selfindex s));
  mf_shared : (Z.land m (cmask s) =? 0) = negb (busy m (vector s));
  mf_all : (Z.land m STM32_DMA1_STREAMS_MASK =? 0) = (m =? 0);
  mf_lor : 0 <= Z.lor m (stream_bit s) < 32;
  mf_ldiff : 0 <= Z.ldiff m (stream_bit s) < 32;
  mf_lor0 : (Z.lor m (stream_bit s) =? 0) = false;
  mf_bit_lor t : t ∈ _stm32_dma_streams →
    bit_of (Z.lor m (stream_bit s)) (selfindex t) = bit_of m (selfindex t) || (selfindex t =? selfindex s)%nat;
  mf_bit_ldiff t : t ∈ _stm32_dma_streams →
    bit_of (Z.ldiff m (stream_bit s)) (selfindex t) = bit_of m (selfindex t) && negb (selfindex t =? selfindex s)%nat;
  mf_busy_lor t : t ∈ _stm32_dma_streams →
    busy (Z.lor m (stream_bit s)) (vector t) = busy m (vector t) || (vector t =? vector s);
  mf_busy_ldiff t : t ∈ _stm32_dma_streams →
    busy (Z.ldiff m (stream_bit s)) (vector t) = if vector t =? vector s then busy (Z.ldiff m (stream_bit s)) (vector s) else busy m (vector t)
}.

Lemma masks_spec m s : 0 <= m < 32 → s ∈ _stm32_dma_streams → masks_facts m s.
Proof.
  intros Hm Hs%list_elem_of_In. pose proof (masks_all m Hm) as Ha. unfold masks_ok in Ha.
  rewrite forallb_forall in Ha. specialize (Ha s Hs). rewrite !andb_true_iff in Ha.
  destruct Ha as ((((((H1 & H2) & H3) & H4) & H5) & H6) & Ht). rewrite forallb_forall in Ht.
  assert (∀ t, t ∈ _stm32_dma_streams → _) as Ht' by (intros t Hin%list_elem_of_In; exact (Ht t Hin)).
  clear Ht. split; [by apply eqb_prop..|by apply bool_decide_eq_true in H4|by apply bool_decide_eq_true in H5
    |by apply negb_true_iff| | | |].
  all: intros t Hin; specialize (Ht' t Hin); rewrite !andb_true_iff in Ht'; destruct Ht' as (((T1 & T2) & T3) & T4).
  - by apply eqb_prop.
  - by apply eqb_prop.
  - by apply eqb_prop.
  - destruct (vector t =? vector s); by apply eqb_prop.
Qed.

Section spec.
Context {W F P : Type} `{!Mmio W, !Obj W (dma_vars F P), !ObjLaws W (dma_vars F P)}.
Context `{!CoreHw W, !CoreObjLaws W (dma_vars F P), !DmaHw W, !DmaObjLaws W (dma_vars F P)}.
Implicit Types (w : W) (s : stm32_dma_stream_t) (c : gmap nat (F * option P)).

Notation vars w := (obj w : dma_vars F P).

(** The claims [c]: who has which stream. The variables, the clock gate and the
    interrupt vectors agree with it. *)
Record claimed c w : Prop := {
  cl_range : 0 <= dma_streams_mask (vars w) < 32;
  cl_table : length (_stm32_dma_isr_redir (vars w)) = STM32_DMA_STREAMS;
  cl_bit s : s ∈ _stm32_dma_streams → bit_of (dma_streams_mask (vars w)) (selfindex s) = bool_decide (is_Some (c !! selfindex s));
  cl_func s : s ∈ _stm32_dma_streams →
    ∃ r, _stm32_dma_isr_redir (vars w) !! selfindex s = Some r ∧ dma_func r = fst <$> c !! selfindex s
      ∧ ∀ fp, c !! selfindex s = Some fp → dma_param r = fp.2;
  cl_clock : Z.testbit (rcc w AHBENR) 0 = negb (dma_streams_mask (vars w) =? 0);
  cl_irq s : s ∈ _stm32_dma_streams → irq_on w (vector s) = busy (dma_streams_mask (vars w)) (vector s)
}.

(** Accesses to other registers leave the claims alone. *)
Lemma claimed_touched S c w w' :
  (∀ r, is_rcc r ∨ is_nvic r → ¬ S r) → touched S w w' → claimed c w → claimed c w'.
Proof.
  intros HS Ht [C1 C2 C3 C4 C5 C6]. pose proof (touched_obj (T:=dma_vars F P) _ _ _ Ht) as Eo.
  split; rewrite ?Eo; [done..| |].
  - rewrite (touched_rcc S AHBENR w w'); auto.
  - intros s Hs. rewrite (touched_irq S _ w w'); auto.
Qed.

Lemma stream_index s : s ∈ _stm32_dma_streams → (selfindex s < STM32_DMA_STREAMS)%nat.
Proof. unfold _stm32_dma_streams. rewrite !elem_of_cons, elem_of_nil. unfold STM32_DMA_STREAMS, STM32_DMA1_NUM_CHANNELS. intros; destruct_or?; subst; cbn; lia. Qed.

Lemma stream_index_inj s t : s ∈ _stm32_dma_streams → t ∈ _stm32_dma_streams → selfindex s = selfindex t → s = t.
Proof. unfold _stm32_dma_streams. rewrite !elem_of_cons, !elem_of_nil. intros; destruct_or?; subst; done. Qed.

(** The variables after a claim or a release. *)
Definition vars_with (m : Z) (i : nat) (r : dma_isr_redir_t F P) (d : dma_vars F P) : dma_vars F P :=
  {| dma_streams_mask := m; _stm32_dma_isr_redir := <[i := r]> (_stm32_dma_isr_redir d) |}.

(** What has to be checked when stream [s] changes hands. *)
Lemma claimed_change c c' s w w' m' r :
  claimed c w → s ∈ _stm32_dma_streams →
  vars w' = vars_with m' (selfindex s) r (vars w) → 0 <= m' < 32 →
  (∀ i, i ≠ selfindex s → c' !! i = c !! i) →
  (∀ t, t ∈ _stm32_dma_streams → bit_of m' (selfindex t) =
    if (selfindex t =? selfindex s)%nat then bool_decide (is_Some (c' !! selfindex s)) else bit_of (dma_streams_mask (vars w)) (selfindex t)) →
  dma_func r = fst <$> c' !! selfindex s → (∀ fp, c' !! selfindex s = Some fp → dma_param r = fp.2) →
  Z.testbit (rcc w' AHBENR) 0 = negb (m' =? 0) →
  (∀ t, t ∈ _stm32_dma_streams → irq_on w' (vector t) = busy m' (vector t)) →
  claimed c' w'.
Proof.
  intros [C1 C2 C3 C4 C5 C6] Hs Ev Hm Hc Hb Hf Hp Hk Hi.
  pose proof (stream_index s Hs) as Hlt. split; rewrite Ev; cbn; [done|by rewrite length_insert| |..|done|done].
  - intros t Ht. rewrite (Hb t Ht). destruct (Nat.eqb_spec (selfindex t) (selfindex s)) as [->|Hn]; [done|].
    by rewrite C3, (Hc _ Hn).
  - intros t Ht. destruct (Nat.eq_dec (selfindex t) (selfindex s)) as [->|Hn].
    + exists r. rewrite list_lookup_insert_eq by (rewrite C2; done). done.
    + rewrite list_lookup_insert_ne by done. rewrite (Hc _ Hn). by apply C4.
Qed.

Lemma wp_get_mask (Q : Z → W → Prop) w : Q (dma_streams_mask (vars w)) w → wp get_mask Q w.
Proof. intros. unfold get_mask. by wp_steps. Qed.

Lemma wp_set_mask m (Q : unit → W → Prop) w :
  Q tt (set_obj {| dma_streams_mask := m; _stm32_dma_isr_redir := _stm32_dma_isr_redir (vars w) |} w) → wp (set_mask m) Q w.
Proof. intros. unfold set_mask. by wp_steps. Qed.

Lemma wp_set_redir i f p (Q : unit → W → Prop) w :
  (i < length (_stm32_dma_isr_redir (vars w)))%nat →
  Q tt (set_obj (vars_with (dma_streams_mask (vars w)) i {| dma_func := f; dma_param := p |} (vars w)) w) →
  wp (set_redir i f p) Q w.
Proof.
  intros Hi HQ. unfold set_redir. wp_steps.
  replace (length _ <=? i)%nat with false by (symmetry; by apply Nat.leb_gt). by wp_steps.
Qed.

Lemma wp_get_redir i (Q : dma_isr_redir_t F P → W → Prop) w r :
  _stm32_dma_isr_redir (vars w) !! i = Some r → Q r w → wp (get_redir i) Q w.
Proof. intros Hr HQ. unfold get_redir. wp_steps. rewrite Hr. by wp_steps. Qed.

Lemma wp_dmaStreamDisable s (Q : unit → W → Prop) w :
  (∀ w', touched (dma_only (channel s)) w w' →
    ie w' (channel s) = 0 → (∀ i, i ≠ channel s → ie w' i = ie w i) → Q tt w') →
  wp (dmaStreamDisable s) Q w.
Proof.
  intros HQ. unfold dmaStreamDisable, dmaStreamClearInterrupt. wp_steps. apply HQ.
  - apply touched_then_wr; [by right|]. apply touched_then_wr; [by left|]. touched_tac.
  - rewrite !ie_wr, decide_True by done. unfold ie_of. apply Z.bits_inj'. intros n Hn.
    rewrite Z.land_spec, Z.ldiff_spec, Z.testbit_0_l.
    destruct (Z.testbit STM32_DMA_ISR_MASK n) eqn:En; [|by rewrite andb_false_r].
    assert (n = 1 ∨ n = 2 ∨ n = 3) as [-> | [-> | ->]].
    { destruct (decide (n < 4)).
      - assert (n = 0 ∨ n = 1 ∨ n = 2 ∨ n = 3) as [-> |?] by lia; [done|done].
      - revert En. unfold STM32_DMA_ISR_MASK. rewrite Z.bits_above_log2; [done|done|]. cbn. lia. }
    all: cbn; by rewrite andb_false_r.
  - intros i Hi. by rewrite !ie_wr, decide_False, ie_rd by congruence.
Qed.

(** The effect of a claim on a free stream, with or without a handler. *)
Lemma wp_allocate_free s prio func p (Q : bool → W → Prop) w :
  (selfindex s < length (_stm32_dma_isr_redir (vars w)))%nat → Z.land (dma_streams_mask (vars w)) (stream_bit s) = 0 →
  (∀ w', vars w' = vars_with (Z.lor (dma_streams_mask (vars w)) (stream_bit s)) (selfindex s) {| dma_func := func; dma_param := p |} (vars w) →
    (∀ k, irq_on w' k = irq_on w k || ((Z.land (dma_streams_mask (vars w)) (cmask s) =? 0) && bool_decide (is_Some func) && (k =? vector s))) →
    rcc w' AHBENR = (if Z.land (dma_streams_mask (vars w)) STM32_DMA1_STREAMS_MASK =? 0
                     then Z.lor (rcc w AHBENR) RCC_AHBENR_DMA1EN else rcc w AHBENR) →
    ie w' (channel s) = 0 → (∀ i, i ≠ channel s → ie w' i = ie w i) → Q false w') →
  wp (dmaStreamAllocate s prio func p) Q w.
Proof.
  intros Hi Hb HQ. set (m := dma_streams_mask (vars w)) in *. unfold dmaStreamAllocate. wp_steps. apply wp_get_mask.
  fold m. rewrite Hb. cbn [Z.eqb negb]. wp_steps. apply wp_set_redir; [done|]. fold m. set (w1 := set_obj _ w).
  assert (vars w1 = vars_with m (selfindex s) {| dma_func := func; dma_param := p |} (vars w)) as E1 by apply obj_set.
  wp_steps. apply wp_get_mask. rewrite E1. cbn [vars_with dma_streams_mask]. wp_steps.
  apply (wp_mono _ (λ _ w2, touched is_rcc w1 w2 ∧ rcc w2 AHBENR = if Z.land m STM32_DMA1_STREAMS_MASK =? 0
      then Z.lor (rcc w AHBENR) RCC_AHBENR_DMA1EN else rcc w AHBENR)).
  2: { apply wp_when; intros ->; [apply wp_rcc_or; intros w2 T2 R2|]; (split; [done || apply touched_refl|]).
       - rewrite R2, decide_True by done. unfold w1. by rewrite rcc_set.
       - apply rcc_set. }
  intros _ w2 [T2 R2]. wp_steps. apply wp_dmaStreamDisable. intros w3 T3 _ O3. wp_steps. apply wp_get_mask. set (w4 := mm_wr _ _ w3).
  assert (touched (dma_only (channel s)) w2 w4) as T4 by (apply touched_then_wr; [by left|done]).
  rewrite (touched_obj _ _ _ T4), (touched_obj _ _ _ T2), E1. cbn [vars_with dma_streams_mask]. wp_steps.
  apply (wp_mono _ (λ _ w5, touched is_nvic w4 w5 ∧ ∀ k, irq_on w5 k = irq_on w k ||
      ((Z.land m (cmask s) =? 0) && bool_decide (is_Some func) && (k =? vector s)))).
  2: { assert (∀ k, irq_on w4 k = irq_on w k) as Q4.
       { intros k. rewrite (touched_irq _ k _ _ (dma_only_not_nvic _) T4), (touched_irq _ k _ _ rcc_not_nvic T2). apply irq_set. }
       apply wp_when; intros ->; [apply wp_nvicEnableVector; intros w5 T5 Q5|]; (split; [done || apply touched_refl|]); intros k.
       - by rewrite Q5, Q4.
       - by rewrite Q4, orb_false_r. }
  intros _ w5 [T5 Q5]. wp_steps. apply wp_get_mask. wp_steps. apply wp_set_mask. wp_steps.
  rewrite (touched_obj _ _ _ T5), (touched_obj _ _ _ T4), (touched_obj _ _ _ T2), E1. cbn [vars_with dma_streams_mask _stm32_dma_isr_redir].
  apply HQ.
  - apply obj_set.
  - intros k. by rewrite irq_set.
  - by rewrite rcc_set, (touched_rcc _ _ _ _ nvic_not_rcc T5), (touched_rcc _ _ _ _ (dma_only_not_rcc _) T4).
  - rewrite ie_set, (touched_ie _ _ _ _ nvic_not_ccr T5). unfold w4. by rewrite ie_wr, decide_True.
  - intros i Hn. rewrite ie_set, (touched_ie _ _ _ _ nvic_not_ccr T5). unfold w4. rewrite ie_wr, decide_False, O3 by done.
    rewrite (touched_ie _ _ _ _ rcc_not_ccr T2). apply ie_set.
Qed.

(** What neither registers nor the streams' variables hold is left alone. *)
Lemma claims_frames {B} (g : W → B) :
  (∀ r w, g (mm_rd r w).2 = g w) → (∀ r v w, g (mm_wr r v w) = g w) → (∀ (d : dma_vars F P) w, g (set_obj d w) = g w) →
  (∀ s prio func p, frames g (dmaStreamAllocate s prio func p)) ∧ ∀ s, frames g (dmaStreamRelease s).
Proof.
  intros Hr Hw Hs. split; intros.
  - unfold dmaStreamAllocate, dmaStreamDisable, dmaStreamClearInterrupt, rccEnableAHB, nvicEnableVector, get_mask, set_mask, set_redir, write_obj.
    frames_tac; auto.
  - unfold dmaStreamRelease, rccDisableAHB, nvicDisableVector, get_mask, set_mask, set_redir, write_obj. frames_tac; auto.
Qed.

(** Claiming a stream refines insertion into the map of claims. *)
Lemma allocate_claimed c w s prio f p :
  claimed c w → s ∈ _stm32_dma_streams →
  wp (dmaStreamAllocate s prio (Some f) p)
    (λ b w', b = bool_decide (is_Some (c !! selfindex s)) ∧
      if b then w' = w else claimed (<[selfindex s := (f, p)]> c) w' ∧ ie w' (channel s) = 0 ∧ ∀ i, i ≠ channel s → ie w' i = ie w i) w.
Proof.
  intros C Hs. pose proof C as [C1 C2 C3 C4 C5 C6]. destruct (masks_spec _ s C1 Hs) as [M1 M2 M3 M4 _ M6 M7 _ M9 _].
  case_bool_decide as Hc.
  { unfold dmaStreamAllocate. wp_steps. apply wp_get_mask. rewrite M1, negb_involutive, C3, bool_decide_eq_true_2 by done.
    by wp_steps. }
  apply wp_allocate_free; [by rewrite C2; apply stream_index| |].
  { apply Z.eqb_eq. rewrite M1, C3 by done. by rewrite bool_decide_eq_false_2. }
  intros w' Ev Hq Hk Hie Hoth. split; [done|]. split; [|done]. eapply (claimed_change _ _ s w); [done|done|exact Ev|done|..].
  - intros i Hi. by rewrite lookup_insert_ne.
  - intros t Ht. rewrite M7, lookup_insert_eq by done.
    destruct (Nat.eqb_spec (selfindex t) (selfindex s)); [by rewrite orb_true_r|by rewrite orb_false_r].
  - by rewrite lookup_insert_eq.
  - intros fp. rewrite lookup_insert_eq. by intros [= <-].
  - rewrite Hk, M6, M3. destruct (Z.eqb_spec (dma_streams_mask (vars w)) 0) as [E|E].
    + by rewrite Z.lor_spec, orb_true_r.
    + by rewrite C5.
  - intros t Ht. rewrite Hq, M2, M9, C6, bool_decide_eq_true_2, andb_true_r by eauto.
    destruct (Z.eqb_spec (vector t) (vector s)) as [->|]; [|by rewrite andb_false_r].
    rewrite andb_true_r. by destruct (busy _ _).
Qed.

(** A stream claimed without a handler hides the vector it shares: the next
    claim finds the vector in use and leaves it disabled. *)
Theorem shared_vector_stays_off w s t pr1 pr2 f p :
  dma_streams_mask (vars w) = 0 → length (_stm32_dma_isr_redir (vars w)) = STM32_DMA_STREAMS →
  s ∈ _stm32_dma_streams → t ∈ _stm32_dma_streams → s ≠ t → vector s = vector t → irq_on w (vector t) = false →
  wp (dmaStreamAllocate s pr1 None None;; dmaStreamAllocate t pr2 (Some f) p)
    (λ b w', b = false ∧ dma_func <$> _stm32_dma_isr_redir (vars w') !! selfindex t = Some (Some f) ∧ irq_on w' (vector t) = false) w.
Proof.
  intros Hm Hl Hs Ht Hst Hv Hq. assert (0 <= Z.lor 0 (stream_bit s) < 32) as Hr by exact (mf_lor _ _ (masks_spec 0 s ltac:(lia) Hs)).
  apply wp_bind, wp_allocate_free; [by rewrite Hl; apply stream_index|by rewrite Hm|].
  intros w1 E1 Q1 _ _ _. rewrite Hm in E1. destruct (masks_spec 0 s ltac:(lia) Hs) as [_ _ _ _ _ _ B1 _ B2 _].
  assert (dma_streams_mask (vars w1) = Z.lor 0 (stream_bit s)) as Em by by rewrite E1.
  destruct (masks_spec _ t Hr Ht) as [M1 M2 _ _ _ _ _ _ _ _]. apply wp_allocate_free.
  - rewrite E1. cbn. rewrite length_insert, Hl. by apply stream_index.
  - apply Z.eqb_eq. rewrite Em, M1, B1 by done. unfold bit_of. rewrite Z.testbit_0_l. cbn [orb]. destruct (Nat.eqb_spec (selfindex t) (selfindex s)) as [E|]; [|done].
    by destruct Hst; apply stream_index_inj.
  - intros w2 E2 Q2 _ _ _. split; [done|]. split.
    + rewrite E2. cbn. rewrite list_lookup_insert_eq; [done|]. rewrite E1. cbn. rewrite length_insert, Hl. by apply stream_index.
    + rewrite Q2, Em, M2, B2, <-Hv, Z.eqb_refl, orb_true_r by done. cbn. rewrite orb_false_r, Q1.
      by rewrite Hv, Hq, bool_decide_eq_false_2, andb_false_r by (by intros [? ?]).
Qed.

(** The effect of a release. *)
Lemma wp_release s (Q : unit → W → Prop) w :
  (selfindex s < length (_stm32_dma_isr_redir (vars w)))%nat →
  let m := Z.ldiff (dma_streams_mask (vars w)) (stream_bit s) in
  (∀ w', vars w' = vars_with m (selfindex s) {| dma_func := None; dma_param := None |} (vars w) →
    (∀ k, irq_on w' k = irq_on w k && negb ((Z.land m (cmask s) =? 0) && (k =? vector s))) →
    rcc w' AHBENR = (if Z.land m STM32_DMA1_STREAMS_MASK =? 0
                     then Z.ldiff (rcc w AHBENR) RCC_AHBENR_DMA1EN else rcc w AHBENR) →
    (∀ i, ie w' i = ie w i) → Q tt w') →
  wp (dmaStreamRelease s) Q w.
Proof.
  intros Hi m HQ. unfold dmaStreamRelease. wp_steps. apply wp_get_mask. fold m. wp_steps. apply wp_set_mask.
  wp_steps. apply wp_get_mask. rewrite obj_set. cbn [dma_streams_mask]. set (w1 := set_obj _ w). wp_steps.
  apply (wp_mono _ (λ _ w2, touched is_nvic w1 w2 ∧ ∀ k, irq_on w2 k = irq_on w k && negb ((Z.land m (cmask s) =? 0) && (k =? vector s)))).
  2: { apply wp_when; intros ->; [apply wp_nvicDisableVector; intros w2 T2 Q2|]; (split; [done || apply touched_refl|]); intros k.
       - rewrite Q2. unfold w1. by rewrite irq_set.
       - unfold w1. by rewrite irq_set, andb_true_r. }
  intros _ w2 [T2 Q2].
  assert (vars w2 = {| dma_streams_mask := m; _stm32_dma_isr_redir := _stm32_dma_isr_redir (vars w) |}) as E2.
  { rewrite (touched_obj _ _ _ T2). apply obj_set. }
  wp_steps. apply wp_set_redir; [by rewrite E2|]. wp_steps. apply wp_get_mask. rewrite obj_set. cbn [vars_with dma_streams_mask].
  rewrite E2. cbn [dma_streams_mask]. set (w3 := set_obj _ w2).
  assert (∀ w4, touched is_rcc w3 w4 → rcc w4 AHBENR = (if Z.land m STM32_DMA1_STREAMS_MASK =? 0
      then Z.ldiff (rcc w AHBENR) RCC_AHBENR_DMA1EN else rcc w AHBENR) → Q tt w4) as Hend.
  { intros w4 T4 R4. apply HQ; [|intros k|done|intros i].
    - rewrite (touched_obj _ _ _ T4). apply obj_set.
    - rewrite (touched_irq _ k _ _ rcc_not_nvic T4). unfold w3. by rewrite irq_set.
    - rewrite (touched_ie _ _ _ _ rcc_not_ccr T4). unfold w3. rewrite ie_set, (touched_ie _ _ _ _ nvic_not_ccr T2). apply ie_set. }
  assert (∀ r, rcc w3 r = rcc w r) as R3.
  { intros r. unfold w3. rewrite rcc_set, (touched_rcc _ _ _ _ nvic_not_rcc T2). apply rcc_set. }
  apply wp_when; intros Hm; rewrite Hm in *.
  - apply wp_rcc_clr. intros w4 T4 R4. apply Hend; [done|]. by rewrite R4, decide_True, R3.
  - apply Hend; [apply touched_refl|]. apply R3.
Qed.

(** Releasing a stream refines deletion from the map of claims. *)
Lemma release_claimed c w s :
  claimed c w → s ∈ _stm32_dma_streams →
  wp (dmaStreamRelease s) (λ _ w', claimed (delete (selfindex s) c) w' ∧ ∀ i, ie w' i = ie w i) w.
Proof.
  intros C Hs. pose proof C as [C1 C2 C3 C4 C5 C6]. destruct (masks_spec _ s C1 Hs) as [_ _ _ _ M5 _ _ M8 _ M10].
  destruct (masks_spec _ s M5 Hs) as [_ N2 N3 _ _ _ _ _ _ _].
  apply wp_release; [by rewrite C2; apply stream_index|]. rewrite N2, N3. intros w' Ev Hq Hk Hie. split; [|done].
  eapply (claimed_change _ _ s w); [done|done|exact Ev|done|..].
  - intros i Hi. by rewrite lookup_delete_ne.
  - intros t Ht. rewrite lookup_delete_eq, M8 by done.
    destruct (Nat.eqb_spec (selfindex t) (selfindex s)); [by rewrite andb_false_r|by rewrite andb_true_r].
  - by rewrite lookup_delete_eq.
  - by rewrite lookup_delete_eq.
  - rewrite Hk. destruct (Z.eqb_spec (Z.ldiff (dma_streams_mask (vars w)) (stream_bit s)) 0) as [E|E].
    + by rewrite Z.ldiff_spec, andb_false_r.
    + rewrite C5. apply negb_true_iff, Z.eqb_neq. intros E0. apply E. by rewrite E0, Z.ldiff_0_l.
  - intros t Ht. rewrite Hq, C6, (M10 t) by done. destruct (Z.eqb_spec (vector t) (vector s)) as [->|]; [|rewrite andb_false_r; apply andb_true_r].
    rewrite andb_true_r, negb_involutive. destruct (busy (Z.ldiff _ _) _) eqn:Eb; [|by rewrite andb_false_r].
    by rewrite (busy_mono _ _ _ Eb).
Qed.

(** ** Claims and releases in any order *)

Inductive dma_op := Claim s (prio : Z) (f : F) (p : option P) | Free s.

Definition op_stream (op : dma_op) : stm32_dma_stream_t := match op with Claim s _ _ _ | Free s => s end.

(** The answer of an operation on the claims, and the claims after it. *)
Definition claim_step (op : dma_op) c : bool * gmap nat (F * option P) :=
  match op with
  | Claim s _ f p => if decide (is_Some (c !! selfindex s)) then (true, c) else (false, <[selfindex s := (f, p)]> c)
  | Free s => (false, delete (selfindex s) c)
  end.

Fixpoint claim_run (ops : list dma_op) c : list bool * gmap nat (F * option P) :=
  match ops with
  | [] => ([], c)
  | op :: ops => let '(b, c) := claim_step op c in let '(bs, c) := claim_run ops c in (b :: bs, c)
  end.

Definition dma_exec (op : dma_op) : fw W bool :=
  match op with
  | Claim s prio f p => dmaStreamAllocate s prio (Some f) p
  | Free s => dmaStreamRelease s;; ret false
  end.

Fixpoint dma_run (ops : list dma_op) : fw W (list bool) :=
  match ops with
  | [] => ret []
  | op :: ops => b ← dma_exec op; bs ← dma_run ops; ret (b :: bs)
  end.

Lemma exec_claimed op c w :
  claimed c w → op_stream op ∈ _stm32_dma_streams →
  wp (dma_exec op) (λ b w', b = (claim_step op c).1 ∧ claimed (claim_step op c).2 w') w.
Proof.
  intros C Hs. destruct op as [s prio f p|s]; cbn in *.
  - eapply wp_mono; [|by apply (allocate_claimed c)]. cbn. intros b w' [-> Hb].
    case_bool_decide; [rewrite decide_True by done|rewrite decide_False by done]; cbn; [|tauto]. by subst.
  - apply wp_bind. eapply wp_mono; [|by apply (release_claimed c)]. cbn. by intros [] w' [Hc _].
Qed.

(** C13 (refinement). The streams refine a map from claimed streams to handlers:
    any sequence of claims and releases succeeds with the answers of the map - a
    claim is refused exactly when the stream is taken - and afterwards the table
    holds the handlers of the claims, the clock is on exactly when there is a
    claim, and an interrupt vector exactly when a claimed stream has it. *)
Theorem dma_refines_claims ops c w :
  claimed c w → Forall (λ op, op_stream op ∈ _stm32_dma_streams) ops →
  ∃ w', dma_run ops w = Ok ((claim_run ops c).1, w') ∧ claimed (claim_run ops c).2 w' ∧
    Z.testbit (rcc w' AHBENR) 0 = existsb (λ s, bool_decide (is_Some ((claim_run ops c).2 !! selfindex s))) _stm32_dma_streams ∧
    ∀ s, s ∈ _stm32_dma_streams → irq_on w' (vector s) =
      existsb (λ t, (vector t =? vector s) && bool_decide (is_Some ((claim_run ops c).2 !! selfindex t))) _stm32_dma_streams.
Proof.
  intros C Hops. assert (wp (dma_run ops) (λ bs w', bs = (claim_run ops c).1 ∧ claimed (claim_run ops c).2 w') w) as Hw.
  { revert c w C. induction Hops as [|op ops Hop _ IH]; intros c w C; cbn [dma_run claim_run]; [done|].
    apply wp_bind. eapply wp_mono; [|by apply (exec_claimed op c)]. intros b w1 [-> C1].
    destruct (claim_step op c) as [b c1]. cbn in C1 |- *. apply wp_bind. eapply wp_mono; [|by apply (IH c1)].
    intros bs w2 [-> C2]. by destruct (claim_run ops c1). }
  destruct (wp_elim _ _ _ Hw) as (bs & w' & E & -> & C'). exists w'. split; [done|]. split; [done|]. split.
  - rewrite (cl_clock _ _ C'), (mask_any _ (cl_range _ _ C')). apply existsb_congr. intros s Hs. by rewrite (cl_bit _ _ C').
  - intros s Hs. rewrite (cl_irq _ _ C' s Hs). apply existsb_congr. intros t Ht. by rewrite (cl_bit _ _ C').
Qed.

(** ** Dispatch *)

Variable invoke : F → option P → Z → fw W unit.

(** A stream's interrupt reaches its handler only with flags it has enabled. *)
Lemma serve_cases c s w :
  claimed c w → s ∈ _stm32_dma_streams →
  ∃ w', touched (λ r, r = rDMA1 DMA_IFCR) w w' ∧
    (dmaServeInterrupt invoke s w = Ok (tt, w') ∨
     ∃ flags f p, c !! selfindex s = Some (f, p) ∧ Z.land flags STM32_DMA_ISR_MASK = flags ∧ Z.land flags (ie w (channel s)) ≠ 0 ∧
       dmaServeInterrupt invoke s w = invoke f p flags w').
Proof.
  intros C Hs. set (w1 := (mm_rd (rDMA1 DMA_ISR) w).2).
  set (flags := Z.land (Z.shiftr (mm_rd (rDMA1 DMA_ISR) w).1 (shift s)) STM32_DMA_ISR_MASK).
  assert (dmaServeInterrupt invoke s w = when (negb (Z.land flags (mm_rd (rDMA1 (CCR (channel s))) w1).1 =? 0))
    (wr (rDMA1 DMA_IFCR) (u32 (Z.shiftl flags (shift s)));; r ← get_redir (selfindex s);
     match dma_func r with Some f => invoke f (dma_param r) flags | None => ret tt end) (mm_rd (rDMA1 (CCR (channel s))) w1).2) as ->.
  { unfold dmaServeInterrupt. rewrite fw_bind_eq. unfold flags, w1, rd. destruct (mm_rd (rDMA1 DMA_ISR) w) as [v w0]. cbn [fst snd].
    rewrite fw_bind_eq. by destruct (mm_rd _ w0). }
  set (w2 := (mm_rd (rDMA1 (CCR (channel s))) w1).2). destruct (Z.land flags _ =? 0) eqn:Hfl; cbn [negb when].
  { exists w2. split; [unfold w2, w1; touched_tac|by left]. }
  set (w3 := mm_wr (rDMA1 DMA_IFCR) (u32 (Z.shiftl flags (shift s))) w2). exists w3.
  assert (touched (λ r, r = rDMA1 DMA_IFCR) w w3) as T3 by (unfold w3, w2, w1; touched_tac). split; [done|].
  assert (vars w3 = vars w) as E3 by exact (touched_obj _ _ _ T3). destruct (cl_func _ _ C s Hs) as (r & Hr & Efn & Ep).
  rewrite (fw_bind_ok _ _ w2 tt w3) by done. rewrite (fw_bind_ok _ _ w3 r w3).
  2: { unfold get_redir, read_obj, gets. rewrite fw_bind_eq, E3, Hr. done. }
  rewrite Efn. destruct (c !! selfindex s) as [[f p]|] eqn:Ec; cbn [fst fmap option_fmap option_map]; [|by left].
  right. assert (Z.land flags STM32_DMA_ISR_MASK = flags) as Hm by (unfold flags; by rewrite <-Z.land_assoc, Z.land_diag).
  exists flags, f, p. rewrite (Ep _ eq_refl). split_and!; [done|done| |done]. apply Z.eqb_neq in Hfl.
  rewrite <-(ie_rd (rDMA1 DMA_ISR)), <-ie_val. unfold ie_of. fold w1. by rewrite (Z.land_comm _ STM32_DMA_ISR_MASK), Z.land_assoc, Hm.
Qed.

Lemma wp_dmaServeInterrupt c s (Q : unit → W → Prop) w :
  claimed c w → s ∈ _stm32_dma_streams →
  (∀ w', touched (λ r, r = rDMA1 DMA_IFCR) w w' → Q tt w') →
  (∀ flags f p w', c !! selfindex s = Some (f, p) → Z.land flags STM32_DMA_ISR_MASK = flags → Z.land flags (ie w (channel s)) ≠ 0 →
    touched (λ r, r = rDMA1 DMA_IFCR) w w' → wp (invoke f p flags) Q w') →
  wp (dmaServeInterrupt invoke s) Q w.
Proof.
  intros C Hs HQ Hf. destruct (serve_cases c s w C Hs) as (w' & T & [E|(flags & f & p & Ec & Hm & Hfl & E)]); unfold wp; rewrite E.
  - by apply HQ.
  - by apply (Hf flags f p w').
Qed.

(** The claims on the streams are the same. *)
Record same_claims w w' : Prop := {
  sc_vars : vars w' = vars w;
  sc_clock : rcc w' AHBENR = rcc w AHBENR;
  sc_irq k : irq_on w' k = irq_on w k
}.

Lemma same_claims_refl w : same_claims w w.
Proof. done. Qed.

Lemma same_claims_trans w1 w2 w3 : same_claims w1 w2 → same_claims w2 w3 → same_claims w1 w3.
Proof. intros [A1 B1 C1] [A2 B2 C2]. split; intros; by rewrite ?A2, ?B2, ?C2. Qed.

Lemma claimed_same c w w' : same_claims w w' → claimed c w → claimed c w'.
Proof. intros [A B C] [C1 C2 C3 C4 C5 C6]. split; rewrite ?A, ?B; [done..|]. intros s Hs. by rewrite C, C6. Qed.

(** The registers that have no part in the claims. *)
Definition no_claim (r : reg) : Prop := match r with rRCC AHBENR | rNVIC _ => False | _ => True end.

Lemma same_claims_touched S w w' : (∀ r, S r → no_claim r) → touched S w w' → same_claims w w'.
Proof.
  intros HS Ht. split; [exact (touched_obj _ _ _ Ht)| |intros k].
  - apply (touched_keeps (λ w, rcc w AHBENR) S); [intros; apply rcc_rd| |done].
    intros r v w1 Hr%HS. rewrite rcc_wr. by destruct r as [| |[]| | | | | | | |].
  - apply (touched_keeps (λ w, irq_on w k) S); [intros; apply irq_rd| |done].
    intros r v w1 Hr%HS. rewrite irq_wr. by destruct r.
Qed.

End spec.

(** ** The drivers that use streams

    Each has its variable, apart from the streams'. *)

(** Two variables of the program are two places. *)
Class Apart (W T U : Type) `{Obj W T, Obj W U} := { apart x w : obj (set_obj (x : T) w) = (obj w : U) }.

Section clients.
Context {W T F P : Type} `{!Mmio W, !Obj W T, !Obj W (dma_vars F P), !ObjLaws W T, !ObjLaws W (dma_vars F P)}.
Context `{!Apart W T (dma_vars F P), !Apart W (dma_vars F P) T}.
Context `{!CoreHw W, !CoreObjLaws W T, !CoreObjLaws W (dma_vars F P), !DmaHw W, !DmaObjLaws W T, !DmaObjLaws W (dma_vars F P)}.
Implicit Types (w : W) (s : stm32_dma_stream_t) (c : gmap nat (F * option P)).

Notation D w := (obj w : T).

Lemma same_claims_set (d : T) w : same_claims (F:=F) (P:=P) w (set_obj d w).
Proof. split; [apply apart|apply rcc_set|intros; apply irq_set]. Qed.

(** [w'] is [w] after accesses that leave the driver's variable and the claims
    alone. *)
Definition moved w w' : Prop := D w' = D w ∧ same_claims (F:=F) (P:=P) w w'.

Lemma moved_refl w : moved w w.
Proof. by split. Qed.

Lemma moved_trans w1 w2 w3 : moved w1 w2 → moved w2 w3 → moved w1 w3.
Proof. intros [E1 C1] [E2 C2]. split; [congruence|by eapply same_claims_trans]. Qed.

Lemma moved_touched S w w' : (∀ r, S r → no_claim r) → touched S w w' → moved w w'.
Proof. intros HS Ht. split; [exact (touched_obj _ _ _ Ht)|by eapply same_claims_touched]. Qed.

Lemma moved_wr r v w w' : no_claim r → moved w w' → moved w (mm_wr r v w').
Proof. intros Hr Hw. eapply moved_trans; [exact Hw|]. apply (moved_touched (λ r', r' = r)); [by intros ? ->|]. touched_tac. Qed.

Lemma moved_rd r w w' : moved w w' → moved w (mm_rd r w').2.
Proof. intros Hw. eapply moved_trans; [exact Hw|]. apply (moved_touched (λ _, False)); [done|]. touched_tac. Qed.

Lemma wp_claim s c prio f p (Q : bool → W → Prop) w :
  claimed c w → s ∈ _stm32_dma_streams → c !! selfindex s = None →
  (∀ w', D w' = D w → claimed (<[selfindex s := (f, p)]> c) w' → ie w' (channel s) = 0 → (∀ i, i ≠ channel s → ie w' i = ie w i) → Q false w') →
  wp (dmaStreamAllocate s prio (Some f) p) Q w.
Proof.
  intros Hc Hs E HQ. eapply wp_mono; [|apply (wp_frame (λ w, D w))].
  3: { apply (allocate_claimed c); [exact Hc|done]. }
  2: { apply claims_frames; [apply obj_rd|apply obj_wr|intros; apply apart]. }
  cbn. intros b w' [[Hb Hcl] ED]. rewrite E in Hb.
  rewrite bool_decide_eq_false_2 in Hb by (by intros [? ?]). subst b. destruct Hcl as (? & ? & ?). by apply HQ.
Qed.

Lemma wp_unclaim s c (Q : unit → W → Prop) w :
  claimed c w → s ∈ _stm32_dma_streams →
  (∀ w', D w' = D w → claimed (delete (selfindex s) c) w' → (∀ i, ie w' i = ie w i) → Q tt w') →
  wp (dmaStreamRelease s) Q w.
Proof.
  intros Hc Hs HQ. eapply wp_mono; [|apply (wp_frame (λ w, D w))].
  3: { apply (release_claimed c); [exact Hc|done]. }
  2: { apply claims_frames; [apply obj_rd|apply obj_wr|intros; apply apart]. }
  cbn. intros [] w' [[Hcl Hie] ED]. by apply HQ.
Qed.

End clients.

Ltac moved_tac := repeat first [apply moved_refl | apply moved_rd | apply moved_wr; [exact Logic.I|]].

End Dma.
