(* ===== verification/AdcDrv.v ===== *)
(** * The ADC driver (adc.c, adc.h, adc_lld.c)

    The driver of the one converter, on its registers and its DMA stream. The
    stream's interrupt ends, or goes on with, the conversion in progress and
    calls back the conversion group's functions. *)

From S2P Require Import Prelude Fw Mmio Dma.
From stdpp Require Import list gmap relations.
Import Mmio Dma.
#[local] Open Scope Z_scope.

Module AdcDrv.

Inductive adcstate_t := ADC_UNINIT | ADC_STOP | ADC_READY | ADC_ACTIVE | ADC_COMPLETE | ADC_ERROR.
Inductive adcerror_t := ADC_ERR_DMAFAILURE | ADC_ERR_OVERFLOW | ADC_ERR_AWD.

#[global] Instance adcstate_eq_dec : EqDecision adcstate_t.
Proof. solve_decision. Defined.

(** A conversion group; a callback acts on the world [W]. The first argument of
    the C callbacks, the driver, is always [ADCD1]. *)
Record ADCConversionGroup (W : Type) := {
  circular : bool;
  num_channels : Z;
  end_cb : option (Z → Z → fw W unit);
  error_cb : option (adcerror_t → fw W unit);
  cfgr1 : Z; tr : Z; smpr : Z; chselr : Z
}.
Arguments circular {W}.
Arguments num_channels {W}.
Arguments end_cb {W}.
Arguments error_cb {W}.
Arguments cfgr1 {W}.
Arguments tr {W}.
Arguments smpr {W}.
Arguments chselr {W}.

(** [ADCD1]: [G] is what group pointers point to, [samples] is an address
    ([NULL] is 0). The register block is always the one of ADC1. *)
Record ADCDriver (G : Type) := {
  state : adcstate_t; config : option Z; samples : Z; depth : Z; grpp : option G;
  dmastp : stm32_dma_stream_t; dmamode : Z
}.
Arguments state {G}.
Arguments config {G}.
Arguments samples {G}.
Arguments depth {G}.
Arguments grpp {G}.
Arguments dmastp {G}.
Arguments dmamode {G}.

Definition ADC_CR_ADEN : Z := 0x1.
Definition ADC_CR_ADDIS : Z := 0x2.
Definition ADC_CR_ADSTART : Z := 0x4.
Definition ADC_CR_ADSTP : Z := 0x10.
Definition ADC_CR_ADCAL : Z := 0x80000000.
Definition ADC_ISR_ADRDY : Z := 0x1.
Definition ADC_ISR_OVR : Z := 0x10.
Definition ADC_ISR_AWD : Z := 0x80.
Definition ADC_IER_OVRIE : Z := 0x10.
Definition ADC_IER_AWDIE : Z := 0x80.
Definition ADC_CFGR1_DMAEN : Z := 0x1.
Definition ADC_CFGR1_DMACFG : Z := 0x2.
Definition STM32_ADC_ADC1_CKMODE : Z := 0.
Definition STM32_ADC_ADC1_DMA_PRIORITY : Z := 2.
Definition STM32_ADC_ADC1_DMA_IRQ_PRIORITY : Z := 2.
Definition STM32_ADC_ADC1_DMA_STREAM : nat := 0.
(** [&ADC1->DR] *)
Definition ADC1_DR : Z := 0x40012440.

Definition any_bit (m v : Z) : bool := negb (Z.land v m =? 0).

Section adc.
Context {W G F P : Type} `{!Mmio W, !Obj W (ADCDriver G), !Obj W (dma_vars F P)}.
(** The groups, and the DMA handler and driver as pointers. *)
Variable group : G → ADCConversionGroup W.
Variable rx_handler : F.
Variable ADCD1_ptr : P.
(** A bound on the polls of a command bit. *)
Variable fuel : nat.

Definition driver : fw W (ADCDriver G) := read_obj.
Definition upd_driver (f : ADCDriver G → ADCDriver G) : fw W unit := d ← driver; write_obj (f d).

Definition with_state (s : adcstate_t) (d : ADCDriver G) : ADCDriver G :=
  {| state := s; config := config d; samples := samples d; depth := depth d; grpp := grpp d;
     dmastp := dmastp d; dmamode := dmamode d |}.
Definition with_grpp (g : option G) (d : ADCDriver G) : ADCDriver G :=
  {| state := state d; config := config d; samples := samples d; depth := depth d; grpp := g;
     dmastp := dmastp d; dmamode := dmamode d |}.
Definition with_config (c : option Z) (d : ADCDriver G) : ADCDriver G :=
  {| state := state d; config := c; samples := samples d; depth := depth d; grpp := grpp d;
     dmastp := dmastp d; dmamode := dmamode d |}.
Definition with_buffer (b n : Z) (d : ADCDriver G) : ADCDriver G :=
  {| state := state d; config := config d; samples := b; depth := n; grpp := grpp d;
     dmastp := dmastp d; dmamode := dmamode d |}.
Definition with_dma (s : stm32_dma_stream_t) (m : Z) (d : ADCDriver G) : ADCDriver G :=
  {| state := state d; config := config d; samples := samples d; depth := depth d; grpp := grpp d;
     dmastp := s; dmamode := m |}.

Definition set_state (s : adcstate_t) : fw W unit := upd_driver (with_state s).
Definition set_grpp (g : option G) : fw W unit := upd_driver (with_grpp g).
Definition get_state : fw W adcstate_t := d ← driver; ret (state d).
(** [adcp->grpp->...] *)
Definition the_group : fw W (ADCConversionGroup W) :=
  d ← driver; match grpp d with Some g => ret (group g) | None => throw NullPointer end.

(** ** Low level driver *)

Definition adc_lld_stop_adc : fw W unit :=
  cr ← rd (rADC ADC_CR);
  when (any_bit ADC_CR_ADSTART cr)
    (or_bits (rADC ADC_CR) ADC_CR_ADSTP;;
     poll_while fuel (rADC ADC_CR) (any_bit ADC_CR_ADSTP)).

Definition adc_lld_stop_conversion : fw W unit :=
  d ← driver;
  dmaStreamDisable (dmastp d);;
  adc_lld_stop_adc.

Definition adc_lld_start_conversion : fw W unit :=
  d ← driver;
  g ← the_group;
  let circ_mode := if circular g then STM32_DMA_CR_CIRC else 0 in
  let half_mode := if circular g && (1 <? depth d) then STM32_DMA_CR_HTIE else 0 in
  let mode := Z.lor (Z.lor (dmamode d) circ_mode) half_mode in
  let cfgr1 := Z.lor (Z.lor (cfgr1 g) ADC_CFGR1_DMAEN) (if circular g then ADC_CFGR1_DMACFG else 0) in
  dmaStreamSetMemory0 (dmastp d) (samples d);;
  dmaStreamSetTransactionSize (dmastp d) (u32 (num_channels g * depth d));;
  dmaStreamSetMode (dmastp d) mode;;
  dmaStreamEnable (dmastp d);;
  isr ← rd (rADC ADC_ISR);
  wr (rADC ADC_ISR) isr;;
  wr (rADC ADC_IER) (Z.lor ADC_IER_OVRIE ADC_IER_AWDIE);;
  wr (rADC ADC_TR) (tr g);;
  wr (rADC ADC_SMPR) (smpr g);;
  wr (rADC ADC_CHSELR) (chselr g);;
  wr (rADC ADC_CFGR1) cfgr1;;
  or_bits (rADC ADC_CR) ADC_CR_ADSTART.

Definition adc_lld_start : fw W unit :=
  s ← get_state;
  when (bool_decide (s = ADC_STOP))
    (d ← driver;
     dmaStreamAllocate (dmastp d) STM32_ADC_ADC1_DMA_IRQ_PRIORITY (Some rx_handler) (Some ADCD1_ptr);;
     dmaStreamSetPeripheral (dmastp d) ADC1_DR;;
     rccEnableAPB2 RCC_APB2ENR_ADC1EN;;
     wr (rADC ADC_CFGR2) STM32_ADC_ADC1_CKMODE;;
     wr (rADC ADC_CR) ADC_CR_ADEN;;
     poll_while fuel (rADC ADC_ISR) (λ v, negb (any_bit ADC_ISR_ADRDY v))).

Definition adc_lld_stop : fw W unit :=
  s ← get_state;
  when (bool_decide (s = ADC_READY))
    (d ← driver;
     dmaStreamRelease (dmastp d);;
     wr (rADC ADC_CCR) 0;;
     cr ← rd (rADC ADC_CR);
     when (any_bit ADC_CR_ADEN cr)
       (adc_lld_stop_adc;;
        or_bits (rADC ADC_CR) ADC_CR_ADDIS;;
        poll_while fuel (rADC ADC_CR) (any_bit ADC_CR_ADDIS));;
     rccDisableAPB2 RCC_APB2ENR_ADC1EN).

(** ** Interrupts *)

Definition _adc_isr_half_code : fw W unit :=
  g ← the_group;
  d ← driver;
  match end_cb g with Some f => f (samples d) (depth d / 2) | None => ret tt end.

(** [samples + half_index] counts samples of two bytes. *)
Definition _adc_isr_full_code : fw W unit :=
  g ← the_group;
  if circular g then
    d ← driver;
    match end_cb g with
    | Some f =>
      if 1 <? depth d then
        let half := depth d / 2 in
        let half_index := u32 (half * num_channels g) in
        f (u32 (samples d + 2 * half_index)) half
      else f (samples d) (depth d)
    | None => ret tt
    end
  else
    adc_lld_stop_conversion;;
    g ← the_group;
    match end_cb g with
    | Some f =>
      set_state ADC_COMPLETE;;
      d ← driver;
      f (samples d) (depth d);;
      s ← get_state;
      when (bool_decide (s = ADC_COMPLETE)) (set_state ADC_READY;; set_grpp None)
    | None => set_state ADC_READY;; set_grpp None
    end.

(** Only the first statement after the callback depends on the condition. *)
Definition _adc_isr_error_code (err : adcerror_t) : fw W unit :=
  adc_lld_stop_conversion;;
  g ← the_group;
  match error_cb g with
  | Some f =>
    set_state ADC_ERROR;;
    f err;;
    s ← get_state;
    when (bool_decide (s = ADC_ERROR)) (set_state ADC_READY);;
    set_grpp None
  | None => set_state ADC_READY;; set_grpp None
  end.

Definition adc_lld_serve_rx_interrupt (flags : Z) : fw W unit :=
  if any_bit (Z.lor STM32_DMA_ISR_TEIF STM32_DMA_ISR_DMEIF) flags then _adc_isr_error_code ADC_ERR_DMAFAILURE
  else
    d ← driver;
    match grpp d with
    | None => ret tt
    | Some _ =>
      if any_bit STM32_DMA_ISR_TCIF flags then _adc_isr_full_code
      else if any_bit STM32_DMA_ISR_HTIF flags then _adc_isr_half_code
      else ret tt
    end.

Definition adc_lld_serve_interrupt : fw W unit :=
  isr ← rd (rADC ADC_ISR);
  wr (rADC ADC_ISR) isr;;
  d ← driver;
  match grpp d with
  | None => ret tt
  | Some _ =>
    (if any_bit ADC_ISR_OVR isr then
       n ← dmaStreamGetTransactionSize (dmastp d);
       when (0 <? n) (_adc_isr_error_code ADC_ERR_OVERFLOW)
     else ret tt);;
    when (any_bit ADC_ISR_AWD isr) (_adc_isr_error_code ADC_ERR_AWD)
  end.

(** ** High level driver *)

Definition adcObjectInit : fw W unit :=
  set_state ADC_STOP;;
  upd_driver (with_config None);;
  upd_driver (with_buffer 0 0);;
  set_grpp None.

Definition ADCD1_dmamode : Z :=
  foldr Z.lor 0 [STM32_DMA_CR_CHSEL 0; STM32_DMA_CR_PL STM32_ADC_ADC1_DMA_PRIORITY; STM32_DMA_CR_DIR_P2M;
                 STM32_DMA_CR_MSIZE_HWORD; STM32_DMA_CR_PSIZE_HWORD; STM32_DMA_CR_MINC; STM32_DMA_CR_TCIE;
                 STM32_DMA_CR_DMEIE; STM32_DMA_CR_TEIE].

(** The vector is shared with the external interrupts on this device, and is
    not enabled here. *)
Definition adc_lld_init : fw W unit :=
  adcObjectInit;;
  upd_driver (with_dma (stream STM32_ADC_ADC1_DMA_STREAM) ADCD1_dmamode);;
  rccEnableAPB2 RCC_APB2ENR_ADC1EN;;
  wr (rADC ADC_CCR) 0;;
  or_bits (rADC ADC_CR) ADC_CR_ADCAL;;
  poll_while fuel (rADC ADC_CR) (any_bit ADC_CR_ADCAL);;
  rccDisableAPB2 RCC_APB2ENR_ADC1EN.

Definition adcInit : fw W unit := adc_lld_init.

Definition adcStart (c : option Z) : fw W unit :=
  upd_driver (with_config c);;
  adc_lld_start;;
  set_state ADC_READY.

Definition adcStop : fw W unit :=
  adc_lld_stop;;
  set_state ADC_STOP.

Definition adcStartConversionI (g : G) (buffer n : Z) : fw W unit :=
  upd_driver (with_buffer buffer n);;
  set_grpp (Some g);;
  set_state ADC_ACTIVE;;
  adc_lld_start_conversion.

Definition adcStartConversion (g : G) (buffer n : Z) : fw W unit := adcStartConversionI g buffer n.

Definition adcStopConversionI : fw W unit :=
  s ← get_state;
  when (bool_decide (s ≠ ADC_READY))
    (adc_lld_stop_conversion;;
     set_grpp None;;
     set_state ADC_READY).

Definition adcStopConversion : fw W unit := adcStopConversionI.

End adc.

(** ** Laws *)

(** A command bit of CR reads as zero, and the converter is ready, within [n]
    polls. *)
Class AdcTiming (W : Type) (n : nat) `{Mmio W} := {
  cmd_settles w v m : m ∈ [ADC_CR_ADSTP; ADC_CR_ADDIS; ADC_CR_ADCAL] →
    settles n (rADC ADC_CR) (any_bit m) (mm_wr (rADC ADC_CR) v w);
  ready_settles w : settles n (rADC ADC_ISR) (λ v, negb (any_bit ADC_ISR_ADRDY v)) (mm_wr (rADC ADC_CR) ADC_CR_ADEN w)
}.

Definition is_adc (r : reg) : Prop := match r with rADC _ => True | _ => False end.

Section spec.
Context {W G F P : Type} `{!Mmio W, !Obj W (ADCDriver G), !Obj W (dma_vars F P)}.
Context `{!ObjLaws W (ADCDriver G), !ObjLaws W (dma_vars F P)}.
Context `{!Apart W (ADCDriver G) (dma_vars F P), !Apart W (dma_vars F P) (ADCDriver G)}.
Context `{!CoreHw W, !CoreObjLaws W (ADCDriver G), !CoreObjLaws W (dma_vars F P)}.
Context `{!DmaHw W, !DmaObjLaws W (ADCDriver G), !DmaObjLaws W (dma_vars F P)}.
Variables (n fuel : nat) (Hn : (n < fuel)%nat).
Context `{!AdcTiming W n}.
Variable group : G → ADCConversionGroup W.
Variable rx_handler : F.
Variable ADCD1_ptr : P.
Implicit Types (w : W).

Notation D w := (obj w : ADCDriver G).
Notation vars w := (obj w : dma_vars F P).

Notation same_claims := (same_claims (F:=F) (P:=P)).
Notation moved := (moved (T:=ADCDriver G) (F:=F) (P:=P)).

Lemma touched_adc_ie i w w' : touched is_adc w w' → ie w' i = ie w i.
Proof. apply touched_ie. intros []; cbn; tauto. Qed.

(** ** The invariant

    A group is set exactly while a conversion is in progress or being reported;
    the stream is the driver's unless it is stopped, and its interrupts are on
    only while a conversion is in progress. *)
Definition converting (s : adcstate_t) : Prop := s = ADC_ACTIVE ∨ s = ADC_COMPLETE ∨ s = ADC_ERROR.

Definition claims_stream (s : adcstate_t) w : Prop :=
  ∃ c : gmap nat (F * option P), claimed c w ∧ c !! 0%nat = if decide (s = ADC_STOP) then None else Some (rx_handler, Some ADCD1_ptr).

Record adc_inv w : Prop := {
  ai_stream : dmastp (D w) = stream 0;
  ai_group : is_Some (grpp (D w)) ↔ converting (state (D w));
  ai_quiet : state (D w) ≠ ADC_ACTIVE → ie w 1 = 0;
  ai_claim : claims_stream (state (D w)) w
}.

Lemma claims_same s s' w w' :
  claims_stream s w → same_claims w w' → (s = ADC_STOP ↔ s' = ADC_STOP) → claims_stream s' w'.
Proof.
  intros (c & Hc & E) Hw Hs. exists c. split; [by eapply claimed_same|]. rewrite E. do 2 case_decide; tauto.
Qed.

(** ** Primitives *)

Lemma wp_driver (Q : ADCDriver G → W → Prop) w : Q (D w) w → wp driver Q w.
Proof. done. Qed.

Lemma wp_upd_driver f (Q : unit → W → Prop) w : Q tt (set_obj (f (D w)) w) → wp (upd_driver f) Q w.
Proof. done. Qed.

Lemma wp_get_state (Q : adcstate_t → W → Prop) w : Q (state (D w)) w → wp get_state Q w.
Proof. done. Qed.

Lemma wp_the_group g (Q : ADCConversionGroup W → W → Prop) w :
  grpp (D w) = Some g → Q (group g) w → wp (the_group group) Q w.
Proof. intros Eg HQ. unfold the_group. apply wp_bind, wp_driver. by rewrite Eg. Qed.

Lemma wp_stop_adc (Q : unit → W → Prop) w :
  (∀ w', touched is_adc w w' → Q tt w') → wp (adc_lld_stop_adc fuel) Q w.
Proof.
  intros HQ. unfold adc_lld_stop_adc. wp_steps. apply wp_when; intros _; [|apply HQ; touched_tac].
  wp_steps. apply (wp_poll_touched n); [|done|].
  - apply cmd_settles. set_solver.
  - intros w' Ht. apply HQ. eapply touched_trans; [|eapply touched_mono; [|exact Ht]; done]. touched_tac.
Qed.

Lemma wp_stop_conversion (Q : unit → W → Prop) w :
  dmastp (D w) = stream 0 → (∀ w', moved w w' → ie w' 1 = 0 → Q tt w') → wp (adc_lld_stop_conversion fuel) Q w.
Proof.
  intros Es HQ. unfold adc_lld_stop_conversion. apply wp_bind, wp_driver, wp_bind, wp_dmaStreamDisable.
  rewrite Es. intros w1 T1 I1 _. apply wp_stop_adc. intros w2 T2. apply HQ.
  - eapply moved_trans; [eapply moved_touched, T1|eapply moved_touched, T2]; [by intros ? [-> | ->]|]. intros []; cbn; tauto.
  - by rewrite (touched_adc_ie _ _ _ T2).
Qed.

(** Setting the driver's variable: what remains of the invariant to be shown. *)
Lemma adc_inv_set d w :
  adc_inv w → dmastp d = stream 0 → (is_Some (grpp d) ↔ converting (state d)) → (state d ≠ ADC_ACTIVE → ie w 1 = 0) →
  (state (D w) = ADC_STOP ↔ state d = ADC_STOP) → adc_inv (set_obj d w).
Proof.
  intros [I1 I2 I3 I4] H1 H2 H3 H4. split; rewrite ?obj_set; [done..| |].
  - rewrite ie_set. done.
  - eapply claims_same; [done|apply same_claims_set|done].
Qed.

(** A stopped conversion, whatever the state it is reported in. *)
Lemma adc_inv_moved w w' : adc_inv w → moved w w' → ie w' 1 = 0 → adc_inv w'.
Proof.
  intros [I1 I2 I3 I4] [E C] Hie. split; rewrite ?E; [done..|]. by eapply claims_same.
Qed.

Lemma wp_start_conversion g (Q : unit → W → Prop) w :
  dmastp (D w) = stream 0 → grpp (D w) = Some g → (∀ w', moved w w' → Q tt w') →
  wp (adc_lld_start_conversion group) Q w.
Proof.
  intros Es Eg HQ. unfold adc_lld_start_conversion. apply wp_bind, wp_driver, wp_bind. apply (wp_the_group g _ w Eg).
  rewrite Es. unfold dmaStreamSetMemory0, dmaStreamSetTransactionSize, dmaStreamSetMode, dmaStreamEnable.
  wp_steps. apply HQ. eapply (moved_touched no_claim); [done|]. touched_tac.
Qed.

(** ** The driver's operations keep the invariant *)

Lemma start_conversion_inv g b k w :
  adc_inv w → state (D w) = ADC_READY ∨ state (D w) = ADC_COMPLETE ∨ state (D w) = ADC_ERROR →
  wp (adcStartConversionI group g b k) (λ _ w', adc_inv w' ∧ state (D w') = ADC_ACTIVE) w.
Proof.
  intros I Hs. unfold adcStartConversionI. apply wp_bind, wp_upd_driver, wp_bind, wp_upd_driver, wp_bind, wp_upd_driver.
  rewrite !obj_set. set (d := with_state _ _). apply (wp_start_conversion g).
  - rewrite obj_set. apply I.
  - by rewrite obj_set.
  - intros w' [E C]. rewrite obj_set in E. split; [|by rewrite E]. split; rewrite E.
    + apply I.
    + split; [intros _; by left|by eexists].
    + done.
    + eapply claims_same; [apply (ai_claim _ I)| |].
      * eapply same_claims_trans; [|exact C]. do 2 (eapply same_claims_trans; [|apply same_claims_set]). apply same_claims_set.
      * cbn. intuition congruence.
Qed.

Lemma stop_conversion_inv w :
  adc_inv w → state (D w) = ADC_READY ∨ state (D w) = ADC_ACTIVE ∨ state (D w) = ADC_COMPLETE →
  wp (adcStopConversionI fuel) (λ _ w', adc_inv w' ∧ state (D w') = ADC_READY) w.
Proof.
  intros I Hs. unfold adcStopConversionI. apply wp_bind, wp_get_state, wp_when; intros Hr%bool_decide_eq_true || intros Hr%bool_decide_eq_false.
  2: { split; [done|]. destruct (decide (state (D w) = ADC_READY)); [done|tauto]. }
  apply wp_bind, wp_stop_conversion; [apply I|]. intros w1 M1 I1.
  apply wp_bind, wp_upd_driver, wp_upd_driver. rewrite obj_set. destruct M1 as [E1 C1].
  split; [|by rewrite obj_set]. split; rewrite ?obj_set.
  - cbn. rewrite E1. apply I.
  - cbn. split; [by intros [? ?]|]. unfold converting. intros; naive_solver.
  - intros _. by rewrite !ie_set.
  - eapply claims_same; [apply (ai_claim _ I)| |].
    + eapply same_claims_trans; [exact C1|]. eapply same_claims_trans; apply same_claims_set.
    + cbn. intuition congruence.
Qed.

Lemma adc_start_inv cfg w :
  adc_inv w → state (D w) = ADC_STOP ∨ state (D w) = ADC_READY →
  wp (adcStart rx_handler ADCD1_ptr fuel cfg) (λ _ w', adc_inv w' ∧ state (D w') = ADC_READY) w.
Proof.
  intros I Hs. unfold adcStart. apply wp_bind, wp_upd_driver, wp_bind. set (w1 := set_obj _ w).
  assert (adc_inv w1) as I1 by (apply adc_inv_set; [done|apply I|apply I|apply I|done]).
  assert (state (D w1) = state (D w)) as Est by (unfold w1; by rewrite obj_set).
  assert (∀ w', dmastp (D w') = stream 0 → grpp (D w') = None → ie w' 1 = 0 → claims_stream ADC_READY w' →
    wp (set_state ADC_READY) (λ _ w', adc_inv w' ∧ state (D w') = ADC_READY) w') as Hend.
  { intros w' H1 H2 H3 H4. apply wp_upd_driver. split; [|by rewrite obj_set]. split; rewrite ?obj_set; [done| | |].
    - cbn. rewrite H2. split; [by intros [? ?]|]. unfold converting. intros; naive_solver.
    - intros _. by rewrite ie_set.
    - eapply claims_same; [exact H4|apply same_claims_set|done]. }
  assert (grpp (D w1) = None) as Eg.
  { destruct (grpp (D w1)) eqn:E; [|done]. assert (converting (state (D w1))) as Hc by (apply I1; by rewrite E).
    unfold converting in Hc. rewrite Est in Hc. intuition congruence. }
  unfold adc_lld_start. apply wp_bind, wp_get_state, wp_when; intros Hst.
  2: { apply Hend; [apply I1|done| |].
       - apply I1. rewrite Est. intuition congruence.
       - eapply claims_same; [apply (ai_claim _ I1)|done|]. apply bool_decide_eq_false in Hst. by split. }
  apply bool_decide_eq_true in Hst. destruct (ai_claim _ I1) as (c & Hc & Ec). rewrite Hst, decide_True in Ec by done.
  apply wp_bind, wp_driver. rewrite (ai_stream _ I1). apply wp_bind, (wp_claim (T:=ADCDriver G) (stream 0) c); [done|by left|done|]. intros w2 E2 C2 Ie2 _.
  unfold rccEnableAPB2, dmaStreamSetPeripheral. wp_steps. set (w3 := mm_wr (rADC ADC_CFGR2) _ _).
  assert (moved w2 w3) as M3.
  { unfold w3. moved_tac. }
  assert (ie w3 1 = 0) as Ie3 by (unfold w3; by rewrite !ie_wr, ie_rd, ie_wr).
  apply (wp_poll_touched n); [apply ready_settles|done|]. intros w4 T4.
  assert (moved w2 w4) as [E4 C4].
  { eapply moved_trans; [|by eapply (moved_touched (λ _, False))]. apply moved_wr; [exact Logic.I|done]. }
  apply Hend.
  - rewrite E4, E2. apply I1.
  - by rewrite E4, E2.
  - rewrite (touched_ie _ _ _ _ (λ _ _, id) T4). by rewrite ie_wr.
  - eexists. split; [by eapply claimed_same|]. by rewrite lookup_insert_eq.
Qed.

Lemma not_converting w : adc_inv w → ¬ converting (state (D w)) → grpp (D w) = None.
Proof. intros I Hc. destruct (grpp (D w)) eqn:E; [|done]. destruct Hc. apply I. by rewrite E. Qed.

Lemma stop_inv w :
  adc_inv w → state (D w) = ADC_STOP ∨ state (D w) = ADC_READY →
  wp (adcStop fuel) (λ _ w', adc_inv w' ∧ state (D w') = ADC_STOP) w.
Proof.
  intros I Hs. assert (grpp (D w) = None) as Eg by (apply not_converting; [done|unfold converting; intuition congruence]).
  assert (ie w 1 = 0) as Hie by (apply I; intuition congruence).
  assert (∀ w', D w' = D w → ie w' 1 = 0 → claims_stream ADC_STOP w' →
    wp (set_state ADC_STOP) (λ _ w', adc_inv w' ∧ state (D w') = ADC_STOP) w') as Hend.
  { intros w' E1 E2 E3. apply wp_upd_driver. rewrite E1. split; [|by rewrite obj_set]. split; rewrite ?obj_set; cbn.
    - apply I.
    - rewrite Eg. split; [by intros [? ?]|]. unfold converting. intros; naive_solver.
    - intros _. by rewrite ie_set.
    - eapply claims_same; [exact E3|apply same_claims_set|done]. }
  unfold adcStop, adc_lld_stop. apply wp_bind, wp_bind, wp_get_state, wp_when; intros Hr.
  2: { apply bool_decide_eq_false in Hr. apply Hend; [done|done|]. eapply claims_same; [apply I|done|]. intuition congruence. }
  apply bool_decide_eq_true in Hr. destruct (ai_claim _ I) as (c & Hc & Ec).
  apply wp_bind, wp_driver, wp_bind. rewrite (ai_stream _ I). apply (wp_unclaim (T:=ADCDriver G) (stream 0) c); [done|by left|]. intros w1 E1 C1 Ie1.
  assert (∀ w2, moved w1 w2 → ie w2 1 = 0 → wp (rccDisableAPB2 RCC_APB2ENR_ADC1EN)
    (λ _, wp (set_state ADC_STOP) (λ _ w', adc_inv w' ∧ state (D w') = ADC_STOP)) w2) as Hclk.
  { intros w2 M2 I2. unfold rccDisableAPB2. wp_steps. set (w3 := mm_wr _ _ _).
    assert (moved w1 w3) as [E3 C3] by (eapply moved_trans; [exact M2|]; unfold w3; moved_tac).
    apply Hend; [congruence|unfold w3; by rewrite ie_wr, ie_rd|]. eexists. split; [by eapply claimed_same|].
    by rewrite lookup_delete_eq. }
  wp_steps. set (w2 := (mm_rd (rADC ADC_CR) (mm_wr (rADC ADC_CCR) 0 w1)).2).
  assert (touched is_adc w1 w2) as T2 by (unfold w2; touched_tac).
  assert (∀ w', touched is_adc w1 w' → moved w1 w' ∧ ie w' 1 = 0) as Hadc.
  { intros w' T'. split; [eapply moved_touched; [|exact T']; by intros []|]. by rewrite (touched_adc_ie _ _ _ T'), Ie1. }
  apply wp_when; intros _; [|by apply Hclk; apply Hadc].
  apply wp_bind, wp_stop_adc. intros w3 T3. wp_steps. apply (wp_poll_touched n); [apply cmd_settles; set_solver|done|].
  intros w4 T4. assert (touched is_adc w1 w4) as T14.
  { eapply touched_trans; [exact T2|]. eapply touched_trans; [exact T3|].
    eapply touched_trans; [|eapply touched_mono; [|exact T4]; done]. touched_tac. }
  by apply Hclk; apply Hadc.
Qed.

(** ** The callbacks

    They may start or stop conversions as the driver allows: the end callback
    leaves the invariant, and so does the error callback, which starts no
    conversion. *)
Record callbacks_ok : Prop := {
  end_ok g f b k w : end_cb (group g) = Some f → adc_inv w → state (D w) = ADC_ACTIVE ∨ state (D w) = ADC_COMPLETE →
    wp (f b k) (λ _ w', adc_inv w') w;
  error_ok g f e w : error_cb (group g) = Some f → adc_inv w → state (D w) = ADC_ERROR →
    wp (f e) (λ _ w', adc_inv w' ∧ (state (D w') = ADC_ERROR ∨ state (D w') = ADC_READY)) w
}.
Context (Hcb : callbacks_ok).

(** The two last statements of a conversion. *)
Lemma wp_ready s w (Q : unit → W → Prop) :
  adc_inv w → s = ADC_COMPLETE ∨ s = ADC_ERROR ∨ s = ADC_READY → state (D w) = s ∨ state (D w) = ADC_READY → 
  (∀ w', adc_inv w' → state (D w') = ADC_READY → Q tt w') →
  wp (when (bool_decide (state (D w) = s)) (set_state ADC_READY);; set_grpp None) Q w.
Proof.
  intros I Hs Hst HQ. assert (∀ w', D w' = with_state ADC_READY (D w) → same_claims w w' → ie w' 1 = 0 → wp (set_grpp None) Q w') as Hend.
  { intros w' E C Hie. apply wp_upd_driver, HQ; [|by rewrite obj_set, E]. split; rewrite ?obj_set; rewrite E; cbn.
    - apply I.
    - split; [by intros [? ?]|]. unfold converting. intros; naive_solver.
    - intros _. by rewrite ie_set.
    - eapply claims_same; [apply I|eapply same_claims_trans; [exact C|apply same_claims_set]|]. intuition congruence. }
  assert (ie w 1 = 0) as Hie by (apply I; intuition congruence).
  apply wp_bind, wp_when; intros Hd.
  - apply wp_upd_driver, Hend; [apply obj_set|apply same_claims_set|by rewrite ie_set].
  - apply Hend; [|done|done]. apply bool_decide_eq_false in Hd. destruct Hst as [|Hst]; [done|].
    destruct (D w) eqn:E. cbn in Hst. by subst.
Qed.

Lemma reported_inv s w w1 :
  adc_inv w → state (D w) = ADC_ACTIVE → moved w w1 → ie w1 1 = 0 → s = ADC_COMPLETE ∨ s = ADC_ERROR →
  adc_inv (set_obj (with_state s (D w1)) w1).
Proof.
  intros I Ha M Hie Hs. assert (adc_inv w1) as I1 by by apply (adc_inv_moved w). destruct M as [E C].
  apply adc_inv_set; [done|apply I1| |done|].
  - cbn. split; [intros _; unfold converting; tauto|]. intros _. apply I1. rewrite E. by left.
  - cbn. rewrite E, Ha. intuition congruence.
Qed.
Lemma wp_idle w w1 :
  adc_inv w → state (D w) = ADC_ACTIVE → moved w w1 → ie w1 1 = 0 →
  wp (set_state ADC_READY;; set_grpp None) (λ _ w', adc_inv w' ∧ state (D w') = ADC_READY) w1.
Proof.
  intros I Ha M Hie. assert (adc_inv w1) as I1 by by apply (adc_inv_moved w).
  apply wp_bind, wp_upd_driver, wp_upd_driver. rewrite obj_set. split; [|by rewrite obj_set]. split; rewrite ?obj_set; cbn.
  - apply I1.
  - split; [by intros [? ?]|]. unfold converting. intros; naive_solver.
  - intros _. by rewrite !ie_set.
  - eapply claims_same; [apply I1|eapply same_claims_trans; apply same_claims_set|]. destruct M as [E1 _].
    rewrite E1, Ha. intuition congruence.
Qed.

Lemma active_group w : adc_inv w → state (D w) = ADC_ACTIVE → ∃ g, grpp (D w) = Some g.
Proof. intros I Ha. destruct (proj2 (ai_group _ I)) as [g E]; [by left|]. by exists g. Qed.

Lemma full_code_inv w :
  adc_inv w → state (D w) = ADC_ACTIVE → wp (_adc_isr_full_code group fuel) (λ _ w', adc_inv w') w.
Proof.
  intros I Ha. destruct (active_group w I Ha) as [g Eg]. unfold _adc_isr_full_code.
  apply wp_bind. apply (wp_the_group g _ w Eg). destruct (circular (group g)).
  { apply wp_bind, wp_driver. destruct (end_cb (group g)) as [f|] eqn:Ef; [|done].
    destruct (1 <? depth (D w)); apply (end_ok Hcb g f); auto. }
  apply wp_bind, wp_stop_conversion; [apply I|]. intros w1 M1 Ie1. pose proof M1 as [E1 _].
  apply wp_bind. apply (wp_the_group g); [by rewrite E1|]. destruct (end_cb (group g)) as [f|] eqn:Ef.
  - apply wp_bind, wp_upd_driver. set (w2 := set_obj _ w1).
    assert (adc_inv w2) as I2 by (eapply reported_inv; eauto).
    apply wp_bind, wp_driver, wp_bind. eapply wp_mono; [|apply (end_ok Hcb g f); [done|done|right; unfold w2; by rewrite obj_set]].
    intros [] w3 I3. cbn. apply wp_bind, wp_get_state.
    case_bool_decide as Hd; [|done]. cbn [when].
    pose proof (wp_ready ADC_COMPLETE w3 (λ _ w', adc_inv w') I3) as Hr. rewrite bool_decide_eq_true_2 in Hr by done. cbn [when] in Hr.
    apply Hr; [by left|by left|done].
  - eapply wp_mono; [|by apply (wp_idle w)]. by intros [] w' [? _].
Qed.

Lemma half_code_inv w :
  adc_inv w → state (D w) = ADC_ACTIVE → wp (_adc_isr_half_code group) (λ _ w', adc_inv w') w.
Proof.
  intros I Ha. destruct (active_group w I Ha) as [g Eg]. unfold _adc_isr_half_code.
  apply wp_bind. apply (wp_the_group g _ w Eg). apply wp_bind, wp_driver.
  destruct (end_cb (group g)) as [f|] eqn:Ef; [|done]. apply (end_ok Hcb g f); auto.
Qed.

Lemma error_code_inv err w :
  adc_inv w → state (D w) = ADC_ACTIVE → wp (_adc_isr_error_code group fuel err) (λ _ w', adc_inv w') w.
Proof.
  intros I Ha. destruct (active_group w I Ha) as [g Eg]. unfold _adc_isr_error_code.
  apply wp_bind, wp_stop_conversion; [apply I|]. intros w1 M1 Ie1. pose proof M1 as [E1 _].
  apply wp_bind. apply (wp_the_group g); [by rewrite E1|]. destruct (error_cb (group g)) as [f|] eqn:Ef.
  - apply wp_bind, wp_upd_driver. set (w2 := set_obj _ w1).
    assert (adc_inv w2) as I2 by (eapply reported_inv; eauto).
    apply wp_bind. eapply wp_mono; [|apply (error_ok Hcb g f); [done|done|unfold w2; by rewrite obj_set]].
    intros [] w3 [I3 S3]. cbn. apply wp_bind, wp_get_state. apply (wp_ready ADC_ERROR); [done|tauto|done|done].
  - eapply wp_mono; [|by apply (wp_idle w)]. by intros [] w' [? _].
Qed.

Lemma serve_rx_inv flags w :
  adc_inv w → state (D w) = ADC_ACTIVE → wp (adc_lld_serve_rx_interrupt group fuel flags) (λ _ w', adc_inv w') w.
Proof.
  intros I Ha. unfold adc_lld_serve_rx_interrupt. apply wp_if; intros _; [by apply error_code_inv|].
  apply wp_bind, wp_driver. destruct (active_group w I Ha) as [g ->].
  apply wp_if; intros _; [by apply full_code_inv|]. apply wp_if; intros _; [by apply half_code_inv|done].
Qed.

(** The stream's vector, with the driver's handler behind its pointer. *)
Variable invoke : F → option P → Z → fw W unit.
Hypothesis invoke_rx : ∀ flags, invoke rx_handler (Some ADCD1_ptr) flags = adc_lld_serve_rx_interrupt group fuel flags.

Lemma ack_inv w w' : adc_inv w → touched (λ r, r = rDMA1 DMA_IFCR) w w' → adc_inv w' ∧ D w' = D w.
Proof.
  intros I T. assert (moved w w') as [E C] by (eapply moved_touched; [|exact T]; by intros ? ->). split; [|done].
  split; rewrite ?E; [apply I|apply I| |eapply claims_same; [apply I|done|done]].
  rewrite (touched_ie (λ r, r = rDMA1 DMA_IFCR) 1 w w'); [apply I| |done]. intros r Hr ->. done.
Qed.

Lemma dma_irq_inv w : adc_inv w → wp (STM32_DMA1_CH1_HANDLER invoke) (λ _ w', adc_inv w') w.
Proof.
  intros I. destruct (ai_claim _ I) as (c & Hc & Ec). unfold STM32_DMA1_CH1_HANDLER.
  apply (wp_dmaServeInterrupt invoke c); [done|by left| |].
  - intros w' T. by apply (ack_inv w).
  - intros flags f p w' Ec' _ Hfl T. change (selfindex (stream 0)) with 0%nat in Ec'. rewrite Ec in Ec'. case_decide; [done|].
    injection Ec' as <- <-. rewrite invoke_rx. destruct (ack_inv w w' I T) as [I' E]. apply serve_rx_inv; [done|]. rewrite E.
    destruct (decide (state (D w) = ADC_ACTIVE)) as [|Hs]; [done|]. destruct Hfl.
    change (channel (stream 0)) with 1%nat. by rewrite (ai_quiet _ I Hs), Z.land_0_r.
Qed.

(** ** Every run of the driver *)

Inductive adc_event :=
  | Start (c : option Z) | Stop | StartConversion (g : G) (b k : Z) | StopConversion | DmaInterrupt.

Definition exec (e : adc_event) : fw W unit :=
  match e with
  | Start c => adcStart rx_handler ADCD1_ptr fuel c
  | Stop => adcStop fuel
  | StartConversion g b k => adcStartConversion group g b k
  | StopConversion => adcStopConversion fuel
  | DmaInterrupt => STM32_DMA1_CH1_HANDLER invoke
  end.

(** The states each call asserts. *)
Definition allowed (e : adc_event) (s : adcstate_t) : Prop :=
  match e with
  | Start _ | Stop => s = ADC_STOP ∨ s = ADC_READY
  | StartConversion _ _ _ => s = ADC_READY ∨ s = ADC_COMPLETE ∨ s = ADC_ERROR
  | StopConversion => s = ADC_READY ∨ s = ADC_ACTIVE
  | DmaInterrupt => True
  end.

(** What happens elsewhere: time, other drivers and other streams. *)
Definition elsewhere w w' : Prop :=
  D w' = D w ∧ ie w' 1 = ie w 1 ∧ ∀ s, claims_stream s w → claims_stream s w'.

Inductive adc_step w w' : Prop :=
  | step_call e : allowed e (state (D w)) → exec e w = Ok (tt, w') → adc_step w w'
  | step_elsewhere : elsewhere w w' → adc_step w w'.

Lemma exec_inv e w : adc_inv w → allowed e (state (D w)) → wp (exec e) (λ _ w', adc_inv w') w.
Proof.
  intros I He. destruct e; cbn in *.
  - eapply wp_mono; [|by apply adc_start_inv]. by intros [] w' [? _].
  - eapply wp_mono; [|by apply stop_inv]. by intros [] w' [? _].
  - eapply wp_mono; [|by apply start_conversion_inv]. by intros [] w' [? _].
  - eapply wp_mono; [|apply stop_conversion_inv; [done|tauto]]. by intros [] w' [? _].
  - by apply dma_irq_inv.
Qed.

Lemma elsewhere_inv w w' : adc_inv w → elsewhere w w' → adc_inv w'.
Proof. intros [I1 I2 I3 I4] (E & Hie & Hc). split; rewrite ?E, ?Hie; auto. Qed.

Lemma adc_step_inv w w' : adc_inv w → adc_step w w' → adc_inv w'.
Proof.
  intros I [e He E|E]; [|by eapply elsewhere_inv]. pose proof (exec_inv e w I He) as Hw. unfold wp in Hw. by rewrite E in Hw.
Qed.

(** C10 (safety). In every run of the ADC driver - its calls in the states they
    assert, the interrupts of its stream at any time and with any flags, other
    code in between - every call and every interrupt returns, dereferences no
    null group, and leaves the driver's state, its group, its stream and the
    stream's interrupt enables in agreement. *)
Theorem adc_never_faults w0 w :
  adc_inv w0 → rtc adc_step w0 w →
  adc_inv w ∧ ∀ e, allowed e (state (D w)) → ∃ w', exec e w = Ok (tt, w') ∧ adc_inv w'.
Proof.
  intros I Hr. assert (adc_inv w) as Iw by (induction Hr as [|? ? ? Hs _ IH]; [done|by eapply IH, adc_step_inv]).
  split; [done|]. intros e He. destruct (wp_elim _ _ _ (exec_inv e w Iw He)) as ([] & w' & E & I'). by exists w'.
Qed.

End spec.

(** The section's tactic, for the files that follow. *)

End AdcDrv.
