(* ===== verification/AdcSpecs.v ===== *)
(** * What a conversion does

    From boot to the callbacks: the driver's first state, the registers a
    conversion is programmed with, the buffer each callback is given, and two
    paths of the error handling that go wrong. *)

From S2P Require Import Prelude Fw Mmio Dma AdcDrv.
From stdpp Require Import list gmap relations.
Import Mmio Dma AdcDrv.
#[local] Open Scope Z_scope.

Module AdcSpecs.

(** The value a register was last written with. *)
Class LastWritten (W : Type) `{Mmio W} := {
  last_wr : W → reg → Z;
  last_wr_wr r v w r' : last_wr (mm_wr r v w) r' = if decide (r = r') then v else last_wr w r';
  last_wr_rd r w r' : last_wr (mm_rd r w).2 r' = last_wr w r'
}.
Class LastObjLaws (W T : Type) `{LastWritten W, Obj W T} := { last_wr_set x w r : last_wr (set_obj x w) r = last_wr w r }.

Section spec.
Context {W G F P : Type} `{!Mmio W, !Obj W (ADCDriver G), !Obj W (dma_vars F P)}.
Context `{!ObjLaws W (ADCDriver G), !ObjLaws W (dma_vars F P)}.
Context `{!Apart W (ADCDriver G) (dma_vars F P), !Apart W (dma_vars F P) (ADCDriver G)}.
Context `{!CoreHw W, !CoreObjLaws W (ADCDriver G), !CoreObjLaws W (dma_vars F P)}.
Context `{!DmaHw W, !DmaObjLaws W (ADCDriver G), !DmaObjLaws W (dma_vars F P)}.
Variables (n fuel : nat) (Hn : (n < fuel)%nat).
Context `{!AdcTiming W n}.
Variable group : G → ADCConversionGroup W.
Variable rx_handler : F.
Variable ADCD1_ptr : P.
Implicit Types (w : W).

Notation D w := (obj w : ADCDriver G).
Notation vars w := (obj w : dma_vars F P).
Notation adc_inv := (adc_inv (G:=G) rx_handler ADCD1_ptr).

Section programmed.
Context `{!LastWritten W, !LastObjLaws W (ADCDriver G)}.

Ltac last_tac :=
  repeat first
    [ rewrite last_wr_rd
    | rewrite last_wr_wr; first [rewrite decide_True by done | rewrite decide_False by done] ]; try done.

(** The channel enable is no interrupt enable. *)
Lemma mode_ie i m w :
  ie (mm_wr (rDMA1 (CCR i)) (Z.lor (mm_rd (rDMA1 (CCR i)) (mm_wr (rDMA1 (CCR i)) m w)).1 STM32_DMA_CR_EN)
        (mm_rd (rDMA1 (CCR i)) (mm_wr (rDMA1 (CCR i)) m w)).2) i = ie_of m.
Proof.
  rewrite ie_wr, decide_True by done. unfold ie_of at 1. rewrite Z.land_lor_distr_l.
  change (Z.land STM32_DMA_CR_EN STM32_DMA_ISR_MASK) with 0. rewrite Z.lor_0_r.
  change (Z.land ?v STM32_DMA_ISR_MASK) with (ie_of v). rewrite ie_val, ie_wr. by rewrite decide_True.
Qed.

(** ** Starting a conversion *)

(** A conversion is programmed from its group: the stream moves
    as many samples as the group's channels times the depth into the buffer, the
    converter has the group's channels, sampling times and thresholds, and of the
    stream's interrupts transfer complete and error are on, half transfer exactly
    for a circular buffer of more than one row. *)
Theorem conversion_programmed g b k w :
  dmastp (D w) = stream 0 → dmamode (D w) = ADCD1_dmamode →
  wp (adcStartConversionI group g b k) (λ _ w',
    last_wr w' (rDMA1 (CMAR 1)) = u32 b ∧ last_wr w' (rDMA1 (CNDTR 1)) = u32 (num_channels (group g) * k) ∧
    last_wr w' (rADC ADC_CHSELR) = chselr (group g) ∧ last_wr w' (rADC ADC_SMPR) = smpr (group g) ∧
    last_wr w' (rADC ADC_TR) = tr (group g) ∧
    last_wr w' (rADC ADC_CFGR1) = Z.lor (Z.lor (cfgr1 (group g)) ADC_CFGR1_DMAEN) (if circular (group g) then ADC_CFGR1_DMACFG else 0) ∧
    ie w' 1 = Z.lor (Z.lor STM32_DMA_CR_TCIE STM32_DMA_CR_TEIE) (if circular (group g) && (1 <? k) then STM32_DMA_CR_HTIE else 0) ∧
    state (D w') = ADC_ACTIVE ∧ grpp (D w') = Some g) w.
Proof.
  intros Es Em. unfold adcStartConversionI. apply wp_bind, wp_upd_driver, wp_bind, wp_upd_driver, wp_bind, wp_upd_driver.
  rewrite !obj_set. set (d := with_state _ _). unfold adc_lld_start_conversion.
  apply wp_bind, wp_driver, wp_bind. rewrite obj_set. apply (wp_the_group _ g); [by rewrite obj_set|].
  change (dmastp d) with (dmastp (D w)). change (dmamode d) with (dmamode (D w)). change (samples d) with b. change (depth d) with k.
  rewrite Es, Em. unfold dmaStreamSetMemory0, dmaStreamSetTransactionSize, dmaStreamSetMode, dmaStreamEnable.
  do 6 wp_step. set (w0 := mm_wr (rDMA1 (CNDTR _)) _ _). set (mode := Z.lor (Z.lor ADCD1_dmamode _) _).
  do 6 wp_step. set (w1 := mm_wr (rDMA1 (CCR _)) _ (mm_rd _ _).2).
  assert (ie w1 1 = ie_of (u32 mode)) as E1 by apply mode_ie. wp_steps. split_and!.
  1-6: unfold w1, w0; last_tac.
  - by rewrite u32_idemp.
  - rewrite (touched_adc_ie 1 w1), E1 by touched_tac. unfold mode, ie_of.
    destruct (circular (group g)), (1 <? k); reflexivity.
  - rewrite (touched_obj is_adc w1) by touched_tac. unfold w1, w0. by rewrite obj_wr, obj_rd, !obj_wr, obj_set.
  - rewrite (touched_obj is_adc w1) by touched_tac. unfold w1, w0. by rewrite obj_wr, obj_rd, !obj_wr, obj_set.
Qed.

End programmed.

(** ** Boot *)

Definition is_dma (r : reg) : Prop := match r with rDMA1 _ => True | _ => False end.

Lemma wp_reset_streams l i w :
  (i + length l <= length (_stm32_dma_isr_redir (vars w)))%nat →
  wp (reset_streams l i) (λ _ w', dma_streams_mask (vars w') = dma_streams_mask (vars w) ∧
    length (_stm32_dma_isr_redir (vars w')) = length (_stm32_dma_isr_redir (vars w)) ∧
    (∀ k, (i <= k < i + length l)%nat → ∃ r, _stm32_dma_isr_redir (vars w') !! k = Some r ∧ dma_func r = None) ∧
    (∀ k, (k < i)%nat → _stm32_dma_isr_redir (vars w') !! k = _stm32_dma_isr_redir (vars w) !! k) ∧
    D w' = D w ∧ (∀ r, rcc w' r = rcc w r) ∧ (∀ k, irq_on w' k = irq_on w k) ∧
    (∀ k, ie w' k = 0 ∨ ie w' k = ie w k ∧ k ∉ channel <$> l)) w.
Proof.
  clear dependent n. revert i w. induction l as [|s l IH]; intros i w Hl; cbn [reset_streams length] in *.
  { apply wp_ret. split_and!; [done..|intros; lia| | | | |]; try done. intros k. right. split; [done|]. by intros ?%elem_of_nil. }
  apply wp_bind, wp_wr. set (w1 := mm_wr _ _ w). assert (vars w1 = vars w) as E1 by apply obj_wr.
  destruct (lookup_lt_is_Some_2 (_stm32_dma_isr_redir (vars w)) i) as [r Hr]; [lia|].
  apply wp_bind. eapply wp_get_redir; [by rewrite E1|]. apply wp_bind, wp_set_redir; [rewrite E1; lia|].
  set (w2 := set_obj _ w1).
  assert (vars w2 = vars_with (dma_streams_mask (vars w)) i {| dma_func := None; dma_param := dma_param r |} (vars w)) as E2
    by (unfold w2; by rewrite obj_set, ?E1).
  eapply wp_mono; [|apply IH; rewrite E2; cbn; rewrite length_insert; lia].
  intros [] w' (H1 & H2 & H3 & H4 & H5 & H6 & H7 & H8). rewrite E2 in H1, H2, H4. cbn in H1, H2, H4. rewrite length_insert in H2. split_and!.
  - done.
  - done.
  - intros k Hk. destruct (decide (k = i)) as [->|]; [|apply H3; lia]. rewrite H4 by lia.
    rewrite list_lookup_insert_eq by lia. by eexists.
  - intros k Hk. rewrite H4 by lia. by rewrite list_lookup_insert_ne by lia.
  - rewrite H5. unfold w2. rewrite apart. apply obj_wr.
  - intros r'. rewrite H6. unfold w2. rewrite rcc_set. unfold w1. by rewrite rcc_wr.
  - intros k. rewrite H7. unfold w2. rewrite irq_set. unfold w1. by rewrite irq_wr.
  - intros k. destruct (H8 k) as [|[Hk Hn']]; [by left|]. revert Hk. unfold w2. rewrite ie_set. unfold w1. rewrite ie_wr.
    case_decide as Hd; [intros ->; by left|]. intros Hk. right. split; [done|]. cbn. by intros [?|?]%elem_of_cons.
Qed.

Definition adc_initial : ADCDriver G :=
  {| state := ADC_STOP; config := None; samples := 0; depth := 0; grpp := None; dmastp := stream 0; dmamode := ADCD1_dmamode |}.

Lemma wp_adcInit (Q : unit → W → Prop) w :
  (∀ w', D w' = adc_initial → same_claims (F:=F) (P:=P) w w' → (∀ i, ie w' i = ie w i) → Q tt w') → wp (adcInit (G:=G) fuel) Q w.
Proof.
  intros HQ. unfold adcInit, adc_lld_init, adcObjectInit, set_state, set_grpp.
  do 2 apply wp_bind. apply wp_upd_driver, wp_bind, wp_upd_driver, wp_bind, wp_upd_driver, wp_upd_driver, wp_bind, wp_upd_driver.
  rewrite !obj_set. set (w1 := set_obj _ _).
  assert (D w1 = adc_initial) as E1 by apply obj_set.
  assert (same_claims (F:=F) (P:=P) w w1) as C1 by (do 4 (eapply same_claims_trans; [|apply same_claims_set]); apply same_claims_set).
  assert (∀ i, ie w1 i = ie w i) as Ie1 by (intros i; unfold w1; by rewrite !ie_set).
  unfold rccEnableAPB2. wp_steps. apply (wp_poll_touched n); [apply cmd_settles; set_solver|done|]. intros w2 T2.
  unfold rccDisableAPB2. wp_steps. set (w3 := mm_wr _ _ _).
  assert (moved (F:=F) (P:=P) (T:=ADCDriver G) w1 w3) as [E3 C3].
  { unfold w3. apply moved_wr; [exact Logic.I|]. apply moved_rd. eapply moved_trans; [|by eapply (moved_touched (λ _, False))]. moved_tac. }
  apply HQ; [by rewrite E3|by eapply same_claims_trans|]. intros i. unfold w3. rewrite ie_wr, ie_rd.
  rewrite (touched_ie (λ _, False) i _ _ (λ _ _, id) T2). by rewrite !ie_wr, ie_rd, !ie_wr, ie_rd.
Qed.

(** The start-up of the streams, from any contents of their variables: none is
    claimed. *)
Lemma wp_dmaInit (Q : unit → W → Prop) w :
  length (_stm32_dma_isr_redir (vars w)) = STM32_DMA_STREAMS → Z.testbit (rcc w AHBENR) 0 = false →
  (∀ s, s ∈ _stm32_dma_streams → irq_on w (vector s) = false) →
  (∀ w', claimed (∅ : gmap nat (F * option P)) w' → (∀ k, k ∈ channel <$> _stm32_dma_streams → ie w' k = 0) → (∀ k, irq_on w' k = irq_on w k) →
    (∀ r, rcc w' r = rcc w r) → Q tt w') →
  wp (dmaInit (F:=F) (P:=P)) Q w.
Proof.
  clear dependent n. intros Hlen Hclk Hirq HQ. unfold dmaInit. apply wp_bind, wp_set_mask. set (w0 := set_obj _ w).
  assert (vars w0 = {| dma_streams_mask := 0; _stm32_dma_isr_redir := _stm32_dma_isr_redir (vars w) |}) as E0 by apply obj_set.
  apply wp_bind. eapply wp_mono; [|apply wp_reset_streams; rewrite E0; cbn; rewrite Hlen; done].
  intros [] w1 (H1 & H2 & H3 & H4 & H5 & H6 & H7 & H8). rewrite E0 in H1, H2. cbn in H1, H2. apply wp_wr. set (w2 := mm_wr _ _ w1).
  assert (vars w2 = vars w1) as E2 by apply obj_wr.
  assert (∀ k, irq_on w2 k = irq_on w k) as Hi by (intros k; unfold w2; rewrite irq_wr, H7; unfold w0; apply irq_set).
  assert (∀ r, rcc w2 r = rcc w r) as Hr by (intros r; unfold w2; rewrite rcc_wr, H6; unfold w0; apply rcc_set).
  apply HQ; [|intros k Hk; unfold w2; rewrite ie_wr; by destruct (H8 k) as [|[_ []]]|done|done].
  split; rewrite ?E2, ?H1.
  - done.
  - by rewrite H2.
  - intros s _. rewrite lookup_empty. unfold bit_of. by rewrite Z.testbit_0_l.
  - intros s Hs. destruct (H3 (selfindex s)) as (r & Hx & Hf).
    { split; [lia|]. by apply stream_index in Hs. }
    exists r. by rewrite lookup_empty.
  - by rewrite Hr.
  - intros s Hs. rewrite Hi, Hirq by done. unfold busy, bit_of. cbn. by rewrite !andb_false_r.
Qed.

(** A driver just initialised, with no stream claimed. *)
Lemma initial_inv w : D w = adc_initial → claimed (∅ : gmap nat (F * option P)) w → ie w 1 = 0 → adc_inv w.
Proof.
  clear dependent n. intros E C Hie. split; rewrite ?E; cbn; [done| |done|].
  - split; [by intros [? ?]|]. unfold converting. intros; naive_solver.
  - exists ∅. split; [done|]. by rewrite lookup_empty.
Qed.

(** ** What the callbacks are given *)

Lemma stop_conversion_runs w :
  dmastp (D w) = stream 0 → ∃ w1, adc_lld_stop_conversion (G:=G) fuel w = Ok (tt, w1) ∧ moved (F:=F) (P:=P) (T:=ADCDriver G) w w1 ∧ ie w1 1 = 0.
Proof.
  intros Es. destruct (wp_elim (adc_lld_stop_conversion (G:=G) fuel) (λ _ w1, moved (F:=F) (P:=P) (T:=ADCDriver G) w w1 ∧ ie w1 1 = 0) w) as ([] & w1 & H1 & H2); [|eauto].
  apply (wp_stop_conversion n fuel Hn); [done|]. by intros w1.
Qed.

Lemma the_group_ok g w : grpp (D w) = Some g → the_group group w = Ok (group g, w).
Proof. intros Eg. unfold the_group. rewrite (fw_bind_ok driver _ w (D w) w) by done. by rewrite Eg. Qed.

(** C32 (functional). The end callback of the conversion in progress is called
    once for each event of its stream: at the end of a one-shot conversion with
    the whole buffer, in the state COMPLETE with the stream's interrupts off, and
    the driver is ready again unless the callback started a conversion; in a
    circular one with the first half of the rows at half transfer, and at the end
    with the second half, which starts where the first one stops. *)
Theorem conversion_delivers g f flags w :
  adc_inv w → state (D w) = ADC_ACTIVE → grpp (D w) = Some g → end_cb (group g) = Some f →
  any_bit STM32_DMA_ISR_TEIF flags = false →
  (circular (group g) = false → any_bit STM32_DMA_ISR_TCIF flags = true →
     ∃ w1, D w1 = with_state ADC_COMPLETE (D w) ∧ ie w1 1 = 0 ∧
       ∀ w2, f (samples (D w)) (depth (D w)) w1 = Ok (tt, w2) →
         ∃ w', adc_lld_serve_rx_interrupt group fuel flags w = Ok (tt, w') ∧
           if decide (state (D w2) = ADC_COMPLETE) then D w' = with_grpp None (with_state ADC_READY (D w2)) else w' = w2) ∧
  (circular (group g) = true → any_bit STM32_DMA_ISR_TCIF flags = true →
     1 < depth (D w) → Z.even (depth (D w)) = true → 0 < num_channels (group g) → 0 <= samples (D w) →
     samples (D w) + 2 * (num_channels (group g) * depth (D w)) < 4294967296 →
     adc_lld_serve_rx_interrupt group fuel flags w
       = f (samples (D w) + 2 * (num_channels (group g) * (depth (D w) / 2))) (depth (D w) / 2) w) ∧
  (any_bit STM32_DMA_ISR_TCIF flags = false → any_bit STM32_DMA_ISR_HTIF flags = true →
     adc_lld_serve_rx_interrupt group fuel flags w = f (samples (D w)) (depth (D w) / 2) w).
Proof.
  intros I Ha Eg Ef Ht. unfold adc_lld_serve_rx_interrupt. change (Z.lor STM32_DMA_ISR_TEIF STM32_DMA_ISR_DMEIF) with STM32_DMA_ISR_TEIF.
  rewrite Ht. rewrite (fw_bind_ok driver _ w (D w) w) by done. rewrite Eg.
  pose proof (the_group_ok g w Eg) as Hg.
  split_and!.
  - intros Ec Htc. rewrite Htc. unfold _adc_isr_full_code. rewrite (fw_bind_ok _ _ _ _ _ Hg), Ec.
    destruct (stop_conversion_runs w) as (w1 & E1 & [D1 C1] & Ie1); [apply I|]. rewrite (fw_bind_ok _ _ _ _ _ E1).
    rewrite (fw_bind_ok _ _ _ _ _ (the_group_ok g w1 ltac:(by rewrite D1))), Ef. rewrite (fw_bind_ok (set_state ADC_COMPLETE) _ w1 tt (set_obj (with_state ADC_COMPLETE (D w1)) w1)) by done.
    set (w2 := set_obj _ w1). assert (D w2 = with_state ADC_COMPLETE (D w)) as D2 by (unfold w2; by rewrite obj_set, D1).
    exists w2. split; [done|]. split; [unfold w2; by rewrite ie_set|]. intros w3 E3.
    rewrite (fw_bind_ok driver _ w2 (D w2) w2) by done. rewrite D2. cbn [samples depth with_state]. rewrite (fw_bind_ok _ _ _ _ _ E3).
    rewrite (fw_bind_ok get_state _ w3 (state (D w3)) w3) by done. case_decide as Hs.
    + rewrite bool_decide_eq_true_2 by done. eexists. split; [reflexivity|]. cbn. by rewrite !obj_set.
    + rewrite bool_decide_eq_false_2 by done. by exists w3.
  - intros Ec Htc Hd He Hc Hs Hfit. rewrite Htc. unfold _adc_isr_full_code. rewrite (fw_bind_ok _ _ _ _ _ Hg), Ec.
    rewrite (fw_bind_ok driver _ w (D w) w) by done. rewrite Ef. apply Z.ltb_lt in Hd as Hd'. rewrite Hd'.
    apply Z.even_spec in He as [h He]. rewrite He in *. rewrite (Z.mul_comm 2 h), Z.div_mul by lia.
    assert (num_channels (group g) * (2 * h) = 2 * (h * num_channels (group g))) as Ep by ring.
    assert (0 <= h * num_channels (group g)) by nia. rewrite Ep in Hfit. rewrite (u32_id (h * _)), u32_id by lia.
    f_equal. lia.
  - intros Htc Hht. rewrite Htc, Hht. unfold _adc_isr_half_code. rewrite (fw_bind_ok _ _ _ _ _ Hg).
    rewrite (fw_bind_ok driver _ w (D w) w) by done. by rewrite Ef.
Qed.

(** ** Two faulty error paths *)

(** A conversion started by the error callback is lost: the driver is left active
    without a group, and ignores every further event of the stream but errors. *)
Theorem restart_after_error_lost g b k err w :
  adc_inv w → state (D w) = ADC_ACTIVE → grpp (D w) = Some g →
  error_cb (group g) = Some (λ _, adcStartConversionI group g b k) →
  wp (_adc_isr_error_code group fuel err) (λ _ w', state (D w') = ADC_ACTIVE ∧ grpp (D w') = None ∧
    ∀ flags, any_bit STM32_DMA_ISR_TEIF flags = false → adc_lld_serve_rx_interrupt group fuel flags w' = Ok (tt, w')) w.
Proof.
  intros I Ha Eg Ef. unfold _adc_isr_error_code. apply wp_bind, (wp_stop_conversion n fuel Hn); [apply I|].
  intros w1 [D1 C1] Ie1. apply wp_bind. apply (wp_the_group group g); [by rewrite D1|]. rewrite Ef.
  apply wp_bind, wp_upd_driver. set (w2 := set_obj _ w1).
  assert (adc_inv w2) as I2 by (eapply reported_inv; eauto; split; done).
  apply wp_bind. eapply wp_mono; [|apply (start_conversion_inv group rx_handler ADCD1_ptr g b k); [done|right; right; unfold w2; by rewrite obj_set]].
  intros [] w3 [I3 S3]. cbn. apply wp_bind, wp_get_state. rewrite S3, bool_decide_eq_false_2 by done. apply wp_bind, wp_ret, wp_upd_driver.
  rewrite obj_set. split; [done|]. split; [done|]. intros flags Ht. unfold adc_lld_serve_rx_interrupt.
  change (Z.lor STM32_DMA_ISR_TEIF STM32_DMA_ISR_DMEIF) with STM32_DMA_ISR_TEIF. rewrite Ht.
  rewrite (fw_bind_ok driver _ _ _ _ eq_refl). by rewrite obj_set.
Qed.

(** An overrun and an analog watchdog reported together dereference the group
    that the first of them reset. *)
Theorem two_errors_fault g w :
  adc_inv w → state (D w) = ADC_ACTIVE → grpp (D w) = Some g → error_cb (group g) = None →
  let isr := (mm_rd (rADC ADC_ISR) w).1 in
  let w2 := mm_wr (rADC ADC_ISR) isr (mm_rd (rADC ADC_ISR) w).2 in
  any_bit ADC_ISR_OVR isr = true → any_bit ADC_ISR_AWD isr = true → 0 < (mm_rd (rDMA1 (CNDTR 1)) w2).1 →
  adc_lld_serve_interrupt group fuel w = Err NullPointer.
Proof.
  intros I Ha Eg Ef isr w2 Ho Hw Hc. unfold adc_lld_serve_interrupt.
  rewrite (fw_bind_ok (rd (rADC ADC_ISR)) _ w isr (mm_rd (rADC ADC_ISR) w).2) by (unfold rd; by destruct (mm_rd _ w)).
  rewrite (fw_bind_ok (wr (rADC ADC_ISR) isr) _ _ tt w2) by done. rewrite (fw_bind_ok driver _ w2 (D w2) w2) by done.
  assert (D w2 = D w) as D2 by (unfold w2; by rewrite obj_wr, obj_rd). rewrite D2, Eg, Ho, Hw, (ai_stream _ _ _ I).
  set (w3 := (mm_rd (rDMA1 (CNDTR 1)) w2).2).
  assert (moved (F:=F) (P:=P) (T:=ADCDriver G) w w3) as M3 by (unfold w3, w2; moved_tac).
  destruct (stop_conversion_runs w3) as (w4 & E4 & [D4 C4] & Ie4); [rewrite (proj1 M3); apply I|].
  assert (_adc_isr_error_code group fuel ADC_ERR_OVERFLOW w3
    = Ok (tt, set_obj (with_grpp None (D (set_obj (with_state ADC_READY (D w4)) w4))) (set_obj (with_state ADC_READY (D w4)) w4))) as E5.
  { unfold _adc_isr_error_code. rewrite (fw_bind_ok _ _ _ _ _ E4). 
    rewrite (fw_bind_ok _ _ _ _ _ (the_group_ok g w4 ltac:(by rewrite D4, (proj1 M3)))). by rewrite Ef. }
  set (w5 := set_obj _ _) in E5. assert (D w5 = with_grpp None (with_state ADC_READY (D w4))) as D5 by (unfold w5; by rewrite !obj_set).
  rewrite (fw_bind_ok (dmaStreamGetTransactionSize (stream 0) ≫= _) _ w2 tt w5).
  2: { unfold dmaStreamGetTransactionSize. rewrite (fw_bind_ok (rd _) _ w2 (mm_rd (rDMA1 (CNDTR 1)) w2).1 w3) by (unfold rd, w3; by destruct (mm_rd _ w2)).
       apply Z.ltb_lt in Hc. by rewrite Hc. }
  cbn [when]. unfold _adc_isr_error_code.
  destruct (stop_conversion_runs w5) as (w6 & E6 & [D6 C6] & _).
  { rewrite D5. cbn. rewrite D4, (proj1 M3). apply I. }
  rewrite (fw_bind_ok _ _ _ _ _ E6), fw_bind_eq. unfold the_group. rewrite (fw_bind_ok driver _ w6 (D w6) w6) by done.
  by rewrite D6, D5.
Qed.

End spec.

End AdcSpecs.
