(* ===== verification/AdcSim.v ===== *)
(** * A simulated converter

    A world with the laws the DMA streams and the ADC driver rely on, an
    application that records what its callbacks are given, and the witnesses of
    the driver's properties evaluated on it. *)

From S2P Require Import Prelude Fw Mmio Dma AdcDrv AdcSpecs.
From stdpp Require Import list gmap relations.
Import Mmio Dma AdcDrv AdcSpecs.
#[local] Open Scope Z_scope.

Module AdcSim.

(** [calls] and [errors] are what the callbacks saw. *)
Record sim := {
  regs : reg → Z; written : reg → Z; vectors : Z → bool;
  adcd : ADCDriver nat; dmav : dma_vars unit unit;
  calls : list (Z * Z); errors : list adcerror_t
}.

Definition commands : Z := Z.lor (Z.lor ADC_CR_ADSTP ADC_CR_ADDIS) ADC_CR_ADCAL.

(** Commands take effect at once; an enabled converter is ready. *)
Definition sim_rd (r : reg) (w : sim) : Z * sim :=
  (if decide (r = rADC ADC_ISR) then Z.lor (regs w r) (Z.land (regs w (rADC ADC_CR)) ADC_CR_ADEN) else regs w r, w).

Definition sim_wr (r : reg) (v : Z) (w : sim) : sim :=
  {| regs := upd (regs w) r (if decide (r = rADC ADC_CR) then Z.ldiff v commands else v);
     written := upd (written w) r v;
     vectors := λ n, match r with
       | rNVIC (ISER i) => vectors w n || vector_in n i v
       | rNVIC (ICER i) => vectors w n && negb (vector_in n i v)
       | _ => vectors w n
       end;
     adcd := adcd w; dmav := dmav w; calls := calls w; errors := errors w |}.

#[export] Instance sim_mmio : Mmio sim := { mm_rd := sim_rd; mm_wr := sim_wr }.
#[export] Instance sim_adc : Obj sim (ADCDriver nat) := {
  obj := adcd;
  set_obj d w := {| regs := regs w; written := written w; vectors := vectors w; adcd := d; dmav := dmav w;
                    calls := calls w; errors := errors w |}
}.
#[export] Instance sim_dma : Obj sim (dma_vars unit unit) := {
  obj := dmav;
  set_obj d w := {| regs := regs w; written := written w; vectors := vectors w; adcd := adcd w; dmav := d;
                    calls := calls w; errors := errors w |}
}.

#[export] Instance sim_adc_laws : ObjLaws sim (ADCDriver nat).
Proof. by split. Qed.
#[export] Instance sim_dma_laws : ObjLaws sim (dma_vars unit unit).
Proof. by split. Qed.
#[export] Instance sim_apart1 : Apart sim (ADCDriver nat) (dma_vars unit unit).
Proof. by split. Qed.
#[export] Instance sim_apart2 : Apart sim (dma_vars unit unit) (ADCDriver nat).
Proof. by split. Qed.

#[export] Instance sim_core : CoreHw sim.
Proof.
  refine {| rcc := λ w r, regs w (rRCC r); irq_on := vectors |}.
  all: try done.
  intros r v w r'. cbn. unfold upd. destruct r; repeat case_decide; congruence.
Defined.
#[export] Instance sim_core_adc : CoreObjLaws sim (ADCDriver nat).
Proof. by split. Qed.
#[export] Instance sim_core_dma : CoreObjLaws sim (dma_vars unit unit).
Proof. by split. Qed.

#[export] Instance sim_ie : DmaHw sim.
Proof.
  refine {| ie := λ w i, ie_of (regs w (rDMA1 (CCR i))) |}.
  all: try done.
  intros r v w i. cbn. unfold upd. destruct r as [|[]| | | | | | | | |]; repeat case_decide; congruence.
Defined.
#[export] Instance sim_ie_adc : DmaObjLaws sim (ADCDriver nat).
Proof. by split. Qed.
#[export] Instance sim_ie_dma : DmaObjLaws sim (dma_vars unit unit).
Proof. by split. Qed.

#[export] Instance sim_last : LastWritten sim.
Proof.
  refine {| last_wr := written |}.
  - intros. cbn. unfold upd. repeat case_decide; congruence.
  - done.
Defined.
#[export] Instance sim_last_adc : LastObjLaws sim (ADCDriver nat).
Proof. by split. Qed.

Lemma commands_end v m : m ∈ [ADC_CR_ADSTP; ADC_CR_ADDIS; ADC_CR_ADCAL] → any_bit m (Z.ldiff v commands) = false.
Proof.
  intros Hm. unfold any_bit. apply negb_false_iff, Z.eqb_eq.
  apply Z.bits_inj'. intros i Hi. rewrite Z.land_spec, Z.ldiff_spec, Z.testbit_0_l.
  rewrite !elem_of_cons, elem_of_nil in Hm.
  destruct (Z.testbit m i) eqn:Em; [|by rewrite andb_false_r].
  assert (Z.testbit commands i = true) as ->; [|by rewrite andb_false_r].
  unfold commands. rewrite !Z.lor_spec. destruct Hm as [->|[->|[->|[]]]]; rewrite Em; by rewrite ?orb_true_r.
Qed.

Lemma enabled_ready v : any_bit ADC_ISR_ADRDY (Z.lor v (Z.land (Z.ldiff ADC_CR_ADEN commands) ADC_CR_ADEN)) = true.
Proof.
  change (Z.land (Z.ldiff ADC_CR_ADEN commands) ADC_CR_ADEN) with 1. unfold any_bit.
  apply negb_true_iff, Z.eqb_neq. intros E. apply (f_equal (λ x, Z.testbit x 0)) in E.
  by rewrite Z.land_spec, Z.lor_spec, Z.testbit_0_l, orb_true_r in E.
Qed.

#[export] Instance sim_timing : AdcTiming sim 0.
Proof.
  split.
  - intros w v m Hm. left. cbn. rewrite decide_False, upd_eq, decide_True by done. by apply commands_end.
  - intros w. left. cbn. rewrite decide_True, upd_ne, upd_eq, decide_True by done. apply negb_false_iff, enabled_ready.
Qed.

(** ** The application *)

Definition with_calls (cs : list (Z * Z)) (es : list adcerror_t) (w : sim) : sim :=
  {| regs := regs w; written := written w; vectors := vectors w; adcd := adcd w; dmav := dmav w; calls := cs; errors := es |}.

Definition record_call (b k : Z) : fw sim unit := modify (λ w, with_calls (calls w ++ [(b, k)]) (errors w) w).
Definition record_error (e : adcerror_t) : fw sim unit := modify (λ w, with_calls (calls w) (errors w ++ [e]) w).

(** Group 0 is a one-shot conversion of four channels, as the program's; the
    others are circular. *)
Definition groups (g : nat) : ADCConversionGroup sim := {|
  circular := negb (g =? 0)%nat; num_channels := 4; end_cb := Some record_call; error_cb := Some record_error;
  cfgr1 := 0; tr := 0; smpr := 3; chselr := 0x2E0
|}.

Definition sim_invoke (f : unit) (p : option unit) (flags : Z) : fw sim unit :=
  adc_lld_serve_rx_interrupt (G:=nat) groups 1 flags.

Definition blank : sim := {|
  regs := λ _, 0; written := λ _, 0; vectors := λ _, false; adcd := adc_initial;
  dmav := {| dma_streams_mask := 0; _stm32_dma_isr_redir := replicate 5 {| dma_func := None; dma_param := None |} |};
  calls := []; errors := []
|}.

Notation sim_inv := (adc_inv (W:=sim) (G:=nat) tt tt).

Lemma blank_claims : claimed (F:=unit) (P:=unit) ∅ blank.
Proof.
  split; [done|done| | |done|].
  - intros s _. rewrite lookup_empty. unfold bit_of. by rewrite Z.testbit_0_l.
  - intros s Hs. exists {| dma_func := None; dma_param := None |}. rewrite lookup_empty. split_and!; [|done|done].
    apply lookup_replicate. split; [done|]. by apply stream_index.
  - intros s _. cbn. unfold busy, bit_of. cbn. by rewrite !andb_false_r.
Qed.

Lemma blank_inv : sim_inv blank.
Proof.
  split; [done| |done|].
  - split; [by intros [? ?]|]. unfold converting. cbn. intros; naive_solver.
  - exists ∅. split; [apply blank_claims|done].
Qed.

Lemma calls_inv cs es w : sim_inv w → sim_inv (with_calls cs es w).
Proof.
  intros [I1 I2 I3 (c & C & E)]. split; [exact I1|exact I2|exact I3|]. exists c. split; [|exact E].
  destruct C as [C1 C2 C3 C4 C5 C6]. split; [exact C1|exact C2|exact C3|exact C4|exact C5|exact C6].
Qed.

Lemma sim_callbacks : callbacks_ok (W:=sim) (F:=unit) (P:=unit) groups tt tt.
Proof.
  split.
  - intros g f b k w [= <-] I _. by apply calls_inv.
  - intros g f e w [= <-] I Hs. split; [by apply calls_inv|by left].
Qed.

Notation sim_exec := (exec (W:=sim) (G:=nat) (F:=unit) (P:=unit) 1 groups tt tt sim_invoke).
Notation sim_step := (adc_step (W:=sim) (G:=nat) (F:=unit) (P:=unit) 1 groups tt tt sim_invoke).

Definition after {A} (m : fw sim A) (w : sim) : sim := match m w with Ok (_, w') => w' | Err _ => w end.

Lemma adc_after_ok (m : fw sim unit) w : (if m w is Ok _ then true else false) = true → m w = Ok (tt, after m w).
Proof. unfold after. by destruct (m w) as [[[] w']|]. Qed.

(** The stream raises its flags [v]. *)
Definition raise (v : Z) (w : sim) : sim :=
  {| regs := upd (regs w) (rDMA1 DMA_ISR) v; written := written w; vectors := vectors w; adcd := adcd w; dmav := dmav w;
     calls := calls w; errors := errors w |}.

Lemma raise_elsewhere v w : elsewhere (W:=sim) (G:=nat) (F:=unit) (P:=unit) tt tt w (raise v w).
Proof.
  split; [done|]. split; [done|]. intros s (c & [C1 C2 C3 C4 C5 C6] & E). exists c. split; [|done].
  split; [exact C1|exact C2|exact C3|exact C4|exact C5|exact C6].
Qed.

(** The driver is started, converts one shot, and the stream reports the end. *)
Definition started : sim := after (sim_exec (Start None)) blank.
Definition active : sim := after (sim_exec (StartConversion 0%nat 0x20000000 1)) started.
Definition pending : sim := raise STM32_DMA_ISR_TCIF active.

Lemma pending_reached : rtc sim_step blank pending.
Proof.
  apply rtc_l with started; [apply step_call with (Start None); [by left|apply adc_after_ok; vm_compute; reflexivity]|].
  apply rtc_l with active; [apply step_call with (StartConversion 0%nat 0x20000000 1); [by left|apply adc_after_ok; vm_compute; reflexivity]|].
  apply rtc_once, step_elsewhere, raise_elsewhere.
Qed.

Lemma pending_inv : sim_inv pending.
Proof.
  assert (∀ w w', rtc sim_step w w' → sim_inv w → sim_inv w') as H.
  { induction 1 as [|? ? ? Hs _ IH]; [done|]. intros I. apply IH.
    by eapply (adc_step_inv 0 1 ltac:(lia) groups tt tt sim_callbacks sim_invoke (λ _, eq_refl)). }
  apply (H _ _ pending_reached blank_inv).
Qed.

(** ** Witnesses *)

Definition two_claims : list (dma_op (F:=unit) (P:=unit)) :=
  [Claim (stream 1) 2 tt None; Claim (stream 1) 2 tt None; Claim (stream 2) 2 tt None; Free (stream 1)].

Lemma dma_refines_claims_witness :
  ∃ w', dma_run two_claims blank = Ok ([false; true; false; false], w') ∧ irq_on w' 10 = true.
Proof.
  destruct (dma_refines_claims two_claims ∅ blank blank_claims ltac:(repeat constructor)) as (w' & E & _ & _ & Q).
  exists w'. split; [exact E|]. exact (Q (stream 1) ltac:(right; left)).
Defined.

Lemma adc_never_faults_witness : ∃ w', sim_exec DmaInterrupt pending = Ok (tt, w') ∧ sim_inv w'.
Proof.
  destruct (adc_never_faults 0 1 ltac:(lia) groups tt tt sim_callbacks sim_invoke (λ _, eq_refl) blank pending blank_inv pending_reached) as [_ H].
  exact (H DmaInterrupt Logic.I).
Defined.

Lemma conversion_programmed_witness :
  wp (adcStartConversionI (G:=nat) groups 0%nat 0x20000000 1)
    (λ _ w', last_wr w' (rDMA1 (CNDTR 1)) = 4 ∧ last_wr w' (rADC ADC_CHSELR) = 0x2E0 ∧ ie w' 1 = 0xA) blank.
Proof.
  eapply wp_mono; [|exact (conversion_programmed groups 0%nat 0x20000000 1 blank eq_refl eq_refl)].
  intros [] w' (_ & H2 & H3 & _ & _ & _ & H7 & _). split; [exact H2|]. split; [exact H3|exact H7].
Defined.

Lemma conversion_delivers_witness :
  ∃ w1, state (adcd w1) = ADC_COMPLETE ∧
    ∀ w2, record_call 0x20000000 1 w1 = Ok (tt, w2) →
      ∃ w', adc_lld_serve_rx_interrupt (G:=nat) groups 1 STM32_DMA_ISR_TCIF pending = Ok (tt, w') ∧ state (adcd w') = ADC_READY.
Proof.
  destruct (conversion_delivers 0 1 ltac:(lia) groups tt tt 0%nat record_call STM32_DMA_ISR_TCIF pending pending_inv
    eq_refl eq_refl eq_refl eq_refl) as [H _].
  destruct (H eq_refl eq_refl) as (w1 & D1 & _ & H1). assert (state (adcd w1) = ADC_COMPLETE) as S1 by exact (f_equal state D1).
  exists w1. split; [exact S1|]. intros w2 E2. destruct (H1 w2 E2) as (w' & E' & H'). exists w'. split; [exact E'|].
  assert (state (obj w2 : ADCDriver nat) = ADC_COMPLETE) as S2 by (injection E2 as <-; exact S1).
  rewrite decide_True in H' by exact S2. exact (f_equal state H').
Defined.

End AdcSim.
