(* ===== verification/SerialDrv.v ===== *)
(** * The serial driver (serial.c, serial_lld.c)

    Two full duplex channels, an input and an output queue each, over the two
    USARTs. The queues are those of Queues, once for every queue of the drivers;
    the threads waiting on them and the event sources are reached through the
    interface [SerialOs]. *)

From S2P Require Import Prelude SysTime Fw Queues Mmio.
Import SysTime Queues Mmio.

Module SerialDrv.

Inductive sdstate_t := SD_UNINIT | SD_STOP | SD_READY.
#[global] Instance sdstate_eq_dec : EqDecision sdstate_t.
Proof. solve_decision. Defined.

Record SerialConfig := { speed : Z; c_cr1 : Z; c_cr2 : Z; c_cr3 : Z }.

(** The driver of a unit: [SD1], [SD2]. The method table is a constant, the event
    source is the unit's, and the register block is the unit. *)
Record SerialDriver := { sd_state : sdstate_t; iqueue : io_queue; oqueue : io_queue; clock : Z }.
Definition drivers : Type := usart → SerialDriver.

Definition SD_PARITY_ERROR : Z := 32.
Definition SD_FRAMING_ERROR : Z := 64.
Definition SD_OVERRUN_ERROR : Z := 128.
Definition SD_NOISE_ERROR : Z := 256.
Definition SD_BREAK_DETECTED : Z := 512.
Definition CHN_INPUT_AVAILABLE : Z := 4.
Definition CHN_OUTPUT_EMPTY : Z := 8.
Definition CHN_TRANSMISSION_END : Z := 16.

Definition USART_ISR_PE : Z := 0x1.
Definition USART_ISR_FE : Z := 0x2.
Definition USART_ISR_NE : Z := 0x4.
Definition USART_ISR_ORE : Z := 0x8.
Definition USART_ISR_RXNE : Z := 0x20.
Definition USART_ISR_TC : Z := 0x40.
Definition USART_ISR_TXE : Z := 0x80.
Definition USART_ISR_LBDF : Z := 0x100.
Definition USART_CR1_UE : Z := 0x1.
Definition USART_CR1_RE : Z := 0x4.
Definition USART_CR1_TE : Z := 0x8.
Definition USART_CR1_RXNEIE : Z := 0x20.
Definition USART_CR1_TCIE : Z := 0x40.
Definition USART_CR1_TXEIE : Z := 0x80.
Definition USART_CR1_PEIE : Z := 0x100.
Definition USART_CR2_LBDIE : Z := 0x40.
Definition USART_CR2_STOP1_BITS : Z := 0.
Definition USART_CR2_LINEN : Z := 0x4000.
Definition USART_CR3_EIE : Z := 0x1.
Definition SERIAL_DEFAULT_BITRATE : Z := 38400.
Definition SERIAL_BUFFERS_SIZE : nat := 16.
(** Both units have the bus clock: the 8 MHz of the oscillator times 6. *)
Definition STM32_USARTCLK (u : usart) : Z := 8000000 * 6.
Definition STM32_USART_NUMBER (u : usart) : Z := match u with USART1 => 27 | USART2 => 28 end.
Definition STM32_SERIAL_USART_PRIORITY : Z := 3.

Definition default_config : SerialConfig :=
  {| speed := SERIAL_DEFAULT_BITRATE; c_cr1 := 0; c_cr2 := Z.lor USART_CR2_STOP1_BITS USART_CR2_LINEN; c_cr3 := 0 |}.

Definition any (m v : Z) : bool := negb (Z.land v m =? 0).

(** The threads waiting on a queue, and the event source of a unit. *)
Inductive squeue := InQ (u : usart) | OutQ (u : usart).

(** The services that return at once. *)
Inductive so_call :=
  | QueueInit (q : squeue) | EventInit (u : usart) | WakeOne (q : squeue) (msg : Z) | WakeAll (q : squeue) (msg : Z) | Reschedule.

Class SerialOs (W : Type) := {
  so_do : so_call → W → W;
  so_wait : squeue → Z → W → Z * W;
  so_add_flags : usart → Z → W → W
}.

Section serial.
Context {W : Type} `{!Mmio W, !Obj W drivers, !SerialOs W}.
Implicit Types (u : usart) (w : W).

Definition sd u w : SerialDriver := (obj w : drivers) u.
Definition set_sd u (d : SerialDriver) w : W := set_obj (upd (obj w : drivers) u d) w.
Definition with_iqueue (q : io_queue) (d : SerialDriver) : SerialDriver :=
  {| sd_state := sd_state d; iqueue := q; oqueue := oqueue d; clock := clock d |}.
Definition with_oqueue (q : io_queue) (d : SerialDriver) : SerialDriver :=
  {| sd_state := sd_state d; iqueue := iqueue d; oqueue := q; clock := clock d |}.
Definition with_sd_state (s : sdstate_t) (d : SerialDriver) : SerialDriver :=
  {| sd_state := s; iqueue := iqueue d; oqueue := oqueue d; clock := clock d |}.
Definition with_clock (c : Z) (d : SerialDriver) : SerialDriver :=
  {| sd_state := sd_state d; iqueue := iqueue d; oqueue := oqueue d; clock := c |}.

(** [notify1] and [notify2], as the output queues call them. *)
Definition notify_out u w : W :=
  let '(v, w1) := mm_rd (rUSART u CR1) w in mm_wr (rUSART u CR1) (Z.lor v USART_CR1_TXEIE) w1.

#[local] Instance in_queue u : IoQueue W := {
  getq w := iqueue (sd u w);
  setq q w := set_sd u (with_iqueue q (sd u w)) w;
  q_notify := None;
  q_wait := so_wait (InQ u); q_wake_one m := so_do (WakeOne (InQ u) m); q_wake_all m := so_do (WakeAll (InQ u) m)
}.
#[local] Instance out_queue u : IoQueue W := {
  getq w := oqueue (sd u w);
  setq q w := set_sd u (with_oqueue q (sd u w)) w;
  q_notify := Some (notify_out u);
  q_wait := so_wait (OutQ u); q_wake_one m := so_do (WakeOne (OutQ u) m); q_wake_all m := so_do (WakeAll (OutQ u) m)
}.

Definition upd_sd u (f : SerialDriver → SerialDriver) : fw W unit := modify (λ w, set_sd u (f (sd u w)) w).
Definition chnAddFlagsI u (flags : Z) : fw W unit := modify (so_add_flags u flags).

(** ** Interrupts *)

Definition sdIncomingDataI u (b : Z) : fw W unit :=
  empty ← chIQIsEmptyI (H:=in_queue u);
  when (empty : bool) (chnAddFlagsI u CHN_INPUT_AVAILABLE);;
  r ← chIQPutI (H:=in_queue u) b;
  when (r <? Q_OK) (chnAddFlagsI u SD_OVERRUN_ERROR).

Definition sdRequestDataI u : fw W Z :=
  b ← chOQGetI (H:=out_queue u);
  when (b <? Q_OK) (chnAddFlagsI u CHN_OUTPUT_EMPTY);;
  ret b.

(** The error flags of a status word. *)
Definition error_flags (isr : Z) : Z :=
  Z.lor (Z.lor (if any USART_ISR_ORE isr then SD_OVERRUN_ERROR else 0) (if any USART_ISR_PE isr then SD_PARITY_ERROR else 0))
        (Z.lor (if any USART_ISR_FE isr then SD_FRAMING_ERROR else 0) (if any USART_ISR_NE isr then SD_NOISE_ERROR else 0)).

Definition set_error u (isr : Z) : fw W unit := chnAddFlagsI u (error_flags isr).

Definition serve_interrupt u : fw W unit :=
  cr1 ← rd (rUSART u CR1);
  isr ← rd (rUSART u ISR);
  wr (rUSART u ICR) isr;;
  when (any (Z.lor (Z.lor USART_ISR_ORE USART_ISR_NE) (Z.lor USART_ISR_FE USART_ISR_PE)) isr) (set_error u isr);;
  when (any USART_ISR_LBDF isr) (chnAddFlagsI u SD_BREAK_DETECTED);;
  when (any USART_ISR_RXNE isr) (b ← rd (rUSART u RDR); sdIncomingDataI u (u8 b));;
  when (any USART_CR1_TXEIE cr1 && any USART_ISR_TXE isr)
    (b ← chOQGetI (H:=out_queue u);
     if b <? Q_OK then
       chnAddFlagsI u CHN_OUTPUT_EMPTY;;
       wr (rUSART u CR1) (Z.lor (Z.ldiff cr1 USART_CR1_TXEIE) USART_CR1_TCIE)
     else wr (rUSART u TDR) b);;
  when (any USART_ISR_TC isr)
    (empty ← chOQIsEmptyI (H:=out_queue u);
     when (empty : bool) (chnAddFlagsI u CHN_TRANSMISSION_END);;
     wr (rUSART u CR1) (Z.ldiff cr1 USART_CR1_TCIE)).

Definition STM32_USART1_HANDLER : fw W unit := serve_interrupt USART1.
Definition STM32_USART2_HANDLER : fw W unit := serve_interrupt USART2.

(** ** Low level driver *)

Definition usart_init u (config : SerialConfig) : fw W unit :=
  d ← gets (sd u);
  if speed config =? 0 then throw DivByZero else
  wr (rUSART u BRR) (clock d / speed config);;
  wr (rUSART u CR2) (Z.lor (c_cr2 config) USART_CR2_LBDIE);;
  wr (rUSART u CR3) (Z.lor (c_cr3 config) USART_CR3_EIE);;
  wr (rUSART u CR1) (foldr Z.lor 0 [c_cr1 config; USART_CR1_UE; USART_CR1_PEIE; USART_CR1_RXNEIE; USART_CR1_TE; USART_CR1_RE]);;
  wr (rUSART u ICR) 0xFFFFFFFF.

Definition usart_deinit u : fw W unit :=
  wr (rUSART u CR1) 0;;
  wr (rUSART u CR2) 0;;
  wr (rUSART u CR3) 0.

Definition rccEnableUSART u : fw W unit :=
  match u with USART1 => rccEnableAPB2 RCC_APB2ENR_USART1EN | USART2 => rccEnableAPB1 RCC_APB1ENR_USART2EN end.
Definition rccDisableUSART u : fw W unit :=
  match u with USART1 => rccDisableAPB2 RCC_APB2ENR_USART1EN | USART2 => rccDisableAPB1 RCC_APB1ENR_USART2EN end.

Definition sd_lld_start u (config : option SerialConfig) : fw W unit :=
  let config := match config with Some c => c | None => default_config end in
  d ← gets (sd u);
  when (bool_decide (sd_state d = SD_STOP)) (rccEnableUSART u);;
  usart_init u config.

Definition sd_lld_stop u : fw W unit :=
  d ← gets (sd u);
  when (bool_decide (sd_state d = SD_READY)) (usart_deinit u;; rccDisableUSART u).

(** ** High level driver *)

(** The buffers [ib] and [ob] are arrays of the object: the queues keep them. *)
Definition sdObjectInit u : fw W unit :=
  modify (so_do (EventInit u));;
  upd_sd u (with_sd_state SD_STOP);;
  ib ← gets (λ w, q_buffer (iqueue (sd u w)));
  modify (so_do (QueueInit (InQ u)));;
  chIQObjectInit (H:=in_queue u) ib;;
  ob ← gets (λ w, q_buffer (oqueue (sd u w)));
  modify (so_do (QueueInit (OutQ u)));;
  chOQObjectInit (H:=out_queue u) ob.

Definition sd_lld_init : fw W unit :=
  sdObjectInit USART1;;
  upd_sd USART1 (with_clock (STM32_USARTCLK USART1));;
  nvicEnableVector (STM32_USART_NUMBER USART1) STM32_SERIAL_USART_PRIORITY;;
  sdObjectInit USART2;;
  upd_sd USART2 (with_clock (STM32_USARTCLK USART2));;
  nvicEnableVector (STM32_USART_NUMBER USART2) STM32_SERIAL_USART_PRIORITY.

Definition sdInit : fw W unit := sd_lld_init.

Definition sdStart u (config : option SerialConfig) : fw W unit :=
  sd_lld_start u config;;
  upd_sd u (with_sd_state SD_READY).

Definition sdStop u : fw W unit :=
  sd_lld_stop u;;
  upd_sd u (with_sd_state SD_STOP);;
  chOQResetI (H:=out_queue u);;
  chIQResetI (H:=in_queue u);;
  modify (so_do Reschedule).

Definition sdPutWouldBlock u : fw W bool := chOQIsFullI (H:=out_queue u).
Definition sdGetWouldBlock u : fw W bool := chIQIsEmptyI (H:=in_queue u).

(** The methods of the channel. *)
Definition putt (fuel : nat) u (b timeout : Z) : fw W Z := chOQPutTimeout (H:=out_queue u) fuel b timeout.
Definition gett (fuel : nat) u (timeout : Z) : fw W Z := chIQGetTimeout (H:=in_queue u) fuel timeout.
Definition writet (fuel : nat) u (bp : list Z) (n timeout : Z) : fw W Z := chOQWriteTimeout (H:=out_queue u) fuel bp n timeout.
Definition readt (bytes fuel : nat) u (n timeout : Z) : fw W (list Z) := chIQReadTimeout (H:=in_queue u) bytes fuel n timeout.
Definition put (fuel : nat) u (b : Z) : fw W Z := putt fuel u b TIME_INFINITE.
Definition get (fuel : nat) u : fw W Z := gett fuel u TIME_INFINITE.
Definition write (fuel : nat) u (bp : list Z) (n : Z) : fw W Z := writet fuel u bp n TIME_INFINITE.
Definition read (bytes fuel : nat) u (n : Z) : fw W (list Z) := readt bytes fuel u n TIME_INFINITE.

End serial.

End SerialDrv.
