(* ===== verification/SerialSpecs.v ===== *)
(** * The serial driver as a pair of bounded FIFOs

    What one interrupt does to a channel, as a function of the status word, the
    byte received and the channel; and from it, that no byte given to the driver
    is lost, reordered or left behind. *)

From S2P Require Import Prelude SysTime Fw Queues Mmio SerialDrv.
From stdpp Require Import list relations.
Import SysTime Queues Mmio SerialDrv.
#[local] Open Scope Z_scope.

Module SerialSpecs.

(** What can be seen of a unit from outside: its control register, the bytes
    written to its transmitter, the flags added to its event source. *)
Class SerialWorld (W : Type) `{!Mmio W, !Obj W drivers, !SerialOs W} := {
  cr1 : W → usart → Z;
  sent : W → usart → list Z;
  flags : W → usart → list Z;
  cr1_val u w : (mm_rd (rUSART u CR1) w).1 = cr1 w u;
  cr1_rd r w : cr1 (mm_rd r w).2 = cr1 w;
  cr1_wr r v w u : cr1 (mm_wr r v w) u = match r with rUSART u' CR1 => if decide (u' = u) then v else cr1 w u | _ => cr1 w u end;
  cr1_set (d : drivers) w : cr1 (set_obj d w) = cr1 w;
  cr1_os o w : cr1 (so_do o w) = cr1 w;
  cr1_add u f w : cr1 (so_add_flags u f w) = cr1 w;
  sent_rd r w : sent (mm_rd r w).2 = sent w;
  sent_wr r v w u : sent (mm_wr r v w) u = match r with rUSART u' TDR => if decide (u' = u) then sent w u ++ [v] else sent w u | _ => sent w u end;
  sent_set (d : drivers) w : sent (set_obj d w) = sent w;
  sent_os o w : sent (so_do o w) = sent w;
  sent_add u f w : sent (so_add_flags u f w) = sent w;
  flags_rd r w : flags (mm_rd r w).2 = flags w;
  flags_wr r v w : flags (mm_wr r v w) = flags w;
  flags_set (d : drivers) w : flags (set_obj d w) = flags w;
  flags_os o w : flags (so_do o w) = flags w;
  flags_add u f w u' : flags (so_add_flags u f w) u' = if decide (u = u') then flags w u' ++ [f] else flags w u'
}.

(** Waking threads and adding flags leave the drivers' variables alone, and a
    wait without time fails. *)
Class SerialOsLaws (W : Type) `{!Mmio W, !Obj W drivers, !SerialOs W} := {
  drv_os o w : (obj (so_do o w) : drivers) = obj w;
  drv_add u f w : (obj (so_add_flags u f w) : drivers) = obj w;
  wait_now q w : so_wait q TIME_IMMEDIATE w = (Q_TIMEOUT, w)
}.

(** ** One channel *)

Record chan := { c_in : list Z; c_out : list Z; c_sent : list Z; c_flags : list Z; c_ctl : Z }.

Definition add_flags (l : list Z) (c : chan) : chan :=
  {| c_in := c_in c; c_out := c_out c; c_sent := c_sent c; c_flags := c_flags c ++ l; c_ctl := c_ctl c |}.
Definition set_ctl (v : Z) (c : chan) : chan :=
  {| c_in := c_in c; c_out := c_out c; c_sent := c_sent c; c_flags := c_flags c; c_ctl := v |}.

(** A byte arrives: it is stored, or lost with an overrun. *)
Definition receive (b : Z) (c : chan) : chan :=
  let c := match c_in c with [] => add_flags [CHN_INPUT_AVAILABLE] c | _ => c end in
  if decide (length (c_in c) = SERIAL_BUFFERS_SIZE) then add_flags [SD_OVERRUN_ERROR] c
  else {| c_in := c_in c ++ [b]; c_out := c_out c; c_sent := c_sent c; c_flags := c_flags c; c_ctl := c_ctl c |}.

(** The transmitter is empty: the next byte goes out, or the interrupt goes off. *)
Definition transmit (ctl : Z) (c : chan) : chan :=
  match c_out c with
  | [] => set_ctl (Z.lor (Z.ldiff ctl USART_CR1_TXEIE) USART_CR1_TCIE) (add_flags [CHN_OUTPUT_EMPTY] c)
  | b :: l => {| c_in := c_in c; c_out := l; c_sent := c_sent c ++ [b]; c_flags := c_flags c; c_ctl := c_ctl c |}
  end.

Definition complete (ctl : Z) (c : chan) : chan :=
  set_ctl (Z.ldiff ctl USART_CR1_TCIE) (match c_out c with [] => add_flags [CHN_TRANSMISSION_END] c | _ => c end).

Definition error_bits : Z := Z.lor (Z.lor USART_ISR_ORE USART_ISR_NE) (Z.lor USART_ISR_FE USART_ISR_PE).

(** One interrupt with the status [isr] and the received byte [b]. *)
Definition interrupt (isr b : Z) (c : chan) : chan :=
  let ctl := c_ctl c in
  let c := if any error_bits isr then add_flags [error_flags isr] c else c in
  let c := if any USART_ISR_LBDF isr then add_flags [SD_BREAK_DETECTED] c else c in
  let c := if any USART_ISR_RXNE isr then receive b c else c in
  let c := if any USART_CR1_TXEIE ctl && any USART_ISR_TXE isr then transmit ctl c else c in
  if any USART_ISR_TC isr then complete ctl c else c.

Section spec.
Context {W : Type} `{!Mmio W, !Obj W drivers, !SerialOs W, !ObjLaws W drivers, !SerialWorld W, !SerialOsLaws W}.
Implicit Types (u : usart) (w : W) (c : chan).

#[local] Existing Instances in_queue out_queue.

Lemma sd_set u d w : sd u (set_sd u d w) = d.
Proof. unfold sd, set_sd. by rewrite obj_set, upd_eq. Qed.

Lemma sd_os u o w : sd u (so_do o w) = sd u w.
Proof. unfold sd. by rewrite drv_os. Qed.

Lemma sd_rd u r w : sd u (mm_rd r w).2 = sd u w.
Proof. unfold sd. by rewrite obj_rd. Qed.

Lemma sd_wr u r v w : sd u (mm_wr r v w) = sd u w.
Proof. unfold sd. by rewrite obj_wr. Qed.

Lemma sd_add u u' f w : sd u (so_add_flags u' f w) = sd u w.
Proof. unfold sd. by rewrite drv_add. Qed.

Lemma notify_out_eq u w :
  notify_out u w = mm_wr (rUSART u CR1) (Z.lor (cr1 w u) USART_CR1_TXEIE) (mm_rd (rUSART u CR1) w).2.
Proof. unfold notify_out. rewrite <-cr1_val. by destruct (mm_rd _ w). Qed.

#[local] Instance in_laws u : IoQueueLaws (H:=in_queue u) W.
Proof.
  split; cbn.
  - intros q w. by rewrite sd_set.
  - intros m w. by rewrite sd_os.
  - intros m w. by rewrite sd_os.
  - done.
  - intros w. apply wait_now.
Qed.

#[local] Instance out_laws u : IoQueueLaws (H:=out_queue u) W.
Proof.
  split; cbn.
  - intros q w. by rewrite sd_set.
  - intros m w. by rewrite sd_os.
  - intros m w. by rewrite sd_os.
  - intros f w [= <-]. by rewrite notify_out_eq, sd_wr, sd_rd.
  - intros w. apply wait_now.
Qed.

(** The driver's unit [u] holds the channel. *)
Record models u c w : Prop := {
  m_in : iq_ok (H:=in_queue u) SERIAL_BUFFERS_SIZE (c_in c) w;
  m_out : oq_ok (H:=out_queue u) SERIAL_BUFFERS_SIZE (c_out c) w;
  m_sent : sent w u = c_sent c;
  m_flags : flags w u = c_flags c;
  m_ctl : cr1 w u = c_ctl c
}.

(** What is kept when only the input, or only the output queue changes. *)
Definition but_in u w := (oqueue (sd u w), sent w u, flags w u, cr1 w u).
Definition but_out u w := (iqueue (sd u w), sent w u, flags w u, cr1 w u).

(** The queue operations of the interrupt, on the channel. *)
Lemma put_in_frames u b : frames (but_in u) (chIQPutI (H:=in_queue u) b).
Proof.
  unfold chIQPutI, chIQIsFullI. frames_tac; unfold but_in; cbn.
  - rewrite sd_set. unfold set_sd. by rewrite sent_set, flags_set, cr1_set.
  - by rewrite sd_os, sent_os, flags_os, cr1_os.
Qed.

Lemma get_out_frames u : frames (but_out u) (chOQGetI (H:=out_queue u)).
Proof.
  unfold chOQGetI, chOQIsEmptyI. frames_tac; unfold but_out; cbn.
  - rewrite sd_set. unfold set_sd. by rewrite sent_set, flags_set, cr1_set.
  - by rewrite sd_os, sent_os, flags_os, cr1_os.
Qed.

Lemma iq_ok_same u cap l w w' : iqueue (sd u w') = iqueue (sd u w) → iq_ok (H:=in_queue u) cap l w → iq_ok (H:=in_queue u) cap l w'.
Proof. intros E. unfold iq_ok. cbn. by rewrite E. Qed.

Lemma oq_ok_same u cap l w w' : oqueue (sd u w') = oqueue (sd u w) → oq_ok (H:=out_queue u) cap l w → oq_ok (H:=out_queue u) cap l w'.
Proof. intros E. unfold oq_ok. cbn. by rewrite E. Qed.

Definition set_in (l : list Z) c : chan :=
  {| c_in := l; c_out := c_out c; c_sent := c_sent c; c_flags := c_flags c; c_ctl := c_ctl c |}.
Definition set_out (l : list Z) c : chan :=
  {| c_in := c_in c; c_out := l; c_sent := c_sent c; c_flags := c_flags c; c_ctl := c_ctl c |}.

Lemma wp_put_in u b c w (Q : Z → W → Prop) :
  models u c w → 0 <= b →
  (∀ w', models u (set_in (if decide (length (c_in c) = SERIAL_BUFFERS_SIZE) then c_in c else c_in c ++ [b]) c) w' →
    Q (if decide (length (c_in c) = SERIAL_BUFFERS_SIZE) then Q_FULL else Q_OK) w') →
  wp (chIQPutI (H:=in_queue u) b) Q w.
Proof.
  intros [M1 M2 M3 M4 M5] Hb HQ. pose proof (iq_step SERIAL_BUFFERS_SIZE (Put b) (c_in c) w M1 Hb) as Hs. cbn in Hs.
  assert (∃ w', chIQPutI (H:=in_queue u) b w = Ok (if decide (length (c_in c) = SERIAL_BUFFERS_SIZE) then Q_FULL else Q_OK, w')
    ∧ iq_ok (H:=in_queue u) SERIAL_BUFFERS_SIZE (if decide (length (c_in c) = SERIAL_BUFFERS_SIZE) then c_in c else c_in c ++ [b]) w')
    as (w' & E & Hok) by (by case_decide).
  pose proof (put_in_frames u b w _ _ E) as [= F1 F2 F3 F4]. apply (wp_intro _ _ _ _ _ E), HQ. split; cbn; [done| |congruence..].
  by eapply oq_ok_same.
Qed.

Lemma wp_get_out u c w (Q : Z → W → Prop) :
  models u c w →
  (c_out c = [] → ∀ w', models u c w' → Q Q_EMPTY w') →
  (∀ b l w', c_out c = b :: l → 0 <= b → models u (set_out l c) w' → Q b w') →
  wp (chOQGetI (H:=out_queue u)) Q w.
Proof.
  intros [M1 M2 M3 M4 M5] H0 H1. pose proof (oq_step SERIAL_BUFFERS_SIZE Get (c_out c) w M2 Logic.I) as Hs. cbn in Hs.
  destruct (c_out c) as [|b l] eqn:Ec; destruct Hs as (w' & E & Hok);
    pose proof (get_out_frames u w _ _ E) as [= F1 F2 F3 F4]; apply (wp_intro _ _ _ _ _ E).
  - apply H0; [done|]. split; [by eapply iq_ok_same|by rewrite Ec|congruence..].
  - apply (H1 b l); [done| |].
    + destruct M2 as (_ & _ & _ & _ & Hb). by apply Forall_cons_1 in Hb as [? _].
    + split; cbn; [by eapply iq_ok_same|done|congruence..].
Qed.

Lemma wp_is_empty_in u c w (Q : bool → W → Prop) :
  models u c w → Q (bool_decide (c_in c = [])) w → wp (chIQIsEmptyI (H:=in_queue u)) Q w.
Proof.
  intros [M1 _ _ _ _] HQ. apply wp_gets. destruct M1 as (_ & Hc & _). unfold chQSpaceI. rewrite Hc.
  replace (Z.of_nat (length (c_in c)) =? 0) with (bool_decide (c_in c = [])); [done|].
  destruct (c_in c); [done|]. rewrite bool_decide_eq_false_2 by done. symmetry. by apply Z.eqb_neq.
Qed.

Lemma wp_is_empty_out u c w (Q : bool → W → Prop) :
  models u c w → Q (bool_decide (c_out c = [])) w → wp (chOQIsEmptyI (H:=out_queue u)) Q w.
Proof.
  intros [_ M2 _ _ _] HQ. apply wp_gets. destruct M2 as (Hwf & Hc & Ht & _). rewrite (wr_eq_rd _ _ Hwf), Hc, Ht.
  pose proof (rw_n _ _ Hwf) as Hle. rewrite Ht in Hle.
  match goal with |- Q ?b w => replace b with (bool_decide (c_out c = [])); [done|] end.
  destruct (c_out c) as [|b l]; [reflexivity|]. rewrite bool_decide_eq_false_2 by done. symmetry.
  destruct (decide (length (b :: l) = SERIAL_BUFFERS_SIZE)) as [->|]; [by rewrite Nat.sub_diag, andb_false_r|].
  by rewrite bool_decide_eq_false_2 by (intros [?|?]; done).
Qed.

(** The other statements. *)
Lemma models_add u f c w : models u c w → models u (add_flags [f] c) (so_add_flags u f w).
Proof.
  intros [M1 M2 M3 M4 M5]. split; cbn.
  - eapply iq_ok_same; [by rewrite sd_add|done].
  - eapply oq_ok_same; [by rewrite sd_add|done].
  - by rewrite sent_add.
  - by rewrite flags_add, decide_True, M4.
  - by rewrite cr1_add.
Qed.

Lemma models_rd u r c w : models u c w → models u c (mm_rd r w).2.
Proof.
  intros [M1 M2 M3 M4 M5]. split.
  - eapply iq_ok_same; [by rewrite sd_rd|done].
  - eapply oq_ok_same; [by rewrite sd_rd|done].
  - by rewrite sent_rd.
  - by rewrite flags_rd.
  - by rewrite cr1_rd.
Qed.

Lemma models_wr_ctl u v c w : models u c w → models u (set_ctl v c) (mm_wr (rUSART u CR1) v w).
Proof.
  intros [M1 M2 M3 M4 M5]. split; cbn.
  - eapply iq_ok_same; [by rewrite sd_wr|done].
  - eapply oq_ok_same; [by rewrite sd_wr|done].
  - by rewrite sent_wr.
  - by rewrite flags_wr.
  - by rewrite cr1_wr, decide_True.
Qed.

Lemma models_wr_icr u v c w : models u c w → models u c (mm_wr (rUSART u ICR) v w).
Proof.
  intros [M1 M2 M3 M4 M5]. split; cbn.
  - eapply iq_ok_same; [by rewrite sd_wr|done].
  - eapply oq_ok_same; [by rewrite sd_wr|done].
  - by rewrite sent_wr.
  - by rewrite flags_wr.
  - by rewrite cr1_wr.
Qed.

Lemma models_wr_tdr u b l c w :
  models u (set_out l c) w →
  models u {| c_in := c_in c; c_out := l; c_sent := c_sent c ++ [b]; c_flags := c_flags c; c_ctl := c_ctl c |} (mm_wr (rUSART u TDR) b w).
Proof.
  intros [M1 M2 M3 M4 M5]. split; cbn.
  - eapply iq_ok_same; [by rewrite sd_wr|done].
  - eapply oq_ok_same; [by rewrite sd_wr|done].
  - by rewrite sent_wr, decide_True, M3.
  - by rewrite flags_wr.
  - by rewrite cr1_wr.
Qed.

Lemma wp_incoming u b c w :
  models u c w → 0 <= b → wp (sdIncomingDataI u b) (λ _ w', models u (receive b c) w') w.
Proof.
  intros M Hb. unfold sdIncomingDataI, receive. apply wp_bind, (wp_is_empty_in u c); [done|].
  set (c1 := match c_in c with [] => _ | _ => c end).
  assert (c_in c1 = c_in c) as E1 by (unfold c1; by destruct (c_in c) eqn:E).
  apply wp_bind. apply (wp_mono _ (λ _ w1, models u c1 w1)).
  2: { apply wp_when; intros Hc; unfold c1; destruct (c_in c); try done. by apply models_add. }
  intros _ w1 M1. apply wp_bind, (wp_put_in u b c1 w1); [done|done|]. rewrite E1. intros w2 M2.
  case_decide as Hd; cbn [when].
  - apply wp_modify. apply models_add. replace c1 with (set_in (c_in c) c1); [done|]. rewrite <-E1. by destruct c1.
  - apply wp_ret. done.
Qed.

(** The state in which the handler reads the receiver: the control and the status
    register read, the status acknowledged, errors and a break flagged. *)
Definition at_receiver u w : W :=
  let cr := mm_rd (rUSART u CR1) w in
  let st := mm_rd (rUSART u ISR) cr.2 in
  let w := mm_wr (rUSART u ICR) st.1 st.2 in
  let w := if any error_bits st.1 then so_add_flags u (error_flags st.1) w else w in
  if any USART_ISR_LBDF st.1 then so_add_flags u SD_BREAK_DETECTED w else w.

(** The byte the receiver's data register gives then. *)
Definition received u w : Z := u8 (mm_rd (rUSART u RDR) (at_receiver u w)).1.

Lemma received_range u w : 0 <= received u w < 256.
Proof. apply u8_range. Qed.

(** One interrupt, as [interrupt] says. *)
Lemma serve_models u c w :
  models u c w →
  ∃ w', serve_interrupt u w = Ok (tt, w') ∧
    models u (interrupt (mm_rd (rUSART u ISR) (mm_rd (rUSART u CR1) w).2).1 (received u w) c) w'.
Proof.
  intros M. set (isr := (mm_rd (rUSART u ISR) _).1).
  enough (wp (serve_interrupt u) (λ _ w', models u (interrupt isr (received u w) c) w') w) as Hw.
  { destruct (wp_elim _ _ _ Hw) as ([] & w' & E & M'). by exists w'. }
  unfold serve_interrupt, interrupt. do 2 (apply wp_bind, wp_rd). fold isr. rewrite cr1_val, (m_ctl _ _ _ M).
  set (w1 := (mm_rd (rUSART u ISR) _).2). apply wp_bind, wp_wr.
  assert (models u c (mm_wr (rUSART u ICR) isr w1)) as M1 by (by apply models_wr_icr, models_rd, models_rd).
  fold error_bits. set (c1 := if any error_bits isr then _ else c). set (c2 := if any USART_ISR_LBDF isr then _ else c1).
  apply wp_bind. set (w2 := if any error_bits isr then so_add_flags u (error_flags isr) (mm_wr (rUSART u ICR) isr w1) else mm_wr (rUSART u ICR) isr w1).
  apply (wp_mono _ (λ _ w', w' = w2 ∧ models u c1 w')); [intros _ ? [-> M2]|unfold c1, w2; apply wp_when; intros ->; [|done]].
  2: { apply wp_modify. split; [done|]. by apply models_add. }
  apply wp_bind. apply (wp_mono _ (λ _ w', w' = at_receiver u w ∧ models u c2 w')).
  2: { change (at_receiver u w) with (if any USART_ISR_LBDF isr then so_add_flags u SD_BREAK_DETECTED w2 else w2). unfold c2.
       apply wp_when; intros ->; [|done]. apply wp_modify. split; [done|]. by apply models_add. }
  intros _ ? [-> M3]. apply wp_bind. apply (wp_mono _ (λ _ w', models u (if any USART_ISR_RXNE isr then receive (received u w) c2 else c2) w')).
  2: { apply wp_when; intros ->; [|done].
       apply wp_bind, wp_rd. apply (wp_incoming u _ c2); [by apply models_rd|apply received_range]. }
  intros _ w4 M4. set (c3 := if any USART_ISR_RXNE isr then _ else c2) in *.
  set (c4 := if any USART_CR1_TXEIE (c_ctl c) && any USART_ISR_TXE isr then transmit (c_ctl c) c3 else c3).
  apply wp_bind. apply (wp_mono _ (λ _ w', models u c4 w')).
  2: { unfold c4, transmit. apply wp_when; intros ->; [|done]. apply wp_bind, (wp_get_out u c3); [done| |].
       - intros Ec w5 M5. change (Q_EMPTY <? Q_OK) with true. cbv iota. rewrite Ec. apply wp_bind, wp_modify, wp_wr.
         by apply models_wr_ctl, models_add.
       - intros x l w5 Ec Hx M5. replace (x <? Q_OK) with false by (symmetry; by apply Z.ltb_ge). rewrite Ec.
         by apply wp_wr, models_wr_tdr. }
  intros _ w5 M5. apply (wp_mono _ (λ _ w', models u (if any USART_ISR_TC isr then complete (c_ctl c) c4 else c4) w')); [by eauto|].
  apply wp_when; intros ->; [|done]. apply wp_bind, (wp_is_empty_out u c4); [done|]. unfold complete. apply wp_bind.
  apply (wp_mono _ (λ _ w', models u (match c_out c4 with [] => add_flags [CHN_TRANSMISSION_END] c4 | _ => c4 end) w')).
  2: { case_bool_decide as He; cbn [when]; [rewrite He; by apply wp_modify, models_add|by destruct (c_out c4)]. }
  intros _ w6 M6. by apply wp_wr, models_wr_ctl.
Qed.

(** ** The thread side, without waiting *)

Lemma put_models u b c w :
  models u c w → 0 <= b →
  ∃ w', putt 1 u b TIME_IMMEDIATE w = Ok (if decide (length (c_out c) = SERIAL_BUFFERS_SIZE) then Q_TIMEOUT else Q_OK, w') ∧
    models u (if decide (length (c_out c) = SERIAL_BUFFERS_SIZE) then c
              else set_ctl (Z.lor (c_ctl c) USART_CR1_TXEIE) (set_out (c_out c ++ [b]) c)) w'.
Proof.
  intros M Hb. pose proof M as [M1 M2 M3 M4 M5].
  pose proof (oq_step SERIAL_BUFFERS_SIZE (Put b) (c_out c) w M2 Hb) as Hs. unfold fifo_step, oq_exec in Hs. unfold putt.
  case_decide as Hd; destruct Hs as (w' & E & Hok); exists w'; (split; [exact E|]).
  - unfold chOQPutTimeout in E. rewrite (fw_bind_ok _ _ w Q_TIMEOUT w) in E; [by injection E as <-|].
    apply wait_fails. unfold chOQIsFullI, gets, chQSpaceI. destruct M2 as (_ & -> & _). by rewrite Hd, Nat.sub_diag.
  - unfold chOQPutTimeout in E. apply fw_bind_Ok in E as (msg & w1 & E1 & E2).
    rewrite wait_over in E1.
    2: { unfold chOQIsFullI, gets, chQSpaceI. pose proof M2 as (Hwf & -> & Ht & _). pose proof (rw_n _ _ Hwf) as Hle. rewrite Ht in Hle.
         do 2 f_equal. apply Z.eqb_neq. lia. }
    injection E1 as <- <-. change (Q_OK <? Q_OK) with false in E2. cbv iota in E2. cbn in E2. inv_fw.
    rewrite notify_out_eq in Hok |- *. split; cbn.
    + eapply iq_ok_same; [|exact M1]. by rewrite sd_wr, sd_rd, sd_set.
    + done.
    + unfold set_sd. by rewrite sent_wr, sent_rd, sent_set.
    + unfold set_sd. by rewrite flags_wr, flags_rd, flags_set.
    + unfold set_sd. by rewrite cr1_wr, decide_True, cr1_set, M5.
Qed.

Lemma get_in_frames u : frames (but_in u) (gett 1 u TIME_IMMEDIATE).
Proof.
  unfold gett, chIQGetTimeout, notify, chIQIsEmptyI. cbn [wait_while q_notify in_queue]. frames_tac; unfold but_in; cbn.
  - intros w x w'. cbn. rewrite wait_now. by intros [= _ <-].
  - rewrite sd_set. unfold set_sd. by rewrite sent_set, flags_set, cr1_set.
Qed.

Lemma get_models u c w :
  models u c w →
  ∃ w', gett 1 u TIME_IMMEDIATE w = Ok (match c_in c with [] => Q_TIMEOUT | b :: _ => b end, w') ∧
    models u (set_in (tail (c_in c)) c) w'.
Proof.
  intros [M1 M2 M3 M4 M5]. pose proof (iq_step SERIAL_BUFFERS_SIZE Get (c_in c) w M1 Logic.I) as Hs. unfold fifo_step, iq_exec in Hs.
  destruct (c_in c) as [|b l]; destruct Hs as (w' & E & Hok); exists w'; (split; [exact E|]);
    pose proof (get_in_frames u w _ _ E) as [= F1 F2 F3 F4]; (split; cbn; [done|by eapply oq_ok_same|congruence..]).
Qed.

(** ** Every run of a unit

    The thread side without waiting, interrupts with any status, and anything
    else that keeps the unit, in any order. [acc] are the bytes accepted. *)

Inductive serial_step u : W * list Z → W * list Z → Prop :=
  | st_put b r w w' acc : 0 <= b → putt 1 u b TIME_IMMEDIATE w = Ok (r, w') →
      serial_step u (w, acc) (w', if decide (r = Q_OK) then acc ++ [b] else acc)
  | st_get r w w' acc : gett 1 u TIME_IMMEDIATE w = Ok (r, w') → serial_step u (w, acc) (w', acc)
  | st_interrupt w w' acc : serve_interrupt u w = Ok (tt, w') → serial_step u (w, acc) (w', acc)
  | st_elsewhere w w' acc : (∀ c, models u c w → models u c w') → serial_step u (w, acc) (w', acc).

(** Bytes held for transmission have the transmitter's interrupt on. *)
Definition armed c : Prop := c_out c ≠ [] → any USART_CR1_TXEIE (c_ctl c) = true.

Lemma any_lor m a b : any m (Z.lor a b) = any m a || any m b.
Proof.
  unfold any. rewrite Z.land_lor_distr_l.
  destruct (Z.eqb_spec (Z.land a m) 0) as [->|Ha]; [by rewrite Z.lor_0_l|]. cbn.
  destruct (Z.eqb_spec (Z.lor (Z.land a m) (Z.land b m)) 0) as [E|]; [|done]. by apply Z.lor_eq_0_iff in E as [? _].
Qed.

Lemma any_ldiff_other m k a : Z.land k m = 0 → any m (Z.ldiff a k) = any m a.
Proof.
  intros Hk. unfold any. do 2 f_equal. apply Z.bits_inj'. intros i Hi. rewrite !Z.land_spec, Z.ldiff_spec.
  pose proof (f_equal (λ x, Z.testbit x i) Hk) as E. cbn in E. rewrite Z.land_spec, Z.testbit_0_l in E.
  destruct (Z.testbit k i), (Z.testbit m i), (Z.testbit a i); done.
Qed.

Lemma armed_flags l c : armed (add_flags l c) = armed c.
Proof. done. Qed.

(** What an interrupt does to the output side. *)
Lemma interrupt_out isr b c :
  armed c →
  armed (interrupt isr b c) ∧ c_sent (interrupt isr b c) ++ c_out (interrupt isr b c) = c_sent c ++ c_out c.
Proof.
  intros Ha. unfold interrupt. set (c1 := if any error_bits isr then _ else c). set (c2 := if any USART_ISR_LBDF isr then _ else c1).
  set (c3 := if any USART_ISR_RXNE isr then _ else c2). set (c4 := if _ && any USART_ISR_TXE isr then _ else c3).
  assert (c_out c3 = c_out c ∧ c_sent c3 = c_sent c ∧ c_ctl c3 = c_ctl c) as (E1 & E2 & E3).
  { unfold c3, c2, c1, receive. destruct (any error_bits isr), (any USART_ISR_LBDF isr), (any USART_ISR_RXNE isr); cbn;
      destruct (c_in c); cbn; try case_decide; done. }
  assert (armed c4 ∧ c_sent c4 ++ c_out c4 = c_sent c ++ c_out c ∧ (c_out c4 ≠ [] → any USART_CR1_TXEIE (c_ctl c) = true)) as (A4 & O4 & I4).
  { unfold c4. destruct (any USART_CR1_TXEIE (c_ctl c)) eqn:Et; cbn [andb].
    - destruct (any USART_ISR_TXE isr); [|unfold armed; rewrite E1, E2, E3; auto].
      unfold transmit. rewrite E1. destruct (c_out c) as [|x l] eqn:Eo; unfold armed; cbn.
      + split_and!; [by rewrite E1|by rewrite E1, E2|done].
      + rewrite E2, E3, <-app_assoc. done.
    - unfold armed. rewrite E1, E2, E3. split_and!; [exact Ha|done|]. intros Ho. specialize (Ha Ho). by rewrite Et in Ha. }
  destruct (any USART_ISR_TC isr); [|done]. unfold complete. split.
  - unfold armed. cbn. rewrite any_ldiff_other by done. intros Ho. apply I4. destruct (c_out c4) eqn:Eo; [|done]. cbn in Ho. by rewrite Eo in Ho.
  - cbn. by destruct (c_out c4) eqn:Eo; cbn; rewrite Eo.
Qed.

(** C9 (invariant). In every run, the bytes written to the transmitter, followed
    by the bytes held for it, are the bytes the driver accepted, in their order;
    and while a byte is held the transmitter's interrupt is enabled. *)
Theorem output_never_lost u c0 w0 w acc :
  models u c0 w0 → c_sent c0 = [] → c_out c0 = [] → rtc (serial_step u) (w0, []) (w, acc) →
  ∃ c, models u c w ∧ sent w u ++ c_out c = acc ∧ (c_out c ≠ [] → any USART_CR1_TXEIE (cr1 w u) = true).
Proof.
  intros M0 S0 O0 Hr.
  assert (∀ p q, rtc (serial_step u) p q → (∃ c, models u c p.1 ∧ c_sent c ++ c_out c = p.2 ∧ armed c) →
    ∃ c, models u c q.1 ∧ c_sent c ++ c_out c = q.2 ∧ armed c) as Hinv.
  { clear M0 S0 O0 Hr c0 w0 w acc. intros p q. induction 1 as [|p p' q Hs _ IH]; [done|]. intros (c & M & E & A). apply IH. clear IH.
    destruct Hs as [b r w w' acc Hb E1|r w w' acc E1|w w' acc E1|w w' acc Hm]; cbn [fst snd] in *.
    - destruct (put_models u b c w M Hb) as (w1 & E2 & M2). rewrite E1 in E2. injection E2 as -> ->.
      case_decide as Hd; [exists c; rewrite (decide_False (P:=Q_TIMEOUT = Q_OK)) by (intros E3; discriminate E3); by split_and!|].
      rewrite decide_True by done. eexists. split; [exact M2|].
      cbn. rewrite app_assoc, E. split; [done|]. unfold armed. cbn. intros _. rewrite any_lor. apply orb_true_r.
    - destruct (get_models u c w M) as (w1 & E2 & M2). rewrite E1 in E2. injection E2 as -> ->. by exists (set_in (tail (c_in c)) c).
    - destruct (serve_models u c w M) as (w1 & E2 & M2). rewrite E1 in E2. injection E2 as ->.
      eexists. split; [exact M2|]. destruct (interrupt_out (mm_rd (rUSART u ISR) (mm_rd (rUSART u CR1) w).2).1 (received u w) c A) as [A' O'].
      by rewrite O'.
    - exists c. auto. }
  destruct (Hinv _ _ Hr) as (c & M & E & A).
  { exists c0. unfold armed. cbn. by rewrite S0, O0. }
  exists c. cbn in *. by rewrite (m_sent _ _ _ M), (m_ctl _ _ _ M).
Qed.

(** ** One interrupt *)

(** What concerns the other unit. *)
Definition view u w := (sd u w, sent w u, flags w u, cr1 w u).

Lemma view_models u c w w' : view u w' = view u w → models u c w → models u c w'.
Proof.
  intros [= E1 E2 E3 E4] [M1 M2 M3 M4 M5].
  split; [eapply iq_ok_same; [by rewrite E1|done]|eapply oq_ok_same; [by rewrite E1|done]|congruence..].
Qed.

Lemma serve_frames u u' : u' ≠ u → frames (view u') (serve_interrupt u).
Proof.
  intros Hu.
  assert (∀ f w, view u' (so_add_flags u f w) = view u' w) as Hadd.
  { intros f w. unfold view. by rewrite sd_add, sent_add, cr1_add, flags_add, decide_False by done. }
  assert (∀ d w, view u' (set_sd u d w) = view u' w) as Hset.
  { intros d w. unfold view, set_sd, sd. by rewrite obj_set, upd_ne, sent_set, flags_set, cr1_set by done. }
  assert (∀ o w, view u' (so_do o w) = view u' w) as Hos.
  { intros o w. unfold view. by rewrite sd_os, sent_os, flags_os, cr1_os. }
  assert (∀ r w, view u' (mm_rd r w).2 = view u' w) as Hrd.
  { intros r w. unfold view. by rewrite sd_rd, sent_rd, flags_rd, cr1_rd. }
  assert (∀ r v w, view u' (mm_wr (rUSART u r) v w) = view u' w) as Hwr.
  { intros r v w. unfold view. rewrite sd_wr, sent_wr, flags_wr, cr1_wr. destruct r; by rewrite ?decide_False by done. }
  unfold serve_interrupt, set_error, chnAddFlagsI, sdIncomingDataI, chIQIsEmptyI, chIQPutI, chIQIsFullI, chOQGetI, chOQIsEmptyI.
  frames_tac; cbn; auto.
Qed.

(** One interrupt as the channel function. *)
Lemma interrupt_as_channel u c w :
  models u c w →
  ∃ w', serve_interrupt u w = Ok (tt, w') ∧
    models u (interrupt (mm_rd (rUSART u ISR) (mm_rd (rUSART u CR1) w).2).1 (received u w) c) w' ∧
    ∀ u' c', u' ≠ u → models u' c' w → models u' c' w'.
Proof.
  intros M. destruct (serve_models u c w M) as (w' & E & M'). exists w'. split_and!; [done|done|].
  intros u' c' Hu. apply view_models, (serve_frames u u' Hu _ _ _ E).
Qed.

(** C25 (refinement). One interrupt of a unit refines one step of a channel: the
    errors and a break are flagged; the byte then read from the receiver's data
    register ([received]) is stored, or lost with an overrun; the next byte is
    written to the transmitter or its interrupt is switched off; and the end of
    transmission is flagged - as the status word says, and the channel changes in
    no other way. The other unit is left as it was. *)
Theorem interrupt_refines_channel u c w :
  models u c w →
  ∃ w', serve_interrupt u w = Ok (tt, w') ∧
    models u (interrupt (mm_rd (rUSART u ISR) (mm_rd (rUSART u CR1) w).2).1 (received u w) c) w' ∧
    ∀ u' c', u' ≠ u → models u' c' w → models u' c' w'.
Proof. exact (interrupt_as_channel u c w). Qed.

(** ** Draining *)

Fixpoint interrupts (k : nat) u : fw W unit :=
  match k with O => ret tt | S k => serve_interrupt u;; interrupts k u end.

Lemma interrupt_sends isr b c x l :
  c_out c = x :: l → any USART_CR1_TXEIE (c_ctl c) = true → any USART_ISR_TXE isr = true →
  c_out (interrupt isr b c) = l ∧ c_sent (interrupt isr b c) = c_sent c ++ [x].
Proof.
  intros Ho Hc Ht. unfold interrupt. set (c1 := if any error_bits isr then _ else c). set (c2 := if any USART_ISR_LBDF isr then _ else c1).
  set (c3 := if any USART_ISR_RXNE isr then _ else c2).
  assert (c_out c3 = x :: l ∧ c_sent c3 = c_sent c) as (E1 & E2).
  { rewrite <-Ho. unfold c3, c2, c1, receive. destruct (any error_bits isr), (any USART_ISR_LBDF isr), (any USART_ISR_RXNE isr); cbn;
      destruct (c_in c); cbn; try case_decide; done. }
  rewrite Hc, Ht. cbn [andb]. unfold transmit. rewrite E1. unfold complete.
  destruct (any USART_ISR_TC isr); cbn; [|by rewrite E2]. by destruct l; cbn; rewrite E2.
Qed.

(** C31 (liveness). With a transmitter that is empty at each interrupt, as many
    interrupts as there are bytes held write them all, in order. *)
Theorem output_drains u c w :
  (∀ w, any USART_ISR_TXE (mm_rd (rUSART u ISR) w).1 = true) →
  models u c w → armed c →
  ∃ c' w', interrupts (length (c_out c)) u w = Ok (tt, w') ∧ models u c' w' ∧ c_out c' = [] ∧ sent w' u = sent w u ++ c_out c.
Proof.
  intros Ht. remember (c_out c) as l eqn:El. revert c w El. induction l as [|x l IH]; intros c w El M A.
  { exists c, w. rewrite app_nil_r. by split_and!. }
  destruct (serve_models u c w M) as (w1 & E1 & M1). set (b := received u w) in M1. set (c1 := interrupt _ b c) in M1.
  destruct (interrupt_out (mm_rd (rUSART u ISR) (mm_rd (rUSART u CR1) w).2).1 b c A) as [A1 _].
  destruct (interrupt_sends (mm_rd (rUSART u ISR) (mm_rd (rUSART u CR1) w).2).1 b c x l) as [O1 S1]; [done| |apply Ht|].
  { apply A. by rewrite <-El. }
  fold c1 in A1, O1, S1. destruct (IH c1 w1) as (c' & w' & E' & M' & O' & S'); [done..|].
  exists c', w'. cbn [length interrupts]. rewrite (fw_bind_ok _ _ _ _ _ E1). split_and!; [done..|].
  rewrite S', (m_sent _ _ _ M1), S1, (m_sent _ _ _ M), <-app_assoc. done.
Qed.

(** ** Stale status

    The status word is read once. With the transmitter empty and the last
    transmission over, the handler hands the last byte to the transmitter and
    flags the end of its transmission in the same run. *)
Theorem transmission_end_early u c w x :
  models u c w → c_out c = [x] → any USART_CR1_TXEIE (c_ctl c) = true →
  let isr := (mm_rd (rUSART u ISR) (mm_rd (rUSART u CR1) w).2).1 in
  any USART_ISR_TXE isr = true → any USART_ISR_TC isr = true →
  ∃ w' l, serve_interrupt u w = Ok (tt, w') ∧ sent w' u = sent w u ++ [x] ∧ flags w' u = l ++ [CHN_TRANSMISSION_END].
Proof.
  intros M Ho Hc isr Ht Htc. destruct (serve_models u c w M) as (w' & E & M'). fold isr in M'.
  destruct (interrupt_sends isr (received u w) c x [] Ho Hc Ht) as [O' S'].
  exists w'. rewrite (m_sent _ _ _ M'), S', (m_sent _ _ _ M), (m_flags _ _ _ M').
  revert O'. unfold interrupt. rewrite Hc, Ht, Htc. cbn [andb]. unfold complete. set (c4 := transmit _ _). cbn. intros O4.
  destruct (c_out c4) eqn:E4; cbn in O4; [|congruence]. eexists. split_and!; [done|done|]. reflexivity.
Qed.

(** With nothing to send, the interrupt that finds the transmitter empty and the
    last transmission over leaves the transmitter's interrupt on. *)
Theorem transmitter_left_on u c w :
  models u c w → c_out c = [] → any USART_CR1_TXEIE (c_ctl c) = true →
  let isr := (mm_rd (rUSART u ISR) (mm_rd (rUSART u CR1) w).2).1 in
  any USART_ISR_TXE isr = true → any USART_ISR_TC isr = true →
  ∃ w', serve_interrupt u w = Ok (tt, w') ∧ any USART_CR1_TXEIE (cr1 w' u) = true.
Proof.
  intros M Ho Hc isr Ht Htc. destruct (serve_models u c w M) as (w' & E & M'). fold isr in M'.
  exists w'. split; [done|]. rewrite (m_ctl _ _ _ M'). unfold interrupt. rewrite Htc. unfold complete. cbn.
  by rewrite any_ldiff_other.
Qed.

(** ** Start-up and stop *)

Definition is_usart (r : reg) : bool := match r with rUSART _ _ => true | _ => false end.

Lemma view_os u o w : view u (so_do o w) = view u w.
Proof. unfold view. by rewrite sd_os, sent_os, flags_os, cr1_os. Qed.

Lemma view_rd u r w : view u (mm_rd r w).2 = view u w.
Proof. unfold view. by rewrite sd_rd, sent_rd, flags_rd, cr1_rd. Qed.

Lemma view_wr u r v w : is_usart r = false → view u (mm_wr r v w) = view u w.
Proof. intros Hr. unfold view. rewrite sd_wr, sent_wr, flags_wr, cr1_wr. by destruct r. Qed.

(** The configuration registers besides CR1. *)
Lemma view_wr_cfg u x v w : x ≠ CR1 → x ≠ TDR → view u (mm_wr (rUSART u x) v w) = view u w.
Proof. intros H1 H2. unfold view. rewrite sd_wr, sent_wr, flags_wr, cr1_wr. by destruct x. Qed.

Lemma frames_clock u u' : frames (view u) (rccEnableUSART u') ∧ frames (view u) (rccDisableUSART u').
Proof.
  split; unfold rccEnableUSART, rccDisableUSART, rccEnableAPB1, rccEnableAPB2, rccDisableAPB1, rccDisableAPB2;
    destruct u'; frames_tac; by rewrite ?view_rd, ?view_wr.
Qed.

Lemma frames_vector u n p : frames (view u) (nvicEnableVector n p).
Proof. unfold nvicEnableVector. frames_tac; by rewrite ?view_rd, ?view_wr. Qed.

(** A run that never fails, and keeps the view. *)
Lemma wp_keeps {A} u (m : fw W A) (Q : A → W → Prop) w :
  frames (view u) m → wp m (λ _ _, True) w → (∀ a w', view u w' = view u w → Q a w') → wp m Q w.
Proof. intros Hf Hm HQ. eapply wp_mono; [|by apply (wp_frame (view u))]. intros a w' [_ E]. by apply HQ. Qed.

Definition buffers_ok u w : Prop :=
  length (q_buffer (iqueue (sd u w))) = SERIAL_BUFFERS_SIZE ∧ length (q_buffer (oqueue (sd u w))) = SERIAL_BUFFERS_SIZE.

Definition empty_chan u w : chan := {| c_in := []; c_out := []; c_sent := sent w u; c_flags := flags w u; c_ctl := cr1 w u |}.

(** Empty queues. *)
Lemma iq_ok_empty u b w :
  iqueue (sd u w) = {| q_counter := 0; q_buffer := b; q_wrptr := 0; q_rdptr := 0 |} → length b = SERIAL_BUFFERS_SIZE →
  iq_ok (H:=in_queue u) SERIAL_BUFFERS_SIZE [] w.
Proof.
  intros E Hb. unfold iq_ok. cbn. rewrite E. unfold q_top. cbn. split_and!; [|done|done|done|constructor].
  apply (reset_ok {| q_counter := 0; q_buffer := b; q_wrptr := 0; q_rdptr := 0 |}); unfold q_top; cbn; rewrite Hb;
    unfold SERIAL_BUFFERS_SIZE; lia.
Qed.

Lemma oq_ok_empty u b w :
  oqueue (sd u w) = {| q_counter := Z.of_nat SERIAL_BUFFERS_SIZE; q_buffer := b; q_wrptr := 0; q_rdptr := 0 |} →
  length b = SERIAL_BUFFERS_SIZE → oq_ok (H:=out_queue u) SERIAL_BUFFERS_SIZE [] w.
Proof.
  intros E Hb. unfold oq_ok. cbn. rewrite E. unfold q_top. cbn. split_and!; [|done|done|done|constructor].
  apply (reset_ok {| q_counter := 0; q_buffer := b; q_wrptr := 0; q_rdptr := 0 |}); unfold q_top; cbn; rewrite Hb;
    unfold SERIAL_BUFFERS_SIZE; lia.
Qed.

Lemma view_set_other u u' d w : u' ≠ u → view u' (set_sd u d w) = view u' w.
Proof. intros Hu. unfold view, set_sd, sd. by rewrite obj_set, upd_ne, sent_set, flags_set, cr1_set by done. Qed.

Lemma set_sd_seen u d w : sent (set_sd u d w) = sent w ∧ flags (set_sd u d w) = flags w ∧ cr1 (set_sd u d w) = cr1 w.
Proof. unfold set_sd. by rewrite sent_set, flags_set, cr1_set. Qed.

Ltac sd_simpl := repeat first [rewrite sd_set | rewrite sd_os | rewrite sd_rd | rewrite sd_wr | rewrite sd_add].
Ltac seen_simpl :=
  repeat first [rewrite (proj1 (set_sd_seen _ _ _)) | rewrite (proj1 (proj2 (set_sd_seen _ _ _))) | rewrite (proj2 (proj2 (set_sd_seen _ _ _)))
    | rewrite sent_os | rewrite flags_os | rewrite cr1_os].

Lemma init_models u w (Q : unit → W → Prop) :
  buffers_ok u w →
  (∀ w', models u (empty_chan u w) w' → sd_state (sd u w') = SD_STOP → (∀ u', u' ≠ u → view u' w' = view u' w) → Q tt w') →
  wp (sdObjectInit u) Q w.
Proof.
  intros [Bi Bo] HQ. unfold sdObjectInit, upd_sd, chIQObjectInit, chOQObjectInit. wp_steps. cbn. apply HQ.
  - split; cbn.
    + eapply iq_ok_empty; [by sd_simpl|]. by sd_simpl.
    + eapply oq_ok_empty; [|by sd_simpl]. sd_simpl. cbn. sd_simpl. cbn. by rewrite Bo.
    + by seen_simpl.
    + by seen_simpl.
    + by seen_simpl.
  - by sd_simpl.
  - intros u' Hu. by rewrite !view_set_other, view_os, view_set_other, view_os, view_set_other, view_os by done.
Qed.

(** A change of the other fields. *)
Lemma models_set_sd u d c w :
  iqueue d = iqueue (sd u w) → oqueue d = oqueue (sd u w) → models u c w → models u c (set_sd u d w).
Proof.
  intros E1 E2 [M1 M2 M3 M4 M5]. split.
  - eapply iq_ok_same; [|exact M1]. by sd_simpl.
  - eapply oq_ok_same; [|exact M2]. by sd_simpl.
  - by seen_simpl.
  - by seen_simpl.
  - by seen_simpl.
Qed.

Lemma wp_vector_runs v p w : wp (nvicEnableVector v p) (λ _ _, True) w.
Proof. unfold nvicEnableVector. by wp_steps. Qed.

Lemma wp_clock_runs u w : wp (rccEnableUSART u) (λ _ _, True) w ∧ wp (rccDisableUSART u) (λ _ _, True) w.
Proof.
  unfold rccEnableUSART, rccDisableUSART, rccEnableAPB1, rccEnableAPB2, rccDisableAPB1, rccDisableAPB2.
  by split; destruct u; wp_steps.
Qed.

(** The set-up of one unit in [sd_lld_init]. *)
Lemma wp_setup u w (Q : unit → W → Prop) :
  buffers_ok u w →
  (∀ w', models u (empty_chan u w) w' → sd_state (sd u w') = SD_STOP → clock (sd u w') = STM32_USARTCLK u →
    (∀ u', u' ≠ u → view u' w' = view u' w) → Q tt w') →
  wp (sdObjectInit u;; upd_sd u (with_clock (STM32_USARTCLK u));; nvicEnableVector (STM32_USART_NUMBER u) STM32_SERIAL_USART_PRIORITY) Q w.
Proof.
  intros Hb HQ. apply wp_bind, init_models; [done|]. intros w1 M1 S1 O1. apply wp_bind, wp_modify. set (w2 := set_sd u _ w1).
  assert (models u (empty_chan u w) w2) as M2 by by apply models_set_sd.
  eapply (wp_mono _ (λ _ w3, ∀ u', view u' w3 = view u' w2)).
  2: { pose proof (wp_vector_runs (STM32_USART_NUMBER u) STM32_SERIAL_USART_PRIORITY w2) as Hr. unfold wp in *.
       destruct (nvicEnableVector _ _ w2) as [[[] w3]|] eqn:E; [|done]. intros u'. by apply (frames_vector u' _ _ _ _ _ E). }
  intros [] w3 V3. apply HQ.
  - by apply (view_models u _ w2).
  - pose proof (V3 u) as [= -> _ _ _]. unfold w2. sd_simpl. done.
  - pose proof (V3 u) as [= -> _ _ _]. unfold w2. by sd_simpl.
  - intros u' Hu. rewrite V3. unfold w2. by rewrite view_set_other, O1.
Qed.

Lemma wp_start u cfg c w (Q : unit → W → Prop) :
  models u c w → clock (sd u w) = STM32_USARTCLK u → 
  (∀ v w', sd_state (sd u w') = SD_READY → models u (set_ctl v c) w' →
    v = foldr Z.lor 0 [c_cr1 (default default_config cfg); USART_CR1_UE; USART_CR1_PEIE; USART_CR1_RXNEIE; USART_CR1_TE; USART_CR1_RE] →
    Q tt w') →
  speed (default default_config cfg) ≠ 0 →
  wp (sdStart u cfg) Q w.
Proof.
  intros M Hc HQ Hs. unfold sdStart, sd_lld_start. change (match cfg with Some c => c | None => default_config end) with (default default_config cfg).
  apply wp_bind, wp_bind, wp_gets, wp_bind. apply (wp_mono _ (λ _ w1, view u w1 = view u w)).
  2: { apply wp_when; intros _; [|done]. apply (wp_keeps u); [apply frames_clock|apply wp_clock_runs|done]. }
  intros [] w1 V1. unfold usart_init. apply wp_bind, wp_gets. apply Z.eqb_neq in Hs. rewrite Hs.
  wp_steps. cbn [foldr]. set (w2 := mm_wr _ (Z.lor (c_cr3 _) _) _). set (v := Z.lor (c_cr1 _) _).
  assert (models u c w2) as M2.
  { apply (view_models u c w); [|done]. unfold w2. by rewrite !view_wr_cfg. }
  apply (wp_modify _ _ _). apply (HQ v); [by sd_simpl| |done].
  apply models_set_sd; [done|done|]. apply (view_models u _ (mm_wr (rUSART u CR1) v w2)); [by rewrite view_wr_cfg|].
  by apply models_wr_ctl.
Qed.

Lemma reset_frames_out u : frames (but_out u) (chOQResetI (H:=out_queue u)).
Proof. unfold chOQResetI. frames_tac; unfold but_out; cbn; sd_simpl; by seen_simpl. Qed.

Lemma reset_frames_in u : frames (but_in u) (chIQResetI (H:=in_queue u)).
Proof. unfold chIQResetI. frames_tac; unfold but_in; cbn; sd_simpl; by seen_simpl. Qed.

Lemma reset_models u c w :
  models u c w →
  wp (chOQResetI (H:=out_queue u);; chIQResetI (H:=in_queue u)) (λ _ w', models u (set_in [] (set_out [] c)) w') w.
Proof.
  intros [M1 M2 M3 M4 M5].
  destruct (oq_step SERIAL_BUFFERS_SIZE Reset (c_out c) w M2 Logic.I) as (w1 & E1 & O1). unfold oq_exec in E1. apply fw_bind_Ok in E1 as ([] & w1' & E1 & [= ->]).
  pose proof (reset_frames_out u w _ _ E1) as [= F1 F2 F3 F4].
  destruct (iq_step SERIAL_BUFFERS_SIZE Reset (c_in c) w1 (iq_ok_same u _ _ w w1 F1 M1) Logic.I) as (w2 & E2 & I2). unfold iq_exec in E2. apply fw_bind_Ok in E2 as ([] & w2' & E2 & [= ->]).
  pose proof (reset_frames_in u w1 _ _ E2) as [= G1 G2 G3 G4].
  apply (wp_intro _ _ _ tt w2); [by rewrite (fw_bind_ok _ _ _ _ _ E1)|]. split; cbn; [done|by eapply oq_ok_same|congruence..].
Qed.

(** The queues' resets keep the driver's state. *)
Lemma reset_state_out u w w' : chOQResetI (H:=out_queue u) w = Ok (tt, w') → sd_state (sd u w') = sd_state (sd u w).
Proof. intros E. unfold chOQResetI in E. inv_fw. cbn. by sd_simpl. Qed.

Lemma reset_state_in u w w' : chIQResetI (H:=in_queue u) w = Ok (tt, w') → sd_state (sd u w') = sd_state (sd u w).
Proof. intros E. unfold chIQResetI in E. inv_fw. cbn. by sd_simpl. Qed.

Lemma wp_stop u c w :
  models u c w → sd_state (sd u w) = SD_READY →
  wp (sdStop u) (λ _ w', sd_state (sd u w') = SD_STOP ∧ models u (set_ctl 0 (set_in [] (set_out [] c))) w') w.
Proof.
  intros M Hs. unfold sdStop, sd_lld_stop. apply wp_bind, wp_bind, wp_gets. rewrite Hs, bool_decide_eq_true_2 by done. cbn [when].
  unfold usart_deinit. wp_steps. set (w1 := mm_wr (rUSART u CR3) 0 _).
  assert (models u (set_ctl 0 c) w1) as M1.
  { unfold w1. apply (view_models u _ (mm_wr (rUSART u CR1) 0 w)); [by rewrite (view_wr_cfg u CR3), (view_wr_cfg u CR2)|]. by apply models_wr_ctl. }
  apply (wp_keeps u); [apply frames_clock|apply wp_clock_runs|]. intros _ w2 V2. unfold upd_sd. wp_steps. set (w3 := set_sd u _ w2).
  assert (models u (set_ctl 0 c) w3) as M3 by (apply models_set_sd; [done|done|by apply (view_models u _ w1)]).
  pose proof (reset_models u _ w3 M3) as Hr. apply wp_elim in Hr as ([] & w4 & E4 & M4).
  apply fw_bind_Ok in E4 as ([] & w3' & E3 & E4). apply (wp_intro _ _ _ _ _ E3). wp_steps. apply (wp_intro _ _ _ _ _ E4).
  wp_steps. split; [|by apply (view_models u _ w4); [apply view_os|]].
  sd_simpl. pose proof (reset_state_out u _ _ E3) as E5. pose proof (reset_state_in u _ _ E4) as E6. rewrite E6, E5. unfold w3. by sd_simpl.
Qed.

Lemma wp_sdInit w (Q : unit → W → Prop) :
  buffers_ok USART1 w → buffers_ok USART2 w →
  (∀ w', (∀ u, models u (empty_chan u w) w' ∧ sd_state (sd u w') = SD_STOP ∧ clock (sd u w') = STM32_USARTCLK u) → Q tt w') →
  wp sdInit Q w.
Proof.
  intros B1 B2 HQ. unfold sdInit, sd_lld_init.
  apply (wp_assoc3 (sdObjectInit USART1)). apply wp_bind, wp_setup; [done|]. intros w1 M1 S1 C1 O1.
  apply wp_setup.
  { specialize (O1 USART2 ltac:(done)). unfold buffers_ok, view in *. by injection O1 as ->. }
  intros w2 M2 S2 C2 O2. specialize (O1 USART2 ltac:(done)). specialize (O2 USART1 ltac:(done)).
  apply HQ. intros []; split_and!.
  - by apply (view_models _ _ w1).
  - by injection O2 as ->.
  - by injection O2 as ->.
  - replace (empty_chan USART2 w) with (empty_chan USART2 w1); [done|]. unfold empty_chan. by injection O1 as _ -> -> ->.
  - done.
  - done.
Qed.

(** After the start-up both units are stopped with empty queues;
    a unit is then started with the default configuration, its transmitter's
    interrupt off; and stopping it discards what the queues hold and leaves the
    unit disabled. *)
Theorem serial_lifecycle u w :
  buffers_ok USART1 w → buffers_ok USART2 w →
  wp sdInit (λ _ w1, (∀ u, models u (empty_chan u w) w1 ∧ sd_state (sd u w1) = SD_STOP) ∧
    wp (sdStart u None) (λ _ w2, sd_state (sd u w2) = SD_READY ∧ models u (set_ctl 0x12D (empty_chan u w)) w2 ∧
      ∀ c w3, models u c w3 → sd_state (sd u w3) = SD_READY →
        wp (sdStop u) (λ _ w4, sd_state (sd u w4) = SD_STOP ∧ models u (set_ctl 0 (set_in [] (set_out [] c))) w4) w3) w1) w.
Proof.
  intros B1 B2. apply wp_sdInit; [done|done|]. intros w' Hw. split; [intros u'; by destruct (Hw u') as (? & ? & _)|].
  destruct (Hw u) as (M & _ & Hc). apply (wp_start u None _ _ _ M Hc); [|done].
  intros v w2 S2 M2 ->. split_and!; [done|exact M2|]. intros c w3. apply wp_stop.
Qed.

End spec.

End SerialSpecs.
