(* ===== verification/SerialKernel.v ===== *)
(** * The serial driver on the kernel

    The services the driver's interrupt handlers run over, implemented by the
    kernel: what an interrupt does to the threads that wait for the queues and to
    those that listen to the unit's events. *)

From S2P Require Import Prelude SysTime Fw VTimers Memory Kernel Sync Threads Events System Osal Sched KInv KOps KWake EvtSpecs Queues CanKernel Mmio SerialDrv SerialSpecs.
From stdpp Require Import list.
Import SysTime Kernel Threads Events Sched KInv KOps KWake EvtSpecs Queues CanKernel Mmio SerialDrv SerialSpecs.
#[local] Open Scope Z_scope.

Module SerialKernel.

(** A control register that keeps what is written to it. *)
Class UsartHw (HW : Type) `{!Mmio HW} := {
  hw_cr1 : HW → usart → Z;
  hw_val u h : (mm_rd (rUSART u CR1) h).1 = hw_cr1 h u;
  hw_rd r h : hw_cr1 (mm_rd r h).2 = hw_cr1 h;
  hw_wr r v h u : hw_cr1 (mm_wr r v h) u = match r with rUSART u' CR1 => if decide (u' = u) then v else hw_cr1 h u | _ => hw_cr1 h u end
}.

(** The kernel's state, the hardware, the drivers' objects, and, as no part of
    the program, the bytes sent and the flags added so far. *)
Record board (HW : Type) := { s_k : kernel; s_hw : HW; s_drv : drivers; s_sent : usart → list Z; s_flags : usart → list Z }.
Arguments s_k {HW}.
Arguments s_hw {HW}.
Arguments s_drv {HW}.
Arguments s_sent {HW}.
Arguments s_flags {HW}.

Section board.
Context {HW : Type} `{!Mmio HW, !UsartHw HW}.
Implicit Types (u : usart) (b : board HW).

Definition with_kernel (k : kernel) b : board HW :=
  {| s_k := k; s_hw := s_hw b; s_drv := s_drv b; s_sent := s_sent b; s_flags := s_flags b |}.

#[export] Instance board_mmio : Mmio (board HW) := {
  mm_rd r b := ((mm_rd r (s_hw b)).1,
    {| s_k := s_k b; s_hw := (mm_rd r (s_hw b)).2; s_drv := s_drv b; s_sent := s_sent b; s_flags := s_flags b |});
  mm_wr r v b :=
    {| s_k := s_k b; s_hw := mm_wr r v (s_hw b); s_drv := s_drv b;
       s_sent := match r with rUSART u TDR => upd (s_sent b) u (s_sent b u ++ [v]) | _ => s_sent b end; s_flags := s_flags b |}
}.
#[export] Instance board_drivers : Obj (board HW) drivers := {
  obj := s_drv;
  set_obj d b := {| s_k := s_k b; s_hw := s_hw b; s_drv := d; s_sent := s_sent b; s_flags := s_flags b |}
}.

(** The kernel objects in the drivers', and the calls that block, which no
    handler makes. *)
Variable queue_no : squeue → nat.
Variable event_no : usart → nat.
Variable wait : squeue → Z → board HW → Z * board HW.
Variable reschedule : kernel → kernel.

(** A kernel service; the state a failure is found in is the last one. *)
Definition on_kernel (m : fw kernel unit) b : board HW :=
  match m (s_k b) with Ok (_, k) => with_kernel k b | Err _ => b end.

Definition service (o : so_call) : board HW → board HW :=
  match o with
  | QueueInit q => on_kernel (Osal.osalThreadQueueObjectInit (queue_no q))
  | EventInit u => on_kernel (Osal.osalEventObjectInit (event_no u))
  | WakeOne q msg => on_kernel (Osal.osalThreadDequeueNextI (queue_no q) msg)
  | WakeAll q msg => on_kernel (Osal.osalThreadDequeueAllI (queue_no q) msg)
  | Reschedule => λ b, with_kernel (reschedule (s_k b)) b
  end.

#[export] Instance board_os : SerialOs (board HW) := {
  so_do := service;
  so_wait := wait;
  so_add_flags u flags b :=
    let b' := on_kernel (Osal.osalEventBroadcastFlagsI (event_no u) flags) b in
    {| s_k := s_k b'; s_hw := s_hw b'; s_drv := s_drv b'; s_sent := s_sent b'; s_flags := upd (s_flags b) u (s_flags b u ++ [flags]) |}
}.

Lemma on_kernel_rest m b :
  s_hw (on_kernel m b) = s_hw b ∧ s_drv (on_kernel m b) = s_drv b ∧ s_sent (on_kernel m b) = s_sent b ∧ s_flags (on_kernel m b) = s_flags b.
Proof. unfold on_kernel. by destruct (m (s_k b)) as [[[] k]|]. Qed.

Lemma service_rest o b :
  s_hw (service o b) = s_hw b ∧ s_drv (service o b) = s_drv b ∧ s_sent (service o b) = s_sent b ∧ s_flags (service o b) = s_flags b.
Proof. destruct o; try apply on_kernel_rest. done. Qed.

#[export] Instance board_laws : ObjLaws (board HW) drivers.
Proof. by split. Qed.

#[export] Instance board_world : SerialWorld (board HW).
Proof.
  refine {| cr1 b := hw_cr1 (s_hw b); sent := s_sent; flags := s_flags |}; cbn; try done.
  - intros. apply hw_val.
  - intros. apply hw_rd.
  - intros. apply hw_wr.
  - intros o w. f_equal. apply service_rest.
  - intros u f w. f_equal. apply on_kernel_rest.
  - intros r v w u. unfold upd. destruct r as [| | | |u' []| | | | | |]; try done. repeat case_decide; congruence.
  - intros o w. apply service_rest.
  - intros u f w. apply on_kernel_rest.
  - intros o w. apply service_rest.
  - intros u f w u'. unfold upd. repeat case_decide; congruence.
Defined.

Hypothesis wait_immediate : ∀ q b, wait q TIME_IMMEDIATE b = (Q_TIMEOUT, b).

#[local] Instance board_os_laws : SerialOsLaws (board HW).
Proof.
  split; cbn.
  - intros o w. apply service_rest.
  - intros u f w. apply on_kernel_rest.
  - apply wait_immediate.
Qed.

(** ** What a run does to the kernel *)

Variable idle : nat.
Notation kinv := (kinv idle).

(** The kernel stays well formed, and its threads are told of events, or woken. *)
Definition calm b b' : Prop := kinv (s_k b) → kinv (s_k b') ∧ ∀ x, told (s_k b) (s_k b') x.
Definition calmly {A} (m : fw (board HW) A) : Prop := ∀ b a b', m b = Ok (a, b') → calm b b'.

#[local] Instance calm_refl : Reflexive calm.
Proof. intros b Hk. split; [done|intros; apply told_refl]. Qed.

#[local] Instance calm_trans : Transitive calm.
Proof. intros b1 b2 b3 H1 H2 Hk. destruct (H1 Hk) as [Hk1 T1]. destruct (H2 Hk1) as [Hk2 T2]. split; [done|]. intros x. by eapply told_trans. Qed.

Lemma calm_kernel b b' : s_k b' = s_k b → calm b b'.
Proof. intros E Hk. rewrite E. split; [done|intros; apply told_refl]. Qed.

Lemma calmly_bind {A B} (m : fw (board HW) A) (f : A → fw (board HW) B) : calmly m → (∀ a, calmly (f a)) → calmly (m ≫= f).
Proof. intros Hm Hf b a b' (x & b1 & E1 & E2)%fw_bind_Ok. etrans; [by eapply Hm|by eapply Hf]. Qed.

Lemma calmly_when c (m : fw (board HW) unit) : calmly m → calmly (when c m).
Proof. intros Hm. destruct c; [done|]. by intros b a b' [= _ <-]. Qed.

Lemma calmly_frames {A} (m : fw (board HW) A) : frames s_k m → calmly m.
Proof. intros Hm b a b' E. by apply calm_kernel, (Hm _ _ _ E). Qed.

Lemma calmly_modify f : (∀ b, calm b (f b)) → calmly (modify f).
Proof. intros Hf b a b' [= _ <-]. apply Hf. Qed.

(** The services of the handlers. *)
Lemma calm_flags u flags b : calm b (so_add_flags u flags b).
Proof.
  intros Hk. destruct (notify_all_tells idle flags (es_next (s_k b) (event_no u)) (s_k b) Hk) as (k' & E & H' & T & _).
  cbn. unfold on_kernel, Osal.osalEventBroadcastFlagsI, chEvtBroadcastFlagsI. by rewrite (fw_bind_ok _ _ _ _ _ eq_refl), E.
Qed.

Lemma dequeue_next_tells q k :
  kinv k →
  ∃ k', chThdDequeueNextI q MSG_OK k = Ok (tt, k') ∧ kinv k' ∧ (∀ x, told k k' x)
    ∧ ∀ t l, queues k (QThd q) = t :: l → woken_ok k' t.
Proof.
  intros Hk. unfold chThdDequeueNextI, queue_notempty. rewrite (fw_bind_ok _ _ _ _ _ eq_refl).
  destruct (queues k (QThd q)) as [|t l] eqn:Eq; cbn [when bool_decide].
  { exists k. split_and!; [done|done|intros; apply told_refl|done]. }
  destruct (pops_set_ready idle (QThd q) MSG_OK Logic.I ltac:(done) k t l Hk Eq) as (k' & E & H' & _ & _ & M & _).
  exists k'. split_and!; [exact E|done| |].
  - intros x. split; [|unfold woken_ok]; rewrite (M x); case_decide; [done|done|by right|by left].
  - intros t' l' [= -> ->]. unfold woken_ok. rewrite (M t'), decide_True by by left. done.
Qed.

Lemma wake_one_eq q b k : chThdDequeueNextI (queue_no q) MSG_OK (s_k b) = Ok (tt, k) → so_do (WakeOne q MSG_OK) b = with_kernel k b.
Proof. intros E. cbn. unfold on_kernel, Osal.osalThreadDequeueNextI. by rewrite E. Qed.

Lemma calm_wake_one q b : calm b (so_do (WakeOne q MSG_OK) b).
Proof. intros Hk. destruct (dequeue_next_tells (queue_no q) (s_k b) Hk) as (k' & E & H' & T & _). by rewrite (wake_one_eq _ _ _ E). Qed.

#[local] Existing Instances in_queue out_queue.

(** The queues of the drivers: only their threads are in the kernel. *)
Lemma put_wakes u x r b b' :
  chIQPutI (H:=in_queue u) x b = Ok (r, b') →
  r = Q_FULL ∧ b' = b ∨ r = Q_OK ∧ ∃ b1, s_k b1 = s_k b ∧ b' = so_do (WakeOne (InQ u) MSG_OK) b1.
Proof.
  unfold chIQPutI, chIQIsFullI. intros (full & b0 & [= <- <-] & E)%fw_bind_Ok. destruct (_ && _); [left; by injection E as <- <-|right].
  inv_fw. split; [done|]. eexists. split; [|reflexivity]. done.
Qed.

Lemma get_wakes u r b b' :
  chOQGetI (H:=out_queue u) b = Ok (r, b') →
  r = Q_EMPTY ∧ b' = b ∨ ∃ b1, s_k b1 = s_k b ∧ b' = so_do (WakeOne (OutQ u) MSG_OK) b1.
Proof.
  unfold chOQGetI, chOQIsEmptyI. intros (e & b0 & [= <- <-] & E)%fw_bind_Ok. destruct (_ && _); [left; by injection E as <- <-|right].
  inv_fw. eexists. split; [|reflexivity]. done.
Qed.

Lemma calmly_put u x : calmly (chIQPutI (H:=in_queue u) x).
Proof.
  intros b r b' [[_ ->]|[_ (b1 & E & ->)]]%put_wakes; [done|]. etrans; [by apply calm_kernel|]. apply calm_wake_one.
Qed.

Lemma calmly_get u : calmly (chOQGetI (H:=out_queue u)).
Proof.
  intros b r b' [[_ ->]|(b1 & E & ->)]%get_wakes; [done|]. etrans; [by apply calm_kernel|]. apply calm_wake_one.
Qed.

Ltac calmly_tac :=
  repeat first
    [ apply calmly_put | apply calmly_get | apply calmly_bind; [|intros ?] | apply calmly_when
    | apply calmly_modify; intros; apply calm_flags
    | match goal with |- calmly (if ?b then _ else _) => destruct b end
    | apply calmly_frames; by frames_tac ].

Lemma calmly_incoming u x : calmly (sdIncomingDataI u x).
Proof. unfold sdIncomingDataI, chnAddFlagsI, chIQIsEmptyI. calmly_tac. Qed.

(** [static q e x]: the threads in queue [q], the listeners of [e], and what [x]
    listens to. *)
Definition static (q e x : nat) (k : kernel) :=
  (queues k (QThd q), es_next k e, (el_listener (lsn k x), el_events (lsn k x), el_wflags (lsn k x))).

Lemma static_notify q e x flags l : frames (static q e x) (notify_all flags l).
Proof.
  induction l as [|el l IH]; cbn [notify_all]; [frames_tac|]. unfold notify_listener, chEvtSignalI. frames_tac; try done.
  unfold static. cbn. unfold upd. by case_decide; subst.
Qed.

Lemma static_dequeue q e x q' m : q' ≠ q → frames (static q e x) (chThdDequeueNextI q' m).
Proof.
  intros Hq. unfold chThdDequeueNextI, chThdDoDequeueNextI, queue_notempty, queue_fifo_remove, thd_set. frames_tac; try done.
  intros k t k'. destruct (queues k (QThd q')) eqn:E; [done|]. intros [= _ <-]. unfold static. cbn. by rewrite upd_ne by congruence.
Qed.

Lemma static_on_kernel q e x m b : frames (static q e x) m → static q e x (s_k (on_kernel m b)) = static q e x (s_k b).
Proof. intros Hm. unfold on_kernel. destruct (m (s_k b)) as [[[] k]|] eqn:E; [|done]. by apply Hm in E. Qed.

Lemma static_flags q e x u f b : static q e x (s_k (so_add_flags u f b)) = static q e x (s_k b).
Proof.
  cbn. apply static_on_kernel. unfold Osal.osalEventBroadcastFlagsI, chEvtBroadcastFlagsI. frames_tac. apply static_notify.
Qed.

Lemma frames_incoming {A} (f : board HW → A) u x :
  (∀ d b, f (set_obj d b) = f b) → (∀ fl b, f (so_add_flags u fl b) = f b) → (∀ m b, f (so_do (WakeOne (InQ u) m) b) = f b) →
  frames f (sdIncomingDataI u x).
Proof.
  intros H1 H2 H3. unfold sdIncomingDataI, chnAddFlagsI, chIQIsEmptyI, chIQPutI, chIQIsFullI.
  frames_tac; cbn [setq q_wake_one in_queue]; unfold set_sd; auto.
Qed.

Notation waits q b := (queues (s_k b) (QThd (queue_no q))).

(** A byte stored wakes the first thread that waits for it, and tells the
    listeners when it is the first. *)
Lemma wp_runs {A} (m : fw (board HW) A) (Q : A → board HW → Prop) b a b' : m b = Ok (a, b') → wp m Q b → Q a b'.
Proof. unfold wp. by intros ->. Qed.

Lemma informs u fl b el :
  kinv (s_k b) → el ∈ es_next (s_k b) (event_no u) → Z.land fl (el_wflags (lsn (s_k b) el)) ≠ 0 →
  informed (el_listener (lsn (s_k b) el)) (el_events (lsn (s_k b) el)) (s_k b) (s_k (so_add_flags u fl b)).
Proof.
  intros Hk. destruct (notify_all_tells idle fl (es_next (s_k b) (event_no u)) (s_k b) Hk) as (k' & E & _ & _ & I).
  cbn. unfold on_kernel, Osal.osalEventBroadcastFlagsI, chEvtBroadcastFlagsI. rewrite (fw_bind_ok _ _ _ _ _ eq_refl), E. apply I.
Qed.

Lemma wakes q b b1 b' t l :
  kinv (s_k b) → s_k b1 = s_k b → waits q b = t :: l → calm (so_do (WakeOne q MSG_OK) b1) b' → woken_ok (s_k b') t.
Proof.
  intros Hk E1 Eq Hc. rewrite <-E1 in Hk. destruct (dequeue_next_tells (queue_no q) (s_k b1) Hk) as (k' & E & H' & _ & Hw).
  rewrite (wake_one_eq _ _ _ E) in Hc. destruct (Hc H') as [_ T]. rewrite <-E1 in Eq. eapply woken_told; [by eapply Hw|apply T].
Qed.

Lemma incoming_wakes u x c b b' :
  sdIncomingDataI u x b = Ok (tt, b') → 0 <= x → kinv (s_k b) → models u c b →
  (∀ t l, length (c_in c) ≠ SERIAL_BUFFERS_SIZE → waits (InQ u) b = t :: l → woken_ok (s_k b') t)
  ∧ (∀ el, c_in c = [] → el ∈ es_next (s_k b) (event_no u) → Z.land CHN_INPUT_AVAILABLE (el_wflags (lsn (s_k b) el)) ≠ 0 →
      informed (el_listener (lsn (s_k b) el)) (el_events (lsn (s_k b) el)) (s_k b) (s_k b')).
Proof.
  intros (e & b0 & Ee & (a & b1 & E1 & (r & b2 & E2 & E3)%fw_bind_Ok)%fw_bind_Ok)%fw_bind_Ok Hx Hk M.
  destruct (wp_runs _ (λ e b0, e = bool_decide (c_in c = []) ∧ b0 = b) _ _ _ Ee) as [-> ->]; [by apply (wp_is_empty_in u c)|].
  assert (∃ c1, models u c1 b1 ∧ c_in c1 = c_in c) as (c1 & M1 & I1).
  { case_bool_decide; injection E1 as <- <-; [|by exists c].
    exists (add_flags [CHN_INPUT_AVAILABLE] c). split; [|done]. exact (models_add u CHN_INPUT_AVAILABLE c b M). }
  assert (r = if decide (length (c_in c) = SERIAL_BUFFERS_SIZE) then Q_FULL else Q_OK) as Er.
  { rewrite <-I1. by eapply (wp_runs _ (λ r _, r = _) _ _ _ E2), (wp_put_in u x c1 b1). }
  assert (calm b b1 ∧ calm b1 b2 ∧ calm b2 b') as (C1 & C2 & C3).
  { split_and!; [|by eapply calmly_put|].
    - case_bool_decide; injection E1 as <- <-; [apply calm_flags|done].
    - destruct (r <? Q_OK); injection E3 as <-; [apply calm_flags|done]. }
  split.
  - intros t l Hl Eq. rewrite decide_False in Er by done. subst r.
    apply put_wakes in E2 as [[? _]|[_ (b3 & E4 & ->)]]; [done|].
    apply (wakes (InQ u) b1 b3 b' t l); [by apply C1|done| |done]. rewrite <-Eq.
    assert (∀ e x, static (queue_no (InQ u)) e x (s_k b1) = static (queue_no (InQ u)) e x (s_k b)) as Hs.
    { intros. case_bool_decide; injection E1 as <- <-; [apply static_flags|done]. }
    by specialize (Hs 0%nat 0%nat) as [= -> _ _].
  - intros el Ec Hel Hz. rewrite bool_decide_eq_true_2 in E1 by done. injection E1 as <- <-.
    eapply informed_told; [by apply informs|]. destruct (C1 Hk) as [H1 _]. destruct (C2 H1) as [H2 T2]. destruct (C3 H2) as [_ T3].
    eapply told_trans; [apply T2|apply T3].
Qed.

(** A byte taken for transmission wakes the first thread that waits for room. *)
Lemma transmit_wakes u c b r b1 b' t l :
  chOQGetI (H:=out_queue u) b = Ok (r, b1) → calm b1 b' → kinv (s_k b) → models u c b → c_out c ≠ [] →
  waits (OutQ u) b = t :: l → woken_ok (s_k b') t.
Proof.
  intros E Hc Hk M Ho Eq.
  assert (r ≠ Q_EMPTY) as Hr.
  { apply (wp_runs _ (λ r _, r ≠ Q_EMPTY) _ _ _ E), (wp_get_out u c); [done|done|]. intros x ? ? ? Hx _ ->. done. }
  apply get_wakes in E as [[? _]|(b2 & E2 & ->)]; [done|]. by apply (wakes (OutQ u) b b2 b' t l).
Qed.

(** The channel seen from the driver's variables. *)
Definition seen u c b : chan := {| c_in := c_in c; c_out := c_out c; c_sent := sent b u; c_flags := flags b u; c_ctl := cr1 b u |}.

Lemma models_seen u c b b' : sd u b' = sd u b → models u c b → models u (seen u c b') b'.
Proof.
  intros E [M1 M2 M3 M4 M5]. split; [eapply iq_ok_same; [|exact M1]|eapply oq_ok_same; [|exact M2]|done..]; by rewrite E.
Qed.

(** What the statements before the data leave alone. *)
Definition status_part u : fw (board HW) (Z * Z) :=
  cr1 ← rd (rUSART u CR1);
  isr ← rd (rUSART u ISR);
  wr (rUSART u ICR) isr;;
  when (any error_bits isr) (set_error u isr);;
  when (any USART_ISR_LBDF isr) (chnAddFlagsI u SD_BREAK_DETECTED);;
  ret (cr1, isr).

Lemma calmly_status u : calmly (status_part u).
Proof. unfold status_part, set_error, chnAddFlagsI. calmly_tac. Qed.

Lemma frames_status {A} (f : board HW → A) u :
  (∀ r b, f (mm_rd r b).2 = f b) → (∀ r v b, f (mm_wr r v b) = f b) → (∀ fl b, f (so_add_flags u fl b) = f b) → frames f (status_part u).
Proof. intros H1 H2 H3. unfold status_part, set_error, chnAddFlagsI. frames_tac; auto. Qed.

Definition receive_part u (isr : Z) : fw (board HW) unit :=
  when (any USART_ISR_RXNE isr) (x ← rd (rUSART u RDR); sdIncomingDataI u (u8 x)).

Definition transmit_part u (cr isr : Z) : fw (board HW) unit :=
  when (any USART_CR1_TXEIE cr && any USART_ISR_TXE isr)
    (x ← chOQGetI (H:=out_queue u);
     if x <? Q_OK then
       chnAddFlagsI u CHN_OUTPUT_EMPTY;;
       wr (rUSART u CR1) (Z.lor (Z.ldiff cr USART_CR1_TXEIE) USART_CR1_TCIE)
     else wr (rUSART u TDR) x).

Definition complete_part u (cr isr : Z) : fw (board HW) unit :=
  when (any USART_ISR_TC isr)
    (empty ← chOQIsEmptyI (H:=out_queue u);
     when (empty : bool) (chnAddFlagsI u CHN_TRANSMISSION_END);;
     wr (rUSART u CR1) (Z.ldiff cr USART_CR1_TCIE)).

Lemma calmly_receive u isr : calmly (receive_part u isr).
Proof. unfold receive_part. calmly_tac. Qed.
Lemma transmit_end u cr x :
  calmly (if x <? Q_OK then
       chnAddFlagsI u CHN_OUTPUT_EMPTY;;
       wr (rUSART u CR1) (Z.lor (Z.ldiff cr USART_CR1_TXEIE) USART_CR1_TCIE)
     else wr (rUSART u TDR) x).
Proof. unfold chnAddFlagsI. calmly_tac. Qed.
Lemma calmly_transmit u cr isr : calmly (transmit_part u cr isr).
Proof. unfold transmit_part. apply calmly_when, calmly_bind; [apply calmly_get|intros; apply transmit_end]. Qed.
Lemma calmly_complete u cr isr : calmly (complete_part u cr isr).
Proof. unfold complete_part, chnAddFlagsI, chOQIsEmptyI. calmly_tac. Qed.

Lemma serve_parts u b b' :
  serve_interrupt u b = Ok (tt, b') →
  let cr := cr1 b u in let isr := (mm_rd (rUSART u ISR) (mm_rd (rUSART u CR1) b).2).1 in
  ∃ b1 b2 b3, status_part u b = Ok ((cr, isr), b1) ∧ receive_part u isr b1 = Ok (tt, b2)
    ∧ transmit_part u cr isr b2 = Ok (tt, b3) ∧ complete_part u cr isr b3 = Ok (tt, b').
Proof.
  intros E cr isr. unfold serve_interrupt in E.
  apply fw_bind_Ok in E as (cr' & b1 & E1 & E). apply fw_bind_Ok in E as (isr' & b2 & E2 & E).
  assert (cr' = cr) as -> by (unfold cr; rewrite <-cr1_val; by injection E1 as <- _).
  assert (isr' = isr) as -> by (unfold isr; injection E1 as _ <-; by injection E2 as <- _).
  apply fw_bind_Ok in E as ([] & b3 & E3 & E). apply fw_bind_Ok in E as ([] & b4 & E4 & E). apply fw_bind_Ok in E as ([] & b5 & E5 & E).
  apply fw_bind_Ok in E as ([] & b6 & E6 & E). apply fw_bind_Ok in E as ([] & b7 & E7 & E8).
  exists b5, b6, b7. split_and!; [|exact E6|exact E7|exact E8].
  unfold status_part. rewrite (fw_bind_ok _ _ _ _ _ E1), (fw_bind_ok _ _ _ _ _ E2), (fw_bind_ok _ _ _ _ _ E3), (fw_bind_ok _ _ _ _ _ E4).
  by rewrite (fw_bind_ok _ _ _ _ _ E5).
Qed.

(** The threads of a queue that the part wakes none of. *)
Lemma static_receive q e x u isr : q ≠ queue_no (InQ u) → frames (λ b, static q e x (s_k b)) (receive_part u isr).
Proof.
  intros Hq. unfold receive_part. apply frames_when, frames_bind; [by apply frames_rd|]. intros y.
  apply frames_incoming; [done|intros; apply static_flags|]. intros m b. cbn. apply static_on_kernel. by apply static_dequeue.
Qed.

Lemma receive_wakes u isr c b b' :
  receive_part u isr b = Ok (tt, b') → any USART_ISR_RXNE isr = true → kinv (s_k b) → models u c b →
  (∀ t l, length (c_in c) ≠ SERIAL_BUFFERS_SIZE → waits (InQ u) b = t :: l → woken_ok (s_k b') t)
  ∧ (∀ el, c_in c = [] → el ∈ es_next (s_k b) (event_no u) → Z.land CHN_INPUT_AVAILABLE (el_wflags (lsn (s_k b) el)) ≠ 0 →
      informed (el_listener (lsn (s_k b) el)) (el_events (lsn (s_k b) el)) (s_k b) (s_k b')).
Proof.
  intros E Hr Hk M. unfold receive_part in E. rewrite Hr in E. cbn [when] in E. rewrite (fw_bind_ok _ _ _ _ _ eq_refl) in E.
  apply (incoming_wakes u _ c _ _ E); [apply u8_range|exact Hk|exact (models_rd u (rUSART u RDR) c b M)].
Qed.

Lemma receive_models u isr c b b' :
  receive_part u isr b = Ok (tt, b') → models u c b → ∃ c', models u c' b' ∧ c_out c' = c_out c.
Proof.
  intros E M. unfold receive_part in E. destruct (any _ isr); cbn [when] in E; [|injection E as <-; by exists c].
  apply fw_bind_Ok in E as (x & b1 & E1 & E2).
  assert (models u c b1) as M1 by (injection E1 as _ <-; exact (models_rd u (rUSART u RDR) c b M)).
  pose proof (wp_runs _ _ _ _ _ E2 (wp_incoming u (u8 x) c b1 M1 ltac:(apply u8_range))) as M2. cbn beta in M2.
  eexists. split; [exact M2|]. unfold receive. destruct (c_in c); cbn; by case_decide.
Qed.

(** C17 (liveness). An interrupt of a unit, over the kernel, does what it does to
    the channel, with the byte read from the receiver's data register, and reaches
    the threads concerned. A byte that is received and stored makes the first thread waiting for input ready, with [MSG_OK], and when
    it is the first the listeners of the unit have their events pending, and do not
    wait for them any more; a byte handed to the transmitter makes the first
    thread waiting for room ready, with [MSG_OK]. No event pending before is lost,
    and the kernel is well formed. *)
Theorem interrupt_wakes u c b :
  models u c b → kinv (s_k b) → queue_no (InQ u) ≠ queue_no (OutQ u) →
  let isr := (mm_rd (rUSART u ISR) (mm_rd (rUSART u CR1) b).2).1 in
  ∃ b', serve_interrupt u b = Ok (tt, b') ∧ 0 <= received u b < 256 ∧ models u (interrupt isr (received u b) c) b' ∧ kinv (s_k b')
    ∧ (any USART_ISR_RXNE isr = true → length (c_in c) ≠ SERIAL_BUFFERS_SIZE →
       ∀ t l, waits (InQ u) b = t :: l → t ∈ queues (s_k b') QReady ∧ woken_ok (s_k b') t)
    ∧ (any USART_ISR_RXNE isr = true → c_in c = [] →
       ∀ el, el ∈ es_next (s_k b) (event_no u) → Z.land CHN_INPUT_AVAILABLE (el_wflags (lsn (s_k b) el)) ≠ 0 →
       informed (el_listener (lsn (s_k b) el)) (el_events (lsn (s_k b) el)) (s_k b) (s_k b'))
    ∧ (any USART_CR1_TXEIE (c_ctl c) && any USART_ISR_TXE isr = true → c_out c ≠ [] →
       ∀ t l, waits (OutQ u) b = t :: l → t ∈ queues (s_k b') QReady ∧ woken_ok (s_k b') t)
    ∧ (∀ t i, Z.testbit (p_epending (thd (s_k b) t)) i = true → Z.testbit (p_epending (thd (s_k b') t)) i = true).
Proof.
  intros M Hk Hq isr. destruct (interrupt_as_channel u c b M) as (b' & E & M' & _). exists b'.
  destruct (serve_parts u b b' E) as (b1 & b2 & b3 & E1 & E2 & E3 & E4). fold isr in E1, E2, E3, E4.
  rewrite (m_ctl _ _ _ M) in E3, E4.
  pose proof (calmly_status _ _ _ _ E1) as C1. pose proof (calmly_receive _ _ _ _ _ E2) as C2.
  pose proof (calmly_transmit _ _ _ _ _ _ E3) as C3. pose proof (calmly_complete _ _ _ _ _ _ E4) as C4.
  destruct (C1 Hk) as [H1 T1]. destruct (C2 H1) as [H2 T2]. destruct (C3 H2) as [H3 T3]. destruct (C4 H3) as [H' T4].
  assert (∀ t, woken_ok (s_k b') t → t ∈ queues (s_k b') QReady ∧ woken_ok (s_k b') t) as Hready.
  { intros t Hw. split; [|done]. apply (ready_queued idle); [done|apply Hw]. }
  assert (∀ q e y, static q e y (s_k b1) = static q e y (s_k b)) as S1.
  { intros q e y. apply (frames_status (λ b, static q e y (s_k b)) u) in E1; [done..|intros; apply static_flags]. }
  assert (sd u b1 = sd u b) as D1 by exact (frames_status (sd u) u (sd_rd u) (sd_wr u) (λ fl b, sd_add u u fl b) _ _ _ E1).
  pose proof (models_seen u c b b1 D1 M) as M1.
  assert (∀ t, told (s_k b2) (s_k b') t) as T24 by (intros t; eapply told_trans; [apply T3|apply T4]).
  split_and!; [exact E|apply received_range|apply received_range|exact M'|exact H'| | | |].
  - intros Hr Hn t l Eq. apply Hready. eapply (woken_told (s_k b2)); [|apply T24].
    destruct (receive_wakes _ _ _ _ _ E2 Hr H1 M1) as [Hw _]. apply (Hw t l Hn).
    specialize (S1 (queue_no (InQ u)) 0%nat 0%nat) as [= S1 _ _ _ _]. congruence.
  - intros Hr Hi el Hel Hz. destruct (receive_wakes _ _ _ _ _ E2 Hr H1 M1) as [_ Hw].
    specialize (S1 0%nat (event_no u) el) as [= _ S2 S3 S4 S5].
    apply (informed_told _ _ _ (s_k b2)); [|apply T24]. apply (told_informed _ _ (s_k b) (s_k b1)); [done| |done].
    rewrite <-S3, <-S4. apply Hw; [exact Hi|by rewrite S2|by rewrite S5].
  - intros Ht Ho t l Eq. apply Hready. unfold transmit_part in E3. rewrite Ht in E3. cbn [when] in E3.
    apply fw_bind_Ok in E3 as (y & b3' & E3 & E3'). destruct (receive_models _ _ _ _ _ E2 M1) as (c2 & M2 & O2).
    apply (transmit_wakes u c2 b2 y b3' b' t l E3); [|exact H2|exact M2|by rewrite O2|].
    + intros Hk3. destruct (transmit_end _ _ _ _ _ _ E3' Hk3) as [Hk4 T5].
      destruct (C4 Hk4) as [Hk5 T6]. split; [done|]. intros z. eapply told_trans; [apply T5|apply T6].
    + pose proof (static_receive (queue_no (OutQ u)) 0 0 u isr (not_eq_sym Hq) _ _ _ E2) as [= S2 _ _ _ _].
      specialize (S1 (queue_no (OutQ u)) 0%nat 0%nat) as [= S1 _ _ _ _]. congruence.
  - intros t i Hi. apply (td_pending _ _ _ (T24 t)), (td_pending _ _ _ (T2 t)), (td_pending _ _ _ (T1 t)), Hi.
Qed.

End board.
End SerialKernel.
