(* ===== verification/SerialSim.v ===== *)
(** * Two simulated serial units

    A world with the laws the serial driver relies on - registers that keep what
    is written, a transmitter that is always empty, no thread to wake - and the
    witnesses of the driver's properties evaluated on it. *)

From S2P Require Import Prelude SysTime Fw Queues Kernel Safety CanKernel KSim Mmio SerialDrv SerialSpecs SerialKernel.
From stdpp Require Import list relations.
Import SysTime Queues Mmio SerialDrv SerialSpecs SerialKernel.
#[local] Open Scope Z_scope.

Module SerialSim.

Record sim := { regs : reg → Z; out : usart → list Z; told : usart → list Z; drvs : drivers }.

Definition sim_rd (r : reg) (w : sim) : Z * sim :=
  (match r with rUSART _ ISR => Z.lor USART_ISR_TXE (regs w r) | _ => regs w r end, w).
Definition sim_wr (r : reg) (v : Z) (w : sim) : sim :=
  {| regs := upd (regs w) r v;
     out := match r with rUSART u TDR => upd (out w) u (out w u ++ [v]) | _ => out w end;
     told := told w; drvs := drvs w |}.

#[export] Instance sim_mmio : Mmio sim := { mm_rd := sim_rd; mm_wr := sim_wr }.
#[export] Instance sim_obj : Obj sim drivers := {
  obj := drvs; set_obj d w := {| regs := regs w; out := out w; told := told w; drvs := d |}
}.
#[export] Instance sim_laws : ObjLaws sim drivers.
Proof. by split. Qed.
#[export] Instance sim_os : SerialOs sim := {
  so_do _ w := w;
  so_wait _ _ w := (Q_TIMEOUT, w);
  so_add_flags u f w := {| regs := regs w; out := out w; told := upd (told w) u (told w u ++ [f]); drvs := drvs w |}
}.

#[export] Instance sim_world : SerialWorld sim.
Proof.
  refine {| cr1 := λ w u, regs w (rUSART u CR1); sent := out; flags := told |}.
  all: try done.
  - intros r v w u. cbn. unfold upd. destruct r as [| | | |u' []| | | | | |]; repeat case_decide; congruence.
  - intros r v w u. cbn. unfold upd. destruct r as [| | | |u' []| | | | | |]; try done. repeat case_decide; congruence.
  - intros u f w u'. cbn. unfold upd. repeat case_decide; congruence.
Defined.
#[export] Instance sim_os_laws : SerialOsLaws sim.
Proof. by split. Qed.

Definition new_queue : io_queue := {| q_counter := 7; q_buffer := replicate 16 0; q_wrptr := 3; q_rdptr := 5 |}.
Definition blank : sim := {|
  regs := λ _, 0; out := λ _, []; told := λ _, [];
  drvs := λ _, {| sd_state := SD_UNINIT; iqueue := new_queue; oqueue := new_queue; clock := 0 |}
|}.

Lemma blank_buffers u : buffers_ok u blank.
Proof. by split. Qed.

Definition after {A} (m : fw sim A) (w : sim) : sim := match m w with Ok (_, w') => w' | Err _ => w end.
Lemma after_ok {A} (m : fw sim A) a w : (match m w with Ok (x, _) => Some x | Err _ => None end) = Some a → m w = Ok (a, after m w).
Proof. unfold after. destruct (m w) as [[x w']|]; [|done]. by intros [= ->]. Qed.

(** The first unit as the console finds it: started, with nothing in its queues. *)
Definition started : sim := after (sdInit;; sdStart USART1 None) blank.
Definition idle : chan := {| c_in := []; c_out := []; c_sent := []; c_flags := []; c_ctl := 0x12D |}.

Lemma started_models : models USART1 idle started.
Proof.
  assert (∀ u q, q = iqueue (sd u started) → q = {| q_counter := 0; q_buffer := replicate 16 0; q_wrptr := 0; q_rdptr := 0 |} →
    iq_ok (H:=in_queue u) SERIAL_BUFFERS_SIZE [] started) as Hi.
  { intros u q E1 E2. apply (iq_ok_empty u (replicate 16 0)); [congruence|done]. }
  split; try (vm_compute; reflexivity).
  - eapply Hi; [done|]. vm_compute. reflexivity.
  - apply (oq_ok_empty USART1 (replicate 16 0)); [vm_compute; reflexivity|done].
Qed.

(** Two bytes are accepted, and one is written by an interrupt. *)
Definition loaded : sim := after (putt 1 USART1 0x41 TIME_IMMEDIATE;; putt 1 USART1 0x42 TIME_IMMEDIATE) started.
Definition held : chan := {| c_in := []; c_out := [0x41; 0x42]; c_sent := []; c_flags := []; c_ctl := 0x1AD |}.

Lemma loaded_models : models USART1 held loaded.
Proof.
  destruct (put_models USART1 0x41 idle started started_models ltac:(lia)) as (w1 & E1 & M1).
  destruct (put_models USART1 0x42 _ w1 M1 ltac:(lia)) as (w2 & E2 & M2).
  unfold loaded, after. rewrite (fw_bind_ok _ _ _ _ _ E1), E2. exact M2.
Qed.

Definition first : sim := after (putt 1 USART1 0x41 TIME_IMMEDIATE) started.
Definition second : sim := after (putt 1 USART1 0x42 TIME_IMMEDIATE) first.
Definition third : sim := after (serve_interrupt USART1) second.

Lemma third_reached : rtc (serial_step USART1) (started, []) (third, [0x41; 0x42]).
Proof.
  eapply rtc_l; [apply (st_put _ 0x41 Q_OK _ first); [lia|apply after_ok; vm_compute; reflexivity]|].
  eapply rtc_l; [apply (st_put _ 0x42 Q_OK _ second); [lia|apply after_ok; vm_compute; reflexivity]|].
  apply rtc_once. apply st_interrupt, after_ok. vm_compute. reflexivity.
Qed.

(** ** Witnesses *)

Lemma output_never_lost_witness :
  ∃ c, models USART1 c third ∧ sent third USART1 ++ c_out c = [0x41; 0x42] ∧ (c_out c ≠ [] → any USART_CR1_TXEIE (cr1 third USART1) = true).
Proof. exact (output_never_lost USART1 idle started third [0x41; 0x42] started_models eq_refl eq_refl third_reached). Defined.

(** Then a character arrives; eight of the bits of the receiver's register are the
    byte. *)
Definition arriving : sim := mm_wr (rUSART USART1 RDR) 0x1C3 (mm_wr (rUSART USART1 ISR) USART_ISR_RXNE loaded).

Lemma arriving_models : models USART1 held arriving.
Proof. apply (view_models USART1 held loaded); [|exact loaded_models]. unfold arriving. by rewrite !view_wr_cfg. Qed.
Lemma arriving_received : received USART1 arriving = 0xC3.
Proof. vm_compute. reflexivity. Qed.

(** It is stored, and the first of the two bytes held goes out. *)
Definition exchanged : chan := {| c_in := [0xC3]; c_out := [0x42]; c_sent := [0x41]; c_flags := [CHN_INPUT_AVAILABLE]; c_ctl := 0x1AD |}.

Lemma exchange : interrupt (mm_rd (rUSART USART1 ISR) (mm_rd (rUSART USART1 CR1) arriving).2).1 (received USART1 arriving) held = exchanged.
Proof. rewrite arriving_received. vm_compute. reflexivity. Qed.

Lemma interrupt_refines_channel_witness :
  ∃ w', serve_interrupt USART1 arriving = Ok (tt, w') ∧ models USART1 exchanged w'.
Proof.
  destruct (interrupt_refines_channel USART1 held arriving arriving_models) as (w' & E & M & _).
  rewrite exchange in M. exists w'. split; [exact E|exact M].
Defined.

Lemma output_drains_witness :
  ∃ w', interrupts 2 USART1 loaded = Ok (tt, w') ∧ sent w' USART1 = [0x41; 0x42].
Proof.
  assert (∀ w : sim, any USART_ISR_TXE (mm_rd (rUSART USART1 ISR) w).1 = true) as Ht.
  { intros w. cbn. by rewrite any_lor. }
  destruct (output_drains USART1 held loaded Ht loaded_models (λ _, eq_refl)) as (c' & w' & E & _ & _ & S).
  exists w'. split; [exact E|exact S].
Defined.

Lemma serial_lifecycle_witness :
  wp sdInit (λ _ w1, wp (sdStart USART1 None) (λ _ w2, sd_state (sd USART1 w2) = SD_READY ∧ cr1 w2 USART1 = 0x12D) w1) blank.
Proof.
  eapply wp_mono; [|exact (serial_lifecycle USART1 blank (blank_buffers USART1) (blank_buffers USART2))].
  intros [] w1 [_ H]. eapply wp_mono; [|exact H]. intros [] w2 (H1 & M & _). split; [exact H1|exact (m_ctl _ _ _ M)].
Defined.

(** ** Over the kernel

    The main thread waits for input; the registers are those of the simulated
    units, and the status word reports a byte received. *)

#[export] Instance sim_usart : SerialKernel.UsartHw sim.
Proof.
  refine {| SerialKernel.hw_cr1 := λ w u, regs w (rUSART u CR1) |}; try done.
  intros r v w u. cbn. unfold upd. destruct r as [| | | |u' []| | | | | |]; repeat case_decide; congruence.
Defined.

Definition queue_no (q : squeue) : nat :=
  match q with InQ USART1 => 0 | OutQ USART1 => 1 | InQ USART2 => 2 | OutQ USART2 => 3 end.

Definition listening : SerialKernel.board sim := {|
  SerialKernel.s_k := Safety.s_k (KSim.scene KSim.queued);
  SerialKernel.s_hw := mm_wr (rUSART USART1 RDR) 0x41 (mm_wr (rUSART USART1 ISR) USART_ISR_RXNE started);
  SerialKernel.s_drv := drvs started; SerialKernel.s_sent := λ _, []; SerialKernel.s_flags := λ _, []
|}.
Definition no_wait (q : squeue) (time : Z) (b : SerialKernel.board sim) : Z * SerialKernel.board sim := (Q_TIMEOUT, b).

Section listening.
#[local] Instance os : SerialOs (SerialKernel.board sim) := SerialKernel.board_os queue_no (λ _, 5%nat) no_wait id.
#[local] Instance world : SerialWorld (SerialKernel.board sim) := SerialKernel.board_world queue_no (λ _, 5%nat) no_wait id.

Lemma listening_models : models USART1 idle listening.
Proof.
  split; try (vm_compute; reflexivity).
  - apply (iq_ok_empty USART1 (replicate 16 0)); [vm_compute; reflexivity|done].
  - apply (oq_ok_empty USART1 (replicate 16 0)); [vm_compute; reflexivity|done].
Qed.

Lemma interrupt_wakes_witness :
  ∃ b', serve_interrupt USART1 listening = Ok (tt, b') ∧ CanKernel.woken_ok (SerialKernel.s_k b') 1.
Proof.
  destruct (SerialKernel.interrupt_wakes queue_no (λ _, 5%nat) no_wait id (λ _ _, eq_refl) 0 USART1 idle listening)
    as (b' & E & _ & _ & _ & H & _).
  - apply listening_models.
  - apply (KSim.queued_inv).
  - discriminate.
  - exists b'. split; [exact E|]. refine (proj2 (H _ _ 1%nat [] _)).
    + vm_compute. reflexivity.
    + vm_compute. discriminate.
    + vm_compute. reflexivity.
Defined.
End listening.

End SerialSim.
