(* ===== verification/Pal.v ===== *)
(** * The pins (pal.c, pal.h, GPIOv2/pal_lld.c, GPIOv2/pal_lld.h)

    The configuration of the ports, and the modes, the levels and the buses of
    their pins. *)

From S2P Require Import Prelude Fw Mmio.
From stdpp Require Import list.
Import Mmio.
#[local] Open Scope Z_scope.

Module Pal.

(** ** Data *)

Definition PAL_STM32_MODE_MASK : Z := Z.shiftl 3 0.
Definition PAL_STM32_MODE_INPUT : Z := Z.shiftl 0 0.
Definition PAL_STM32_MODE_OUTPUT : Z := Z.shiftl 1 0.
Definition PAL_STM32_MODE_ALTERNATE : Z := Z.shiftl 2 0.
Definition PAL_STM32_MODE_ANALOG : Z := Z.shiftl 3 0.
Definition PAL_STM32_OTYPE_MASK : Z := Z.shiftl 1 2.
Definition PAL_STM32_OSPEED_MASK : Z := Z.shiftl 3 3.
Definition PAL_STM32_PUPDR_MASK : Z := Z.shiftl 3 5.
Definition PAL_STM32_PUPDR_PULLUP : Z := Z.shiftl 1 5.
Definition PAL_STM32_ALTERNATE_MASK : Z := Z.shiftl 15 7.
Definition PAL_STM32_ALTERNATE (n : Z) : Z := u32 (Z.shiftl n 7).
Definition PAL_PORT_BIT (n : Z) : Z := u32 (Z.shiftl 1 n).
Definition PAL_GROUP_MASK (width : Z) : Z := u32 (u32 (Z.shiftl 1 width) - 1).

Record stm32_gpio_setup_t := { moder : Z; otyper : Z; ospeedr : Z; pupdr : Z; odr : Z; afrl : Z; afrh : Z }.
Record PALConfig := { PAData : stm32_gpio_setup_t; PBData : stm32_gpio_setup_t; PCData : stm32_gpio_setup_t; PFData : stm32_gpio_setup_t }.
Record IOBus := { portid : gpio; mask : Z; offset : Z }.

(** [STM32_GPIO_EN_MASK]: the ports A, B, C and F. *)
Definition AHB_EN_MASK : Z := 0x4E0000.

Section pal.
Context {W : Type} `{!Mmio W}.
Implicit Types (p : gpio) (w : W).

(** ** Low level driver *)

Definition initgpio p (config : stm32_gpio_setup_t) : fw W unit :=
  wr (rGPIO p OTYPER) (otyper config);;
  wr (rGPIO p OSPEEDR) (ospeedr config);;
  wr (rGPIO p PUPDR) (pupdr config);;
  wr (rGPIO p ODR) (odr config);;
  wr (rGPIO p AFRL) (afrl config);;
  wr (rGPIO p AFRH) (afrh config);;
  wr (rGPIO p MODER) (moder config).

Definition _pal_lld_init (config : PALConfig) : fw W unit :=
  rccEnableAHB AHB_EN_MASK;;
  initgpio PA (PAData config);;
  initgpio PB (PBData config);;
  initgpio PC (PCData config);;
  initgpio PF (PFData config).

(** [reg = (reg & ~m) | f] *)
Definition put_bits p (r : gpio_reg) (m f : Z) : fw W unit :=
  v ← rd (rGPIO p r); wr (rGPIO p r) (Z.lor (Z.ldiff v m) f).

(** What the loop does with the pin [bit], [o], [s], [pu] and [mo] being the
    shifted fields. The masks shifted to the top of the register (3 << 30 and
    15 << 28, signed constants in the code) are the 32-bit words the compiler makes
    of them; a shift by the width or more is an error. *)
Definition set_pin p (mode altr bit o s pu mo : Z) : fw W unit :=
  if 16 <=? bit then throw SignedOverflow else
  let altrmask := u32 (Z.shiftl altr (Z.land bit 7 * 4)) in
  let m1 := u32 (Z.shiftl 1 bit) in
  let m2 := u32 (Z.shiftl 3 (bit * 2)) in
  let m4 := u32 (Z.shiftl 15 (Z.land bit 7 * 4)) in
  let afr := if bit <? 8 then AFRL else AFRH in
  put_bits p OTYPER m1 o;;
  put_bits p OSPEEDR m2 s;;
  put_bits p PUPDR m2 pu;;
  if Z.land mode PAL_STM32_MODE_MASK =? PAL_STM32_MODE_ALTERNATE then
    put_bits p afr m4 altrmask;;
    put_bits p MODER m2 mo
  else
    put_bits p MODER m2 mo;;
    put_bits p afr m4 altrmask.

(** The loop over the bits of the mask, of 32 bits. *)
Fixpoint set_pins (fuel : nat) p (mode altr bit mask o s pu mo : Z) : fw W unit :=
  match fuel with
  | O => throw OutOfFuel
  | S fuel =>
    when (negb (Z.land mask 1 =? 0)) (set_pin p mode altr bit o s pu mo);;
    let mask := Z.shiftr mask 1 in
    if mask =? 0 then ret tt
    else set_pins fuel p mode altr (bit + 1) mask (u32 (Z.shiftl o 1)) (u32 (Z.shiftl s 2)) (u32 (Z.shiftl pu 2)) (u32 (Z.shiftl mo 2))
  end.

Definition _pal_lld_setgroupmode p (mask mode : Z) : fw W unit :=
  let moder := Z.shiftr (Z.land mode PAL_STM32_MODE_MASK) 0 in
  let otyper := Z.shiftr (Z.land mode PAL_STM32_OTYPE_MASK) 2 in
  let ospeedr := Z.shiftr (Z.land mode PAL_STM32_OSPEED_MASK) 3 in
  let pupdr := Z.shiftr (Z.land mode PAL_STM32_PUPDR_MASK) 5 in
  let altr := Z.shiftr (Z.land mode PAL_STM32_ALTERNATE_MASK) 7 in
  set_pins 32 p mode altr 0 mask otyper ospeedr pupdr moder.

Definition pal_lld_readport p : fw W Z := rd (rGPIO p IDR).
Definition pal_lld_readlatch p : fw W Z := rd (rGPIO p ODR).
Definition pal_lld_writeport p (bits : Z) : fw W unit := wr (rGPIO p ODR) bits.
Definition pal_lld_setport p (bits : Z) : fw W unit := wr (rGPIO p BSRR_SET) (u16 bits).
Definition pal_lld_clearport p (bits : Z) : fw W unit := wr (rGPIO p BSRR_CLEAR) (u16 bits).
Definition pal_lld_writegroup p (mask offset bits : Z) : fw W unit :=
  wr (rGPIO p BSRR) (Z.lor (u32 (Z.shiftl (Z.ldiff mask bits) (16 + offset))) (u32 (Z.shiftl (Z.land bits mask) offset))).
Definition pal_lld_setgroupmode p (mask offset mode : Z) : fw W unit := _pal_lld_setgroupmode p (u32 (Z.shiftl mask offset)) mode.
Definition pal_lld_writepad p (pad bit : Z) : fw W unit := pal_lld_writegroup p 1 pad bit.

(** ** High level driver *)

Definition palInit (config : PALConfig) : fw W unit := _pal_lld_init config.
Definition palReadPort p : fw W Z := pal_lld_readport p.
Definition palReadLatch p : fw W Z := pal_lld_readlatch p.
Definition palWritePort p (bits : Z) : fw W unit := pal_lld_writeport p bits.
Definition palSetPort p (bits : Z) : fw W unit := pal_lld_setport p bits.
Definition palClearPort p (bits : Z) : fw W unit := pal_lld_clearport p bits.
Definition palTogglePort p (bits : Z) : fw W unit := latch ← palReadLatch p; palWritePort p (Z.lxor latch bits).
Definition palReadGroup p (mask offset : Z) : fw W Z := v ← palReadPort p; ret (Z.land (Z.shiftr v offset) mask).
Definition palWriteGroup p (mask offset bits : Z) : fw W unit := pal_lld_writegroup p mask offset bits.
Definition palSetGroupMode p (mask offset mode : Z) : fw W unit := pal_lld_setgroupmode p mask offset mode.
Definition palReadPad p (pad : Z) : fw W Z := v ← palReadPort p; ret (Z.land (Z.shiftr v pad) 1).
Definition palWritePad p (pad bit : Z) : fw W unit := pal_lld_writepad p pad bit.
Definition palSetPad p (pad : Z) : fw W unit := palSetPort p (PAL_PORT_BIT pad).
Definition palClearPad p (pad : Z) : fw W unit := palClearPort p (PAL_PORT_BIT pad).
Definition palTogglePad p (pad : Z) : fw W unit := palTogglePort p (PAL_PORT_BIT pad).
Definition palSetPadMode p (pad mode : Z) : fw W unit := palSetGroupMode p (PAL_PORT_BIT pad) 0 mode.

Definition palReadBus (bus : IOBus) : fw W Z := palReadGroup (portid bus) (mask bus) (offset bus).
Definition palWriteBus (bus : IOBus) (bits : Z) : fw W unit := palWriteGroup (portid bus) (mask bus) (offset bus) bits.
Definition palSetBusMode (bus : IOBus) (mode : Z) : fw W unit := palSetGroupMode (portid bus) (mask bus) (offset bus) mode.

End pal.

(** ** What the ports do

    [pins w p r] is the register [r] of the port [p]. The configuration registers
    and the output latch keep what is written to them; the set and reset register
    sets and clears bits of the latch. *)

Definition gpio_effect (r : reg) (v : Z) (g : gpio → gpio_reg → Z) (p : gpio) (x : gpio_reg) : Z :=
  match r with
  | rGPIO p' r' =>
    if decide (p' = p) then
      match r', x with
      | BSRR, ODR => Z.lor (Z.ldiff (g p ODR) (Z.shiftr v 16)) (Z.land v 0xFFFF)
      | BSRR_SET, ODR => Z.lor (g p ODR) v
      | BSRR_CLEAR, ODR => Z.ldiff (g p ODR) v
      | _, _ => if decide (r' = x) then v else g p x
      end
    else g p x
  | _ => g p x
  end.

(** The registers that can be read back. *)
Definition latched (x : gpio_reg) : bool :=
  match x with MODER | OTYPER | OSPEEDR | PUPDR | ODR | AFRL | AFRH => true | _ => false end.

(** [seen w] are the configurations the ports went through, one for each write. *)
Class GpioHw (W : Type) `{!Mmio W} := {
  pins : W → gpio → gpio_reg → Z;
  seen : W → list (gpio → gpio_reg → Z);
  pins_val p x w : latched x = true → (mm_rd (rGPIO p x) w).1 = pins w p x;
  pins_rd r w p x : pins (mm_rd r w).2 p x = pins w p x;
  pins_wr r v w p x : latched x = true → pins (mm_wr r v w) p x = gpio_effect r v (pins w) p x;
  seen_rd r w : seen (mm_rd r w).2 = seen w;
  seen_wr r v w : seen (mm_wr r v w) = seen w ++ [pins (mm_wr r v w)]
}.

(** The configuration of a pin. *)
Record pin := { i_mode : Z; i_otype : Z; i_speed : Z; i_pull : Z; i_alt : Z }.
Definition field (k i v : Z) : Z := Z.land (Z.shiftr v (k * i)) (Z.ones k).
Definition pin_of (g : gpio → gpio_reg → Z) (p : gpio) (i : Z) : pin := {|
  i_mode := field 2 i (g p MODER); i_otype := field 1 i (g p OTYPER); i_speed := field 2 i (g p OSPEEDR);
  i_pull := field 2 i (g p PUPDR); i_alt := if i <? 8 then field 4 i (g p AFRL) else field 4 (i - 8) (g p AFRH)
|}.
Definition pin_of_mode (mode : Z) : pin := {|
  i_mode := Z.land mode 3; i_otype := Z.land (Z.shiftr mode 2) 1; i_speed := Z.land (Z.shiftr mode 3) 3;
  i_pull := Z.land (Z.shiftr mode 5) 3; i_alt := Z.land (Z.shiftr mode 7) 15
|}.

(** ** Fields of registers *)

Lemma field_bits k i v n : 0 <= k → 0 <= i → 0 <= n → Z.testbit (field k i v) n = (n <? k) && Z.testbit v (k * i + n).
Proof.
  intros Hk Hi Hn. unfold field. rewrite Z.land_spec, Z.shiftr_spec, Z.testbit_ones_nonneg, Z.add_comm by lia. apply andb_comm.
Qed.

Lemma field_put k i j f v :
  0 < k → 0 <= i → 0 <= j → 0 <= f < 2 ^ k →
  field k i (Z.lor (Z.ldiff v (Z.shiftl (Z.ones k) (k * j))) (Z.shiftl f (k * j))) = if decide (i = j) then f else field k i v.
Proof.
  intros Hk Hi Hj Hf. apply Z.bits_inj'. intros n Hn. rewrite field_bits by lia.
  assert (k <= n → Z.testbit f n = false) as Hhi.
  { intros Hkn. destruct (decide (f = 0)) as [->|]; [apply Z.testbit_0_l|].
    apply Z.bits_above_log2; [lia|]. assert (Z.log2 f < k) by (apply Z.log2_lt_pow2; lia). lia. }
  rewrite Z.lor_spec, Z.ldiff_spec, !Z.shiftl_spec by nia. case_decide as E.
  - subst j. replace (k * i + n - k * i) with n by lia. rewrite Z.testbit_ones_nonneg by lia.
    destruct (Z.ltb_spec n k) as [|Hkn]; cbn; [by rewrite andb_false_r|]. by rewrite Hhi.
  - rewrite field_bits by lia. destruct (Z.ltb_spec n k) as [Hkn|]; [|done]. cbn.
    destruct (decide (j < i)) as [Hl|Hl].
    + rewrite Z.testbit_ones_nonneg by nia. replace (_ <? k) with false by (symmetry; apply Z.ltb_ge; nia).
      cbn [negb]. rewrite andb_true_r. destruct (Z.testbit f (k * i + n - k * j)) eqn:Ef; [|by rewrite orb_false_r].
      destruct (decide (f = 0)) as [->|]; [by rewrite Z.testbit_0_l in Ef|].
      rewrite Z.bits_above_log2 in Ef; [done|lia|]. assert (Z.log2 f < k) by (apply Z.log2_lt_pow2; lia). nia.
    + rewrite !(Z.testbit_neg_r _ (k * i + n - k * j)) by nia. cbn [negb]. by rewrite andb_true_r, orb_false_r.
Qed.

Lemma shift_fits k f j : 0 < k → 0 <= j → 0 <= f < 2 ^ k → k * j + k <= 32 → u32 (Z.shiftl f (k * j)) = Z.shiftl f (k * j).
Proof.
  intros Hk Hj Hf H32. apply u32_id. rewrite Z.shiftl_mul_pow2 by nia. split; [nia|].
  apply Z.lt_le_trans with (2 ^ k * 2 ^ (k * j)); [nia|]. rewrite <-Z.pow_add_r by nia. change 4294967296 with (2 ^ 32).
  apply Z.pow_le_mono_r; lia.
Qed.

(** ** One register of one pin *)

Definition width (r : gpio_reg) : Z := match r with OTYPER => 1 | AFRL | AFRH => 4 | _ => 2 end.
Definition slot (r : gpio_reg) (b : Z) : Z := match r with AFRH => b - 8 | _ => b end.
Definition has_pin (r : gpio_reg) (b : Z) : bool :=
  match r with MODER | OTYPER | OSPEEDR | PUPDR => true | AFRL => b <? 8 | AFRH => 8 <=? b | _ => false end.
Definition set_field (r : gpio_reg) (f : Z) (x : pin) : pin :=
  match r with
  | MODER => {| i_mode := f; i_otype := i_otype x; i_speed := i_speed x; i_pull := i_pull x; i_alt := i_alt x |}
  | OTYPER => {| i_mode := i_mode x; i_otype := f; i_speed := i_speed x; i_pull := i_pull x; i_alt := i_alt x |}
  | OSPEEDR => {| i_mode := i_mode x; i_otype := i_otype x; i_speed := f; i_pull := i_pull x; i_alt := i_alt x |}
  | PUPDR => {| i_mode := i_mode x; i_otype := i_otype x; i_speed := i_speed x; i_pull := f; i_alt := i_alt x |}
  | AFRL | AFRH => {| i_mode := i_mode x; i_otype := i_otype x; i_speed := i_speed x; i_pull := i_pull x; i_alt := f |}
  | _ => x
  end.

Section specs.
Context {W : Type} `{!Mmio W, !GpioHw W}.
Implicit Types (p : gpio) (w : W).

(** The other ports, and the output latch. *)
Definition kept p w w' : Prop := ∀ p' x, latched x = true → p' ≠ p ∨ x = ODR → pins w' p' x = pins w p' x.

Lemma kept_trans p w1 w2 w3 : kept p w1 w2 → kept p w2 w3 → kept p w1 w3.
Proof. intros H1 H2 p' x Hl Hx. by rewrite H2, H1. Qed.

Lemma pin_put r b f v (g g' : gpio → gpio_reg → Z) p i :
  has_pin r b = true → 0 <= b < 16 → 0 <= i < 16 → 0 <= f < 2 ^ width r → g p r = v →
  (∀ x, latched x = true →
    g' p x = if decide (r = x) then Z.lor (Z.ldiff v (Z.shiftl (Z.ones (width r)) (width r * slot r b))) (Z.shiftl f (width r * slot r b)) else g p x) →
  pin_of g' p i = if decide (i = b) then set_field r f (pin_of g p i) else pin_of g p i.
Proof.
  intros Hr Hb Hi Hf <- Hg. unfold pin_of. rewrite !Hg by done. clear Hg.
  destruct r; try discriminate Hr; cbn [has_pin width slot set_field] in *.
  1-4: repeat (case_decide; try congruence); rewrite ?field_put by lia; repeat case_decide; try done; lia.
  - apply Z.ltb_lt in Hr. destruct (Z.ltb_spec i 8); repeat (case_decide; try congruence; try lia); rewrite ?field_put by lia;
      repeat (case_decide; try lia); done.
  - apply Z.leb_le in Hr. destruct (Z.ltb_spec i 8); repeat (case_decide; try congruence; try lia); rewrite ?field_put by lia;
      repeat (case_decide; try lia); done.
Qed.

(** The pin [b] goes from the configuration [x] to [y] by the snapshots [l]; the
    others stay. *)
Definition moves p b (x y : pin) w w' : Prop :=
  pin_of (pins w) p b = x ∧ pin_of (pins w') p b = y ∧ kept p w w'
  ∧ ∀ i, 0 <= i < 16 → i ≠ b → pin_of (pins w') p i = pin_of (pins w) p i.

Lemma wp_put_pin p r b f w (Q : unit → W → Prop) :
  has_pin r b = true → 0 <= b < 16 → 0 <= f < 2 ^ width r →
  (∀ w', moves p b (pin_of (pins w) p b) (set_field r f (pin_of (pins w) p b)) w w' → seen w' = seen w ++ [pins w'] → Q tt w') →
  wp (put_bits p r (Z.shiftl (Z.ones (width r)) (width r * slot r b)) (Z.shiftl f (width r * slot r b))) Q w.
Proof.
  intros Hr Hb Hf HQ. unfold put_bits. wp_steps. assert (latched r = true) as Hl by by destruct r.
  rewrite pins_val by done. set (w' := mm_wr _ _ _).
  assert (∀ x, latched x = true → pins w' p x =
    if decide (r = x) then Z.lor (Z.ldiff (pins w p r) (Z.shiftl (Z.ones (width r)) (width r * slot r b))) (Z.shiftl f (width r * slot r b))
    else pins w p x) as Hw.
  { intros x Hx. unfold w'. rewrite pins_wr by done. cbn. rewrite decide_True by done.
    destruct r; try discriminate Hr; case_decide; try done; by rewrite pins_rd. }
  assert (∀ i, 0 <= i < 16 → pin_of (pins w') p i = if decide (i = b) then set_field r f (pin_of (pins w) p i) else pin_of (pins w) p i) as Hp.
  { intros i Hi. by apply (pin_put r b f (pins w p r)). }
  apply HQ; [|unfold w'; by rewrite seen_wr, seen_rd]. split_and!; [done|by rewrite Hp, decide_True| |].
  - intros p' x Hx [Hn| ->]; unfold w'; rewrite pins_wr by done; cbn; [by rewrite decide_False, pins_rd|].
    case_decide; [subst|by rewrite pins_rd]. destruct r; try discriminate Hr; by rewrite decide_False, pins_rd.
  - intros i Hi Hn. by rewrite Hp, decide_False.
Qed.

Lemma moves_trans p b x y z w1 w2 w3 : moves p b x y w1 w2 → moves p b y z w2 w3 → moves p b x z w1 w3.
Proof.
  intros (A1 & A2 & A3 & A4) (B1 & B2 & B3 & B4). split_and!; [done|done|by eapply kept_trans|]. intros i Hi Hn. by rewrite B4, A4.
Qed.

(** In the alternate modes the pin has the old function, or the new one. *)
Definition steady (x y z : pin) : Prop :=
  i_mode z = 2 → i_mode x = 2 ∧ i_alt z = i_alt x ∨ i_mode y = 2 ∧ i_alt z = i_alt y.

(** A snapshot taken while the pin [b] goes from [x] to [y]. *)
Definition snapshot p b x y w (g : gpio → gpio_reg → Z) : Prop :=
  steady x y (pin_of g p b) ∧ ∀ i, 0 <= i < 16 → i ≠ b → pin_of g p i = pin_of (pins w) p i.

Lemma snapshot_moves p b x y z w w' : moves p b x z w w' → steady x y z → snapshot p b x y w (pins w').
Proof. intros (_ & E & _ & Ho) Hs. split; [by rewrite E|done]. Qed.

Definition m_mode (mode : Z) : Z := Z.shiftr (Z.land mode PAL_STM32_MODE_MASK) 0.
Definition m_otype (mode : Z) : Z := Z.shiftr (Z.land mode PAL_STM32_OTYPE_MASK) 2.
Definition m_speed (mode : Z) : Z := Z.shiftr (Z.land mode PAL_STM32_OSPEED_MASK) 3.
Definition m_pull (mode : Z) : Z := Z.shiftr (Z.land mode PAL_STM32_PUPDR_MASK) 5.
Definition m_alt (mode : Z) : Z := Z.shiftr (Z.land mode PAL_STM32_ALTERNATE_MASK) 7.

Lemma shifted_field mode n k : 0 <= n → 0 <= k → Z.shiftr (Z.land mode (Z.shiftl (Z.ones k) n)) n = Z.land (Z.shiftr mode n) (Z.ones k).
Proof.
  intros Hn Hk. rewrite Z.shiftr_land, Z.shiftr_shiftl_l, Z.sub_diag, Z.shiftl_0_r by done. done.
Qed.

Lemma mode_fields mode :
  pin_of_mode mode = {| i_mode := m_mode mode; i_otype := m_otype mode; i_speed := m_speed mode; i_pull := m_pull mode; i_alt := m_alt mode |}
  ∧ 0 <= m_mode mode < 2 ^ 2 ∧ 0 <= m_otype mode < 2 ^ 1 ∧ 0 <= m_speed mode < 2 ^ 2 ∧ 0 <= m_pull mode < 2 ^ 2 ∧ 0 <= m_alt mode < 2 ^ 4.
Proof.
  unfold pin_of_mode, m_mode, m_otype, m_speed, m_pull, m_alt.
  change PAL_STM32_MODE_MASK with (Z.shiftl (Z.ones 2) 0). change PAL_STM32_OTYPE_MASK with (Z.shiftl (Z.ones 1) 2).
  change PAL_STM32_OSPEED_MASK with (Z.shiftl (Z.ones 2) 3). change PAL_STM32_PUPDR_MASK with (Z.shiftl (Z.ones 2) 5).
  change PAL_STM32_ALTERNATE_MASK with (Z.shiftl (Z.ones 4) 7). rewrite !shifted_field by lia. rewrite Z.shiftr_0_r.
  split; [done|]. rewrite !Z.land_ones by lia. repeat split; apply Z.mod_pos_bound; lia.
Qed.

Definition afr (b : Z) : gpio_reg := if b <? 8 then AFRL else AFRH.

Lemma afr_slot b : 0 <= b < 16 → has_pin (afr b) b = true ∧ width (afr b) = 4 ∧ Z.land b 7 = slot (afr b) b.
Proof.
  intros Hb. unfold afr. destruct (Z.ltb_spec b 8); cbn; (split; [by (apply Z.ltb_lt || apply Z.leb_le)|split; [done|]]).
  - change 7 with (Z.ones 3). rewrite Z.land_ones by lia. apply Z.mod_small. lia.
  - change 7 with (Z.ones 3). rewrite Z.land_ones by lia. replace b with ((b - 8) + 1 * 2 ^ 3) by lia.
    rewrite Z.mod_add, Z.mod_small by lia. lia.
Qed.

(** The shifted fields, and their masks, as [set_pin] has them. *)
Lemma pin_shift r b f : has_pin r b = true → 0 <= b < 16 → 0 <= f < 2 ^ width r →
  u32 (Z.shiftl f (width r * slot r b)) = Z.shiftl f (width r * slot r b).
Proof.
  intros Hr Hb Hf. apply shift_fits; [by destruct r| |done|]; destruct r; try discriminate Hr; cbn in *; try lia;
    (apply Z.leb_le in Hr || apply Z.ltb_lt in Hr); lia.
Qed.

(** On its way from [x] to [y], the pin [b] has come to [z]. *)
Definition reached p b x y w0 z w : Prop :=
  moves p b x z w0 w ∧ ∃ l, seen w = seen w0 ++ l ∧ Forall (snapshot p b x y w0) l.

Lemma wp_reach p r b f x y z w0 w (Q : unit → W → Prop) :
  reached p b x y w0 z w → has_pin r b = true → 0 <= b < 16 → 0 <= f < 2 ^ width r → steady x y (set_field r f z) →
  (∀ w', reached p b x y w0 (set_field r f z) w' → Q tt w') →
  wp (put_bits p r (Z.shiftl (Z.ones (width r)) (width r * slot r b)) (Z.shiftl f (width r * slot r b))) Q w.
Proof.
  intros (M & l & El & Hl) Hr Hb Hf Hs HQ. apply wp_put_pin; [done..|]. intros w' M' E'. apply HQ.
  pose proof M as (_ & Ez & _). rewrite Ez in M'. pose proof (moves_trans _ _ _ _ _ _ _ _ M M') as M2. split; [done|].
  exists (l ++ [pins w']). split; [by rewrite E', El, app_assoc|]. apply Forall_app. split; [done|]. apply Forall_singleton.
  by eapply snapshot_moves.
Qed.

Lemma wp_set_pin p mode b w (Q : unit → W → Prop) :
  0 <= b < 16 →
  (∀ w', reached p b (pin_of (pins w) p b) (pin_of_mode mode) w (pin_of_mode mode) w' → Q tt w') →
  wp (set_pin p mode (m_alt mode) b (Z.shiftl (m_otype mode) (1 * b)) (Z.shiftl (m_speed mode) (2 * b))
        (Z.shiftl (m_pull mode) (2 * b)) (Z.shiftl (m_mode mode) (2 * b))) Q w.
Proof.
  intros Hb. destruct (mode_fields mode) as (-> & F1 & F2 & F3 & F4 & F5). destruct (afr_slot b Hb) as (Ha & Hw & Hs).
  set (x := pin_of (pins w) p b). set (y := {| i_mode := _ |}). intros HQ.
  unfold set_pin. replace (16 <=? b) with false by (symmetry; apply Z.leb_gt; lia).
  fold (afr b). rewrite Hs. rewrite (Z.mul_comm b 2), (Z.mul_comm _ 4). rewrite <-Hw.
  change (u32 (Z.shiftl 1 b)) with (u32 (Z.shiftl (Z.ones (width OTYPER)) b)).
  replace (u32 (Z.shiftl (Z.ones (width OTYPER)) b)) with (Z.shiftl (Z.ones (width OTYPER)) (width OTYPER * slot OTYPER b))
    by (rewrite <-pin_shift by (done || cbn; lia); cbn [width slot]; by rewrite Z.mul_1_l).
  change (u32 (Z.shiftl 3 (2 * b))) with (u32 (Z.shiftl (Z.ones (width MODER)) (width MODER * slot MODER b))).
  change 15 with (Z.ones 4). replace (Z.ones 4) with (Z.ones (width (afr b))) by by rewrite Hw.
  rewrite (pin_shift MODER) by (done || cbn; lia). rewrite !(pin_shift (afr b)) by (rewrite ?Hw; first [done|split; done]). clear Hs.
  assert (∀ f z, set_field (afr b) f z = {| i_mode := i_mode z; i_otype := i_otype z; i_speed := i_speed z; i_pull := i_pull z; i_alt := f |}) as Ef
    by (intros; unfold afr; by destruct (b <? 8)).
  assert (reached p b x y w x w) as R0 by (split; [by split_and!|exists []; by rewrite app_nil_r]).
  assert (Z.land mode PAL_STM32_MODE_MASK = m_mode mode) as -> by (unfold m_mode; by rewrite Z.shiftr_0_r).
  assert (∀ z, i_mode z = i_mode x ∧ i_alt z = i_alt x ∨ i_mode y ≠ 2 ∧ i_mode z = i_mode y ∨ i_mode y = 2 ∧ i_alt z = i_alt y → steady x y z) as Hst.
  { unfold steady. intros z Hz. intuition congruence. }
  apply wp_bind, (wp_reach p OTYPER b (m_otype mode) x y x w w); [done..|by apply Hst; left|]. intros w1 R1.
  apply wp_bind, (wp_reach p OSPEEDR b (m_speed mode) x y _ w w1 _ R1); [done..|by apply Hst; left|]. intros w2 R2.
  apply wp_bind, (wp_reach p PUPDR b (m_pull mode) x y _ w w2 _ R2); [done..|by apply Hst; left|]. intros w3 R3.
  destruct (Z.eqb_spec (m_mode mode) PAL_STM32_MODE_ALTERNATE) as [Ea|Ea].
  - apply wp_bind, (wp_reach p (afr b) b (m_alt mode) x y _ w w3 _ R3); [done..|by rewrite Hw|rewrite Ef; apply Hst; right; right; split; [exact Ea|done]|].
    rewrite Ef. intros w4 R4.
    apply (wp_reach p MODER b (m_mode mode) x y _ w w4 _ R4); [done..|by apply Hst; right; right|exact HQ].
  - apply wp_bind, (wp_reach p MODER b (m_mode mode) x y _ w w3 _ R3); [done..|by apply Hst; right; left|]. intros w4 R4.
    apply (wp_reach p (afr b) b (m_alt mode) x y _ w w4 _ R4); [done..|by rewrite Hw|rewrite Ef; by apply Hst; right; left|rewrite Ef; exact HQ].
Qed.

(** ** A group of pins *)

Definition target p (M mode : Z) w (i : Z) : pin := if Z.testbit M i then pin_of_mode mode else pin_of (pins w) p i.

(** The loop has come to the bit [b]. *)
Definition up_to p M mode w0 b w : Prop :=
  (∀ i, 0 <= i < 16 → pin_of (pins w) p i = if i <? b then target p M mode w0 i else pin_of (pins w0) p i)
  ∧ kept p w0 w
  ∧ ∃ l, seen w = seen w0 ++ l ∧ Forall (λ g, ∀ i, 0 <= i < 16 → steady (pin_of (pins w0) p i) (target p M mode w0 i) (pin_of g p i)) l.

Lemma up_to_skip p M mode w0 b w : up_to p M mode w0 b w → 0 <= b → Z.testbit M b = false → up_to p M mode w0 (b + 1) w.
Proof.
  intros (H1 & H2 & H3) Hb Ht. split_and!; [|done|done]. intros i Hi. rewrite H1 by done.
  destruct (Z.ltb_spec i b), (Z.ltb_spec i (b + 1)); try done; [lia|]. assert (i = b) as -> by lia. unfold target. by rewrite Ht.
Qed.

Lemma steady_target p M mode w0 i : steady (pin_of (pins w0) p i) (target p M mode w0 i) (target p M mode w0 i)
  ∧ steady (pin_of (pins w0) p i) (target p M mode w0 i) (pin_of (pins w0) p i).
Proof. unfold steady. split; intros; tauto. Qed.

Lemma up_to_set p M mode w0 b w w' :
  up_to p M mode w0 b w → 0 <= b < 16 → Z.testbit M b = true →
  reached p b (pin_of (pins w) p b) (pin_of_mode mode) w (pin_of_mode mode) w' → up_to p M mode w0 (b + 1) w'.
Proof.
  intros (H1 & H2 & l & El & Hl) Hb Ht ((_ & Eb & Hk & Ho) & l' & El' & Hl').
  assert (pin_of (pins w) p b = pin_of (pins w0) p b) as Ew by (rewrite H1 by done; by replace (b <? b) with false by (symmetry; apply Z.ltb_irrefl)).
  assert (target p M mode w0 b = pin_of_mode mode) as Et by (unfold target; by rewrite Ht).
  split_and!; [|by eapply kept_trans|].
  - intros i Hi. destruct (decide (i = b)) as [->|Hn].
    + replace (b <? b + 1) with true by (symmetry; apply Z.ltb_lt; lia). by rewrite Eb, Et.
    + rewrite Ho, H1 by done. destruct (Z.ltb_spec i b), (Z.ltb_spec i (b + 1)); try done; lia.
  - exists (l ++ l'). split; [by rewrite El', El, app_assoc|]. apply Forall_app. split; [done|].
    eapply Forall_impl; [exact Hl'|]. intros g [Gb Go] i Hi. destruct (decide (i = b)) as [->|Hn].
    + by rewrite Et, <-Ew.
    + rewrite Go, H1 by done. destruct (i <? b); apply steady_target.
Qed.

Lemma shiftr_step M b : 0 <= b → Z.shiftr (Z.shiftr M b) 1 = Z.shiftr M (b + 1).
Proof. intros. by rewrite Z.shiftr_shiftr. Qed.

Lemma shiftl_step k f b : 0 < k → 0 <= b → 0 <= f < 2 ^ k → k * (b + 1) + k <= 32 → u32 (Z.shiftl (Z.shiftl f (k * b)) k) = Z.shiftl f (k * (b + 1)).
Proof. intros. rewrite Z.shiftl_shiftl by nia. replace (k * b + k) with (k * (b + 1)) by lia. apply shift_fits; lia. Qed.

Lemma wp_set_pins fuel p M mode b w0 w (Q : unit → W → Prop) :
  0 <= M < 2 ^ 16 → 0 <= b < 16 → 16 - b <= Z.of_nat fuel → up_to p M mode w0 b w →
  (∀ w', up_to p M mode w0 16 w' → Q tt w') →
  wp (set_pins fuel p mode (m_alt mode) b (Z.shiftr M b) (Z.shiftl (m_otype mode) (1 * b)) (Z.shiftl (m_speed mode) (2 * b))
        (Z.shiftl (m_pull mode) (2 * b)) (Z.shiftl (m_mode mode) (2 * b))) Q w.
Proof.
  intros HM Hb Hf Hu HQ. destruct (mode_fields mode) as (_ & F1 & F2 & F3 & F4 & F5). revert b w Hb Hf Hu.
  induction fuel as [|fuel IH]; intros b w Hb Hf Hu; [lia|]. cbn [set_pins].
  assert (negb (Z.land (Z.shiftr M b) 1 =? 0) = Z.testbit M b) as ->.
  { change 1 with (Z.ones 1). rewrite Z.land_ones by lia. rewrite <-(Z.bit0_mod _), Z.shiftr_spec by lia. rewrite Z.add_0_l; by destruct (Z.testbit M b). }
  apply wp_bind, (wp_mono _ (λ _, up_to p M mode w0 (b + 1))).
  2: { apply wp_when; intros Ht; [|by apply up_to_skip; [|lia|]]. apply wp_set_pin; [done|]. intros w' Hr. by eapply up_to_set. }
  intros _ w' Hu'. cbv zeta. rewrite shiftr_step by lia. destruct (Z.eqb_spec (Z.shiftr M (b + 1)) 0) as [E|E].
  - apply wp_ret, HQ. destruct Hu' as (H1 & H2 & H3). split_and!; [|done|done]. intros i Hi. rewrite H1 by done.
    destruct (Z.ltb_spec i (b + 1)), (Z.ltb_spec i 16); try done; try lia. unfold target.
    replace i with ((i - (b + 1)) + (b + 1)) at 2 by lia. rewrite <-Z.shiftr_spec, E, Z.testbit_0_l by lia. done.
  - assert (b + 1 < 16).
    { destruct (decide (b + 1 < 16)); [done|]. destruct E. rewrite Z.shiftr_div_pow2 by lia. apply Z.div_small.
      split; [lia|]. eapply Z.lt_le_trans; [apply HM|]. apply Z.pow_le_mono_r; lia. }
    rewrite (shiftl_step 1), !(shiftl_step 2) by lia. apply IH; [lia|lia|done].
Qed.

(** C22 (functional). Setting the mode of a group of pins of a port gives every pin
    of the group the whole mode, and leaves every other pin, every other port and
    the output latch as they were. On the way no pin is ever in an alternate mode
    with any but its old function or its new one, so that no glitch reaches a
    peripheral. *)
Theorem group_mode_exact p (M mode : Z) w :
  0 <= M < 2 ^ 16 →
  wp (_pal_lld_setgroupmode p M mode) (λ _ w',
    (∀ i, 0 <= i < 16 → pin_of (pins w') p i = if Z.testbit M i then pin_of_mode mode else pin_of (pins w) p i)
    ∧ (∀ p' x, latched x = true → p' ≠ p ∨ x = ODR → pins w' p' x = pins w p' x)
    ∧ ∃ l, seen w' = seen w ++ l ∧ ∀ g i, g ∈ l → 0 <= i < 16 →
        i_mode (pin_of g p i) = 2 →
        i_mode (pin_of (pins w) p i) = 2 ∧ i_alt (pin_of g p i) = i_alt (pin_of (pins w) p i)
        ∨ i_mode (pin_of (pins w') p i) = 2 ∧ i_alt (pin_of g p i) = i_alt (pin_of (pins w') p i)) w.
Proof.
  intros HM. unfold _pal_lld_setgroupmode.
  assert (up_to p M mode w 0 w) as U.
  { split_and!; [|done|exists []; by rewrite app_nil_r]. intros i Hi. by replace (i <? 0) with false by (symmetry; apply Z.ltb_ge; lia). }
  pose proof (wp_set_pins 32 p M mode 0 w w) as H. rewrite Z.shiftr_0_r, !Z.mul_0_r, !Z.shiftl_0_r in H. unfold m_alt, m_otype, m_speed, m_pull, m_mode in H.
  apply H; [done|lia|lia|done|]. clear H. intros w' (H1 & H2 & l & El & Hl).
  assert (∀ i, 0 <= i < 16 → pin_of (pins w') p i = target p M mode w i) as Ht.
  { intros i Hi. rewrite H1 by done. by replace (i <? 16) with true by (symmetry; apply Z.ltb_lt; lia). }
  split_and!; [done|exact H2|]. exists l. split; [done|]. intros g i Hg Hi.
  rewrite (Ht i Hi). exact (proj1 (Forall_forall _ _) Hl g Hg i Hi).
Qed.

(** ** A bus *)

Lemma bits_below v n i : 0 <= v < 2 ^ n → n <= i → Z.testbit v i = false.
Proof.
  intros Hv Hi. destruct (decide (v = 0)) as [->|]; [apply Z.testbit_0_l|]. apply Z.bits_above_log2; [lia|].
  assert (Z.log2 v < n) by (apply Z.log2_lt_pow2; lia). lia.
Qed.

Lemma u32_bits v i : 0 <= i < 32 → Z.testbit (u32 v) i = Z.testbit v i.
Proof. intros Hi. apply (Z.mod_pow2_bits_low v 32 i). lia. Qed.

(** A write to a bus gives every line of the bus its bit of the
    value, in one store, and affects no other line: neither on the same port, nor
    elsewhere, nor the configuration of any pin. *)
Theorem bus_write_isolated (bus : IOBus) (bits : Z) w :
  0 <= mask bus → 0 <= offset bus → Z.shiftl (mask bus) (offset bus) < 2 ^ 16 →
  wp (palWriteBus bus bits) (λ _ w',
    (∀ i, 0 <= i < 16 →
      Z.testbit (pins w' (portid bus) ODR) i =
        if Z.testbit (Z.shiftl (mask bus) (offset bus)) i then Z.testbit bits (i - offset bus) else Z.testbit (pins w (portid bus) ODR) i)
    ∧ (∀ p x, latched x = true → p ≠ portid bus ∨ x ≠ ODR → pins w' p x = pins w p x)
    ∧ seen w' = seen w ++ [pins w']) w.
Proof.
  intros Hm Ho HM. unfold palWriteBus, palWriteGroup, pal_lld_writegroup. apply wp_wr. set (v := Z.lor _ _). split_and!.
  - intros i Hi. rewrite pins_wr by done. cbn. rewrite decide_True by done.
    rewrite Z.lor_spec, Z.ldiff_spec, Z.shiftr_spec, Z.land_spec by lia. change 0xFFFF with (Z.ones 16).
    rewrite Z.testbit_ones_nonneg by lia. replace (i <? 16) with true by (symmetry; apply Z.ltb_lt; lia). rewrite andb_true_r.
    assert (Z.testbit v i = Z.testbit bits (i - offset bus) && Z.testbit (Z.shiftl (mask bus) (offset bus)) i) as ->.
    { unfold v. rewrite Z.lor_spec, !u32_bits, !Z.shiftl_spec, Z.land_spec by lia.
      by rewrite (Z.testbit_neg_r _ (i - (16 + offset bus))) by lia. }
    assert (Z.testbit v (i + 16) = Z.testbit (Z.shiftl (mask bus) (offset bus)) i && negb (Z.testbit bits (i - offset bus))) as ->.
    { unfold v. rewrite Z.lor_spec, !u32_bits, !Z.shiftl_spec, Z.land_spec, Z.ldiff_spec by lia.
      replace (i + 16 - (16 + offset bus)) with (i - offset bus) by lia.
      rewrite <-(Z.shiftl_spec (mask bus) (offset bus) (i + 16)), (bits_below (Z.shiftl (mask bus) (offset bus)) 16 (i + 16)); [|split; [by apply Z.shiftl_nonneg|done]|lia|lia].
      by rewrite andb_false_r, orb_false_r. }
    destruct (Z.testbit (Z.shiftl (mask bus) (offset bus)) i), (Z.testbit bits (i - offset bus)), (Z.testbit (pins w (portid bus) ODR) i); done.
  - intros p x Hx Hn. rewrite pins_wr by done. cbn. case_decide as Ep; [|done]. destruct Hn as [Hn|Hn]; [by destruct Hn|]. by destruct x.
  - apply seen_wr.
Qed.

End specs.
End Pal.
