(* ===== verification/Spi.v ===== *)
(** * The SPI driver (spi.c, spi.h, SPIv2/spi_lld.c)

    The driver of the one SPI unit, on its registers, the two DMA streams that
    feed it and the pin that selects the slave. The end of a transfer is the
    interrupt of the receive stream. *)

From S2P Require Import Prelude Fw Kernel Mmio Dma Pal.
From stdpp Require Import list gmap relations.
Import Mmio Dma.
#[local] Open Scope Z_scope.

Module Spi.

Inductive spistate_t := SPI_UNINIT | SPI_STOP | SPI_READY | SPI_ACTIVE | SPI_COMPLETE.
#[global] Instance spistate_eq_dec : EqDecision spistate_t.
Proof. solve_decision. Defined.

(** A configuration; its callback acts on the world [W], its argument is always
    [SPID1]. *)
Record SPIConfig (W : Type) := { end_cb : option (fw W unit); ssport : gpio; sspad : Z; cr1 : Z; cr2 : Z }.
Arguments end_cb {W}.
Arguments ssport {W}.
Arguments sspad {W}.
Arguments cr1 {W}.
Arguments cr2 {W}.

(** [SPID1]: [C] is what configuration pointers point to. The waiting thread and
    the mutex are behind the services; the register block is the one of SPI1. *)
Record SPIDriver (C : Type) := {
  state : spistate_t; config : option C;
  dmarx : stm32_dma_stream_t; dmatx : stm32_dma_stream_t; rxdmamode : Z; txdmamode : Z
}.
Arguments state {C}.
Arguments config {C}.
Arguments dmarx {C}.
Arguments dmatx {C}.
Arguments rxdmamode {C}.
Arguments txdmamode {C}.

Definition SPI_CR1_MSTR : Z := 0x4.
Definition SPI_CR1_SPE : Z := 0x40.
Definition SPI_CR2_RXDMAEN : Z := 0x1.
Definition SPI_CR2_TXDMAEN : Z := 0x2.
Definition SPI_CR2_SSOE : Z := 0x4.
Definition SPI_CR2_DS : Z := 0xF00.
Definition SPI_CR2_DS_0 : Z := 0x100.
Definition SPI_CR2_DS_1 : Z := 0x200.
Definition SPI_CR2_DS_2 : Z := 0x400.
Definition SPI_CR2_FRXTH : Z := 0x1000.
Definition SPI_SR_RXNE : Z := 0x1.
Definition STM32_DMA_CR_DIR_M2P : Z := 0x10.
Definition STM32_DMA_CR_PSIZE_MASK : Z := 0x300.
Definition STM32_DMA_CR_PSIZE_BYTE : Z := 0.
Definition STM32_DMA_CR_MSIZE_MASK : Z := 0xC00.
Definition STM32_DMA_CR_MSIZE_BYTE : Z := 0.
Definition STM32_DMA_CR_SIZE_MASK : Z := Z.lor STM32_DMA_CR_PSIZE_MASK STM32_DMA_CR_MSIZE_MASK.
Definition STM32_SPI_SPI1_RX_DMA_STREAM : nat := 1.
Definition STM32_SPI_SPI1_TX_DMA_STREAM : nat := 2.
Definition STM32_SPI_SPI1_DMA_PRIORITY : Z := 1.
Definition STM32_SPI_SPI1_IRQ_PRIORITY : Z := 2.
(** [&SPI1->DR] *)
Definition SPI1_DR : Z := 0x4001300C.

Definition any_bit (m v : Z) : bool := negb (Z.land v m =? 0).

(** The kernel objects of the driver: the waiting thread's reference, the mutex. *)
Inductive sp_call := ThreadNull | MutexInit | MutexLock | MutexUnlock | ResumeI (msg : Z).
Class SpiOs (W : Type) := { sp_do : sp_call → W → W; sp_suspend : W → Z * W }.

Section spi.
Context {W C F P : Type} `{!Mmio W, !Obj W (SPIDriver C), !Obj W (dma_vars F P), !SpiOs W}.
(** What pointers point to: the configurations, the two handlers, the driver;
    and the addresses of [dummytx] and [dummyrx]. *)
Variable the : C → SPIConfig W.
Variables rx_handler tx_handler : F.
Variable SPID1_ptr : P.
Variables dummytx_ptr dummyrx_ptr : Z.

Definition driver : fw W (SPIDriver C) := read_obj.
Definition upd_driver (f : SPIDriver C → SPIDriver C) : fw W unit := d ← driver; write_obj (f d).
Definition call (o : sp_call) : fw W unit := modify (sp_do o).

Definition with_state (s : spistate_t) (d : SPIDriver C) : SPIDriver C :=
  {| state := s; config := config d; dmarx := dmarx d; dmatx := dmatx d; rxdmamode := rxdmamode d; txdmamode := txdmamode d |}.
Definition with_config (c : option C) (d : SPIDriver C) : SPIDriver C :=
  {| state := state d; config := c; dmarx := dmarx d; dmatx := dmatx d; rxdmamode := rxdmamode d; txdmamode := txdmamode d |}.
Definition with_streams (rx tx : stm32_dma_stream_t) (d : SPIDriver C) : SPIDriver C :=
  {| state := state d; config := config d; dmarx := rx; dmatx := tx; rxdmamode := rxdmamode d; txdmamode := txdmamode d |}.
Definition with_modes (rx tx : Z) (d : SPIDriver C) : SPIDriver C :=
  {| state := state d; config := config d; dmarx := dmarx d; dmatx := dmatx d; rxdmamode := rx; txdmamode := tx |}.

Definition set_state (s : spistate_t) : fw W unit := upd_driver (with_state s).
Definition get_state : fw W spistate_t := d ← driver; ret (state d).
(** [spip->config->...] *)
Definition the_config : fw W (SPIConfig W) :=
  d ← driver; match config d with Some c => ret (the c) | None => throw NullPointer end.

(** ** Low level driver *)

(** [STM32_SPI_DMA_ERROR_HOOK]: [osalSysHalt], which does not return. *)
Definition error_hook (flags : Z) : fw W unit :=
  when (any_bit (Z.lor STM32_DMA_ISR_TEIF STM32_DMA_ISR_DMEIF) flags) (throw Halted).

Definition _spi_isr_code : fw W unit :=
  c ← the_config;
  match end_cb c with
  | Some f =>
    set_state SPI_COMPLETE;;
    f;;
    s ← get_state;
    when (bool_decide (s = SPI_COMPLETE)) (set_state SPI_READY)
  | None => set_state SPI_READY
  end;;
  call (ResumeI Kernel.MSG_OK).

Definition spi_lld_serve_rx_interrupt (flags : Z) : fw W unit :=
  error_hook flags;;
  d ← driver;
  dmaStreamDisable (dmatx d);;
  dmaStreamDisable (dmarx d);;
  _spi_isr_code.

Definition spi_lld_serve_tx_interrupt (flags : Z) : fw W unit := error_hook flags.

Definition spiObjectInit : fw W unit :=
  set_state SPI_STOP;;
  upd_driver (with_config None);;
  call ThreadNull;;
  call MutexInit.

Definition rx_mode : Z :=
  foldr Z.lor 0 [STM32_DMA_CR_CHSEL 0; STM32_DMA_CR_PL STM32_SPI_SPI1_DMA_PRIORITY; STM32_DMA_CR_DIR_P2M;
                 STM32_DMA_CR_TCIE; STM32_DMA_CR_DMEIE; STM32_DMA_CR_TEIE].
Definition tx_mode : Z :=
  foldr Z.lor 0 [STM32_DMA_CR_CHSEL 0; STM32_DMA_CR_PL STM32_SPI_SPI1_DMA_PRIORITY; STM32_DMA_CR_DIR_M2P;
                 STM32_DMA_CR_DMEIE; STM32_DMA_CR_TEIE].

Definition spi_lld_init : fw W unit :=
  spiObjectInit;;
  upd_driver (with_streams (stream STM32_SPI_SPI1_RX_DMA_STREAM) (stream STM32_SPI_SPI1_TX_DMA_STREAM));;
  upd_driver (with_modes rx_mode tx_mode).

(** The mode of a stream for frames of the width that [cr2] selects. *)
Definition byte_frames (cr2 : Z) : bool :=
  let ds := Z.land cr2 SPI_CR2_DS in
  (ds =? 0) || (ds <=? Z.lor (Z.lor SPI_CR2_DS_2 SPI_CR2_DS_1) SPI_CR2_DS_0).
Definition sized (bytes : bool) (mode : Z) : Z :=
  let cleared := Z.ldiff mode STM32_DMA_CR_SIZE_MASK in
  if bytes then Z.lor (Z.lor cleared STM32_DMA_CR_PSIZE_BYTE) STM32_DMA_CR_MSIZE_BYTE
  else Z.lor (Z.lor cleared STM32_DMA_CR_PSIZE_HWORD) STM32_DMA_CR_MSIZE_HWORD.

Definition configure : fw W unit :=
  c ← the_config;
  upd_driver (λ d, with_modes (sized (byte_frames (cr2 c)) (rxdmamode d)) (sized (byte_frames (cr2 c)) (txdmamode d)) d);;
  wr (rSPI1 SPI_CR1) 0;;
  wr (rSPI1 SPI_CR1) (Z.lor (cr1 c) SPI_CR1_MSTR);;
  wr (rSPI1 SPI_CR2) (foldr Z.lor 0 [cr2 c; SPI_CR2_FRXTH; SPI_CR2_SSOE; SPI_CR2_RXDMAEN; SPI_CR2_TXDMAEN]);;
  or_bits (rSPI1 SPI_CR1) SPI_CR1_SPE.

Definition spi_lld_start : fw W unit :=
  s ← get_state;
  when (bool_decide (s = SPI_STOP))
    (d ← driver;
     dmaStreamAllocate (dmarx d) STM32_SPI_SPI1_IRQ_PRIORITY (Some rx_handler) (Some SPID1_ptr);;
     dmaStreamAllocate (dmatx d) STM32_SPI_SPI1_IRQ_PRIORITY (Some tx_handler) (Some SPID1_ptr);;
     rccEnableAPB2 RCC_APB2ENR_SPI1EN;;
     dmaStreamSetPeripheral (dmarx d) SPI1_DR;;
     dmaStreamSetPeripheral (dmatx d) SPI1_DR);;
  configure.

Definition spi_lld_stop : fw W unit :=
  s ← get_state;
  when (bool_decide (s = SPI_READY))
    (wr (rSPI1 SPI_CR1) 0;;
     wr (rSPI1 SPI_CR2) 0;;
     d ← driver;
     dmaStreamRelease (F:=F) (P:=P) (dmarx d);;
     dmaStreamRelease (F:=F) (P:=P) (dmatx d);;
     rccDisableAPB2 RCC_APB2ENR_SPI1EN).

Definition spi_lld_select : fw W unit := c ← the_config; Pal.palClearPad (ssport c) (sspad c).
Definition spi_lld_unselect : fw W unit := c ← the_config; Pal.palSetPad (ssport c) (sspad c).

Definition spi_lld_ignore (n : Z) : fw W unit :=
  d ← driver;
  dmaStreamSetMemory0 (dmarx d) dummyrx_ptr;;
  dmaStreamSetTransactionSize (dmarx d) n;;
  dmaStreamSetMode (dmarx d) (rxdmamode d);;
  dmaStreamSetMemory0 (dmatx d) dummytx_ptr;;
  dmaStreamSetTransactionSize (dmatx d) n;;
  dmaStreamSetMode (dmatx d) (txdmamode d);;
  dmaStreamEnable (dmarx d);;
  dmaStreamEnable (dmatx d).

Definition spi_lld_exchange (n txbuf rxbuf : Z) : fw W unit :=
  d ← driver;
  dmaStreamSetMemory0 (dmarx d) rxbuf;;
  dmaStreamSetTransactionSize (dmarx d) n;;
  dmaStreamSetMode (dmarx d) (Z.lor (rxdmamode d) STM32_DMA_CR_MINC);;
  dmaStreamSetMemory0 (dmatx d) txbuf;;
  dmaStreamSetTransactionSize (dmatx d) n;;
  dmaStreamSetMode (dmatx d) (Z.lor (txdmamode d) STM32_DMA_CR_MINC);;
  dmaStreamEnable (dmarx d);;
  dmaStreamEnable (dmatx d).

Definition spi_lld_send (n txbuf : Z) : fw W unit :=
  d ← driver;
  dmaStreamSetMemory0 (dmarx d) dummyrx_ptr;;
  dmaStreamSetTransactionSize (dmarx d) n;;
  dmaStreamSetMode (dmarx d) (rxdmamode d);;
  dmaStreamSetMemory0 (dmatx d) txbuf;;
  dmaStreamSetTransactionSize (dmatx d) n;;
  dmaStreamSetMode (dmatx d) (Z.lor (txdmamode d) STM32_DMA_CR_MINC);;
  dmaStreamEnable (dmarx d);;
  dmaStreamEnable (dmatx d).

Definition spi_lld_receive (n rxbuf : Z) : fw W unit :=
  d ← driver;
  dmaStreamSetMemory0 (dmarx d) rxbuf;;
  dmaStreamSetTransactionSize (dmarx d) n;;
  dmaStreamSetMode (dmarx d) (Z.lor (rxdmamode d) STM32_DMA_CR_MINC);;
  dmaStreamSetMemory0 (dmatx d) dummytx_ptr;;
  dmaStreamSetTransactionSize (dmatx d) n;;
  dmaStreamSetMode (dmatx d) (txdmamode d);;
  dmaStreamEnable (dmarx d);;
  dmaStreamEnable (dmatx d).

(** [fuel] bounds the polls of the receive flag. *)
Definition spi_lld_polled_exchange (fuel : nat) (frame : Z) : fw W Z :=
  c ← the_config;
  if Z.land (cr2 c) SPI_CR2_DS <=? Z.lor (Z.lor SPI_CR2_DS_2 SPI_CR2_DS_1) SPI_CR2_DS_0 then
    wr (rSPI1 SPI_DR8) (u8 frame);;
    poll_while fuel (rSPI1 SPI_SR) (λ v, negb (any_bit SPI_SR_RXNE v));;
    v ← rd (rSPI1 SPI_DR8); ret (u8 v)
  else
    wr (rSPI1 SPI_DR) (u16 frame);;
    poll_while fuel (rSPI1 SPI_SR) (λ v, negb (any_bit SPI_SR_RXNE v));;
    v ← rd (rSPI1 SPI_DR); ret (u16 v).

(** ** High level driver *)

Definition spiInit : fw W unit := spi_lld_init.

Definition spiStart (c : C) : fw W unit :=
  upd_driver (with_config (Some c));;
  spi_lld_start;;
  set_state SPI_READY.

Definition spiStop : fw W unit :=
  spi_lld_stop;;
  set_state SPI_STOP.

Definition spiSelectI : fw W unit := spi_lld_select.
Definition spiUnselectI : fw W unit := spi_lld_unselect.
Definition spiSelect : fw W unit := spiSelectI.
Definition spiUnselect : fw W unit := spiUnselectI.

Definition spiStartIgnoreI (n : Z) : fw W unit := set_state SPI_ACTIVE;; spi_lld_ignore n.
Definition spiStartExchangeI (n txbuf rxbuf : Z) : fw W unit := set_state SPI_ACTIVE;; spi_lld_exchange n txbuf rxbuf.
Definition spiStartSendI (n txbuf : Z) : fw W unit := set_state SPI_ACTIVE;; spi_lld_send n txbuf.
Definition spiStartReceiveI (n rxbuf : Z) : fw W unit := set_state SPI_ACTIVE;; spi_lld_receive n rxbuf.
Definition spiStartIgnore (n : Z) : fw W unit := spiStartIgnoreI n.
Definition spiStartExchange (n txbuf rxbuf : Z) : fw W unit := spiStartExchangeI n txbuf rxbuf.
Definition spiStartSend (n txbuf : Z) : fw W unit := spiStartSendI n txbuf.
Definition spiStartReceive (n rxbuf : Z) : fw W unit := spiStartReceiveI n rxbuf.

(** The wait of the synchronous calls, which ignore its message. *)
Definition suspend : fw W unit := modify (λ w, (sp_suspend w).2).
Definition spiIgnore (n : Z) : fw W unit := spiStartIgnoreI n;; suspend.
Definition spiExchange (n txbuf rxbuf : Z) : fw W unit := spiStartExchangeI n txbuf rxbuf;; suspend.
Definition spiSend (n txbuf : Z) : fw W unit := spiStartSendI n txbuf;; suspend.
Definition spiReceive (n rxbuf : Z) : fw W unit := spiStartReceiveI n rxbuf;; suspend.

Definition spiPolledExchange (fuel : nat) (frame : Z) : fw W Z := spi_lld_polled_exchange fuel frame.
Definition spiAcquireBus : fw W unit := call MutexLock.
Definition spiReleaseBus : fw W unit := call MutexUnlock.

(** The four kinds of transfers. *)
Inductive transfer := Ignore | Exchange (txbuf rxbuf : Z) | Send (txbuf : Z) | Receive (rxbuf : Z).

Definition start_transfer (t : transfer) (n : Z) : fw W unit :=
  match t with
  | Ignore => spiStartIgnore n
  | Exchange txbuf rxbuf => spiStartExchange n txbuf rxbuf
  | Send txbuf => spiStartSend n txbuf
  | Receive rxbuf => spiStartReceive n rxbuf
  end.

End spi.
End Spi.
