(* ===== verification/SpiSpecs.v ===== *)
(** * What a transfer on the SPI bus does

    The driver's invariant over every run, how a transfer is set up, and what its
    end does. *)

From S2P Require Import Prelude Fw Kernel Mmio Dma Pal Spi.
From stdpp Require Import list gmap relations.
Import Mmio Dma Spi.
#[local] Open Scope Z_scope.

Module SpiSpecs.

(** The services leave the registers and the drivers' variables alone. *)
Class SpiOsLaws (W C F P : Type) `{!Mmio W, !Obj W (SPIDriver C), !Obj W (dma_vars F P), !CoreHw W, !DmaHw W, !SpiOs W} := {
  sp_moved o w : moved (T:=SPIDriver C) (F:=F) (P:=P) w (sp_do o w);
  sp_ie o w i : ie (sp_do o w) i = ie w i
}.

Section spec.
Context {W C F P : Type} `{!Mmio W, !Obj W (SPIDriver C), !Obj W (dma_vars F P), !SpiOs W}.
Context `{!ObjLaws W (SPIDriver C), !ObjLaws W (dma_vars F P)}.
Context `{!Apart W (SPIDriver C) (dma_vars F P), !Apart W (dma_vars F P) (SPIDriver C)}.
Context `{!CoreHw W, !CoreObjLaws W (SPIDriver C), !CoreObjLaws W (dma_vars F P)}.
Context `{!DmaHw W, !DmaObjLaws W (SPIDriver C), !DmaObjLaws W (dma_vars F P), !SpiOsLaws W C F P}.
Variable the : C → SPIConfig W.
Variables rx_handler tx_handler : F.
Variable SPID1_ptr : P.
Variables dummytx_ptr dummyrx_ptr : Z.
Implicit Types (w : W).

Notation D w := (obj w : SPIDriver C).
Notation same_claims := (same_claims (F:=F) (P:=P)).
Notation moved := (moved (T:=SPIDriver C) (F:=F) (P:=P)).
Notation start_transfer := (start_transfer dummytx_ptr dummyrx_ptr).

(** ** Primitives *)

Lemma spi_wp_driver (Q : SPIDriver C → W → Prop) w : Q (D w) w → wp driver Q w.
Proof. done. Qed.

Lemma spi_wp_upd_driver f (Q : unit → W → Prop) w : Q tt (set_obj (f (D w)) w) → wp (upd_driver f) Q w.
Proof. done. Qed.

Lemma spi_wp_get_state (Q : spistate_t → W → Prop) w : Q (state (D w)) w → wp (get_state (C:=C)) Q w.
Proof. done. Qed.

Lemma wp_the_config c (Q : SPIConfig W → W → Prop) w : config (D w) = Some c → Q (the c) w → wp (the_config the) Q w.
Proof. intros Ec HQ. unfold the_config. apply wp_bind, spi_wp_driver. by rewrite Ec. Qed.

(** ** The invariant

    Unless the driver is stopped, it has a configuration and both streams; their
    interrupts are on during transfers only, and their modes are the start-up's
    with the width of the configuration's frames. *)

Definition claims (stopped : bool) w : Prop :=
  ∃ c : gmap nat (F * option P), claimed c w ∧
    c !! 1%nat = (if stopped then None else Some (rx_handler, Some SPID1_ptr)) ∧
    c !! 2%nat = (if stopped then None else Some (tx_handler, Some SPID1_ptr)).

Definition stopped w : bool := bool_decide (state (D w) = SPI_STOP).

Record modes (d : SPIDriver C) (b : bool) : Prop := {
  mo_rx : rxdmamode d = sized b rx_mode;
  mo_tx : txdmamode d = sized b tx_mode
}.

Record spi_inv w : Prop := {
  si_rx : dmarx (D w) = stream 1;
  si_tx : dmatx (D w) = stream 2;
  si_modes b : sized b (rxdmamode (D w)) = sized b rx_mode ∧ sized b (txdmamode (D w)) = sized b tx_mode;
  si_config : state (D w) ≠ SPI_STOP → ∃ c, config (D w) = Some c ∧ modes (D w) (byte_frames (cr2 (the c)));
  si_quiet : state (D w) ≠ SPI_ACTIVE → ie w 2 = 0 ∧ ie w 3 = 0;
  si_claims : claims (stopped w) w
}.

Lemma spi_claims_same b w w' : claims b w → same_claims w w' → claims b w'.
Proof. intros (c & Hc & E) Hw. exists c. split; [by eapply claimed_same|done]. Qed.

Lemma stopped_spec w s : state (D w) = s → stopped w = bool_decide (s = SPI_STOP).
Proof. unfold stopped. by intros ->. Qed.

(** ** The driver's operations keep the invariant *)

Ltac ie_tac := repeat first [rewrite ie_set | rewrite ie_rd | rewrite ie_wr]; try done.

Lemma sized_again b b' m : sized b (sized b' m) = sized b m.
Proof.
  assert (∀ x, Z.ldiff x STM32_DMA_CR_SIZE_MASK = Z.ldiff m STM32_DMA_CR_SIZE_MASK → sized b x = sized b m) as Hs by (unfold sized; by intros x ->).
  apply Hs. unfold sized. apply Z.bits_inj'. intros n Hn. rewrite !Z.ldiff_spec.
  destruct (Z.testbit STM32_DMA_CR_SIZE_MASK n) eqn:E; [by rewrite !andb_false_r|].
  assert (Z.testbit STM32_DMA_CR_PSIZE_HWORD n = false ∧ Z.testbit STM32_DMA_CR_MSIZE_HWORD n = false) as [E1 E2].
  { assert (∀ m, Z.land m STM32_DMA_CR_SIZE_MASK = m → Z.testbit m n = false) as Hm by (intros x <-; by rewrite Z.land_spec, E, andb_false_r).
    split; by apply Hm. }
  destruct b'; rewrite !Z.lor_spec, Z.ldiff_spec, E, ?E1, ?E2; unfold STM32_DMA_CR_PSIZE_BYTE, STM32_DMA_CR_MSIZE_BYTE; by rewrite ?Z.testbit_0_l, ?orb_false_r, ?andb_true_r.
Qed.

(** A configured driver, with its streams and their interrupts off, is ready. *)
Lemma spi_wp_ready c w (Q : unit → W → Prop) :
  config (D w) = Some c → dmarx (D w) = stream 1 → dmatx (D w) = stream 2 →
  (∀ b, sized b (rxdmamode (D w)) = sized b rx_mode ∧ sized b (txdmamode (D w)) = sized b tx_mode) →
  ie w 2 = 0 → ie w 3 = 0 → claims false w →
  (∀ w', spi_inv w' → state (D w') = SPI_READY → Q tt w') →
  wp (configure the) (λ _, wp (set_state SPI_READY) Q) w.
Proof.
  intros Ec Erx Etx Em I2 I3 Hc HQ. unfold configure. apply wp_bind, (wp_the_config c); [done|].
  apply wp_bind, spi_wp_upd_driver. set (d := with_modes _ _ _). set (w1 := set_obj d w). unfold or_bits. wp_steps. set (w2 := mm_wr (rSPI1 SPI_CR1) _ _).
  assert (moved w1 w2) as [E2 C2] by (unfold w2; moved_tac). assert (D w1 = d) as E1 by apply obj_set.
  apply spi_wp_upd_driver, HQ; [|by rewrite obj_set]. rewrite E2, E1. split; rewrite ?obj_set; cbn.
  - done.
  - done.
  - intros b. by rewrite !sized_again.
  - intros _. exists c. split; [done|]. destruct (Em (byte_frames (cr2 (the c)))) as [M1 M2]. by split.
  - intros _. unfold w2, w1. by ie_tac.
  - rewrite (stopped_spec _ SPI_READY) by by rewrite obj_set. eapply spi_claims_same; [exact Hc|].
    eapply same_claims_trans; [apply same_claims_set|]. eapply same_claims_trans; [exact C2|apply same_claims_set].
Qed.

Lemma spi_start_inv c w :
  spi_inv w → state (D w) = SPI_STOP ∨ state (D w) = SPI_READY →
  wp (spiStart the rx_handler tx_handler SPID1_ptr c) (λ _ w', spi_inv w' ∧ state (D w') = SPI_READY) w.
Proof.
  intros I Hs. unfold spiStart. apply wp_bind, spi_wp_upd_driver. set (w1 := set_obj _ w). destruct (si_quiet _ I) as [I2 I3]; [intuition congruence|].
  assert (D w1 = with_config (Some c) (D w)) as E1 by apply obj_set.
  assert (ie w1 2 = 0 ∧ ie w1 3 = 0) as [J2 J3] by (unfold w1; by ie_tac).
  assert (∀ w', D w' = D w1 → ie w' 2 = 0 → ie w' 3 = 0 → claims false w' →
    wp (configure the) (λ _, wp (set_state SPI_READY) (λ _ w', spi_inv w' ∧ state (D w') = SPI_READY)) w') as Hend.
  { intros w' E K2 K3 Hc. apply (spi_wp_ready c); rewrite ?E, ?E1; try done; try apply I. }
  unfold spi_lld_start. apply wp_bind, wp_bind, spi_wp_get_state. rewrite E1. cbn.
  destruct (si_claims _ I) as (m & Hm & M1 & M2). apply wp_bind, wp_when; intros Hst.
  2: { apply Hend; [done..|]. unfold stopped in *. rewrite Hst in M1, M2. exists m. split; [|done].
       eapply claimed_same; [apply same_claims_set|done]. }
  unfold stopped in M1, M2. rewrite Hst in M1, M2. apply wp_bind, spi_wp_driver. rewrite E1. cbn. rewrite (si_rx _ I), (si_tx _ I).
  assert (claimed m w1) as Hm1 by (eapply claimed_same; [apply same_claims_set|done]).
  apply wp_bind, (wp_claim (T:=SPIDriver C) (stream 1) m); [done|by do 1 right; left|done|]. intros w2 E2 C2 K2 O2.
  apply wp_bind, (wp_claim (T:=SPIDriver C) (stream 2) _ _ _ _ _ _ C2); [by do 2 right; left|by rewrite lookup_insert_ne|]. intros w3 E3 C3 K3 O3.
  unfold rccEnableAPB2, dmaStreamSetPeripheral, or_bits. wp_steps. set (w4 := mm_wr (rDMA1 (CPAR (channel (stream 2)))) _ _).
  assert (moved w3 w4) as [E4 C4] by (unfold w4; moved_tac). apply Hend.
  - by rewrite E4, E3, E2.
  - unfold w4. ie_tac. rewrite O3; done.
  - unfold w4. ie_tac.
  - eexists. split; [by eapply claimed_same|]. split; [|by rewrite lookup_insert_eq].
    rewrite lookup_insert_ne by done. by rewrite lookup_insert_eq.
Qed.

Lemma spi_stop_inv w :
  spi_inv w → state (D w) = SPI_STOP ∨ state (D w) = SPI_READY →
  wp (spiStop (F:=F) (P:=P) (C:=C)) (λ _ w', spi_inv w' ∧ state (D w') = SPI_STOP) w.
Proof.
  intros I Hs. destruct (si_quiet _ I) as [I2 I3]; [intuition congruence|].
  assert (∀ w', D w' = D w → ie w' 2 = 0 → ie w' 3 = 0 → claims true w' →
    wp (set_state SPI_STOP) (λ _ w', spi_inv w' ∧ state (D w') = SPI_STOP) w') as Hend.
  { intros w' E K2 K3 Hc. apply spi_wp_upd_driver. split; [|by rewrite obj_set]. rewrite E. split; rewrite ?obj_set; cbn; try apply I.
    - done.
    - intros _. by ie_tac.
    - rewrite (stopped_spec _ SPI_STOP) by by rewrite obj_set. eapply spi_claims_same; [exact Hc|apply same_claims_set]. }
  unfold spiStop, spi_lld_stop. apply wp_bind, wp_bind, spi_wp_get_state, wp_when; intros Hr.
  2: { apply bool_decide_eq_false in Hr. apply Hend; [done..|]. pose proof (si_claims _ I) as Hc.
       by rewrite (stopped_spec w SPI_STOP) in Hc by intuition congruence. }
  apply bool_decide_eq_true in Hr. destruct (si_claims _ I) as (m & Hm & M1 & M2). wp_steps.
  set (w1 := mm_wr (rSPI1 SPI_CR2) _ _). assert (moved w w1) as [E1 C1] by (unfold w1; moved_tac).
  assert (ie w1 2 = 0 ∧ ie w1 3 = 0) as [J2 J3] by (unfold w1; by ie_tac).
  apply spi_wp_driver, wp_bind. rewrite E1, (si_rx _ I), (si_tx _ I).
  apply (wp_unclaim (T:=SPIDriver C) (stream 1) m); [by eapply claimed_same|by do 1 right; left|]. intros w2 E2 C2 K2.
  apply wp_bind, (wp_unclaim (T:=SPIDriver C) (stream 2) _ _ _ C2); [by do 2 right; left|]. intros w3 E3 C3 K3.
  unfold rccDisableAPB2, clr_bits. wp_steps. set (w4 := mm_wr _ _ _). assert (moved w3 w4) as [E4 C4] by (unfold w4; moved_tac). apply Hend.
  - by rewrite E4, E3, E2.
  - unfold w4. ie_tac. by rewrite K3, K2.
  - unfold w4. ie_tac. by rewrite K3, K2.
  - eexists. split; [by eapply claimed_same|]. split; [|by rewrite lookup_delete_eq].
    rewrite lookup_delete_ne by done. by rewrite lookup_delete_eq.
Qed.

(** ** Starting a transfer

    A transfer is described by the addresses it takes its words from and puts them
    to; an address is that of a buffer, or of the idle word. *)

Definition rx_ptr (t : transfer) : Z := match t with Exchange _ rxbuf | Receive rxbuf => rxbuf | _ => dummyrx_ptr end.
Definition tx_ptr (t : transfer) : Z := match t with Exchange txbuf _ | Send txbuf => txbuf | _ => dummytx_ptr end.
Definition rx_buffer (t : transfer) : bool := match t with Exchange _ _ | Receive _ => true | _ => false end.
Definition tx_buffer (t : transfer) : bool := match t with Exchange _ _ | Send _ => true | _ => false end.
(** The address advances through a buffer. *)
Definition along (buffer : bool) (mode : Z) : Z := if buffer then Z.lor mode STM32_DMA_CR_MINC else mode.

Lemma start_transfer_eq t n :
  start_transfer t n =
  (set_state SPI_ACTIVE;;
   d ← driver;
   dmaStreamSetMemory0 (dmarx d) (rx_ptr t);;
   dmaStreamSetTransactionSize (dmarx d) n;;
   dmaStreamSetMode (dmarx d) (along (rx_buffer t) (rxdmamode d));;
   dmaStreamSetMemory0 (dmatx d) (tx_ptr t);;
   dmaStreamSetTransactionSize (dmatx d) n;;
   dmaStreamSetMode (dmatx d) (along (tx_buffer t) (txdmamode d));;
   dmaStreamEnable (dmarx d);;
   dmaStreamEnable (dmatx d)).
Proof. by destruct t. Qed.

(** Enabling a stream leaves its interrupts as they are. *)
Lemma ie_enabled i w' : ie_of (Z.lor (mm_rd (rDMA1 (CCR i)) w').1 STM32_DMA_CR_EN) = ie w' i.
Proof.
  unfold ie_of at 1. rewrite Z.land_lor_distr_l. change (Z.land STM32_DMA_CR_EN STM32_DMA_ISR_MASK) with 0. rewrite Z.lor_0_r. apply ie_val.
Qed.

(** The modes are words. *)
Lemma mode_word b (m : Z) buffer : m = rx_mode ∨ m = tx_mode → u32 (along buffer (sized b m)) = along buffer (sized b m).
Proof. intros [-> | ->]; by destruct b, buffer. Qed.

(** The writes of a transfer, with the modes of its configuration. *)
Lemma wp_transfer t n c (Q : unit → W → Prop) w :
  spi_inv w → state (D w) = SPI_READY ∨ state (D w) = SPI_COMPLETE → config (D w) = Some c →
  let b := byte_frames (cr2 (the c)) in
  wp (wr (rDMA1 (CMAR 2)) (u32 (rx_ptr t));; wr (rDMA1 (CNDTR 2)) (u32 n);; wr (rDMA1 (CCR 2)) (along (rx_buffer t) (sized b rx_mode));;
      wr (rDMA1 (CMAR 3)) (u32 (tx_ptr t));; wr (rDMA1 (CNDTR 3)) (u32 n);; wr (rDMA1 (CCR 3)) (along (tx_buffer t) (sized b tx_mode));;
      or_bits (rDMA1 (CCR 2)) STM32_DMA_CR_EN;; or_bits (rDMA1 (CCR 3)) STM32_DMA_CR_EN) Q (set_obj (with_state SPI_ACTIVE (D w)) w) →
  wp (start_transfer t n) Q w.
Proof.
  intros I Hs Ec b HQ. destruct (si_config _ I) as (c' & Ec' & [Mr Mt]); [intuition congruence|]. rewrite Ec in Ec'. injection Ec' as <-.
  rewrite start_transfer_eq. apply wp_bind, spi_wp_upd_driver, wp_bind, spi_wp_driver. rewrite obj_set. cbn. rewrite (si_rx _ I), (si_tx _ I), Mr, Mt.
  unfold dmaStreamSetMemory0, dmaStreamSetTransactionSize, dmaStreamSetMode, dmaStreamEnable.
  rewrite !mode_word by tauto. exact HQ.
Qed.

Lemma transfer_inv t n w :
  spi_inv w → state (D w) = SPI_READY ∨ state (D w) = SPI_COMPLETE →
  wp (start_transfer t n) (λ _ w', spi_inv w' ∧ state (D w') = SPI_ACTIVE ∧
    ie w' 2 = Z.lor STM32_DMA_CR_TCIE STM32_DMA_CR_TEIE ∧ ie w' 3 = STM32_DMA_CR_TEIE) w.
Proof.
  intros I Hs. destruct (si_config _ I) as (c & Ec & HM); [intuition congruence|]. apply (wp_transfer t n c); [done..|].
  set (b := byte_frames _) in *. set (w1 := set_obj _ w). assert (D w1 = with_state SPI_ACTIVE (D w)) as E1 by apply obj_set.
  set (mr := along (rx_buffer t) _). set (mt := along (tx_buffer t) _). unfold or_bits. wp_steps.
  set (w3 := mm_wr (rDMA1 (CCR 3)) mt _). set (v2 := Z.lor (mm_rd (rDMA1 (CCR 2)) w3).1 STM32_DMA_CR_EN).
  set (w5 := mm_wr (rDMA1 (CCR 2)) v2 _). set (v3 := Z.lor (mm_rd (rDMA1 (CCR 3)) w5).1 STM32_DMA_CR_EN). set (w6 := mm_wr (rDMA1 (CCR 3)) v3 _).
  assert (moved w1 w6) as [E6 C6] by (unfold w6, w5, w3; moved_tac).
  split; [|split; [by rewrite E6, E1|split]].
  - split; rewrite ?E6, ?E1; try apply I; [|done|].
    + intros _. exists c. split; [done|]. by destruct HM.
    + rewrite (stopped_spec _ SPI_ACTIVE) by by rewrite E6, E1. pose proof (si_claims _ I) as Hc.
      rewrite (stopped_spec w (state (D w))), bool_decide_eq_false_2 in Hc by first [done|intuition congruence].
      eapply spi_claims_same; [exact Hc|]. eapply same_claims_trans; [apply same_claims_set|exact C6].
  - unfold w6. rewrite ie_wr, decide_False, ie_rd by done. unfold w5. rewrite ie_wr, decide_True by done.
    unfold v2. rewrite ie_enabled. unfold w3. ie_tac. unfold mr. by destruct b, (rx_buffer t).
  - unfold w6. rewrite ie_wr, decide_True by done. unfold v3. rewrite ie_enabled. unfold w5. rewrite ie_wr, decide_False by done. unfold w3.
    rewrite ie_rd, ie_wr, decide_True by done. unfold mt. by destruct b, (tx_buffer t).
Qed.

Section armed.
Context `{!WriteLog W, !WriteLogObj W (SPIDriver C)}.

(** A transfer of any kind sets both streams up before it enables
    either: the addresses of the buffers, or of the idle words, the count of
    words, the width of the configuration's frames, an address that advances
    exactly for a buffer; then it enables the receiving stream and after it the
    transmitting one, so that no word arrives without a place. Completion is
    reported by the receiving stream, errors by both. *)
Theorem transfer_armed t n c w :
  spi_inv w → state (D w) = SPI_READY ∨ state (D w) = SPI_COMPLETE → config (D w) = Some c →
  wp (start_transfer t n) (λ _ w', (spi_inv w' ∧ state (D w') = SPI_ACTIVE ∧
      ie w' 2 = Z.lor STM32_DMA_CR_TCIE STM32_DMA_CR_TEIE ∧ ie w' 3 = STM32_DMA_CR_TEIE) ∧
    ∃ l vrx vtx, writes w' = writes w ++ l ++ [(rDMA1 (CCR 2), vrx); (rDMA1 (CCR 3), vtx)] ∧
      Z.testbit vrx 0 = true ∧ Z.testbit vtx 0 = true ∧ (∀ i v, (rDMA1 (CCR i), v) ∈ l → Z.testbit v 0 = false) ∧
      l ≡ₚ [(rDMA1 (CMAR 2), u32 (rx_ptr t)); (rDMA1 (CMAR 3), u32 (tx_ptr t)); (rDMA1 (CNDTR 2), u32 n); (rDMA1 (CNDTR 3), u32 n);
            (rDMA1 (CCR 2), along (rx_buffer t) (sized (byte_frames (cr2 (the c))) rx_mode));
            (rDMA1 (CCR 3), along (tx_buffer t) (sized (byte_frames (cr2 (the c))) tx_mode))]) w.
Proof.
  intros I Hs Ec. apply wp_conj; [by apply transfer_inv|]. apply (wp_transfer t n c); [done..|].
  set (b := byte_frames _) in *. set (mr := along (rx_buffer t) _). set (mt := along (tx_buffer t) _). unfold or_bits. wp_steps.
  set (w3 := mm_wr (rDMA1 (CCR 3)) mt _). set (v2 := Z.lor (mm_rd (rDMA1 (CCR 2)) w3).1 STM32_DMA_CR_EN).
  set (w5 := mm_wr (rDMA1 (CCR 2)) v2 _). set (v3 := Z.lor (mm_rd (rDMA1 (CCR 3)) w5).1 STM32_DMA_CR_EN).
  exists [(rDMA1 (CMAR 2), u32 (rx_ptr t)); (rDMA1 (CNDTR 2), u32 n); (rDMA1 (CCR 2), mr);
          (rDMA1 (CMAR 3), u32 (tx_ptr t)); (rDMA1 (CNDTR 3), u32 n); (rDMA1 (CCR 3), mt)], v2, v3. split_and!.
  - rewrite writes_wr, writes_rd. unfold w5. rewrite writes_wr, writes_rd. unfold w3. by rewrite !writes_wr, writes_set, <-!app_assoc.
  - unfold v2. rewrite Z.lor_spec. by rewrite orb_true_r.
  - unfold v3. rewrite Z.lor_spec. by rewrite orb_true_r.
  - intros i v. rewrite !elem_of_cons, elem_of_nil. intros; destruct_or?; simplify_eq;
      unfold mr, mt; by destruct b, (rx_buffer t), (tx_buffer t).
  - solve_Permutation.
Qed.

End armed.

(** ** The end of a transfer *)

(** The callback of a configuration may do anything the driver allows while it
    reports a transfer. *)
Definition callbacks_ok : Prop := ∀ c f w,
  end_cb (the c) = Some f → spi_inv w → state (D w) = SPI_COMPLETE → wp f (λ _ w', spi_inv w') w.

(** Both streams stopped, with the driver's variable and the claims as they were. *)
Definition halted_streams w w1 : Prop := moved w w1 ∧ ie w1 2 = 0 ∧ ie w1 3 = 0.

Definition error flags : bool := any_bit (Z.lor STM32_DMA_ISR_TEIF STM32_DMA_ISR_DMEIF) flags.

Lemma serve_rx_error flags w : error flags = true → spi_lld_serve_rx_interrupt the flags w = Err Halted.
Proof. unfold error. intros E. unfold spi_lld_serve_rx_interrupt, error_hook. by rewrite E. Qed.

Lemma serve_tx_cases flags w :
  spi_lld_serve_tx_interrupt (W:=W) flags w = if error flags then Err Halted else Ok (tt, w).
Proof. unfold spi_lld_serve_tx_interrupt, error_hook. change (any_bit _ flags) with (error flags). by destruct (error flags). Qed.

Lemma serve_rx_stops flags w :
  error flags = false → dmarx (D w) = stream 1 → dmatx (D w) = stream 2 →
  ∃ w1, halted_streams w w1 ∧ spi_lld_serve_rx_interrupt the flags w = _spi_isr_code the w1.
Proof.
  intros E Erx Etx. unfold spi_lld_serve_rx_interrupt, error_hook. change (any_bit _ flags) with (error flags). rewrite E.
  rewrite (fw_bind_ok _ _ w tt w), (fw_bind_ok _ _ w (D w) w), Erx, Etx by done.
  destruct (wp_elim (dmaStreamDisable (stream 2)) (λ _ w1, touched (dma_only 3) w w1 ∧ ie w1 3 = 0) w) as ([] & w1 & E1 & T1 & I1).
  { apply wp_dmaStreamDisable. by intros w'. }
  destruct (wp_elim (dmaStreamDisable (stream 1)) (λ _ w2, touched (dma_only 2) w1 w2 ∧ ie w2 2 = 0 ∧ ie w2 3 = ie w1 3) w1) as ([] & w2 & E2 & T2 & I2 & I3).
  { apply wp_dmaStreamDisable. intros w' T I O. split_and!; [done|done|]. by apply O. }
  exists w2. split; [|by rewrite (fw_bind_ok _ _ _ _ _ E1), (fw_bind_ok _ _ _ _ _ E2)].
  split_and!; [|done|congruence]. eapply moved_trans; eapply moved_touched; [|exact T1| |exact T2]; by intros ? [-> | ->].
Qed.

Lemma set_inv s w :
  spi_inv w → state (D w) ≠ SPI_STOP → s ≠ SPI_STOP → ie w 2 = 0 → ie w 3 = 0 → spi_inv (set_obj (with_state s (D w)) w).
Proof.
  intros I Hw Hs I2 I3. split; rewrite ?obj_set; cbn; try apply I.
  - intros _. destruct (si_config _ I Hw) as (c & Ec & []). exists c. split; [done|by split].
  - intros _. by ie_tac.
  - rewrite (stopped_spec _ s), bool_decide_eq_false_2 by first [done|by rewrite obj_set]. pose proof (si_claims _ I) as Hc.
    rewrite (stopped_spec w (state (D w))), bool_decide_eq_false_2 in Hc by done. eapply spi_claims_same; [exact Hc|apply same_claims_set].
Qed.

Lemma moved_inv w w1 : spi_inv w → moved w w1 → (ie w1 2 = 0 ∧ ie w1 3 = 0) ∨ (ie w1 2 = ie w 2 ∧ ie w1 3 = ie w 3) → spi_inv w1.
Proof.
  intros I [E C1] Hi. split; rewrite ?E; try apply I.
  - intros Hs. destruct (si_quiet _ I Hs). destruct Hi as [[-> ->]|[-> ->]]; done.
  - unfold stopped. rewrite E. eapply spi_claims_same; [apply I|done].
Qed.

(** The two ways the end is reported. *)
Lemma isr_code_plain c w : config (D w) = Some c → end_cb (the c) = None →
  _spi_isr_code the w = Ok (tt, sp_do (ResumeI Kernel.MSG_OK) (set_obj (with_state SPI_READY (D w)) w)).
Proof. intros Ec Ef. unfold _spi_isr_code. by rewrite (fw_bind_ok _ _ w (the c) w), Ef by (unfold the_config; by rewrite (fw_bind_ok _ _ w (D w) w), Ec). Qed.

Lemma isr_code_callback c f w : config (D w) = Some c → end_cb (the c) = Some f →
  ∀ w2, f (set_obj (with_state SPI_COMPLETE (D w)) w) = Ok (tt, w2) →
  _spi_isr_code the w = Ok (tt, sp_do (ResumeI Kernel.MSG_OK)
    (if decide (state (D w2) = SPI_COMPLETE) then set_obj (with_state SPI_READY (D w2)) w2 else w2)).
Proof.
  intros Ec Ef w2 E2. unfold _spi_isr_code. rewrite (fw_bind_ok _ _ w (the c) w) by (unfold the_config; by rewrite (fw_bind_ok _ _ w (D w) w), Ec).
  rewrite Ef. rewrite (fw_bind_ok _ _ w tt (if decide (state (D w2) = SPI_COMPLETE) then set_obj (with_state SPI_READY (D w2)) w2 else w2)); [done|]. rewrite (fw_bind_ok _ _ w tt (set_obj (with_state SPI_COMPLETE (D w)) w)) by done.
  rewrite (fw_bind_ok _ _ _ _ _ E2), (fw_bind_ok _ _ w2 (state (D w2)) w2) by done. by case_decide; [rewrite bool_decide_eq_true_2|rewrite bool_decide_eq_false_2].
Qed.

Lemma resumed_inv w : spi_inv w → spi_inv (sp_do (ResumeI Kernel.MSG_OK) w).
Proof. intros I. apply (moved_inv w); [done|apply sp_moved|right; by rewrite !sp_ie]. Qed.

Lemma spi_serve_rx_inv flags w :
  callbacks_ok → spi_inv w → state (D w) = SPI_ACTIVE →
  spi_lld_serve_rx_interrupt the flags w = Err Halted ∨ wp (spi_lld_serve_rx_interrupt the flags) (λ _ w', spi_inv w') w.
Proof.
  intros Hcb I Ha. destruct (error flags) eqn:Ef; [left; by apply serve_rx_error|]. right.
  destruct (serve_rx_stops flags w Ef (si_rx _ I) (si_tx _ I)) as (w1 & (M & I2 & I3) & E). unfold wp. rewrite E.
  assert (spi_inv w1) as I1 by (apply (moved_inv w); [done|done|by left]). destruct M as [ED _].
  destruct (si_config _ I1) as (c & Ec & _); [rewrite ED; congruence|]. assert (state (D w1) ≠ SPI_STOP) as Hs by (rewrite ED; congruence).
  destruct (end_cb (the c)) as [f|] eqn:Ecb.
  - assert (spi_inv (set_obj (with_state SPI_COMPLETE (D w1)) w1)) as Ic by by apply set_inv.
    destruct (wp_elim _ _ _ (Hcb c f _ Ecb Ic ltac:(by rewrite obj_set))) as ([] & w2 & E2 & I2').
    rewrite (isr_code_callback c f w1 Ec Ecb w2 E2). apply resumed_inv. case_decide as Hd; [|done].
    destruct (si_quiet _ I2'); [congruence|]. apply set_inv; [done|congruence|done..].
  - rewrite (isr_code_plain c w1 Ec Ecb). by apply resumed_inv, set_inv.
Qed.

(** C30 (functional). The end of a transfer: with a DMA error the system is halted.
    Otherwise both streams are stopped with their interrupts off; a driver without
    a callback is then ready; a callback is called once, in the state COMPLETE,
    and the driver is ready afterwards unless the callback started a transfer;
    and the waiting thread is resumed with OK, once, after all that. *)
Theorem transfer_completes flags c w :
  spi_inv w → state (D w) = SPI_ACTIVE → config (D w) = Some c →
  if error flags then spi_lld_serve_rx_interrupt the flags w = Err Halted
  else ∃ w1, D w1 = D w ∧ ie w1 2 = 0 ∧ ie w1 3 = 0 ∧
    match end_cb (the c) with
    | None => spi_lld_serve_rx_interrupt the flags w =
        Ok (tt, sp_do (ResumeI Kernel.MSG_OK) (set_obj (with_state SPI_READY (D w)) w1))
    | Some f => ∀ w2, f (set_obj (with_state SPI_COMPLETE (D w)) w1) = Ok (tt, w2) →
        spi_lld_serve_rx_interrupt the flags w = Ok (tt, sp_do (ResumeI Kernel.MSG_OK)
          (if decide (state (D w2) = SPI_COMPLETE) then set_obj (with_state SPI_READY (D w2)) w2 else w2))
    end.
Proof.
  intros I Ha Ec. destruct (error flags) eqn:Ef; [by apply serve_rx_error|].
  destruct (serve_rx_stops flags w Ef (si_rx _ I) (si_tx _ I)) as (w1 & ([ED _] & I2 & I3) & E). exists w1. split_and!; [done..|].
  rewrite <-ED in Ec |- *. destruct (end_cb (the c)) as [f|] eqn:Ecb.
  - intros w2 E2. rewrite E. by apply (isr_code_callback c f).
  - rewrite E. by apply (isr_code_plain c).
Qed.

(** ** Every run of the driver *)

Variable invoke : F → option P → Z → fw W unit.
Hypothesis invoke_rx : ∀ flags, invoke rx_handler (Some SPID1_ptr) flags = spi_lld_serve_rx_interrupt the flags.
Hypothesis invoke_tx : ∀ flags, invoke tx_handler (Some SPID1_ptr) flags = spi_lld_serve_tx_interrupt flags.

Inductive spi_event := Start (c : C) | Stop | Select | Unselect | Transfer (t : transfer) (n : Z) | DmaInterrupt.

Definition exec (e : spi_event) : fw W unit :=
  match e with
  | Start c => spiStart the rx_handler tx_handler SPID1_ptr c
  | Stop => spiStop (F:=F) (P:=P) (C:=C)
  | Select => spiSelect the
  | Unselect => spiUnselect the
  | Transfer t n => start_transfer t n
  | DmaInterrupt => STM32_DMA1_CH23_HANDLER invoke
  end.

(** The states each call asserts. *)
Definition allowed (e : spi_event) (s : spistate_t) : Prop :=
  match e with
  | Start _ | Stop => s = SPI_STOP ∨ s = SPI_READY
  | Select | Unselect | Transfer _ _ => s = SPI_READY
  | DmaInterrupt => True
  end.

(** What happens elsewhere: time, other drivers and other streams. *)
Definition elsewhere w w' : Prop :=
  D w' = D w ∧ ie w' 2 = ie w 2 ∧ ie w' 3 = ie w 3 ∧ ∀ b, claims b w → claims b w'.

Inductive spi_step w w' : Prop :=
  | step_call e : allowed e (state (D w)) → exec e w = Ok (tt, w') → spi_step w w'
  | step_elsewhere : elsewhere w w' → spi_step w w'.

Lemma spi_ack_inv w w' : spi_inv w → touched (λ r, r = rDMA1 DMA_IFCR) w w' → spi_inv w' ∧ D w' = D w.
Proof.
  intros I T. assert (moved w w') as M by (eapply moved_touched; [|exact T]; by intros ? ->). split; [|apply M].
  apply (moved_inv w); [done|done|]. right. by split; apply (touched_ie (λ r, r = rDMA1 DMA_IFCR)); try done; intros r Hr ->.
Qed.

(** The streams' interrupts, one after the other: a completion reaches the driver
    only in a transfer. *)
Lemma spi_dma_irq_inv w :
  callbacks_ok → spi_inv w → STM32_DMA1_CH23_HANDLER invoke w = Err Halted ∨ ∃ w', STM32_DMA1_CH23_HANDLER invoke w = Ok (tt, w') ∧ spi_inv w'.
Proof.
  intros Hcb I. unfold STM32_DMA1_CH23_HANDLER.
  assert (∀ w1, spi_inv w1 → dmaServeInterrupt invoke (stream 2) w1 = Err Halted ∨ ∃ w', dmaServeInterrupt invoke (stream 2) w1 = Ok (tt, w') ∧ spi_inv w') as Htx.
  { intros w1 I1. destruct (si_claims _ I1) as (m & Hm & _ & M2).
    destruct (serve_cases invoke m (stream 2) w1 Hm) as (w' & T & [E|(flags & f & p & Em & _ & _ & E)]); [by do 2 right; left| |].
    - right. exists w'. split; [done|]. by apply (spi_ack_inv w1).
    - change (selfindex (stream 2)) with 2%nat in Em. rewrite M2 in Em. destruct (stopped w1); [done|]. injection Em as <- <-.
      rewrite E, invoke_tx, serve_tx_cases. destruct (error flags); [by left|]. right. exists w'. split; [done|]. by apply (spi_ack_inv w1). }
  destruct (si_claims _ I) as (m & Hm & M1 & _).
  destruct (serve_cases invoke m (stream 1) w Hm) as (w1 & T & [E|(flags & f & p & Em & _ & Hfl & E)]); [by do 1 right; left| |].
  - rewrite (fw_bind_ok _ _ _ _ _ E). apply Htx. by apply (spi_ack_inv w).
  - change (selfindex (stream 1)) with 1%nat in Em. rewrite M1 in Em. destruct (stopped w); [done|]. injection Em as <- <-.
    rewrite invoke_rx in E. destruct (spi_ack_inv w w1 I T) as [I1 E1].
    destruct (spi_serve_rx_inv flags w1 Hcb I1) as [Eh|Hw].
    + rewrite E1. destruct (decide (state (D w) = SPI_ACTIVE)) as [|Hs]; [done|]. destruct Hfl.
      change (channel (stream 1)) with 2%nat. by rewrite (proj1 (si_quiet _ I Hs)), Z.land_0_r.
    + left. apply fw_bind_err. congruence.
    + destruct (wp_elim _ _ _ Hw) as ([] & w2 & E2 & I2). rewrite (fw_bind_ok _ _ w tt w2) by congruence. by apply Htx.
Qed.

Lemma pin_inv w (clear : bool) :
  spi_inv w → state (D w) = SPI_READY → wp (if clear then spiSelect the else spiUnselect the) (λ _ w', spi_inv w') w.
Proof.
  intros I Hs. destruct (si_config _ I) as (c & Ec & _); [congruence|].
  assert (∀ r v, no_claim r → (∀ i, r ≠ rDMA1 (CCR i)) → spi_inv (mm_wr r v w)) as Hw.
  { intros r v Hr Hc. apply (moved_inv w); [done|by apply moved_wr, moved_refl|]. right. rewrite !ie_wr.
    destruct r as [|[]| | | | | | | | |]; try done. by destruct (Hc stream0). }
  destruct clear; apply wp_bind, (wp_the_config c); try done; by apply wp_wr, Hw.
Qed.

Lemma spi_exec_inv e w :
  callbacks_ok → spi_inv w → allowed e (state (D w)) →
  (e = DmaInterrupt ∧ exec e w = Err Halted) ∨ ∃ w', exec e w = Ok (tt, w') ∧ spi_inv w'.
Proof.
  intros Hcb I He. assert (∀ m : fw W unit, wp m (λ _ w', spi_inv w') w → ∃ w', m w = Ok (tt, w') ∧ spi_inv w') as Hok.
  { intros m Hm. destruct (wp_elim _ _ _ Hm) as ([] & w' & E & I'). by exists w'. }
  destruct e; cbn [exec allowed] in *; [right; apply Hok..|].
  - eapply wp_mono; [|by apply spi_start_inv]. by intros [] w' [? _].
  - eapply wp_mono; [|by apply spi_stop_inv]. by intros [] w' [? _].
  - by apply (pin_inv w true).
  - by apply (pin_inv w false).
  - eapply wp_mono; [|apply transfer_inv; tauto]. by intros [] w' [? _].
  - destruct (spi_dma_irq_inv w Hcb I); tauto.
Qed.

Lemma spi_step_inv w w' : callbacks_ok → spi_inv w → spi_step w w' → spi_inv w'.
Proof.
  intros Hcb I [e He E|(E & E2 & E3 & Hc)].
  - destruct (spi_exec_inv e w Hcb I He) as [[_ E']|(w1 & E' & I')]; [congruence|]. rewrite E in E'. by injection E' as <-.
  - split; rewrite ?E, ?E2, ?E3; try apply I. unfold stopped. rewrite E. by apply Hc, I.
Qed.

(** C11 (safety). In every run of the SPI driver - its calls in the states they
    assert, the interrupts of the streams' vector at any time and with any flags,
    other code in between - the driver has its configuration and both streams
    exactly while it is not stopped, and takes their interrupts only in a
    transfer; no call faults, and an interrupt does not return only by halting
    the system. *)
Theorem spi_never_faults w0 w :
  callbacks_ok → spi_inv w0 → rtc spi_step w0 w →
  spi_inv w ∧ ∀ e, allowed e (state (D w)) →
    (e = DmaInterrupt ∧ exec e w = Err Halted) ∨ ∃ w', exec e w = Ok (tt, w') ∧ spi_inv w'.
Proof.
  intros Hcb I Hr. assert (spi_inv w) as Iw by (induction Hr as [|? ? ? H1 _ IH]; [done|by eapply IH, spi_step_inv]).
  split; [done|]. intros e He. by apply spi_exec_inv.
Qed.

End spec.
End SpiSpecs.
