(* ===== verification/SpiSim.v ===== *)
(** * A simulated SPI unit

    A world with the laws the SPI driver relies on, which keeps the registers'
    writes and the messages given to the waiting thread, and the witnesses of the
    driver's properties on it. *)

From S2P Require Import Prelude Fw Mmio Dma Pal Spi SpiSpecs.
From stdpp Require Import list gmap relations.
Import Mmio Dma Spi SpiSpecs.
#[local] Open Scope Z_scope.

Module SpiSim.

(** The two handlers. *)
Inductive handler := Rx | Tx.

Record sim := {
  regs : reg → Z; log : list (reg * Z); vectors : Z → bool;
  spid : SPIDriver nat; dmav : dma_vars handler unit; woken : list Z
}.

Definition sim_rd (r : reg) (w : sim) : Z * sim := (regs w r, w).
Definition sim_wr (r : reg) (v : Z) (w : sim) : sim :=
  {| regs := upd (regs w) r v; log := log w ++ [(r, v)];
     vectors := λ n, match r with
       | rNVIC (ISER i) => vectors w n || vector_in n i v
       | rNVIC (ICER i) => vectors w n && negb (vector_in n i v)
       | _ => vectors w n
       end;
     spid := spid w; dmav := dmav w; woken := woken w |}.
#[export] Instance sim_mmio : Mmio sim := { mm_rd := sim_rd; mm_wr := sim_wr }.

#[export] Instance sim_spi : Obj sim (SPIDriver nat) := {
  obj := spid; set_obj d w := {| regs := regs w; log := log w; vectors := vectors w; spid := d; dmav := dmav w; woken := woken w |}
}.
#[export] Instance sim_dma : Obj sim (dma_vars handler unit) := {
  obj := dmav; set_obj d w := {| regs := regs w; log := log w; vectors := vectors w; spid := spid w; dmav := d; woken := woken w |}
}.
#[export] Instance sim_os : SpiOs sim := {
  sp_do o w := match o with
    | ResumeI m => {| regs := regs w; log := log w; vectors := vectors w; spid := spid w; dmav := dmav w; woken := woken w ++ [m] |}
    | _ => w
    end;
  sp_suspend w := (0, w)
}.

#[export] Instance sim_spi_laws : ObjLaws sim (SPIDriver nat).
Proof. by split. Qed.
#[export] Instance sim_dma_laws : ObjLaws sim (dma_vars handler unit).
Proof. by split. Qed.
#[export] Instance sim_apart1 : Apart sim (SPIDriver nat) (dma_vars handler unit).
Proof. by split. Qed.
#[export] Instance sim_apart2 : Apart sim (dma_vars handler unit) (SPIDriver nat).
Proof. by split. Qed.

#[export] Instance sim_core : CoreHw sim.
Proof.
  refine {| rcc := λ w r, regs w (rRCC r); irq_on := vectors |}.
  all: try done.
  intros r v w r'. cbn. unfold upd. destruct r; repeat case_decide; congruence.
Defined.
#[export] Instance sim_core_spi : CoreObjLaws sim (SPIDriver nat).
Proof. by split. Qed.
#[export] Instance sim_core_dma : CoreObjLaws sim (dma_vars handler unit).
Proof. by split. Qed.
#[export] Instance sim_ie : DmaHw sim.
Proof.
  refine {| ie := λ w i, ie_of (regs w (rDMA1 (CCR i))) |}.
  all: try done.
  intros r v w i. cbn. unfold upd. destruct r as [|[]| | | | | | | | |]; repeat case_decide; congruence.
Defined.
#[export] Instance sim_ie_spi : DmaObjLaws sim (SPIDriver nat).
Proof. by split. Qed.
#[export] Instance sim_ie_dma : DmaObjLaws sim (dma_vars handler unit).
Proof. by split. Qed.
#[export] Instance sim_log : WriteLog sim.
Proof. by refine {| writes := log |}. Defined.
#[export] Instance sim_log_spi : WriteLogObj sim (SPIDriver nat).
Proof. by split. Qed.
#[export] Instance sim_os_laws : SpiOsLaws sim nat handler unit.
Proof. split; by intros []. Qed.

(** ** The application *)

(** Configuration 0 has no callback and frames of eight bits; the others have a
    callback that does nothing and frames of sixteen. *)
Definition configs (c : nat) : SPIConfig sim :=
  if (c =? 0)%nat then {| end_cb := None; ssport := PA; sspad := 4; cr1 := 0; cr2 := 0x700 |}
  else {| end_cb := Some (ret tt); ssport := PA; sspad := 4; cr1 := 0; cr2 := 0xF00 |}.

Definition sim_invoke (f : handler) (p : option unit) (flags : Z) : fw sim unit :=
  match f with Rx => spi_lld_serve_rx_interrupt configs flags | Tx => spi_lld_serve_tx_interrupt flags end.

Notation sim_inv := (spi_inv (W:=sim) configs Rx Tx tt).
Notation sim_exec := (exec (W:=sim) configs Rx Tx tt 0x2000 0x2002 sim_invoke).
Notation sim_step := (spi_step (W:=sim) configs Rx Tx tt 0x2000 0x2002 sim_invoke).

Definition blank : sim := {|
  regs := λ _, 0; log := []; vectors := λ _, false;
  spid := {| state := SPI_STOP; config := None; dmarx := stream 1; dmatx := stream 2; rxdmamode := rx_mode; txdmamode := tx_mode |};
  dmav := {| dma_streams_mask := 0; _stm32_dma_isr_redir := replicate 5 {| dma_func := None; dma_param := None |} |};
  woken := []
|}.

Lemma spi_blank_inv : sim_inv blank.
Proof.
  split; try done. exists ∅. split; [|done]. split; [done|done| | |done|].
  - intros s _. rewrite lookup_empty. unfold bit_of. by rewrite Z.testbit_0_l.
  - intros s Hs. exists {| dma_func := None; dma_param := None |}. rewrite lookup_empty. split_and!; [|done|done].
    apply lookup_replicate. split; [done|]. by apply stream_index.
  - intros s _. cbn. unfold busy, bit_of. cbn. by rewrite !andb_false_r.
Qed.

Lemma spi_sim_callbacks : callbacks_ok (W:=sim) (F:=handler) (P:=unit) configs Rx Tx tt.
Proof. intros c f w Ef I _. unfold configs in Ef. destruct (c =? 0)%nat; [done|]. by injection Ef as <-. Qed.

Lemma reached_inv w w' : rtc sim_step w w' → sim_inv w → sim_inv w'.
Proof.
  induction 1 as [|? ? ? Hs _ IH]; [done|]. intros I. apply IH.
  by eapply (spi_step_inv configs Rx Tx tt 0x2000 0x2002 sim_invoke (λ _, eq_refl) (λ _, eq_refl) _ _ spi_sim_callbacks).
Qed.

Definition after (m : fw sim unit) (w : sim) : sim := match m w with Ok (_, w') => w' | Err _ => w end.
Lemma spi_after_ok (m : fw sim unit) w : (if m w is Ok _ then true else false) = true → m w = Ok (tt, after m w).
Proof. unfold after. by destruct (m w) as [[[] w']|]. Qed.

(** The streams raise their flags. *)
Definition raise (v : Z) (w : sim) : sim :=
  {| regs := upd (regs w) (rDMA1 DMA_ISR) v; log := log w; vectors := vectors w; spid := spid w; dmav := dmav w; woken := woken w |}.
Lemma spi_raise_elsewhere v w : elsewhere (W:=sim) (C:=nat) Rx Tx tt w (raise v w).
Proof.
  split_and!; [done|done|done|]. intros b (c & [C1 C2 C3 C4 C5 C6] & E). exists c. split; [|done].
  split; [exact C1|exact C2|exact C3|exact C4|exact C5|exact C6].
Qed.

(** The driver is started and exchanges three words; the receiving stream reports
    the end. *)
Definition exchange : transfer := Exchange 0x20000000 0x20000100.
Definition started : sim := after (sim_exec (Start 0%nat)) blank.
Definition active : sim := after (sim_exec (Transfer exchange 3)) started.
Definition pending : sim := raise (Z.shiftl STM32_DMA_ISR_TCIF 4) active.

Lemma started_reached : rtc sim_step blank started.
Proof. apply rtc_once, (step_call _ _ _ _ _ _ _ _ _ (Start 0%nat)); [by left|apply spi_after_ok; vm_compute; reflexivity]. Qed.

Lemma active_reached : rtc sim_step blank active.
Proof.
  eapply rtc_r; [apply started_reached|].
  apply (step_call _ _ _ _ _ _ _ _ _ (Transfer exchange 3)); [vm_compute; reflexivity|apply spi_after_ok; vm_compute; reflexivity].
Qed.

Lemma spi_pending_reached : rtc sim_step blank pending.
Proof. eapply rtc_r; [apply active_reached|]. apply step_elsewhere, spi_raise_elsewhere. Qed.

(** ** Witnesses *)

Lemma transfer_armed_witness :
  wp (start_transfer 0x2000 0x2002 exchange 3) (λ _ w', state (spid w') = SPI_ACTIVE ∧ ie w' 3 = STM32_DMA_CR_TEIE) started.
Proof.
  eapply wp_mono; [|exact (transfer_armed configs Rx Tx tt 0x2000 0x2002 exchange 3 0%nat started
    (reached_inv _ _ started_reached spi_blank_inv) (or_introl eq_refl) eq_refl)].
  intros [] w' [(_ & S & _ & I) _]. split; [exact S|exact I].
Defined.

Lemma transfer_completes_witness :
  ∃ w1, spi_lld_serve_rx_interrupt configs STM32_DMA_ISR_TCIF active =
    Ok (tt, sp_do (ResumeI Kernel.Kernel.MSG_OK) (set_obj (with_state SPI_READY (spid active)) w1)).
Proof.
  destruct (transfer_completes configs Rx Tx tt STM32_DMA_ISR_TCIF 0%nat active (reached_inv _ _ active_reached spi_blank_inv) eq_refl eq_refl)
    as (w1 & _ & _ & _ & H). exists w1. exact H.
Defined.

Lemma spi_never_faults_witness : ∃ w', sim_exec DmaInterrupt pending = Ok (tt, w') ∧ sim_inv w'.
Proof.
  destruct (spi_never_faults configs Rx Tx tt 0x2000 0x2002 sim_invoke (λ _, eq_refl) (λ _, eq_refl) blank pending spi_sim_callbacks spi_blank_inv spi_pending_reached)
    as [_ H].
  destruct (H DmaInterrupt I) as [[_ E]|H']; [|exact H'].
  assert ((if sim_exec DmaInterrupt pending is Ok _ then true else false) = true) as E' by (vm_compute; reflexivity).
  rewrite E in E'. discriminate E'.
Defined.

End SpiSim.
