(* ===== verification/St.v ===== *)
(** * The system timer (st.c, TIMv1/st_lld.c, TIMv1/st_lld.h, chcore_timer.h)

    The free-running counter that gives the system time, and the compare register
    that is its alarm; against a timer on which time passes at every access. *)

From S2P Require Import Prelude Fw Mmio.
From stdpp Require Import list.
Import Mmio.
#[local] Open Scope Z_scope.

Module St.

Definition STM32_TIM_DIER_CC1IE : Z := Z.shiftl 1 1.
Definition TIM_SR_CC1IF : Z := 0x2.
Definition TIM_EGR_UG : Z := 0x1.
Definition TIM_CR1_CEN : Z := 0x1.
Definition DBGMCU_APB1_FZ_DBG_TIM2_STOP : Z := 0x1.
Definition ST_CLOCK_SRC : Z := 48000000.
Definition OSAL_ST_FREQUENCY : Z := 10000.
Definition ST_ARR_INIT : Z := 0xFFFFFFFF.
Definition ST_NUMBER : Z := 15.
Definition STM32_ST_IRQ_PRIORITY : Z := 2.

Section st.
Context {W : Type} `{!Mmio W}.

(** ** Low level driver *)

Definition st_lld_init : fw W unit :=
  rccEnableAPB1 RCC_APB1ENR_TIM2EN;;
  or_bits rDBGMCU_APB1FZ DBGMCU_APB1_FZ_DBG_TIM2_STOP;;
  wr (rTIM2 TIM_PSC) (ST_CLOCK_SRC / OSAL_ST_FREQUENCY - 1);;
  wr (rTIM2 TIM_ARR) ST_ARR_INIT;;
  wr (rTIM2 TIM_CCMR1) 0;;
  wr (rTIM2 TIM_CCR0) 0;;
  wr (rTIM2 TIM_DIER) 0;;
  wr (rTIM2 TIM_CR2) 0;;
  wr (rTIM2 TIM_EGR) TIM_EGR_UG;;
  wr (rTIM2 TIM_CR1) TIM_CR1_CEN;;
  nvicEnableVector ST_NUMBER STM32_ST_IRQ_PRIORITY.

Definition st_lld_get_counter : fw W Z := v ← rd (rTIM2 TIM_CNT); ret (u32 v).
Definition st_lld_start_alarm (time : Z) : fw W unit :=
  wr (rTIM2 TIM_CCR0) time;;
  wr (rTIM2 TIM_SR) 0;;
  wr (rTIM2 TIM_DIER) STM32_TIM_DIER_CC1IE.
Definition st_lld_stop_alarm : fw W unit := wr (rTIM2 TIM_DIER) 0.
Definition st_lld_set_alarm (time : Z) : fw W unit := wr (rTIM2 TIM_CCR0) time.
Definition st_lld_get_alarm : fw W Z := v ← rd (rTIM2 TIM_CCR0); ret (u32 v).
Definition st_lld_is_alarm_active : fw W bool := v ← rd (rTIM2 TIM_DIER); ret (negb (Z.land v STM32_TIM_DIER_CC1IE =? 0)).

(** The handler; [tick] is [osalOsTimerHandlerI]. *)
Definition ST_HANDLER (tick : fw W unit) : fw W unit :=
  sr ← rd (rTIM2 TIM_SR);
  when (negb (Z.land sr TIM_SR_CC1IF =? 0)) (wr (rTIM2 TIM_SR) 0;; tick).

(** ** High level driver, and the port's timer *)

Definition stInit : fw W unit := st_lld_init.
Definition stStartAlarm (abstime : Z) : fw W unit := st_lld_start_alarm abstime.
Definition stStopAlarm : fw W unit := st_lld_stop_alarm.
Definition stSetAlarm (abstime : Z) : fw W unit := st_lld_set_alarm abstime.
Definition stGetAlarm : fw W Z := st_lld_get_alarm.
Definition stGetCounter : fw W Z := st_lld_get_counter.
Definition stIsAlarmActive : fw W bool := st_lld_is_alarm_active.

Definition port_timer_start_alarm (time : Z) : fw W unit := stStartAlarm time.
Definition port_timer_stop_alarm : fw W unit := stStopAlarm.
Definition port_timer_set_alarm (time : Z) : fw W unit := stSetAlarm time.
Definition port_timer_get_time : fw W Z := stGetCounter.
Definition port_timer_get_alarm : fw W Z := stGetAlarm.

End st.

(** ** The timer

    [now w] counts the ticks since the start, of which the counter register holds
    the low 32 bits. A match of the compare register [ccr] latches the flag. *)

(** The counter equals [c] at some tick after [a], up to [b]. *)
Definition crosses (c a b : Z) : bool := a + 1 + u32 (c - a - 1) <=? b.

(** The time goes on from [w] to [w']. *)
Class TimHw (W : Type) `{!Mmio W} := {
  now : W → Z;
  ccr : W → Z;
  dier : W → Z;
  cc1if : W → bool;
  elapse (w w' : W) : Prop := now w <= now w' ∧ ccr w' = ccr w ∧ dier w' = dier w ∧ cc1if w' = cc1if w || crosses (ccr w) (now w) (now w');
  cnt_val w : (mm_rd (rTIM2 TIM_CNT) w).1 = u32 (now (mm_rd (rTIM2 TIM_CNT) w).2);
  sr_val w : negb (Z.land (mm_rd (rTIM2 TIM_SR) w).1 TIM_SR_CC1IF =? 0) = cc1if (mm_rd (rTIM2 TIM_SR) w).2;
  tim_wr r v w :
    let w' := mm_wr r v w in
    now w <= now w'
    ∧ ccr w' = (match r with rTIM2 TIM_CCR0 => v | _ => ccr w end)
    ∧ dier w' = (match r with rTIM2 TIM_DIER => v | _ => dier w end)
    ∧ cc1if w' = (match r with rTIM2 TIM_SR => cc1if w && negb (Z.land v TIM_SR_CC1IF =? 0) | _ => cc1if w end)
                 || crosses (ccr w') (now w) (now w')
}.

Lemma next_match c a : 0 <= u32 (c - a - 1) < 2 ^ 32 ∧ u32 (a + 1 + u32 (c - a - 1)) = u32 c.
Proof. pose proof (u32_range (c - a - 1)). split; [lia|]. unfold u32. rewrite Z.add_mod_idemp_r by lia. f_equal. lia. Qed.

Lemma crosses_trans c a b d : a <= b → b <= d → crosses c a b || crosses c b d = crosses c a d.
Proof.
  intros Hab Hbd. unfold crosses. destruct (next_match c a) as [Ra Ea]. destruct (next_match c b) as [Rb Eb].
  set (x := a + 1 + u32 (c - a - 1)) in *. set (y := b + 1 + u32 (c - b - 1)) in *.
  assert ((x - y) mod 2 ^ 32 = 0) as Hxy.
  { unfold u32 in Ea, Eb. rewrite Zminus_mod. change (2 ^ 32) with 4294967296. rewrite Ea, Eb, Z.sub_diag. done. }
  apply Z.div_exact in Hxy; [|lia]. set (q := (x - y) / 2 ^ 32) in Hxy.
  destruct (Z.leb_spec x b), (Z.leb_spec y d), (Z.leb_spec x d); try done; try lia; assert (q = 0) by nia; lia.
Qed.

(** With the alarm less than a turn ahead. *)
Lemma crosses_ahead a delay s b : a <= s → s < a + delay → delay < 2 ^ 32 → crosses (u32 (a + delay)) s b = (a + delay <=? b).
Proof.
  intros H1 H2 H3. unfold crosses. f_equal. replace (u32 (u32 (a + delay) - s - 1)) with (a + delay - s - 1); [lia|].
  rewrite <-!Z.sub_add_distr, u32_sub_l. symmetry. rewrite u32_id; lia.
Qed.

Section specs.
Context {W : Type} `{!Mmio W, !TimHw W}.

(** An alarm set [delay] ticks after the time read from the counter
    goes off at that time: provided the accesses take less than [delay] ticks, the
    flag of the compare register, whose interrupt is enabled, is found set as soon
    as that many ticks have passed since the reading, and no sooner. *)
Theorem alarm_on_time (delay : Z) w t w1 w2 w3 :
  0 < delay < 2 ^ 32 →
  port_timer_get_time w = Ok (t, w1) → port_timer_start_alarm (u32 (t + delay)) w1 = Ok (tt, w2) →
  now w2 < now w1 + delay → elapse w2 w3 →
  cc1if w3 = (now w1 + delay <=? now w3) ∧ dier w3 = STM32_TIM_DIER_CC1IE.
Proof.
  intros Hd (v & wa & [= Ea] & [= <- <-])%fw_bind_Ok [= <-] Hlt (N3 & C3 & D3 & F3).
  pose proof (cnt_val w) as Ev. rewrite Ea in Ev. cbn in Ev. subst v. clear Ea. rewrite u32_idemp, u32_add_l in *.
  set (wb := mm_wr (rTIM2 TIM_CCR0) _ wa) in *. set (wc := mm_wr (rTIM2 TIM_SR) 0 wb) in *. set (wd := mm_wr (rTIM2 TIM_DIER) _ wc) in *.
  destruct (tim_wr (rTIM2 TIM_CCR0) (u32 (now wa + delay)) wa) as (Nb & Cb & _ & _). fold wb in Nb, Cb.
  destruct (tim_wr (rTIM2 TIM_SR) 0 wb) as (Nc & Cc & _ & Fc). fold wc in Nc, Cc, Fc. cbn in Cb, Cc, Fc.
  destruct (tim_wr (rTIM2 TIM_DIER) STM32_TIM_DIER_CC1IE wc) as (Nd & Cd & Dd & Fd). fold wd in Nd, Cd, Dd, Fd. cbn in Cd, Dd, Fd.
  rewrite andb_false_r in Fc. cbn in Fc. rewrite Cc, Cb in *. rewrite Cd in *. split; [|by rewrite D3].
  rewrite F3, Fd, Fc, !crosses_trans by lia. by apply crosses_ahead; lia.
Qed.

(** The interrupt handler runs the kernel's tick once when the
    compare flag is set, and not at all on an interrupt that was latched for
    nothing; it clears the flag before the tick, so that a match that happens
    during the tick is latched again. *)
Theorem handler_serves_match (tick : fw W unit) w :
  let w1 := (mm_rd (rTIM2 TIM_SR) w).2 in
  if cc1if w1 then
    ∃ w2, ST_HANDLER tick w = tick w2 ∧ now w1 <= now w2 ∧ ccr w2 = ccr w1 ∧ cc1if w2 = crosses (ccr w1) (now w1) (now w2)
  else ST_HANDLER tick w = Ok (tt, w1).
Proof.
  intros w1. pose proof (sr_val w) as Hs. fold w1 in Hs. unfold ST_HANDLER, rd. rewrite fw_bind_eq.
  destruct (mm_rd (rTIM2 TIM_SR) w) as [sr w1'] eqn:E. cbn [fst snd] in *. subst w1. rewrite Hs. destruct (cc1if w1') eqn:Ef; cbn [when]; [|done].
  destruct (tim_wr (rTIM2 TIM_SR) 0 w1') as (N & C & _ & F). cbn in C, F. rewrite andb_false_r in F. cbn in F. rewrite C in F.
  by exists (mm_wr (rTIM2 TIM_SR) 0 w1').
Qed.

End specs.
End St.
