(* ===== verification/Wdg.v ===== *)
(** * The watchdog (wdg.c, xWDGv1/wdg_lld.c)

    The driver, against a watchdog whose configuration registers are protected by
    a key and which nothing but a reset stops. *)

From S2P Require Import Prelude Fw Mmio.
From stdpp Require Import list.
Import Mmio.
#[local] Open Scope Z_scope.

Module Wdg.

Inductive wdgstate_t := WDG_UNINIT | WDG_STOP | WDG_READY.
#[global] Instance wdgstate_eq_dec : EqDecision wdgstate_t.
Proof. solve_decision. Defined.

Record WDGConfig := { pr : Z; rlr : Z; winr : Z }.
(** [WDGD1]; its register block is the one there is. *)
Record WDGDriver := { state : wdgstate_t; config : option WDGConfig }.

Definition KR_KEY_RELOAD : Z := 0xAAAA.
Definition KR_KEY_ENABLE : Z := 0xCCCC.
Definition KR_KEY_WRITE : Z := 0x5555.

Section wdg.
Context {W : Type} `{!Mmio W, !Obj W WDGDriver}.

Definition set_state (s : wdgstate_t) (d : WDGDriver) : WDGDriver := {| state := s; config := config d |}.
Definition upd_drv (f : WDGDriver → WDGDriver) : fw W unit := modify (λ w, set_obj (f (obj w)) w).

(** ** Low level driver, for a watchdog with a window *)

Definition wdg_lld_init : fw W unit := upd_drv (set_state WDG_STOP).

Definition wdg_lld_start (fuel : nat) : fw W unit :=
  wr (rIWDG KR) KR_KEY_ENABLE;;
  wr (rIWDG KR) KR_KEY_WRITE;;
  d ← read_obj;
  match config d with
  | None => throw NullPointer
  | Some c =>
    wr (rIWDG PR) (pr c);;
    wr (rIWDG RLR) (rlr c);;
    poll_while fuel (rIWDG SR) (λ v, negb (v =? 0));;
    wr (rIWDG WINR) (winr c)
  end.

(** An assertion only, which is off. *)
Definition wdg_lld_stop : fw W unit := ret tt.
Definition wdg_lld_reset : fw W unit := wr (rIWDG KR) KR_KEY_RELOAD.

(** ** High level driver *)

Definition wdgInit : fw W unit := wdg_lld_init.
Definition wdgStart (fuel : nat) (c : WDGConfig) : fw W unit :=
  upd_drv (λ d, {| state := state d; config := Some c |});;
  wdg_lld_start fuel;;
  upd_drv (set_state WDG_READY).
Definition wdgStop : fw W unit :=
  wdg_lld_stop;;
  upd_drv (set_state WDG_STOP).
Definition wdgResetI : fw W unit := wdg_lld_reset.
Definition wdgReset : fw W unit := wdgResetI.

End wdg.

(** ** The peripheral

    The key register unlocks the configuration, starts the watchdog and reloads
    it; a write to the window reloads it too. A write to a locked register is
    lost. [reloads] counts the reloads. *)
Record iwdg := { running : bool; unlocked : bool; i_pr : Z; i_rlr : Z; i_winr : Z; reloads : nat }.

Definition iwdg_effect (r : reg) (v : Z) (h : iwdg) : iwdg :=
  match r with
  | rIWDG KR => {|
      running := running h || (v =? KR_KEY_ENABLE); unlocked := v =? KR_KEY_WRITE;
      i_pr := i_pr h; i_rlr := i_rlr h; i_winr := i_winr h;
      reloads := reloads h + (if v =? KR_KEY_RELOAD then 1 else 0) |}
  | rIWDG PR => if unlocked h then {| running := running h; unlocked := true; i_pr := v; i_rlr := i_rlr h; i_winr := i_winr h; reloads := reloads h |} else h
  | rIWDG RLR => if unlocked h then {| running := running h; unlocked := true; i_pr := i_pr h; i_rlr := v; i_winr := i_winr h; reloads := reloads h |} else h
  | rIWDG WINR => if unlocked h then {| running := running h; unlocked := true; i_pr := i_pr h; i_rlr := i_rlr h; i_winr := v; reloads := S (reloads h) |} else h
  | _ => h
  end.

(** [n] bounds the reads until an update of the configuration is taken over. *)
Class IwdgHw (W : Type) `{!Mmio W, !Obj W WDGDriver} (n : nat) := {
  hw : W → iwdg;
  hw_rd r w : hw (mm_rd r w).2 = hw w;
  hw_wr r v w : hw (mm_wr r v w) = iwdg_effect r v (hw w);
  hw_set (d : WDGDriver) w : hw (set_obj d w) = hw w;
  taken_over w : settles n (rIWDG SR) (λ v, negb (v =? 0)) w
}.

Section specs.
Context {W : Type} (n fuel : nat) `{!Mmio W, !Obj W WDGDriver, !ObjLaws W WDGDriver, !IwdgHw W n}.
Hypothesis enough : (n < fuel)%nat.

(** The calls of the driver. *)
Inductive wdg_call := Start (c : WDGConfig) | Stop | Reset.
Definition exec (c : wdg_call) : fw W unit :=
  match c with Start c => wdgStart fuel c | Stop => wdgStop | Reset => wdgReset end.
Fixpoint execs (l : list wdg_call) : fw W unit :=
  match l with [] => ret tt | c :: l => exec c;; execs l end.

(** The last configuration given, and the reloads asked for. *)
Fixpoint last_config (c : WDGConfig) (l : list wdg_call) : WDGConfig :=
  match l with [] => c | Start c :: l => last_config c l | _ :: l => last_config c l end.
Definition feeds (c : wdg_call) : nat := match c with Stop => 0 | _ => 1 end.

Definition counting (c : WDGConfig) (k : nat) w : Prop :=
  running (hw w) = true ∧ i_pr (hw w) = pr c ∧ i_rlr (hw w) = rlr c ∧ i_winr (hw w) = winr c ∧ reloads (hw w) = k.

Lemma hw_upd f (w : W) : hw (set_obj (f (obj w) : WDGDriver) w) = hw w.
Proof. apply hw_set. Qed.

Lemma start_counts c w : wp (wdgStart fuel c) (λ _ w', counting c (S (reloads (hw w))) w' ∧ state (obj w' : WDGDriver) = WDG_READY) w.
Proof.
  unfold wdgStart, wdg_lld_start, upd_drv. wp_steps. rewrite !obj_wr, obj_set. cbn [config]. wp_steps.
  set (w1 := mm_wr (rIWDG RLR) _ _).
  assert (hw w1 = {| running := true; unlocked := true; i_pr := pr c; i_rlr := rlr c; i_winr := i_winr (hw w); reloads := reloads (hw w) |}) as E1.
  { unfold w1. rewrite !hw_wr, hw_set. cbn. rewrite orb_true_r, !Nat.add_0_r. done. }
  apply (wp_poll_touched n); [apply taken_over|done|]. intros w2 T.
  assert (hw w2 = hw w1) as E2 by (apply (touched_keeps hw (λ _, False)); [apply hw_rd|done|done]).
  wp_steps. unfold counting. rewrite hw_set, hw_wr, E2, E1, obj_set. cbn. done.
Qed.

Lemma call_counts c call k w :
  counting c k w → wp (exec call) (λ _ w', counting (last_config c [call]) (k + feeds call) w') w.
Proof.
  intros C. destruct call as [c'| |]; cbn [exec last_config feeds].
  - eapply wp_mono; [|apply start_counts]. intros [] w' [C' _]. destruct C as (_ & _ & _ & _ & <-). by rewrite Nat.add_1_r.
  - rewrite Nat.add_0_r. unfold wdgStop, wdg_lld_stop, upd_drv. wp_steps. unfold counting in *. by rewrite hw_set.
  - unfold wdgReset, wdgResetI, wdg_lld_reset. wp_steps. unfold counting in *. rewrite hw_wr. cbn.
    destruct C as (-> & -> & -> & -> & ->). done.
Qed.

Lemma last_config_app c l call : last_config c (call :: l) = last_config (last_config c [call]) l.
Proof. by destruct call. Qed.

(** C28 (safety). Once started, whatever is called afterwards - stopping it
    included - the watchdog runs, with the last configuration it was given, and it
    has been reloaded once for every start and every reset. *)
Theorem watchdog_never_stops c (l : list wdg_call) w :
  wp (execs (Start c :: l)) (λ _ w', counting (last_config c l) (reloads (hw w) + S (sum_list (feeds <$> l))) w') w.
Proof.
  cbn [execs exec]. apply wp_bind. eapply wp_mono; [|apply start_counts]. intros [] w1 [C _].
  rewrite Nat.add_succ_r, <-Nat.add_succ_l. revert C. generalize (S (reloads (hw w))). clear w. intros k. revert c k w1.
  induction l as [|call l IH]; intros c k w1 C; cbn [execs].
  { apply wp_ret. by rewrite Nat.add_0_r. }
  apply wp_bind. eapply wp_mono; [|by apply call_counts]. intros [] w2 C2. rewrite last_config_app.
  eapply wp_mono; [|by apply (IH _ _ w2 C2)]. intros [] w'. cbn. by rewrite Nat.add_assoc.
Qed.

(** [wdgStop] marks the driver as stopped and leaves the watchdog running. *)
Lemma stop_leaves_running w :
  running (hw w) = true → wp wdgStop (λ _ w', state (obj w' : WDGDriver) = WDG_STOP ∧ running (hw w') = true) w.
Proof. intros Hr. unfold wdgStop, wdg_lld_stop, upd_drv. wp_steps. by rewrite hw_set, obj_set. Qed.

End specs.
End Wdg.
