(* ===== verification/Hal.v ===== *)
(** * Clocks and the start-up of the platform (STM32F0xx/hal_lld.c)

    The oscillators, the PLL and the switch of the system clock, the backup
    domain, and the resets of the peripherals, against a clock tree that becomes
    ready only when it is set up as its manual asks. *)

From S2P Require Import Prelude Fw Mmio Dma.
From stdpp Require Import list.
Import Mmio Dma.
#[local] Open Scope Z_scope.

Module Hal.

Definition RCC_CR_HSION : Z := 0x1.
Definition RCC_CR_HSIRDY : Z := 0x2.
Definition RCC_CR_HSITRIM : Z := 0xF8.
Definition RCC_CR_HSEON : Z := 0x10000.
Definition RCC_CR_HSERDY : Z := 0x20000.
Definition RCC_CR_PLLON : Z := 0x1000000.
Definition RCC_CR_PLLRDY : Z := 0x2000000.
Definition RCC_CR2_HSI14ON : Z := 0x1.
Definition RCC_CR2_HSI14RDY : Z := 0x2.
Definition RCC_CSR_LSION : Z := 0x1.
Definition RCC_CSR_LSIRDY : Z := 0x2.
Definition RCC_CFGR_SW : Z := 0x3.
Definition RCC_CFGR_SWS : Z := 0xC.
Definition RCC_CFGR_SWS_HSI : Z := 0x0.
Definition RCC_BDCR_LSERDY : Z := 0x2.
Definition RCC_BDCR_RTCEN : Z := 0x8000.
Definition RCC_BDCR_BDRST : Z := 0x10000.
Definition RCC_APB1ENR_PWREN : Z := 0x10000000.
Definition RCC_APB2ENR_SYSCFGEN : Z := 0x1.
Definition RCC_APB2RSTR_DBGMCURST : Z := 0x400000.
Definition CR_DBP : Z := 0x100.

(** The settings of mcuconf.h and board.h. *)
Definition STM32_HSECLK : Z := 8000000.
Definition STM32_HSICLK : Z := 8000000.
Definition STM32_SW : Z := 2.
Definition STM32_PREDIV_VALUE : Z := 1.
Definition STM32_PLLMUL_VALUE : Z := 6.
Definition STM32_PREDIV : Z := Z.shiftl (STM32_PREDIV_VALUE - 1) 0.
Definition STM32_PLLMUL : Z := Z.shiftl (STM32_PLLMUL_VALUE - 2) 18.
Definition STM32_PLLSRC : Z := Z.shiftl 2 15.
Definition STM32_MCOSEL : Z := Z.shiftl 6 24.
Definition STM32_MCOPRE : Z := Z.shiftl 3 28.
Definition STM32_PLLNODIV : Z := 0.
Definition STM32_PPRE : Z := 0.
Definition STM32_HPRE : Z := 0.
Definition STM32_PLLXTPRE_OFFSET : Z := 17.
Definition STM32_PLLXTPRE_MASK : Z := 0x1.
Definition STM32_FLASHBITS : Z := 0x11.
Definition STM32_RTCSEL : Z := Z.shiftl 2 8.
Definition STM32_RTCSEL_MASK : Z := Z.shiftl 3 8.
(** [STM32_USBSW], [STM32_CECSW], [STM32_I2C1SW] and [STM32_USART1SW]. *)
Definition CFGR3_BITS : Z := foldr Z.lor 0 [0; 0; 0; 0].

Section hal.
Context {W F P : Type} `{!Mmio W, !Obj W (dma_vars F P)}.

Definition rccResetAHB (mask : Z) : fw W unit := or_bits (rSYS AHBRSTR) mask;; wr (rSYS AHBRSTR) 0.
Definition rccResetAPB1 (mask : Z) : fw W unit := or_bits (rSYS APB1RSTR) mask;; wr (rSYS APB1RSTR) 0.
Definition rccResetAPB2 (mask : Z) : fw W unit := or_bits (rSYS APB2RSTR) mask;; wr (rSYS APB2RSTR) 0.

(** [while (!(reg & mask)) ;] *)
Definition await (fuel : nat) (r : reg) (mask : Z) : fw W unit := poll_while fuel r (λ v, Z.land v mask =? 0).

Definition stm32_clock_init (fuel : nat) : fw W unit :=
  or_bits (rSYS RCC_CR) RCC_CR_HSION;;
  await fuel (rSYS RCC_CR) RCC_CR_HSIRDY;;
  clr_bits (rSYS RCC_CFGR) RCC_CFGR_SW;;
  or_bits (rSYS RCC_CFGR) RCC_CFGR_SWS_HSI;;
  poll_while fuel (rSYS RCC_CFGR) (λ v, negb (Z.land v RCC_CFGR_SWS =? RCC_CFGR_SWS_HSI));;
  v ← rd (rSYS RCC_CR); wr (rSYS RCC_CR) (Z.land v (Z.lor RCC_CR_HSITRIM RCC_CR_HSION));;
  wr (rSYS RCC_CFGR) 0;;
  or_bits (rSYS RCC_CR) RCC_CR_HSEON;;
  await fuel (rSYS RCC_CR) RCC_CR_HSERDY;;
  or_bits (rSYS RCC_CR2) RCC_CR2_HSI14ON;;
  await fuel (rSYS RCC_CR2) RCC_CR2_HSI14RDY;;
  or_bits (rSYS RCC_CSR) RCC_CSR_LSION;;
  await fuel (rSYS RCC_CSR) RCC_CSR_LSIRDY;;
  wr (rSYS RCC_CFGR2) STM32_PREDIV;;
  wr (rSYS RCC_CFGR) (foldr Z.lor 0 [STM32_PLLNODIV; STM32_MCOPRE; STM32_MCOSEL; STM32_PLLMUL; STM32_PLLSRC; STM32_PPRE; STM32_HPRE;
    Z.shiftl (Z.land STM32_PREDIV STM32_PLLXTPRE_MASK) STM32_PLLXTPRE_OFFSET]);;
  wr (rSYS RCC_CFGR3) CFGR3_BITS;;
  or_bits (rSYS RCC_CR) RCC_CR_PLLON;;
  await fuel (rSYS RCC_CR) RCC_CR_PLLRDY;;
  wr (rSYS FLASH_ACR) STM32_FLASHBITS;;
  or_bits (rSYS RCC_CFGR) STM32_SW;;
  poll_while fuel (rSYS RCC_CFGR) (λ v, negb (Z.land v RCC_CFGR_SWS =? Z.shiftl STM32_SW 2));;
  rccEnableAPB2 RCC_APB2ENR_SYSCFGEN.

Definition hal_lld_backup_domain_init : fw W unit :=
  or_bits (rSYS PWR_CR) CR_DBP;;
  v ← rd (rSYS RCC_BDCR);
  when (negb (Z.land v STM32_RTCSEL_MASK =? STM32_RTCSEL)) (
    wr (rSYS RCC_BDCR) RCC_BDCR_BDRST;;
    wr (rSYS RCC_BDCR) 0);;
  v ← rd (rSYS RCC_BDCR);
  when (Z.land v RCC_BDCR_RTCEN =? 0) (
    or_bits (rSYS RCC_BDCR) STM32_RTCSEL;;
    or_bits (rSYS RCC_BDCR) RCC_BDCR_RTCEN).

Definition hal_lld_init : fw W unit :=
  rccResetAHB 0xFFFFFFFF;;
  rccResetAPB1 0xFFFFFFFF;;
  rccResetAPB2 (u32 (Z.lnot RCC_APB2RSTR_DBGMCURST));;
  rccEnableAPB1 RCC_APB1ENR_PWREN;;
  hal_lld_backup_domain_init;;
  dmaInit (F:=F) (P:=P).

End hal.

(** ** The clock tree

    [status r] are the bits of a register that the hardware sets; [sysr w r] is
    the rest, as last written. An oscillator that is on becomes ready within [n]
    reads of its flag; the PLL needs its input; a switch is made when the chosen
    clock runs. Nothing is known of the machine once the PLL is selected while it is
    off, a clock above 24 MHz is selected without a wait state of the flash, or the
    backup domain's register is written before [CR_DBP] is set. *)

Definition status (r : sys_reg) : Z :=
  match r with
  | RCC_CR => Z.lor (Z.lor RCC_CR_HSIRDY RCC_CR_HSERDY) RCC_CR_PLLRDY
  | RCC_CR2 => RCC_CR2_HSI14RDY
  | RCC_CSR => RCC_CSR_LSIRDY
  | RCC_CFGR => RCC_CFGR_SWS
  | RCC_BDCR => RCC_BDCR_LSERDY
  | _ => 0
  end.

Definition has (v m : Z) : Prop := Z.land v m = m.

(** The system clock that registers select, in Hz. *)
Definition sysclk (cfgr cfgr2 : Z) : Z :=
  match Z.land cfgr RCC_CFGR_SW with
  | 0 => STM32_HSICLK
  | 1 => STM32_HSECLK
  | _ => (if Z.land (Z.shiftr cfgr 15) 3 =? 2 then STM32_HSECLK / (Z.land cfgr2 15 + 1) else STM32_HSICLK / 2) * (Z.land (Z.shiftr cfgr 18) 15 + 2)
  end.

(** What a write of [v] asks of the other registers. *)
Definition writable (f : sys_reg → Z) (r : sys_reg) (v : Z) : Prop :=
  match r with
  | RCC_BDCR => has (f PWR_CR) CR_DBP
  | RCC_CFGR => (Z.land v RCC_CFGR_SW = 2 → has (f RCC_CR) RCC_CR_PLLON) ∧
                (24000000 < sysclk v (f RCC_CFGR2) → Z.land (f FLASH_ACR) 7 = 1)
  | _ => True
  end.

Class ClockHw (W : Type) `{!Mmio W} (n : nat) := {
  sysr : W → sys_reg → Z;
  sys_val r w : Z.ldiff (mm_rd (rSYS r) w).1 (status r) = sysr w r;
  sys_rd r w : sysr (mm_rd r w).2 = sysr w;
  sys_wr r v w x : writable (sysr w) r (Z.ldiff v (status r)) → sysr (mm_wr (rSYS r) v w) x = if decide (r = x) then Z.ldiff v (status x) else sysr w x;
  sys_other r v w x : (∀ r', r ≠ rSYS r') → sysr (mm_wr r v w) x = sysr w x;
  hsi_ready w : has (sysr w RCC_CR) RCC_CR_HSION → settles n (rSYS RCC_CR) (λ v, Z.land v RCC_CR_HSIRDY =? 0) w;
  hse_ready w : has (sysr w RCC_CR) RCC_CR_HSEON → settles n (rSYS RCC_CR) (λ v, Z.land v RCC_CR_HSERDY =? 0) w;
  hsi14_ready w : has (sysr w RCC_CR2) RCC_CR2_HSI14ON → settles n (rSYS RCC_CR2) (λ v, Z.land v RCC_CR2_HSI14RDY =? 0) w;
  lsi_ready w : has (sysr w RCC_CSR) RCC_CSR_LSION → settles n (rSYS RCC_CSR) (λ v, Z.land v RCC_CSR_LSIRDY =? 0) w;
  pll_ready w : has (sysr w RCC_CR) RCC_CR_PLLON → has (sysr w RCC_CR) RCC_CR_HSEON → Z.land (Z.shiftr (sysr w RCC_CFGR) 15) 3 = 2 →
    settles n (rSYS RCC_CR) (λ v, Z.land v RCC_CR_PLLRDY =? 0) w;
  hsi_selected w : has (sysr w RCC_CR) RCC_CR_HSION → Z.land (sysr w RCC_CFGR) RCC_CFGR_SW = 0 →
    settles n (rSYS RCC_CFGR) (λ v, negb (Z.land v RCC_CFGR_SWS =? 0)) w;
  pll_selected w : has (sysr w RCC_CR) RCC_CR_PLLON → Z.land (sysr w RCC_CFGR) RCC_CFGR_SW = 2 →
    24000000 < sysclk (sysr w RCC_CFGR) (sysr w RCC_CFGR2) <= 48000000 → Z.land (sysr w FLASH_ACR) 7 = 1 →
    settles n (rSYS RCC_CFGR) (λ v, negb (Z.land v RCC_CFGR_SWS =? 8)) w
}.

Lemma has_lor v m k : has v m → has (Z.lor v k) m.
Proof. unfold has. intros H. rewrite Z.land_lor_distr_l, H. apply Z.bits_inj'. intros i Hi. rewrite Z.lor_spec, Z.land_spec. by destruct (Z.testbit m i), (Z.testbit k i). Qed.

Lemma has_lor_same v m : has (Z.lor v m) m.
Proof. unfold has. apply Z.bits_inj'. intros i Hi. rewrite Z.land_spec, Z.lor_spec. by destruct (Z.testbit v i), (Z.testbit m i). Qed.

Section specs.
Context {W : Type} (n : nat) `{!Mmio W, !ClockHw W n}.
Implicit Types (w : W) (Q : unit → W → Prop).

(** The registers hold [f]. *)
Definition holds w (f : sys_reg → Z) : Prop := ∀ x, sysr w x = f x.

Lemma holds_writable f w r v : holds w f → writable f r v → writable (sysr w) r v.
Proof. intros H. unfold writable. destruct r; try done; rewrite !H; done. Qed.

Lemma wp_sys_wr r v f w Q :
  holds w f → writable f r (Z.ldiff v (status r)) → (∀ w', holds w' (upd f r (Z.ldiff v (status r))) → Q tt w') → wp (wr (rSYS r) v) Q w.
Proof.
  intros Hf Hr HQ. wp_steps. apply HQ. intros x. rewrite sys_wr by by eapply holds_writable. unfold upd.
  case_decide; [subst|by rewrite decide_False, Hf by congruence]. by rewrite decide_True.
Qed.

Lemma holds_rd r w f : holds w f → holds (mm_rd r w).2 f.
Proof. intros H x. by rewrite sys_rd. Qed.

(** A register read, changed by [g] and written back. *)
Lemma wp_sys_mod r (g : Z → Z) f w Q v :
  holds w f → (∀ z, Z.ldiff z (status r) = f r → Z.ldiff (g z) (status r) = v) → writable f r v →
  (∀ w', holds w' (upd f r v) → Q tt w') → wp (z ← rd (rSYS r); wr (rSYS r) (g z)) Q w.
Proof.
  intros Hf Hg Hr HQ. apply wp_bind, wp_rd. specialize (Hg (mm_rd (rSYS r) w).1 ltac:(by rewrite sys_val)).
  apply (wp_sys_wr _ _ f); [by apply holds_rd|by rewrite Hg|by rewrite Hg].
Qed.

Lemma wp_sys_or r m f w Q :
  holds w f → writable f r (Z.lor (f r) (Z.ldiff m (status r))) → (∀ w', holds w' (upd f r (Z.lor (f r) (Z.ldiff m (status r)))) → Q tt w') →
  wp (or_bits (rSYS r) m) Q w.
Proof.
  intros Hf. apply (wp_sys_mod r (λ v, Z.lor v m)); [done|]. intros z <-. apply Z.bits_inj'. intros i Hi. rewrite Z.lor_spec, !Z.ldiff_spec, Z.lor_spec.
  by destruct (Z.testbit z i), (Z.testbit m i), (Z.testbit (status r) i).
Qed.

Lemma wp_sys_clr r m f w Q :
  holds w f → writable f r (Z.ldiff (f r) m) → (∀ w', holds w' (upd f r (Z.ldiff (f r) m)) → Q tt w') → wp (clr_bits (rSYS r) m) Q w.
Proof.
  intros Hf. apply (wp_sys_mod r (λ v, Z.ldiff v m)); [done|]. intros z <-. apply Z.bits_inj'. intros i Hi. rewrite !Z.ldiff_spec.
  by destruct (Z.testbit z i), (Z.testbit m i), (Z.testbit (status r) i).
Qed.

Lemma wp_sys_poll fuel r busy f w Q :
  (n < fuel)%nat → holds w f → settles n (rSYS r) busy w → (∀ w', holds w' f → Q tt w') → wp (poll_while fuel (rSYS r) busy) Q w.
Proof.
  intros Hfu Hf Hs HQ. apply (wp_poll_touched n); [done..|]. intros w' T. apply HQ. intros x. rewrite <-Hf.
  apply (touched_keeps (λ w, sysr w x) (λ _, False)); [intros; by rewrite sys_rd|done|done].
Qed.

Lemma sw_ldiff c m : Z.land (Z.ldiff c m) m = 0.
Proof. apply Z.bits_inj'. intros i Hi. rewrite Z.land_spec, Z.ldiff_spec, Z.testbit_0_l. by destruct (Z.testbit c i), (Z.testbit m i). Qed.

Lemma sw_cleared c m : Z.land (Z.lor (Z.ldiff c m) 0) m = 0.
Proof. rewrite Z.lor_0_r. apply sw_ldiff. Qed.

(** Selecting the internal oscillator asks for nothing. *)
Lemma writable_hsi f v : Z.land v RCC_CFGR_SW = 0 → writable f RCC_CFGR v.
Proof. intros E. cbn. unfold sysclk. rewrite E. split; [done|]. intros Hlt. exfalso. revert Hlt. vm_compute. done. Qed.

Ltac upds := repeat first [rewrite upd_eq|rewrite upd_ne by done].
Ltac sys_eval H := rewrite !H; upds.
Ltac sys_step H :=
  apply wp_bind; first [apply (wp_sys_or _ _ _ _ _ H)|apply (wp_sys_clr _ _ _ _ _ H)|apply (wp_sys_wr _ _ _ _ _ H)];
  [first [done|apply writable_hsi; first [reflexivity|apply sw_ldiff|rewrite upd_eq; apply sw_cleared]
         |idtac]|clear H; intros ? H].

(** C21 (liveness). The clocks start: every wait of the initialisation ends, since
    each clock has been turned on, with its input, before it is waited for; the
    switch to the PLL is written when the PLL is on and the flash has its wait
    state; and the system clock is then the 48 MHz of the PLL, on which the timer's and the serial units' rates are based. *)
Theorem clocks_start fuel w :
  (n < fuel)%nat →
  wp (stm32_clock_init fuel) (λ _ w',
    Z.land (sysr w' RCC_CFGR) RCC_CFGR_SW = STM32_SW ∧ sysclk (sysr w' RCC_CFGR) (sysr w' RCC_CFGR2) = 48000000
    ∧ has (sysr w' RCC_CR) RCC_CR_HSEON ∧ has (sysr w' RCC_CR) RCC_CR_PLLON ∧ Z.land (sysr w' FLASH_ACR) 7 = 1) w.
Proof.
  intros enough. assert (∃ f, holds w f) as [f H] by by exists (sysr w).
  unfold stm32_clock_init, await.
  sys_step H. apply wp_bind, (wp_sys_poll _ _ _ _ _ _ enough H).
  { apply hsi_ready. sys_eval H. apply has_lor_same. }
  clear H. intros ? H. sys_step H. sys_step H. apply wp_bind, (wp_sys_poll _ _ _ _ _ _ enough H).
  { apply hsi_selected; sys_eval H; [apply has_lor_same|apply sw_cleared]. }
  clear H. intros ? H. apply wp_bind, wp_rd.
  apply (holds_rd (rSYS RCC_CR)) in H. sys_step H. sys_step H. sys_step H. apply wp_bind, (wp_sys_poll _ _ _ _ _ _ enough H).
  { apply hse_ready. sys_eval H. apply has_lor_same. }
  clear H. intros ? H. sys_step H. apply wp_bind, (wp_sys_poll _ _ _ _ _ _ enough H).
  { apply hsi14_ready. sys_eval H. apply has_lor_same. }
  clear H. intros ? H. sys_step H. apply wp_bind, (wp_sys_poll _ _ _ _ _ _ enough H).
  { apply lsi_ready. sys_eval H. apply has_lor_same. }
  clear H. intros ? H. sys_step H. sys_step H. sys_step H. sys_step H. apply wp_bind, (wp_sys_poll _ _ _ _ _ _ enough H).
  { apply pll_ready; sys_eval H; [apply has_lor_same|apply has_lor, has_lor_same|reflexivity]. }
  clear H. intros ? H. sys_step H. sys_step H.
  { split; intros _; upds; [apply has_lor_same|reflexivity]. }
  apply wp_bind, (wp_sys_poll _ _ _ _ _ _ enough H).
  { apply pll_selected; sys_eval H; [apply has_lor_same|reflexivity|split; vm_compute; done|reflexivity]. }
  clear H. intros ? H. unfold rccEnableAPB2. wp_steps. rewrite !sys_other, !sys_rd by done. sys_eval H.
  split_and!; [reflexivity|reflexivity|apply has_lor, has_lor_same|apply has_lor_same|reflexivity].
Qed.

Lemma sys_land r m f w : holds w f → Z.land m (status r) = 0 → Z.land (mm_rd (rSYS r) w).1 m = Z.land (f r) m.
Proof.
  intros H Hm. rewrite <-H, <-sys_val. apply Z.bits_inj'. intros i Hi. rewrite !Z.land_spec, Z.ldiff_spec.
  pose proof (f_equal (λ x, Z.testbit x i) Hm) as Hb. cbn in Hb. rewrite Z.land_spec, Z.testbit_0_l in Hb. revert Hb.
  by destruct (Z.testbit (mm_rd (rSYS r) w).1 i), (Z.testbit m i), (Z.testbit (status r) i).
Qed.

Lemma land_bit v : Z.land v RCC_BDCR_RTCEN ≠ 0 → Z.land v RCC_BDCR_RTCEN = RCC_BDCR_RTCEN.
Proof.
  intros Hn. apply Z.bits_inj'. intros i Hi. rewrite Z.land_spec. change RCC_BDCR_RTCEN with (2 ^ 15) in *. rewrite Z.pow2_bits_eqb by lia.
  destruct (Z.eqb_spec 15 i) as [<-|]; [|by rewrite andb_false_r]. rewrite andb_true_r. destruct (Z.testbit v 15) eqn:E; [done|].
  destruct Hn. apply Z.bits_inj'. intros j Hj. rewrite Z.land_spec, Z.pow2_bits_eqb, Z.testbit_0_l by lia.
  destruct (Z.eqb_spec 15 j) as [<-|]; [by rewrite E|by rewrite andb_false_r].
Qed.

(** The clock of the real time clock is chosen and enabled, when it is not. *)
Lemma wp_rtc_enable f w Q :
  holds w f → has (f PWR_CR) CR_DBP → (∀ w' b, holds w' (upd f RCC_BDCR b) →
    b = (if decide (Z.land (f RCC_BDCR) RCC_BDCR_RTCEN = 0) then Z.lor (Z.lor (f RCC_BDCR) STM32_RTCSEL) RCC_BDCR_RTCEN else f RCC_BDCR) → Q tt w') →
  wp (v ← rd (rSYS RCC_BDCR);
      when (Z.land v RCC_BDCR_RTCEN =? 0) (or_bits (rSYS RCC_BDCR) STM32_RTCSEL;; or_bits (rSYS RCC_BDCR) RCC_BDCR_RTCEN)) Q w.
Proof.
  intros H Hw HQ. apply wp_bind, wp_rd. rewrite (sys_land _ _ f) by done. apply (holds_rd (rSYS RCC_BDCR)) in H.
  destruct (Z.eqb_spec (Z.land (f RCC_BDCR) RCC_BDCR_RTCEN) 0) as [E|E]; cbn [when].
  - apply wp_bind, (wp_sys_or _ _ _ _ _ H); [done|]. intros w1 H1.
    apply (wp_sys_or _ _ _ _ _ H1); [cbn; by rewrite upd_ne by done|]. intros w2 H2. eapply HQ; [|by rewrite decide_True by done].
    intros x. rewrite H2. unfold upd. by repeat case_decide.
  - apply (HQ _ (f RCC_BDCR)); [|by rewrite decide_False by done]. intros x. rewrite H. unfold upd. by destruct (decide (x = RCC_BDCR)) as [->|].
Qed.

(** After the initialisation of the backup domain the real time
    clock runs from the low speed oscillator; a domain that was set up so before
    the reset is left alone, so that its clock goes on. *)
Theorem backup_domain_kept w :
  wp hal_lld_backup_domain_init (λ _ w',
    Z.land (sysr w' RCC_BDCR) STM32_RTCSEL_MASK = STM32_RTCSEL ∧ Z.land (sysr w' RCC_BDCR) RCC_BDCR_RTCEN = RCC_BDCR_RTCEN
    ∧ (Z.land (sysr w RCC_BDCR) STM32_RTCSEL_MASK = STM32_RTCSEL → Z.land (sysr w RCC_BDCR) RCC_BDCR_RTCEN ≠ 0 →
       sysr w' RCC_BDCR = sysr w RCC_BDCR)) w.
Proof.
  assert (∃ f, holds w f) as [f H] by by exists (sysr w). rewrite !H. unfold hal_lld_backup_domain_init.
  pose proof H as H0. sys_step H. apply wp_bind, wp_rd. rewrite (sys_land _ _ _ _ H), upd_ne by done.
  assert (has (upd f PWR_CR (Z.lor (f PWR_CR) (Z.ldiff CR_DBP (status PWR_CR))) PWR_CR) CR_DBP) as Hw.
  { rewrite upd_eq. apply has_lor_same. }
  apply (holds_rd (rSYS RCC_BDCR)) in H. set (f1 := upd f PWR_CR _) in *. assert (f1 RCC_BDCR = f RCC_BDCR) as E1 by (unfold f1; by rewrite upd_ne).
  destruct (Z.eqb_spec (Z.land (f RCC_BDCR) STM32_RTCSEL_MASK) STM32_RTCSEL) as [E|E]; cbn [negb when].
  - apply wp_bind, wp_ret, (wp_rtc_enable _ _ _ H Hw). intros w9 b H' ->. rewrite !H', upd_eq, E1.
    destruct (decide (Z.land (f RCC_BDCR) RCC_BDCR_RTCEN = 0)) as [Z0|Z0].
    + rewrite !Z.land_lor_distr_l, E, Z0. done.
    + split_and!; [done|by apply land_bit|done].
  - apply wp_bind, wp_bind, (wp_sys_wr RCC_BDCR _ _ _ _ H Hw). intros w1 H1. assert (has (upd f1 RCC_BDCR (Z.ldiff RCC_BDCR_BDRST (status RCC_BDCR)) PWR_CR) CR_DBP) as Hw1.
    { by rewrite upd_ne by done. }
    apply (wp_sys_wr RCC_BDCR _ _ _ _ H1 Hw1). intros w2 H2. apply (wp_rtc_enable _ _ _ H2).
    { by rewrite !upd_ne by done. }
    intros w9 b H' ->. rewrite !H', !upd_eq. done.
Qed.

End specs.
End Hal.
