(* ===== verification/BoardSim.v ===== *)
(** * A simulated board

    Ports, a watchdog, a timer and a clock tree with the laws the drivers of the
    board rely on, and the witnesses of those drivers' properties on them. *)

From S2P Require Import Prelude Fw Mmio Pal St Wdg Dma Hal.
From stdpp Require Import list.
Import Mmio Pal St Wdg Hal.
#[local] Open Scope Z_scope.

Module BoardSim.

(** Every write takes one tick. *)
Record sim := {
  ports : gpio → gpio_reg → Z; snaps : list (gpio → gpio_reg → Z);
  dog : iwdg; dogd : WDGDriver;
  ticks : Z; s_ccr : Z; s_dier : Z; s_flag : bool;
  sys : sys_reg → Z
}.

Definition sim_rd (r : reg) (w : sim) : Z * sim :=
  (match r with
   | rGPIO p x => ports w p x
   | rTIM2 TIM_CNT => u32 (ticks w)
   | rTIM2 TIM_SR => if s_flag w then 2 else 0
   | rSYS RCC_CFGR => Z.lor (Z.ldiff (sys w RCC_CFGR) RCC_CFGR_SWS) (Z.shiftl (Z.land (sys w RCC_CFGR) RCC_CFGR_SW) 2)
   | rSYS RCC_BDCR => sys w RCC_BDCR
   | rSYS r => Z.lor (sys w r) (status r)
   | _ => 0
   end, w).

Definition sim_wr (r : reg) (v : Z) (w : sim) : sim :=
  let ports' := λ p x, gpio_effect r v (ports w) p x in
  let ccr' := match r with rTIM2 TIM_CCR0 => v | _ => s_ccr w end in
  {| ports := ports'; snaps := snaps w ++ [ports']; dog := iwdg_effect r v (dog w); dogd := dogd w;
     ticks := ticks w + 1; s_ccr := ccr'; s_dier := match r with rTIM2 TIM_DIER => v | _ => s_dier w end;
     s_flag := (match r with rTIM2 TIM_SR => s_flag w && negb (Z.land v TIM_SR_CC1IF =? 0) | _ => s_flag w end)
               || crosses ccr' (ticks w) (ticks w + 1);
     sys := match r with rSYS r => upd (sys w) r (Z.ldiff v (status r)) | _ => sys w end |}.

#[export] Instance sim_mmio : Mmio sim := { mm_rd := sim_rd; mm_wr := sim_wr }.
#[export] Instance sim_obj : Obj sim WDGDriver := {
  obj := dogd;
  set_obj d w := {| ports := ports w; snaps := snaps w; dog := dog w; dogd := d; ticks := ticks w; s_ccr := s_ccr w;
                    s_dier := s_dier w; s_flag := s_flag w; sys := sys w |}
}.
#[export] Instance sim_laws : ObjLaws sim WDGDriver.
Proof. by split. Qed.

#[export] Instance sim_gpio : GpioHw sim.
Proof. refine {| pins := ports; seen := snaps |}; done. Defined.

#[export] Instance sim_tim : TimHw sim.
Proof.
  refine {| now := ticks; ccr := s_ccr; dier := s_dier; cc1if := s_flag |}.
  - done.
  - intros w. cbn. by destruct (s_flag w).
  - intros r v w. cbn. split_and!; try done. lia.
Defined.

#[export] Instance sim_iwdg : IwdgHw sim 0.
Proof. refine {| hw := dog |}; try done. by left. Defined.

(** The switch shows the clock chosen; every oscillator is ready. *)
Ltac bitwise := apply Z.bits_inj'; intros i Hi; repeat rewrite ?Z.ldiff_spec, ?Z.lor_spec, ?Z.land_spec.

Lemma ldiff_lor a s : Z.ldiff (Z.lor a s) s = Z.ldiff a s.
Proof. bitwise. by destruct (Z.testbit a i), (Z.testbit s i). Qed.

Lemma ready_shown a m s : Z.lor s m = s → m ≠ 0 → (Z.land (Z.lor a s) m =? 0) = false.
Proof.
  intros <- Hm. apply Z.eqb_neq. intros E. apply Hm. apply Z.bits_inj'. intros i Hi. pose proof (f_equal (λ x, Z.testbit x i) E) as Hb. cbn in Hb.
  rewrite Z.land_spec, !Z.lor_spec, Z.testbit_0_l in Hb. rewrite Z.testbit_0_l.
  destruct (Z.testbit a i), (Z.testbit s i), (Z.testbit m i); done.
Qed.

Lemma switch_shown c v : Z.land (Z.ldiff c RCC_CFGR_SWS) RCC_CFGR_SW = v →
  Z.land (Z.lor (Z.ldiff c RCC_CFGR_SWS) (Z.shiftl (Z.land c RCC_CFGR_SW) 2)) RCC_CFGR_SWS = Z.shiftl v 2.
Proof.
  intros <-. rewrite Z.land_lor_distr_l. replace (Z.land (Z.ldiff c RCC_CFGR_SWS) RCC_CFGR_SWS) with 0.
  2: { bitwise. rewrite Z.testbit_0_l. by destruct (Z.testbit c i), (Z.testbit RCC_CFGR_SWS i). }
  rewrite Z.lor_0_l. change RCC_CFGR_SWS with (Z.shiftl RCC_CFGR_SW 2) at 1. rewrite <-Z.shiftl_land, <-Z.land_assoc, Z.land_diag.
  f_equal. bitwise. destruct (Z.testbit c i); [|done]. change RCC_CFGR_SW with (Z.ones 2). change RCC_CFGR_SWS with (Z.shiftl (Z.ones 2) 2).
  rewrite Z.shiftl_spec, Z.testbit_ones_nonneg by lia. destruct (Z.ltb_spec i 2); [|by rewrite !andb_false_r]. by rewrite Z.testbit_neg_r by lia.
Qed.

#[export] Instance sim_clock : ClockHw sim 0.
Proof.
  refine {| sysr := λ w r, Z.ldiff (sys w r) (status r) |}.
  - intros r w. destruct r; cbn -[Z.ldiff Z.lor Z.land Z.shiftl status]; try apply ldiff_lor; try reflexivity.
    change (status RCC_CFGR) with RCC_CFGR_SWS. change RCC_CFGR_SWS with (Z.shiftl RCC_CFGR_SW 2). bitwise. rewrite !Z.shiftl_spec, Z.land_spec by lia.
    by destruct (Z.testbit (sys w RCC_CFGR) i), (Z.testbit RCC_CFGR_SW (i - 2)), (Z.testbit (sys w RCC_CFGR) (i - 2)).
  - done.
  - intros r v w x _. cbn. unfold upd. destruct (decide (x = r)) as [->|].
    + rewrite decide_True by done. bitwise. by destruct (Z.testbit v i), (Z.testbit (status r) i).
    + by rewrite decide_False.
  - intros r v w x Hr. destruct r; try done. by destruct (Hr r).
  - intros w _. left. by apply ready_shown.
  - intros w _. left. by apply ready_shown.
  - intros w _. left. by apply ready_shown.
  - intros w _. left. by apply ready_shown.
  - intros w _ _ _. left. by apply ready_shown.
  - intros w _ H. left. apply negb_false_iff, Z.eqb_eq. exact (switch_shown _ _ H).
  - intros w _ H _ _. left. apply negb_false_iff, Z.eqb_eq. exact (switch_shown _ _ H).
Defined.

(** After a reset: the alternate functions of the debug port on port A. *)
Definition start : sim := {|
  ports := λ p x, match p, x with PA, MODER => 0x28000000 | _, _ => 0 end; snaps := [];
  dog := {| running := false; unlocked := false; i_pr := 0; i_rlr := 0xFFF; i_winr := 0xFFF; reloads := 0 |};
  dogd := {| state := WDG_STOP; config := None |}; ticks := 4294967290; s_ccr := 0; s_dier := 0; s_flag := false;
  sys := λ _, 0
|}.

(** ** Witnesses *)

Definition console : Z := 0x8A + 0x20.
Lemma group_mode_exact_witness :
  wp (_pal_lld_setgroupmode PA 0xC console) (λ _ w', i_alt (pin_of (pins w') PA 2) = 1 ∧ i_mode (pin_of (pins w') PA 13) = 2) start.
Proof.
  eapply wp_mono; [|exact (group_mode_exact PA 0xC console start ltac:(lia))].
  intros [] w' (H & _ & _). rewrite (H 2), (H 13) by lia. vm_compute. split; reflexivity.
Defined.

Definition bus : IOBus := {| portid := PB; mask := 0xF; offset := 4 |}.
Lemma bus_write_isolated_witness :
  wp (palWriteBus bus 0x5) (λ _ w', Z.testbit (pins w' PB ODR) 6 = true ∧ Z.testbit (pins w' PB ODR) 0 = false) start.
Proof.
  eapply wp_mono; [|exact (bus_write_isolated bus 0x5 start ltac:(cbn; lia) ltac:(cbn; lia) eq_refl)].
  intros [] w' (H & _). split; (etrans; [apply H; lia|vm_compute; reflexivity]).
Defined.

(** Ten ticks after a reading just before the counter wraps. *)
Definition later (k : Z) (w : sim) : sim :=
  {| ports := ports w; snaps := snaps w; dog := dog w; dogd := dogd w; ticks := ticks w + k; s_ccr := s_ccr w; s_dier := s_dier w;
     s_flag := s_flag w || crosses (s_ccr w) (ticks w) (ticks w + k); sys := sys w |}.

Lemma read_time : port_timer_get_time start = Ok (4294967290, start).
Proof. reflexivity. Qed.

Definition set : sim := match port_timer_start_alarm 4 start with Ok (_, w) => w | Err _ => start end.
Lemma alarm_set : port_timer_start_alarm (u32 (4294967290 + 10)) start = Ok (tt, set).
Proof. reflexivity. Qed.

Lemma later_elapse k w : 0 <= k → elapse w (later k w).
Proof. intros Hk. split_and!; try done. cbn. lia. Qed.

Lemma alarm_on_time_witness : cc1if (later 7 set) = true ∧ cc1if (later 6 set) = false.
Proof.
  assert (now set < now start + 10) as Hn by (apply Z.ltb_lt; vm_compute; reflexivity).
  split.
  - rewrite (proj1 (alarm_on_time 10 start 4294967290 start set (later 7 set) ltac:(lia) read_time alarm_set Hn (later_elapse 7 set ltac:(lia)))).
    vm_compute. reflexivity.
  - rewrite (proj1 (alarm_on_time 10 start 4294967290 start set (later 6 set) ltac:(lia) read_time alarm_set Hn (later_elapse 6 set ltac:(lia)))).
    vm_compute. reflexivity.
Defined.

Lemma handler_serves_match_witness : ST_HANDLER (ret tt) start = Ok (tt, start).
Proof. exact (handler_serves_match (ret tt) start). Defined.

Definition main_config : WDGConfig := {| pr := 4; rlr := 1000; winr := 0xFFF |}.
Lemma watchdog_never_stops_witness :
  wp (execs 1 [Start main_config; Reset; Stop; Reset]) (λ _ w', running (hw w') = true ∧ i_rlr (hw w') = 1000 ∧ reloads (hw w') = 3%nat) start.
Proof.
  eapply wp_mono; [|exact (watchdog_never_stops 0 1 ltac:(lia) main_config [Reset; Stop; Reset] start)].
  intros [] w' (H1 & _ & H3 & _ & H5). split; [exact H1|]. split; [exact H3|exact H5].
Defined.

Lemma clocks_start_witness : wp (stm32_clock_init 1) (λ _ w', sysclk (sysr w' RCC_CFGR) (sysr w' RCC_CFGR2) = 48000000) start.
Proof. eapply wp_mono; [|exact (clocks_start 0 1 start ltac:(lia))]. intros [] w' (_ & H & _). exact H. Defined.

Lemma backup_domain_kept_witness :
  wp hal_lld_backup_domain_init (λ _ w', Z.land (sysr w' RCC_BDCR) STM32_RTCSEL_MASK = STM32_RTCSEL) start.
Proof. eapply wp_mono; [|exact (backup_domain_kept 0 start)]. intros [] w' (H & _). exact H. Defined.

End BoardSim.
