(* ===== verification/Boot.v ===== *)
(** * The start-up of the drivers (hal.c)

    [halInit] over one record of the drivers' variables: what every component
    relies on when the program begins to run. *)

From S2P Require Import Prelude SysTime Fw Queues CanDriver Mmio Dma AdcDrv AdcSpecs SerialDrv SerialSpecs Pal Wdg St Hal Spi SpiSpecs.
From stdpp Require Import list gmap.
Import Mmio Dma AdcDrv AdcSpecs SerialDrv SerialSpecs.
#[local] Open Scope Z_scope.

Module Boot.

(** ** The drivers' variables *)

Record hal_vars (G C F P : Type) := {
  v_adc : ADCDriver G; v_dma : dma_vars F P; v_serial : drivers; v_spi : Spi.SPIDriver C; v_wdg : Wdg.WDGDriver
}.
Arguments v_adc {G C F P}.
Arguments v_dma {G C F P}.
Arguments v_serial {G C F P}.
Arguments v_spi {G C F P}.
Arguments v_wdg {G C F P}.

Section lenses.
Context {W G C F P : Type} `{!Mmio W, !Obj W (hal_vars G C F P)}.
Notation vars w := (obj w : hal_vars G C F P).

#[export] Instance obj_adc : Obj W (ADCDriver G) := {
  obj w := v_adc (vars w);
  set_obj d w := set_obj {| v_adc := d; v_dma := v_dma (vars w); v_serial := v_serial (vars w); v_spi := v_spi (vars w); v_wdg := v_wdg (vars w) |} w
}.
#[export] Instance obj_dma : Obj W (dma_vars F P) := {
  obj w := v_dma (vars w);
  set_obj d w := set_obj {| v_adc := v_adc (vars w); v_dma := d; v_serial := v_serial (vars w); v_spi := v_spi (vars w); v_wdg := v_wdg (vars w) |} w
}.
#[export] Instance obj_serial : Obj W drivers := {
  obj w := v_serial (vars w);
  set_obj d w := set_obj {| v_adc := v_adc (vars w); v_dma := v_dma (vars w); v_serial := d; v_spi := v_spi (vars w); v_wdg := v_wdg (vars w) |} w
}.
#[export] Instance obj_spi : Obj W (Spi.SPIDriver C) := {
  obj w := v_spi (vars w);
  set_obj d w := set_obj {| v_adc := v_adc (vars w); v_dma := v_dma (vars w); v_serial := v_serial (vars w); v_spi := d; v_wdg := v_wdg (vars w) |} w
}.
#[export] Instance obj_wdg : Obj W Wdg.WDGDriver := {
  obj w := v_wdg (vars w);
  set_obj d w := set_obj {| v_adc := v_adc (vars w); v_dma := v_dma (vars w); v_serial := v_serial (vars w); v_spi := v_spi (vars w); v_wdg := d |} w
}.

Context `{!ObjLaws W (hal_vars G C F P)}.

Ltac lens := split; intros; cbn; rewrite ?obj_set, ?obj_rd, ?obj_wr; reflexivity.
#[export] Instance adc_laws : ObjLaws W (ADCDriver G).
Proof. lens. Qed.
#[export] Instance dma_laws : ObjLaws W (dma_vars F P).
Proof. lens. Qed.
#[export] Instance serial_laws : ObjLaws W drivers.
Proof. lens. Qed.
#[export] Instance wdg_laws : ObjLaws W Wdg.WDGDriver.
Proof. lens. Qed.
#[export] Instance apart_adc_dma : Apart W (ADCDriver G) (dma_vars F P).
Proof. lens. Qed.
#[export] Instance apart_dma_adc : Apart W (dma_vars F P) (ADCDriver G).
Proof. lens. Qed.

Context `{!CoreHw W, !CoreObjLaws W (hal_vars G C F P), !DmaHw W, !DmaObjLaws W (hal_vars G C F P)}.

#[export] Instance core_adc : CoreObjLaws W (ADCDriver G).
Proof. split; intros; cbn; [apply rcc_set|apply irq_set]. Qed.
#[export] Instance core_dma : CoreObjLaws W (dma_vars F P).
Proof. split; intros; cbn; [apply rcc_set|apply irq_set]. Qed.
#[export] Instance ie_adc : DmaObjLaws W (ADCDriver G).
Proof. split; intros; cbn. apply ie_set. Qed.
#[export] Instance ie_dma : DmaObjLaws W (dma_vars F P).
Proof. split; intros; cbn. apply ie_set. Qed.

End lenses.

(** What the CAN driver's registers, objects and services, and the services of
    the serial driver, leave alone at the start-up. *)
Class Far (W : Type) `{!CanDriver.CanHw W, !CanDriver.CanObj W, !CanDriver.Osal W CanDriver.can_queue CanDriver.can_event, !SerialOs W, !Spi.SpiOs W} {B : Type} (f : W → B) := {
  far_can_wr r v w : f (CanDriver.can_wr r v w) = f w;
  far_clock lp w : f (CanDriver.hw_call (CanDriver.rccEnableCAN1 lp) w) = f w ∧ f (CanDriver.hw_call (CanDriver.rccDisableCAN1 lp) w) = f w;
  far_can_obj d w : f (CanDriver.set_CAND1 d w) = f w;
  far_queue (q : CanDriver.can_queue) w : f (CanDriver.osalThreadQueueObjectInit q w) = f w;
  far_event (e : CanDriver.can_event) w : f (CanDriver.osalEventObjectInit e w) = f w;
  far_serial (o : so_call) w : f (so_do o w) = f w;
  far_spi (o : Spi.sp_call) w : f (Spi.sp_do o w) = f w
}.

Section boot.
Context {W G C F P : Type} `{!Mmio W, !Obj W (hal_vars G C F P), !SerialOs W, !Spi.SpiOs W}.
Context `{!CanDriver.CanHw W, !CanDriver.CanObj W, !CanDriver.Osal W CanDriver.can_queue CanDriver.can_event}.
Variable fuel : nat.

(** [boardInit] of board.c. *)
Definition boardInit : fw W unit := ret tt.

Definition halInit (pal_default_config : Pal.PALConfig) : fw W unit :=
  Hal.hal_lld_init (F:=F) (P:=P);;
  Pal.palInit pal_default_config;;
  adcInit (G:=G) fuel;;
  CanDriver.canInit;;
  sdInit;;
  Spi.spiInit (C:=C);;
  Wdg.wdgInit;;
  boardInit;;
  St.stInit.

(** ** Stages of the start-up *)

Lemma can_frames {B} (f : W → B) `{!Far W f} : frames f CanDriver.canInit.
Proof.
  unfold CanDriver.canInit, CanDriver.can_lld_init, CanDriver.canObjectInit, CanDriver.can_lld_set_filters, CanDriver.set_state,
    CanDriver.set_config, CanDriver.call, CanDriver.set_bits, CanDriver.clr_bits, CanDriver.rd, CanDriver.wr.
  change (0 <? 0) with false. cbv iota.
  frames_tac; first [apply far_can_wr|apply far_clock|apply far_can_obj|apply far_queue|apply far_event].
Qed.

Lemma can_runs w : wp CanDriver.canInit (λ _ _, True) w.
Proof. done. Qed.

Context `{!ObjLaws W (hal_vars G C F P), !CoreHw W, !CoreObjLaws W (hal_vars G C F P), !DmaHw W, !DmaObjLaws W (hal_vars G C F P)}.
Notation vars w := (obj w : hal_vars G C F P).

(** What the stages leave alone: the variables, an interrupt vector, the clocks of
    the bus of the streams, the interrupts of a stream. *)
Definition obs (k : Z) (i : nat) w := (vars w, irq_on w k, rcc w AHBENR, ie w i).

Lemma obs_rd k i r w : obs k i (mm_rd r w).2 = obs k i w.
Proof. unfold obs. by rewrite obj_rd, irq_rd, rcc_rd, ie_rd. Qed.

(** The registers that [obs] does not see. *)
Definition unseen (r : reg) : bool :=
  match r with rRCC AHBENR | rNVIC (ISER _) | rNVIC (ICER _) | rDMA1 _ => false | _ => true end.

Lemma obs_wr k i r v w : unseen r = true → obs k i (mm_wr r v w) = obs k i w.
Proof.
  intros Hr. unfold obs. rewrite obj_wr, irq_wr, rcc_wr, ie_wr.
  destruct r as [|[]|[]|[]| | | | | | |]; try discriminate Hr; try done; by rewrite decide_False.
Qed.

(** A stage that leaves everything alone, and ends. *)
Definition quiet (m : fw W unit) : Prop := (∀ k i, frames (obs k i) m) ∧ ∀ w, wp m (λ _ _, True) w.

Lemma wp_quiet m (Q : unit → W → Prop) w : quiet m → (∀ w', (∀ k i, obs k i w' = obs k i w) → Q tt w') → wp m Q w.
Proof.
  intros [Hf Hr] HQ. destruct (wp_elim _ _ _ (Hr w)) as ([] & w' & E & _). apply (wp_intro _ _ _ _ _ E), HQ.
  intros k i. by apply (Hf k i _ _ _ E).
Qed.

Ltac runs := repeat first [wp_step | apply wp_when; intros _ | done].
Ltac quiet := split; [intros; frames_tac; first [apply obs_rd | by apply obs_wr]|intros; runs].

Lemma quiet_resets m : quiet (Hal.rccResetAHB m) ∧ quiet (Hal.rccResetAPB1 m) ∧ quiet (Hal.rccResetAPB2 m) ∧ quiet (rccEnableAPB1 m).
Proof. unfold Hal.rccResetAHB, Hal.rccResetAPB1, Hal.rccResetAPB2, rccEnableAPB1. split_and!; quiet. Qed.

Lemma quiet_backup : quiet Hal.hal_lld_backup_domain_init.
Proof. unfold Hal.hal_lld_backup_domain_init. quiet. Qed.

Lemma quiet_gpio p c : quiet (Pal.initgpio p c).
Proof. unfold Pal.initgpio. quiet. Qed.

(** The other variables than the streams'. *)
Definition but_dma w := (v_adc (vars w), v_serial (vars w), v_spi (vars w), v_wdg (vars w)).

Lemma dma_frames : frames but_dma (dmaInit (F:=F) (P:=P)).
Proof.
  assert (∀ l i, frames but_dma (reset_streams (F:=F) (P:=P) l i)) as Hr.
  { induction l as [|s l IH]; intros i; cbn [reset_streams]; [frames_tac|].
    unfold set_redir, get_redir, write_obj. frames_tac; try apply IH; unfold but_dma; cbn; by rewrite ?obj_set, ?obj_rd, ?obj_wr. }
  unfold dmaInit, set_mask, write_obj. apply frames_bind; [|intros ?]; [frames_tac; unfold but_dma; cbn; by rewrite ?obj_set|].
  apply frames_bind; [apply Hr|intros ?]. frames_tac. unfold but_dma. by rewrite obj_wr.
Qed.

Lemma wp_hal_lld (Q : unit → W → Prop) w :
  length (_stm32_dma_isr_redir (v_dma (vars w))) = STM32_DMA_STREAMS → Z.testbit (rcc w AHBENR) 0 = false →
  (∀ s, s ∈ _stm32_dma_streams → irq_on w (vector s) = false) →
  (∀ w', claimed (∅ : gmap nat (F * option P)) w' → (∀ i, i ∈ channel <$> _stm32_dma_streams → ie w' i = 0) → (∀ k, irq_on w' k = irq_on w k) →
    rcc w' AHBENR = rcc w AHBENR → but_dma w' = but_dma w → Q tt w') →
  wp (Hal.hal_lld_init (F:=F) (P:=P)) Q w.
Proof.
  intros Hlen Hclk Hirq HQ. unfold Hal.hal_lld_init.
  apply wp_bind, wp_quiet; [apply quiet_resets|]. intros w1 O1. apply wp_bind, wp_quiet; [apply quiet_resets|]. intros w2 O2.
  apply wp_bind, wp_quiet; [apply quiet_resets|]. intros w3 O3. apply wp_bind, wp_quiet; [apply quiet_resets|]. intros w4 O4.
  apply wp_bind, wp_quiet; [apply quiet_backup|]. intros w5 O5.
  assert (∀ k i, obs k i w5 = obs k i w) as O by (intros; by rewrite O5, O4, O3, O2, O1).
  assert (vars w5 = vars w ∧ rcc w5 AHBENR = rcc w AHBENR) as [Ev Er] by (specialize (O 0 0%nat); by injection O as -> _ -> _).
  assert (∀ k, irq_on w5 k = irq_on w k) as Ei by (intros k; specialize (O k 0%nat); by injection O as _ -> _ _).
  eapply wp_mono; [|apply (wp_frame but_dma _ (λ _ w', claimed (∅ : gmap nat (F * option P)) w' ∧ (∀ i, i ∈ channel <$> _stm32_dma_streams → ie w' i = 0) ∧
    (∀ k, irq_on w' k = irq_on w5 k) ∧ ∀ r, rcc w' r = rcc w5 r)); [apply dma_frames|]].
  - intros [] w' [(Hc & Hie & Hi & Hr) E]. apply HQ; [exact Hc|exact Hie|intros; by rewrite Hi, Ei|by rewrite Hr, Er|].
    rewrite E. unfold but_dma. by rewrite Ev.
  - apply wp_dmaInit; cbn; rewrite ?Ev, ?Er; [done|done|intros s Hs; rewrite Ei; by apply Hirq|]. done.
Qed.

Lemma wp_palInit c (Q : unit → W → Prop) w :
  (∀ w', (∀ k, irq_on w' k = irq_on w k) → rcc w' AHBENR = Z.lor (rcc w AHBENR) Pal.AHB_EN_MASK → (∀ i, ie w' i = ie w i) → vars w' = vars w → Q tt w') →
  wp (Pal.palInit c) Q w.
Proof.
  intros HQ. unfold Pal.palInit, Pal._pal_lld_init, rccEnableAHB. wp_steps. set (w0 := mm_wr _ _ _).
  apply wp_quiet; [apply quiet_gpio|]. intros w1 O1. apply wp_bind, wp_quiet; [apply quiet_gpio|]. intros w2 O2.
  apply wp_bind, wp_quiet; [apply quiet_gpio|]. intros w3 O3. apply wp_quiet; [apply quiet_gpio|]. intros w4 O4.
  assert (∀ k i, obs k i w4 = obs k i w0) as O by (intros; by rewrite O4, O3, O2, O1). apply HQ.
  - intros k. specialize (O k 0%nat). injection O as _ -> _ _. unfold w0. by rewrite irq_wr, irq_rd.
  - specialize (O 0 0%nat). injection O as _ _ -> _. unfold w0. by rewrite rcc_wr, decide_True, rcc_val by done.
  - intros i. specialize (O 0 i). injection O as _ _ _ ->. unfold w0. by rewrite ie_wr, ie_rd.
  - specialize (O 0 0%nat). injection O as -> _ _ _. unfold w0. by rewrite obj_wr, obj_rd.
Qed.

Lemma frames_poll {B} (f : W → B) k r busy : (∀ w, f (mm_rd r w).2 = f w) → frames f (poll_while k r busy).
Proof.
  intros Hf. unfold poll_while. induction k as [|k IH]; cbn [while_fuel]; [frames_tac|].
  apply frames_bind; [by frames_tac|]. intros []; [|frames_tac]. apply frames_bind; [frames_tac|by intros _].
Qed.

(** The variables of the serial and watchdog drivers. *)
Definition but_adc w := (v_dma (vars w), v_serial (vars w), v_spi (vars w), v_wdg (vars w)).

Lemma adc_frames : frames but_adc (adcInit (G:=G) fuel).
Proof.
  unfold adcInit, adc_lld_init, adcObjectInit, set_state, set_grpp, upd_driver, driver, rccEnableAPB2, rccDisableAPB2, read_obj, write_obj.
  frames_tac; try (apply frames_poll; intros); unfold but_adc; cbn; by rewrite ?obj_set, ?obj_rd, ?obj_wr.
Qed.

Context {far : ∀ k i, Far W (obs k i)} `{!SerialWorld W, !SerialOsLaws W}.

Lemma quiet_can : quiet CanDriver.canInit.
Proof. split; [|apply can_runs]. intros k i. by apply can_frames. Qed.

(** What the start-up of the serial driver leaves alone, for a vector of another
    peripheral. *)
Definition but_serial k i w := (v_adc (vars w), v_dma (vars w), v_spi (vars w), v_wdg (vars w), rcc w AHBENR, ie w i, irq_on w k).

Lemma but_serial_os k i o w : but_serial k i (so_do o w) = but_serial k i w.
Proof. pose proof (far_serial (f:=obs k i) o w) as E. unfold obs in E. injection E as E1 E2 E3 E4. unfold but_serial. by rewrite E1, E2, E3, E4. Qed.

Lemma enable_frames n p k i : k ≠ n → frames (but_serial k i) (nvicEnableVector n p).
Proof.
  intros Hn w [] w' E.
  destruct (wp_elim (nvicEnableVector n p) (λ _ w', touched is_nvic w w' ∧ (∀ k, irq_on w' k = irq_on w k || (k =? n))) w) as ([] & w1 & E1 & T & I).
  { apply wp_nvicEnableVector. by intros. }
  rewrite E1 in E. injection E as <-. unfold but_serial.
  rewrite (touched_obj (T:=hal_vars G C F P) is_nvic w w1 T), I, (proj2 (Z.eqb_neq k n)), orb_false_r by done.
  rewrite (touched_ie is_nvic i w w1 (λ r Hr Hi, ltac:(by destruct r)) T), (touched_rcc is_nvic AHBENR w w1 (λ r Hr Hi, ltac:(by destruct r)) T). done.
Qed.

Lemma serial_frames k i : k ≠ 27 → k ≠ 28 → frames (but_serial k i) sdInit.
Proof.
  intros K1 K2. unfold sdInit, sd_lld_init, sdObjectInit, upd_sd, Queues.chIQObjectInit, Queues.chOQObjectInit.
  assert (∀ (d : drivers) w, but_serial k i (set_obj d w) = but_serial k i w) as Hs.
  { intros d w. unfold but_serial. cbn. by rewrite obj_set, rcc_set, ie_set, irq_set. }
  repeat first [apply enable_frames; done | apply frames_bind; [|intros ?]]; frames_tac; cbn [Queues.setq in_queue out_queue]; unfold set_sd;
    try apply but_serial_os; try apply Hs.
Qed.

(** The system timer leaves the drivers' variables alone, and the units. *)
Lemma timer_frames k i : k ≠ 15 → frames (but_serial k i) St.stInit.
Proof.
  intros K1. unfold St.stInit, St.st_lld_init, rccEnableAPB1.
  repeat first [apply enable_frames; done | apply frames_bind; [|intros ?]]; frames_tac.
  all: unfold but_serial; rewrite ?obj_rd, ?obj_wr, ?irq_rd, ?irq_wr, ?rcc_rd, ?rcc_wr, ?ie_rd, ?ie_wr; rewrite ?decide_False by done; done.
Qed.

Lemma timer_view u : frames (view u) St.stInit.
Proof. unfold St.stInit, St.st_lld_init, rccEnableAPB1, nvicEnableVector. frames_tac; first [apply view_rd | by apply view_wr]. Qed.

Lemma timer_runs w : wp St.stInit (λ _ _, True) w.
Proof. unfold St.stInit, St.st_lld_init, rccEnableAPB1, nvicEnableVector. runs. Qed.

(** The claims of the streams depend on their variables, their clock and the
    vectors of the streams. *)
Lemma claimed_kept (c : gmap nat (F * option P)) w w' :
  claimed c w → v_dma (vars w') = v_dma (vars w) → Z.testbit (rcc w' AHBENR) 0 = Z.testbit (rcc w AHBENR) 0 →
  (∀ s, s ∈ _stm32_dma_streams → irq_on w' (vector s) = irq_on w (vector s)) → claimed c w'.
Proof.
  intros [C1 C2 C3 C4 C5 C6] Ev Er Ei. cbn in *.
  split; cbn; rewrite ?Ev, ?Er; try done. intros s Hs. rewrite Ei by done. by apply C6.
Qed.

(** ** What the start-up establishes *)

Variables (n : nat) (Hn : (n < fuel)%nat).
Context `{!AdcTiming W n}.
(** The drivers' variables and the SPI driver's services are not what the serial
    units show. *)
Hypothesis seen_vars : ∀ (v : hal_vars G C F P) w, sent (set_obj v w) = sent w ∧ flags (set_obj v w) = flags w ∧ cr1 (set_obj v w) = cr1 w.
Hypothesis seen_spi : ∀ (o : Spi.sp_call) w, sent (Spi.sp_do o w) = sent w ∧ flags (Spi.sp_do o w) = flags w ∧ cr1 (Spi.sp_do o w) = cr1 w.
Variables (rx_handler : F) (ADCD1_ptr : P).

(** The vectors the start-up enables: both units' and the timer's. *)
Definition enabled_vectors : list Z := [27; 28; 15].

Lemma stream_vectors s : s ∈ _stm32_dma_streams → vector s ∉ enabled_vectors.
Proof.
  assert (Forall (λ s, vector s ∉ enabled_vectors) _stm32_dma_streams) as Hs by (apply (bool_decide_unpack _); reflexivity).
  rewrite Forall_forall in Hs. apply Hs.
Qed.

Lemma wp_converter (Q : unit → W → Prop) w :
  (∀ w', v_adc (vars w') = adc_initial → same_claims (F:=F) (P:=P) w w' → (∀ i, ie w' i = ie w i) → but_adc w' = but_adc w → Q tt w') →
  wp (adcInit (G:=G) fuel) Q w.
Proof.
  intros HQ. eapply wp_mono.
  2: { apply (wp_frame but_adc); [apply adc_frames|].
       apply (wp_adcInit n fuel Hn (λ _ w', v_adc (vars w') = adc_initial ∧ same_claims (F:=F) (P:=P) w w' ∧ ∀ i, ie w' i = ie w i)). by intros. }
  intros [] w' [(K1 & K2 & K3) E]. by apply HQ.
Qed.

Lemma wp_units (Q : unit → W → Prop) w :
  buffers_ok USART1 w → buffers_ok USART2 w →
  (∀ w', (∀ u, sd_state (sd u w') = SD_STOP ∧ ∃ ch, models u ch w' ∧ c_in ch = [] ∧ c_out ch = []) →
    (∀ k i, k ∉ enabled_vectors → but_serial k i w' = but_serial k i w) → Q tt w') →
  wp sdInit Q w.
Proof.
  intros B1 B2 HQ.
  destruct (wp_elim sdInit (λ _ w', ∀ u, models u (empty_chan u w) w' ∧ sd_state (sd u w') = SD_STOP) w) as ([] & w' & E & M).
  { apply wp_sdInit; [done..|]. intros w' M u. by destruct (M u) as (? & ? & _). }
  apply (wp_intro _ _ _ _ _ E), HQ.
  - intros u. destruct (M u) as [Mu Su]. split; [done|]. by exists (empty_chan u w).
  - intros k i Hk. apply (serial_frames k i) with (a := tt); [..|done]; intros ->; apply Hk; set_solver.
Qed.

(** The last two stages. *)
Lemma wp_last (Q : unit → W → Prop) w :
  (∀ w', Wdg.state (v_wdg (vars w')) = Wdg.WDG_STOP → v_adc (vars w') = v_adc (vars w) → v_dma (vars w') = v_dma (vars w) →
    v_spi (vars w') = v_spi (vars w) → (∀ u, view u w' = view u w) → rcc w' AHBENR = rcc w AHBENR → (∀ i, ie w' i = ie w i) →
    (∀ k, k ∉ enabled_vectors → irq_on w' k = irq_on w k) → Q tt w') →
  wp (Wdg.wdgInit;; boardInit;; St.stInit) Q w.
Proof.
  intros HQ. unfold Wdg.wdgInit, Wdg.wdg_lld_init, Wdg.upd_drv. apply wp_bind, wp_modify.
  set (v := {| v_adc := v_adc (vars w); v_dma := v_dma (vars w); v_serial := v_serial (vars w); v_spi := v_spi (vars w);
    v_wdg := Wdg.set_state Wdg.WDG_STOP (v_wdg (vars w)) |}). set (w1 := set_obj v w : W).
  change (wp St.stInit Q w1). assert (vars w1 = v) as E1 by apply obj_set.
  assert (∀ u, view u w1 = view u w) as V1.
  { intros u. unfold view, sd. cbn. rewrite E1. unfold w1. by destruct (seen_vars v w) as (-> & -> & ->). }
  destruct (wp_elim _ _ _ (timer_runs w1)) as ([] & w2 & E & _). apply (wp_intro _ _ _ _ _ E).
  assert (∀ k i, k ≠ 15 → but_serial k i w2 = but_serial k i w1) as Fk by (intros k i Hk; by apply (timer_frames k i Hk _ _ _ E)).
  assert (but_serial 0 0 w2 = but_serial 0 0 w1) as [= F1 F2 F3 F4 F5 _ _] by by apply Fk.
  rewrite E1 in F1, F2, F3, F4. cbn in *. apply HQ; [by rewrite F4|done..| | | |].
  - intros u. rewrite <-V1. by apply (timer_view u _ _ _ E).
  - rewrite F5. apply rcc_set.
  - intros i. assert (but_serial 0 i w2 = but_serial 0 i w1) as [= _ _ _ _ _ -> _] by by apply Fk. apply ie_set.
  - intros k Hk. assert (but_serial k 0 w2 = but_serial k 0 w1) as [= _ _ _ _ _ _ ->]; [|apply irq_set].
    apply Fk. intros ->. apply Hk. set_solver.
Qed.

(** The start-up of the SPI driver. *)
Definition but_spi k i w := (v_adc (vars w), v_dma (vars w), v_serial (vars w), v_wdg (vars w), rcc w AHBENR, ie w i, irq_on w k).

Definition spi_initial : Spi.SPIDriver C := {|
  Spi.state := Spi.SPI_STOP; Spi.config := None; Spi.dmarx := stream 1; Spi.dmatx := stream 2;
  Spi.rxdmamode := Spi.rx_mode; Spi.txdmamode := Spi.tx_mode
|}.

Lemma spi_initial_inv spi_the spi_rx spi_tx SPID1_ptr w :
  v_spi (vars w) = spi_initial → claimed (∅ : gmap nat (F * option P)) w → ie w 2 = 0 → ie w 3 = 0 →
  SpiSpecs.spi_inv (C:=C) (F:=F) (P:=P) spi_the spi_rx spi_tx SPID1_ptr w.
Proof.
  intros E Hc I2 I3. split; cbn; rewrite ?E; try done.
  unfold SpiSpecs.stopped. cbn. rewrite E. cbn. exists ∅. split; [done|]. by rewrite !lookup_empty.
Qed.

Lemma spi_call_vars o w : vars (Spi.sp_do o w) = vars w.
Proof. pose proof (far_spi (f:=obs 0 0) o w) as E. unfold obs in E. by injection E as -> _ _ _. Qed.

Lemma wp_spi (Q : unit → W → Prop) w :
  (∀ w', v_spi (vars w') = spi_initial → (∀ k i, but_spi k i w' = but_spi k i w) → (∀ u, view u w' = view u w) → Q tt w') →
  wp (Spi.spiInit (C:=C)) Q w.
Proof.
  intros HQ.
  assert (∀ k i, frames (but_spi k i) (Spi.spiInit (C:=C)) ∧ ∀ u, frames (view u) (Spi.spiInit (C:=C))) as Hf.
  { unfold Spi.spiInit, Spi.spi_lld_init, Spi.spiObjectInit, Spi.set_state, Spi.upd_driver, Spi.driver, Spi.call, read_obj, write_obj.
    intros k i. split; [|intros u].
    - frames_tac; unfold but_spi; cbn; rewrite ?obj_set, ?rcc_set, ?ie_set, ?irq_set; try done.
      all: pose proof (far_spi (f:=obs k i)) as E; unfold obs in E.
      all: match goal with |- context [Spi.sp_do ?o ?w] => specialize (E o w); injection E as -> -> -> -> end; done.
    - frames_tac; unfold view, sd; cbn; rewrite ?obj_set; cbn.
      all: match goal with |- context [set_obj ?v ?w] => destruct (seen_vars v w) as (-> & -> & ->) | |- context [Spi.sp_do ?o ?w] => rewrite spi_call_vars; destruct (seen_spi o w) as (-> & -> & ->) end; done. }
  destruct (wp_elim (Spi.spiInit (C:=C)) (λ _ w', v_spi (vars w') = spi_initial) w) as ([] & w' & E & H').
  - unfold Spi.spiInit, Spi.spi_lld_init, Spi.spiObjectInit, Spi.set_state, Spi.upd_driver, Spi.driver, Spi.call, read_obj, write_obj.
    wp_steps. cbn. by rewrite !obj_set, !spi_call_vars, !obj_set.
  - apply (wp_intro _ _ _ _ _ E), HQ; [done| |]; intros.
    + by apply (proj1 (Hf k i) _ _ _ E).
    + by apply (proj2 (Hf 0 0%nat) u _ _ _ E).
Qed.

Variables (spi_the : C → Spi.SPIConfig W) (spi_rx spi_tx : F) (SPID1_ptr : P).

(** C12 (invariant). From the state after a reset, with the clock and the vectors of
    the streams off and the serial queues' buffers at their size, the start-up
    ends, and establishes what every driver's theorems assume: the invariants of
    the converter and of the SPI driver hold in their stopped states, no stream
    is claimed, both serial units are stopped with empty queues and the watchdog
    is stopped. It enables no interrupt vector but those of the two units and of
    the system timer; so the converter's own, 12, stays off. *)
Theorem hal_init_establishes c w :
  length (_stm32_dma_isr_redir (v_dma (vars w))) = STM32_DMA_STREAMS → Z.testbit (rcc w AHBENR) 0 = false →
  (∀ s, s ∈ _stm32_dma_streams → irq_on w (vector s) = false) → buffers_ok USART1 w → buffers_ok USART2 w →
  wp (halInit c) (λ _ w', adc_inv (G:=G) rx_handler ADCD1_ptr w' ∧ state (v_adc (vars w')) = ADC_STOP ∧
    SpiSpecs.spi_inv spi_the spi_rx spi_tx SPID1_ptr w' ∧ Spi.state (v_spi (vars w')) = Spi.SPI_STOP ∧
    claimed (∅ : gmap nat (F * option P)) w' ∧
    (∀ u, sd_state (sd u w') = SD_STOP ∧ ∃ ch, models u ch w' ∧ c_in ch = [] ∧ c_out ch = []) ∧
    Wdg.state (v_wdg (vars w')) = Wdg.WDG_STOP ∧
    ∀ k, k ∉ enabled_vectors → irq_on w' k = irq_on w k) w.
Proof.
  intros Hlen Hclk Hirq B1 B2. unfold halInit.
  apply wp_bind, wp_hal_lld; [done..|]. intros w1 C1 I1 Q1 R1 E1.
  apply wp_bind, wp_palInit. intros w2 Q2 R2 I2 V2.
  apply wp_bind, wp_converter. intros w3 D3 S3 I3 E3. apply wp_bind, wp_quiet; [apply quiet_can|]. intros w4 O4.
  assert (vars w4 = vars w3) as V4 by (specialize (O4 0 0%nat); by injection O4 as -> _ _ _).
  assert (v_serial (vars w4) = v_serial (vars w)) as Es.
  { rewrite V4. injection E3 as _ -> _ _. rewrite V2. by injection E1 as _ -> _ _. }
  apply wp_bind, wp_units; [unfold buffers_ok, sd in *; cbn in *; by rewrite Es..|]. intros w5 U5 F5.
  assert (but_serial 0 0 w5 = but_serial 0 0 w4) as [= G1 G2 _ _ G3 _ _] by (apply F5; set_solver).
  apply wp_bind, wp_spi. intros ws SS SB SV. pose proof (SB 0 0%nat) as [= T1 T2 _ _ T3 _ _].
  apply wp_last. intros w6 W6 A6 M6 P6 V6 R6 J6 Q6.
  assert (v_adc (vars w6) = adc_initial) as EA by by rewrite A6, T1, G1, V4.
  assert (∀ i, i ∈ channel <$> _stm32_dma_streams → ie w6 i = 0) as EI.
  { intros i Hi. rewrite J6. pose proof (SB 0 i) as [= _ _ _ _ _ -> _].
    assert (but_serial 0 i w5 = but_serial 0 i w4) as [= _ _ _ _ _ -> _] by (apply F5; set_solver).
    specialize (O4 0 i). injection O4 as _ _ _ ->. rewrite I3, I2. by apply I1. }
  assert (∀ k, k ∉ enabled_vectors → irq_on w6 k = irq_on w k) as EQ.
  { intros k Hk. rewrite Q6 by done. pose proof (SB k 0%nat) as [= _ _ _ _ _ _ ->]. pose proof (F5 k 0%nat Hk) as [= _ _ _ _ _ _ ->].
    specialize (O4 k 0%nat). injection O4 as _ -> _ _. by rewrite (sc_irq _ _ S3), Q2, Q1. }
  assert (claimed (∅ : gmap nat (F * option P)) w6) as EC.
  { apply (claimed_kept _ w1); [done| | |].
    - rewrite M6, T2, G2, V4. transitivity (obj w2 : dma_vars F P); [exact (sc_vars _ _ S3)|]. cbn. by rewrite V2.
    - rewrite R6, T3, G3. specialize (O4 0 0%nat). injection O4 as _ _ -> _. rewrite (sc_clock _ _ S3), R2, Z.lor_spec. by rewrite orb_false_r.
    - intros s Hs. rewrite EQ by by apply stream_vectors. by rewrite Q1. }
  assert (v_spi (vars w6) = spi_initial) as EP by by rewrite P6, SS. split_and!; try done.
  - apply (initial_inv (G:=G)); [done|done|]. apply EI. by left.
  - by rewrite EA.
  - apply spi_initial_inv; [done|done|..]; apply EI; [by do 1 right; left|by do 2 right; left].
  - by rewrite EP.
  - intros u. destruct (U5 u) as (Su & ch & Mu & ? & ?). assert (view u w6 = view u w5) as V5 by by rewrite V6, SV. split.
    + assert (sd u w6 = sd u w5) as ->; [|done]. unfold view in V5. congruence.
    + exists ch. split; [|done]. by apply (view_models u _ w5).
Qed.

End boot.
End Boot.
