(* ===== verification/BootSim.v ===== *)
(** * A simulated board after a reset

    A world with every law the start-up relies on - registers, one record of
    drivers' variables, a CAN peripheral - and the witness of the start-up's
    property on it. *)

From S2P Require Import Prelude SysTime Fw Queues CanDriver Mmio Dma AdcDrv AdcSpecs SerialDrv SerialSpecs Pal Wdg St Hal Spi SpiSpecs AdcSim Boot.
From stdpp Require Import list gmap.
Import Queues Mmio Dma AdcDrv SerialDrv SerialSpecs Boot.
#[local] Open Scope Z_scope.

Module BootSim.

Definition variables : Type := hal_vars nat nat unit unit.

Record sim := {
  regs : reg → Z; vectors : Z → bool; told : usart → list Z; out : usart → list Z;
  vars : variables; cans : CanDriver.creg → Z; cand : CanDriver.CANDriver
}.

(** Commands take effect at once; an enabled converter is ready. *)
Definition sim_rd (r : reg) (w : sim) : Z * sim :=
  (if decide (r = rADC ADC_ISR) then Z.lor (regs w r) (Z.land (regs w (rADC ADC_CR)) ADC_CR_ADEN) else regs w r, w).
Definition sim_wr (r : reg) (v : Z) (w : sim) : sim :=
  {| regs := upd (regs w) r (if decide (r = rADC ADC_CR) then Z.ldiff v AdcSim.commands else v);
     vectors := λ n, match r with
       | rNVIC (ISER i) => vectors w n || vector_in n i v
       | rNVIC (ICER i) => vectors w n && negb (vector_in n i v)
       | _ => vectors w n
       end;
     told := told w; out := match r with rUSART u TDR => upd (out w) u (out w u ++ [v]) | _ => out w end;
     vars := vars w; cans := cans w; cand := cand w |}.
#[export] Instance sim_mmio : Mmio sim := { mm_rd := sim_rd; mm_wr := sim_wr }.

#[export] Instance sim_vars : Obj sim variables := {
  obj := vars;
  set_obj v w := {| regs := regs w; vectors := vectors w; told := told w; out := out w; vars := v; cans := cans w; cand := cand w |}
}.
#[export] Instance sim_laws : ObjLaws sim variables.
Proof. by split. Qed.
#[export] Instance sim_os : SerialOs sim := {
  so_do _ w := w;
  so_wait _ _ w := (Q_TIMEOUT, w);
  so_add_flags u f w := {| regs := regs w; vectors := vectors w; told := upd (told w) u (told w u ++ [f]); out := out w;
                           vars := vars w; cans := cans w; cand := cand w |}
}.

#[export] Instance sim_spi_os : Spi.SpiOs sim := { sp_do _ w := w; sp_suspend w := (0, w) }.

#[export] Instance sim_can : CanDriver.CanHw sim := {
  can_rd w r := cans w r;
  can_wr r v w := {| regs := regs w; vectors := vectors w; told := told w; out := out w; vars := vars w;
                     cans := upd (cans w) r v; cand := cand w |};
  hw_call _ w := w
}.
#[export] Instance sim_cand : CanDriver.CanObj sim := {
  CAND1 := cand;
  set_CAND1 d w := {| regs := regs w; vectors := vectors w; told := told w; out := out w; vars := vars w; cans := cans w; cand := d |}
}.
#[export] Instance sim_osal : CanDriver.Osal sim CanDriver.can_queue CanDriver.can_event := {
  osalThreadQueueObjectInit _ w := w; osalEventObjectInit _ w := w; osalThreadEnqueueTimeoutS _ _ w := (0, w);
  osalThreadDequeueAllI _ _ w := w; osalEventBroadcastFlagsI _ _ w := w; osalThreadSleepS _ w := w; osalOsRescheduleS w := w
}.

#[export] Instance sim_core : CoreHw sim.
Proof.
  refine {| rcc := λ w r, regs w (rRCC r); irq_on := vectors |}.
  all: try done.
  intros r v w r'. cbn. unfold upd. destruct r; repeat case_decide; congruence.
Defined.
#[export] Instance sim_core_vars : CoreObjLaws sim variables.
Proof. by split. Qed.
#[export] Instance sim_ie : DmaHw sim.
Proof.
  refine {| ie := λ w i, ie_of (regs w (rDMA1 (CCR i))) |}.
  all: try done.
  intros r v w i. cbn. unfold upd. destruct r as [|[]| | | | | | | | |]; repeat case_decide; congruence.
Defined.
#[export] Instance sim_ie_vars : DmaObjLaws sim variables.
Proof. by split. Qed.
#[export] Instance sim_far k i : Far sim (obs (G:=nat) (C:=nat) (F:=unit) (P:=unit) k i).
Proof. by split. Qed.

#[export] Instance sim_world : SerialWorld sim.
Proof.
  refine {| cr1 := λ w u, regs w (rUSART u CR1); sent := out; flags := told |}.
  all: try done.
  - intros r v w u. cbn. unfold upd. destruct r as [| | | |u' []| | | | | |]; repeat case_decide; congruence.
  - intros r v w u. cbn. unfold upd. destruct r as [| | | |u' []| | | | | |]; try done. repeat case_decide; congruence.
  - intros u f w u'. cbn. unfold upd. repeat case_decide; congruence.
Defined.
#[export] Instance sim_os_laws : SerialOsLaws sim.
Proof. by split. Qed.

#[export] Instance sim_timing : AdcTiming sim 0.
Proof.
  split.
  - intros w v m Hm. left. cbn. rewrite decide_False, upd_eq, decide_True by done. by apply AdcSim.commands_end.
  - intros w. left. cbn. rewrite decide_True, upd_ne, upd_eq, decide_True by done. apply negb_false_iff, AdcSim.enabled_ready.
Qed.

(** ** The board after a reset *)

Definition garbage : ADCDriver nat :=
  {| state := ADC_ERROR; config := None; samples := 7; depth := 7; grpp := Some 3%nat; dmastp := stream 2; dmamode := 5 |}.
Definition new_queue : io_queue := {| q_counter := 7; q_buffer := replicate 16 0; q_wrptr := 3; q_rdptr := 5 |}.

(** The drivers' variables hold anything; only the sizes of the buffers are the
    program's. *)
Definition after_reset : sim := {|
  regs := λ _, 0; vectors := λ _, false; told := λ _, []; out := λ _, [];
  vars := {|
    v_adc := garbage;
    v_dma := {| dma_streams_mask := 9; _stm32_dma_isr_redir := replicate 5 {| dma_func := Some tt; dma_param := None |} |};
    v_serial := λ _, {| sd_state := SD_UNINIT; iqueue := new_queue; oqueue := new_queue; clock := 0 |};
    v_spi := {| Spi.state := Spi.SPI_ACTIVE; Spi.config := Some 4%nat; Spi.dmarx := stream 0; Spi.dmatx := stream 0;
                Spi.rxdmamode := 1; Spi.txdmamode := 1 |};
    v_wdg := {| Wdg.state := Wdg.WDG_UNINIT; Wdg.config := None |}
  |};
  cans := λ _, 0; cand := {| CanDriver.state := CanDriver.CAN_UNINIT; CanDriver.config := None |}
|}.

Definition no_pins : Pal.stm32_gpio_setup_t :=
  {| Pal.moder := 0; Pal.otyper := 0; Pal.ospeedr := 0; Pal.pupdr := 0; Pal.odr := 0; Pal.afrl := 0; Pal.afrh := 0 |}.
Definition no_ports : Pal.PALConfig := {| Pal.PAData := no_pins; Pal.PBData := no_pins; Pal.PCData := no_pins; Pal.PFData := no_pins |}.

Definition no_callback (c : nat) : Spi.SPIConfig sim :=
  {| Spi.end_cb := None; Spi.ssport := PA; Spi.sspad := 4; Spi.cr1 := 0; Spi.cr2 := 0x700 |}.

Lemma hal_init_establishes_witness :
  wp (halInit (G:=nat) (C:=nat) (F:=unit) (P:=unit) 1 no_ports)
    (λ _ w', adc_inv (G:=nat) tt tt w' ∧ SpiSpecs.spi_inv no_callback tt tt tt w' ∧ irq_on w' 12 = false) after_reset.
Proof.
  eapply wp_mono; [|apply (hal_init_establishes 1 0 ltac:(lia) (λ v w, conj eq_refl (conj eq_refl eq_refl))
    (λ o w, conj eq_refl (conj eq_refl eq_refl)) tt tt no_callback tt tt tt no_ports after_reset eq_refl eq_refl (λ s _, eq_refl)); by split].
  intros [] w' (H & _ & S & _ & _ & _ & _ & K). split; [exact H|]. split; [exact S|]. rewrite K by set_solver. done.
Defined.

End BootSim.
