(* ===== verification/Tickless.v ===== *)
(** * The virtual timers on the hardware counter (chvt.c, chvt.h, chcore_timer.h)

    The operations of VTimers as the code makes them: the time is read from the
    counter, the alarm is the compare register of the system timer. Time passes at
    every access; the two ticks of [CH_CFG_ST_TIMEDELTA] are the room the code
    leaves for it. *)

From S2P Require Import Prelude SysTime Fw Mmio St VTimers.
From stdpp Require Import list.
Import SysTime Mmio St VTimers.
#[local] Open Scope Z_scope.

Module Tickless.

Section timers.
Context {W : Type} `{!Mmio W, !Obj W vtlist}.

(** The callbacks; they run with the lock released. *)
Variable call_timer : nat → nat → fw W unit.

(** The links and [vt_lasttime]. The record's own alarm is not used here. *)
Definition set_timers (l : list virtual_timer) (last : Z) : fw W unit :=
  v ← read_obj;
  write_obj {| vt_list := l; vt_lasttime := last; alarm := alarm v |}.

Definition safe_delta (delta : Z) : Z := if delta <? CH_CFG_ST_TIMEDELTA then CH_CFG_ST_TIMEDELTA else delta.

(** The timer is not in the list, as the code requires of its callers (a debug
    assertion that is switched off): setting one that is would corrupt the links,
    where here the list holds it twice. *)
Definition chVTDoSetI (id : nat) (delay : Z) (func par : nat) : fw W unit :=
  let t := {| vt_id := id; vt_delta := 0; vt_func := func; vt_par := par |} in
  now ← port_timer_get_time;
  let delay := safe_delta delay in
  v ← read_obj;
  match vt_list v with
  | [] =>
    set_timers [with_delta delay t] now;;
    port_timer_start_alarm (u32 (now + delay))
  | p :: l =>
    let delta := u32 (now - vt_lasttime v + delay) in
    if delta <? u32 (now - vt_lasttime v) then
      set_timers (p :: vt_insert t (u32 (delta - vt_delta p)) l) (vt_lasttime v)
    else
      when (delta <? vt_delta p) (port_timer_set_alarm (u32 (vt_lasttime v + delta)));;
      set_timers (vt_insert t delta (p :: l)) (vt_lasttime v)
  end.

(** The timer is in the list, again as required of the callers; here the list stays
    as it is when it is not. *)
Definition chVTDoResetI (id : nat) : fw W unit :=
  v ← read_obj;
  match vt_list v with
  | [] => ret tt
  | t :: l =>
    if decide (vt_id t = id) then
      match l with
      | [] =>
        set_timers [] (vt_lasttime v);;
        port_timer_stop_alarm
      | n :: l =>
        let d := u32 (vt_delta n + vt_delta t) in
        set_timers (with_delta d n :: l) (vt_lasttime v);;
        now ← port_timer_get_time;
        let nowdelta := u32 (now - vt_lasttime v) in
        if d <=? nowdelta then ret tt
        else port_timer_set_alarm (u32 (vt_lasttime v + nowdelta + safe_delta (d - nowdelta)))
      end
    else set_timers (vt_remove id (t :: l)) (vt_lasttime v)
  end.

(** The loop of [chVTDoTickI]; it ends with the time read last. *)
Fixpoint tick_loop (fuel : nat) (now : Z) : fw W Z :=
  match fuel with
  | O => throw OutOfFuel
  | S fuel =>
    v ← read_obj;
    match vt_list v with
    | [] => if vt_sentinel <=? u32 (now - vt_lasttime v) then throw NullPointer else ret now
    | t :: l =>
      if vt_delta t <=? u32 (now - vt_lasttime v) then
        set_timers l (u32 (vt_lasttime v + vt_delta t));;
        when (bool_decide (l = [])) port_timer_stop_alarm;;
        call_timer (vt_func t) (vt_par t);;
        now ← port_timer_get_time;
        tick_loop fuel now
      else ret now
    end
  end.

Definition chVTDoTickI (fuel : nat) : fw W unit :=
  now ← port_timer_get_time;
  now ← tick_loop fuel now;
  v ← read_obj;
  match vt_list v with
  | [] => ret tt
  | t :: _ => port_timer_set_alarm (u32 (now + safe_delta (u32 (vt_lasttime v + vt_delta t - now))))
  end.

(** The interrupt of the system timer. *)
Definition timer_interrupt (fuel : nat) : fw W unit := ST_HANDLER (chVTDoTickI fuel).

End timers.

(** ** The speed of the accesses

    The counter counts cycles of the processor's clock, [per] to a tick; an access,
    with the instructions up to it, takes at most [ACCESS_CYCLES]. *)

Definition per : Z := ST_CLOCK_SRC / OSAL_ST_FREQUENCY.
Definition ACCESS_CYCLES : Z := 1000.

Class TickClock (W : Type) `{!Mmio W, !TimHw W} := {
  clk : W → Z;
  clk_now w : now w = clk w / per;
  clk_rd r w : clk (mm_rd r w).2 <= clk w + ACCESS_CYCLES;
  clk_wr r v w : clk (mm_wr r v w) <= clk w + ACCESS_CYCLES;
  tim_rd r w : elapse w (mm_rd r w).2
}.

(** A variable is no timer. *)
Class TickObjLaws (W T : Type) `{!Mmio W, !TimHw W, !TickClock W, !Obj W T} := {
  clk_set x w : clk (set_obj x w) = clk w;
  ccr_set x w : ccr (set_obj x w) = ccr w;
  dier_set x w : dier (set_obj x w) = dier w;
  cc1if_set x w : cc1if (set_obj x w) = cc1if w
}.

(** The flag is up or comes up at [m], less than a turn away. *)
Definition due {W} `{!Mmio W, !TimHw W} (m : Z) (w : W) : Prop :=
  cc1if w = true ∨ now w < m < now w + 2 ^ 32 ∧ ccr w = u32 m.

Section due.
Context {W : Type} `{!Mmio W, !TimHw W}.
Implicit Types w : W.

Lemma crosses_at m a b : a < m < a + 2 ^ 32 → crosses (u32 m) a b = (m <=? b).
Proof. intros H. pose proof (crosses_ahead a (m - a) a b) as E. rewrite Zplus_minus in E. apply E; lia. Qed.

(** The condition holds again after time has passed, and has come true by [m]. *)
Lemma due_crosses m w w' :
  now w <= now w' → ccr w' = ccr w → cc1if w' = cc1if w || crosses (ccr w) (now w) (now w') → due m w →
  due m w' ∧ (m <= now w' → cc1if w' = true).
Proof.
  intros Hn Hc Hf [E|[Hm Ec]].
  - assert (cc1if w' = true) as F by by rewrite Hf, E. split; [by left|done].
  - rewrite Ec in Hf. rewrite crosses_at in Hf by done. destruct (Z.leb_spec m (now w')).
    + rewrite orb_true_r in Hf. split; [by left|done].
    + split; [right; split; [lia|congruence]|lia].
Qed.

Lemma due_elapse m w w' : elapse w w' → due m w → due m w' ∧ (m <= now w' → cc1if w' = true).
Proof. intros (Hn & Hc & _ & Hf). by apply due_crosses. Qed.

(** Writes of other registers of the timer than the two it depends on. *)
Lemma due_wr r v m w : r ≠ rTIM2 TIM_CCR0 → r ≠ rTIM2 TIM_SR → due m w → due m (mm_wr r v w).
Proof.
  intros H1 H2 Hd. destruct (tim_wr r v w) as (Hn & Hc & _ & Hf).
  destruct r as [| | | | | | |[]| | |]; try done; rewrite Hc in Hf; by eapply due_crosses.
Qed.

(** An alarm is due when the time written is still to come. *)
Lemma due_ccr m w : now w < m < now w + 2 ^ 32 → due m (mm_wr (rTIM2 TIM_CCR0) (u32 m) w).
Proof.
  intros Hm. destruct (tim_wr (rTIM2 TIM_CCR0) (u32 m) w) as (Hn & Hc & _ & Hf). cbn in Hc, Hf. rewrite Hc, crosses_at in Hf by done.
  unfold due. rewrite Hf, Hc. destruct (Z.leb_spec m (now (mm_wr (rTIM2 TIM_CCR0) (u32 m) w))); [left; apply orb_true_r|].
  right. split; [lia|done].
Qed.

(** Clearing the flag loses nothing that is still to come. *)
Lemma due_clear m w : now (mm_wr (rTIM2 TIM_SR) 0 w) < m < now w + 2 ^ 32 → ccr w = u32 m → due m (mm_wr (rTIM2 TIM_SR) 0 w).
Proof. intros Hm Ec. destruct (tim_wr (rTIM2 TIM_SR) 0 w) as (Hn & Hc & _ & _). right. split; [lia|congruence]. Qed.

End due.

(** ** The invariant *)

Lemma since_last n L : 0 <= n - L < 2 ^ 32 → u32 (u32 n - u32 L) = n - L.
Proof. intros H. rewrite u32_sub_l, u32_sub_r. by apply u32_id. Qed.

Lemma u32_wrap z : 2 ^ 32 <= z < 2 ^ 33 → u32 z = z - 2 ^ 32.
Proof. intros. cint. Qed.

Section ops.
Context {W : Type} `{!Mmio W, !TimHw W, !TickClock W, !Obj W vtlist, !ObjLaws W vtlist, !TickObjLaws W vtlist}.
Implicit Types (w : W) (L : Z).
Notation T w := (obj w : vtlist).

(** [L] is the time, in ticks since the start, that [vt_lasttime] stands for. With
    timers armed, the alarm's interrupt is enabled, and its flag is up or comes up
    at most one tick after the first timer expires; with none it is disabled. *)
Record timers_ok L w : Prop := {
  to_last : vt_lasttime (T w) = u32 L;
  to_le : L <= now w;
  to_deltas : deltas_ok (vt_list (T w));
  to_alarm : match vt_list (T w) with
             | [] => dier w = 0
             | t :: _ => dier w = STM32_TIM_DIER_CC1IE ∧ ∃ m, m <= L + vt_delta t + 1 ∧ due m w
             end
}.

(** The timers and the alarm as VTimers has them. *)
Definition hw_timers w : vtlist :=
  {| vt_list := vt_list (T w); vt_lasttime := vt_lasttime (T w);
     alarm := if dier w =? 0 then None else Some (ccr w) |}.

Lemma now_set (x : vtlist) w : now (set_obj x w) = now w.
Proof. by rewrite !clk_now, clk_set. Qed.

Lemma due_set m (x : vtlist) w : due m w → due m (set_obj x w).
Proof. unfold due. by rewrite cc1if_set, ccr_set, now_set. Qed.

(** Up to four accesses take at most a tick. *)
Lemma now_spent k w w' : clk w' <= clk w + k * ACCESS_CYCLES → k <= 4 → now w' <= now w + 1.
Proof.
  intros Hc Hk. rewrite !clk_now. unfold per, ACCESS_CYCLES in *. change (ST_CLOCK_SRC / OSAL_ST_FREQUENCY) with 4800.
  Z.to_euclidean_division_equations. lia.
Qed.

Lemma wp_time Q w : (∀ w1, w1 = (mm_rd (rTIM2 TIM_CNT) w).2 → Q (u32 (now w1)) w1) → wp port_timer_get_time Q w.
Proof.
  intros HQ. unfold port_timer_get_time, stGetCounter, st_lld_get_counter. wp_steps. rewrite cnt_val, u32_idemp. by apply HQ.
Qed.

Lemma wp_set_timers l last Q w :
  (∀ v, vt_list v = l → vt_lasttime v = last → Q tt (set_obj v w)) → wp (set_timers l last) Q w.
Proof. intros HQ. unfold set_timers. wp_steps. by apply HQ. Qed.

(** What the accesses of an operation leave of the clock. *)
Lemma now_wr r v w : now w <= now (mm_wr r v w).
Proof. by destruct (tim_wr r v w). Qed.

Lemma set_alarm_due m w : now w < m < now w + 2 ^ 32 → dier (mm_wr (rTIM2 TIM_CCR0) (u32 m) w) = dier w ∧ due m (mm_wr (rTIM2 TIM_CCR0) (u32 m) w).
Proof. intros Hm. destruct (tim_wr (rTIM2 TIM_CCR0) (u32 m) w) as (_ & _ & Hd & _). split; [done|by apply due_ccr]. Qed.

Lemma start_alarm_due m Q w :
  now w + 1 < m < now w + 2 ^ 32 →
  (∀ w', clk w' <= clk w + 3 * ACCESS_CYCLES → now w <= now w' → T w' = T w → dier w' = STM32_TIM_DIER_CC1IE → ccr w' = u32 m → due m w' → Q tt w') →
  wp (port_timer_start_alarm (u32 m)) Q w.
Proof.
  intros Hm HQ. unfold port_timer_start_alarm, stStartAlarm, st_lld_start_alarm. wp_steps.
  set (w1 := mm_wr _ (u32 m) w). set (w2 := mm_wr _ 0 w1). set (w3 := mm_wr _ _ w2).
  destruct (tim_wr (rTIM2 TIM_CCR0) (u32 m) w) as (N1 & C1 & _ & _). fold w1 in N1, C1. cbn in C1.
  destruct (tim_wr (rTIM2 TIM_SR) 0 w1) as (N2 & C2 & _ & _). fold w2 in N2, C2. cbn in C2.
  destruct (tim_wr (rTIM2 TIM_DIER) STM32_TIM_DIER_CC1IE w2) as (N3 & C3 & D3 & _). fold w3 in N3, C3, D3. cbn in C3, D3.
  pose proof (clk_wr (rTIM2 TIM_CCR0) (u32 m) w) as K1. fold w1 in K1. pose proof (clk_wr (rTIM2 TIM_SR) 0 w1) as K2. fold w2 in K2.
  pose proof (clk_wr (rTIM2 TIM_DIER) STM32_TIM_DIER_CC1IE w2) as K3. fold w3 in K3.
  apply HQ; [lia|lia|unfold w3, w2, w1; by rewrite !obj_wr|done|congruence|].
  pose proof (now_spent 2 w w2 ltac:(lia) ltac:(lia)).
  apply due_wr; [done|done|]. apply due_clear; [|done]. fold w2. lia.
Qed.

(** ** Setting a timer *)

Lemma safe_delta_max d : safe_delta d = Z.max d 2.
Proof. unfold safe_delta, CH_CFG_ST_TIMEDELTA. destruct (Z.ltb_spec d 2); lia. Qed.

(** The first of the timers after an insertion. *)
Lemma vt_insert_first t delta p l :
  vt_insert t delta (p :: l) = if vt_delta p <? delta then p :: vt_insert t (u32 (delta - vt_delta p)) l
                               else with_delta delta t :: with_delta (u32 (vt_delta p - delta)) p :: l.
Proof. done. Qed.

Lemma hw_armed w t l L : timers_ok L w → vt_list (T w) = t :: l → dier w = STM32_TIM_DIER_CC1IE ∧ hw_timers w = {| vt_list := t :: l; vt_lasttime := u32 L; alarm := Some (ccr w) |}.
Proof. intros [H1 _ _ H4] E. rewrite E in H4. destruct H4 as [Hd _]. unfold hw_timers. by rewrite Hd, E, H1. Qed.

(** The links written, with an alarm for the first timer. *)
Lemma relinked_ok L m v w t l :
  vt_list v = t :: l → vt_lasttime v = u32 L → deltas_ok (t :: l) → L <= now w →
  dier w = STM32_TIM_DIER_CC1IE → m <= L + vt_delta t + 1 → due m w →
  timers_ok L (set_obj v w) ∧ hw_timers (set_obj v w) = {| vt_list := t :: l; vt_lasttime := u32 L; alarm := Some (ccr w) |}.
Proof.
  intros E1 E2 Hok HL Hd Hm Hdue. split.
  - split; rewrite ?obj_set, ?E1, ?E2, ?now_set, ?dier_set; try done. split; [done|]. exists m. split; [done|]. by apply due_set.
  - unfold hw_timers. by rewrite obj_set, E1, E2, dier_set, ccr_set, Hd.
Qed.

Lemma set_ok L id delay f p w :
  timers_ok L w → 0 <= delay < 2 ^ 32 → vt_list (T w) = [] ∨ now w + 1 < L + 2 ^ 32 →
  let t := {| vt_id := id; vt_delta := 0; vt_func := f; vt_par := p |} in
  wp (chVTDoSetI id delay f p) (λ _ w', ∃ n, now w <= n <= now w' ∧ now w' <= now w + 1
    ∧ timers_ok (match vt_list (T w) with [] => n | _ => L end) w'
    ∧ hw_timers w' = do_set t (u32 n) delay (hw_timers w)) w.
Proof.
  intros I Hd Hr t. unfold chVTDoSetI. apply wp_bind, wp_time. intros w1 ->. set (w1 := (mm_rd _ w).2).
  pose proof (tim_rd (rTIM2 TIM_CNT) w) as E1. pose proof (clk_rd (rTIM2 TIM_CNT) w) as K1. fold w1 in E1, K1.
  pose proof E1 as (N1 & C1 & D1 & F1). pose proof (now_spent 1 w w1 ltac:(lia) ltac:(lia)) as S1.
  assert (T w1 = T w) as ET by apply obj_rd.
  set (d := safe_delta delay). assert (2 <= d < 2 ^ 32) as Hd2 by (unfold d; rewrite safe_delta_max; lia).
  apply wp_bind. unfold read_obj. apply wp_gets. rewrite ET. destruct (vt_list (T w)) as [|q l] eqn:El.
  - apply wp_bind, wp_set_timers. intros v Ev1 Ev2. rewrite u32_add_l.
    pose proof (now_set v w1) as Nv. set (w2 := set_obj v w1) in *.
    apply (start_alarm_due (now w1 + d)); [lia|]. intros w' K' N' T' D' C' M'. exists (now w1). split_and!; [lia|lia| | |].
    + pose proof (clk_set v w1) as Kv. fold w2 in Kv. apply (now_spent 4); lia.
    + unfold w2 in T'. rewrite obj_set in T'. split; rewrite ?T', ?Ev1; [done|lia| |].
      * constructor; [cbn; lia|constructor].
      * split; [done|]. exists (now w1 + d). cbn. split; [lia|done].
    + unfold w2 in T'. rewrite obj_set in T'. unfold hw_timers at 1. rewrite T', D', C', Ev1, Ev2.
      unfold do_set. cbn [vt_list hw_timers]. rewrite El. cbn. fold d. by rewrite u32_add_l.
  - destruct Hr as [|Hr]; [done|]. pose proof (hw_armed w q l L I El) as [Dw Hw]. pose proof (to_last _ _ I) as EL.
    pose proof (to_le _ _ I). pose proof (to_deltas _ _ I) as Hok. pose proof (to_alarm _ _ I) as Ha. rewrite El in Hok, Ha.
    destruct Ha as [_ (m & Hm & Hdue)].
    assert (0 <= vt_delta q < 2 ^ 32) as Hq by by apply Forall_cons_1 in Hok as [? _].
    destruct (due_elapse m w w1 E1 Hdue) as [Hdue1 _].
    rewrite EL. set (e := u32 (u32 (now w1) - u32 L)). assert (e = now w1 - L) as Ee by (apply since_last; lia).
    replace (u32 (u32 (now w1) - u32 L + d)) with (u32 (e + d)) by (unfold e; by rewrite u32_add_l).
    pose proof (do_set_deltas t (u32 (now w1)) delay (hw_timers w)) as HD. cbn [hw_timers vt_list] in HD. rewrite El in HD. specialize (HD Hok Hd).
    set (v' := do_set t (u32 (now w1)) delay (hw_timers w)) in *.
    assert (v' = if u32 (e + d) <? e then {| vt_list := q :: vt_insert t (u32 (u32 (e + d) - vt_delta q)) l; vt_lasttime := u32 L; alarm := Some (ccr w) |}
      else {| vt_list := vt_insert t (u32 (e + d)) (q :: l); vt_lasttime := u32 L;
              alarm := if u32 (e + d) <? vt_delta q then Some (u32 (u32 L + u32 (e + d))) else Some (ccr w) |}) as Ev' by (unfold v'; by rewrite Hw).
    destruct (Z.ltb_spec (u32 (e + d)) e) as [Lo|Lo]; rewrite Ev' in HD; cbn [vt_list] in HD.
    + apply wp_set_timers. intros v Ev1 Ev2.
      destruct (relinked_ok L m v w1 q _ Ev1 Ev2 HD ltac:(lia) ltac:(congruence) ltac:(lia) Hdue1) as [I' HT'].
      exists (now w1). fold v'. rewrite now_set, HT', C1, Ev'. split_and!; try done; lia.
    + assert (u32 (e + d) = e + d) as Es by (destruct (decide (e + d < 2 ^ 32)); [apply u32_id; lia|rewrite u32_wrap in Lo by lia; lia]). rewrite Es in *.
      rewrite vt_insert_first in *. destruct (Z.ltb_spec (e + d) (vt_delta q)) as [Lq|Lq].
      * assert ((vt_delta q <? e + d) = false) as Eq by (apply Z.ltb_ge; lia). rewrite Eq in *. cbn [when].
        unfold port_timer_set_alarm, stSetAlarm, st_lld_set_alarm. apply wp_bind, wp_wr, wp_set_timers. intros v Ev1 Ev2. rewrite u32_add_l in *.
        replace (L + (e + d)) with (now w1 + d) in * by lia.
        assert (now w1 < now w1 + d < now w1 + 2 ^ 32) as Hb by lia.
        destruct (set_alarm_due (now w1 + d) w1 Hb) as [D2 M2]. set (w2 := mm_wr _ _ w1) in *.
        pose proof (now_wr (rTIM2 TIM_CCR0) (u32 (now w1 + d)) w1) as N2. pose proof (clk_wr (rTIM2 TIM_CCR0) (u32 (now w1 + d)) w1) as K2. fold w2 in N2, K2.
        assert (ccr w2 = u32 (now w1 + d)) as C2 by (by destruct (tim_wr (rTIM2 TIM_CCR0) (u32 (now w1 + d)) w1) as (_ & ? & _)).
        assert (L <= now w2) as HL2 by lia. assert (now w1 + d <= L + (e + d) + 1) as Hm2 by lia.
        destruct (relinked_ok L (now w1 + d) v w2 _ _ Ev1 Ev2 HD HL2 ltac:(congruence) Hm2 M2) as [I' HT'].
        exists (now w1). fold v'. rewrite now_set, HT', C2, Ev'. pose proof (now_spent 2 w w2 ltac:(lia) ltac:(lia)). split_and!; try done; lia.
      * cbn [when]. apply wp_bind, wp_ret, wp_set_timers. intros v Ev1 Ev2. exists (now w1). fold v'. rewrite now_set.
        destruct (Z.ltb_spec (vt_delta q) (e + d)) as [Lt|Lt].
        -- destruct (relinked_ok L m v w1 q _ Ev1 Ev2 HD ltac:(lia) ltac:(congruence) ltac:(lia) Hdue1) as [I' HT'].
           rewrite HT', C1, Ev'. split_and!; try done; lia.
        -- destruct (relinked_ok L m v w1 _ _ Ev1 Ev2 HD ltac:(lia) ltac:(congruence) ltac:(cbn; lia) Hdue1) as [I' HT'].
           rewrite HT', C1, Ev'. split_and!; try done; lia.
Qed.

(** ** Stopping a timer *)

(** The alarm moved, with the timers linked as they are. *)
Lemma wp_set_alarm L m w t l Q :
  vt_list (T w) = t :: l → vt_lasttime (T w) = u32 L → deltas_ok (t :: l) → L <= now w →
  dier w = STM32_TIM_DIER_CC1IE → now w < m < now w + 2 ^ 32 → m <= L + vt_delta t + 1 →
  (∀ w', T w' = T w → now w <= now w' → clk w' <= clk w + ACCESS_CYCLES → timers_ok L w' →
     hw_timers w' = {| vt_list := t :: l; vt_lasttime := u32 L; alarm := Some (u32 m) |} →
     w' = mm_wr (rTIM2 TIM_CCR0) (u32 m) w → Q tt w') →
  wp (port_timer_set_alarm (u32 m)) Q w.
Proof.
  intros El Ev Hok HL Hd Hm Hm' HQ. unfold port_timer_set_alarm, stSetAlarm, st_lld_set_alarm. apply wp_wr.
  destruct (set_alarm_due m w Hm) as [D2 M2]. set (w2 := mm_wr _ _ w) in *.
  pose proof (now_wr (rTIM2 TIM_CCR0) (u32 m) w) as N2. pose proof (clk_wr (rTIM2 TIM_CCR0) (u32 m) w) as K2. fold w2 in N2, K2.
  assert (ccr w2 = u32 m) as C2 by (by destruct (tim_wr (rTIM2 TIM_CCR0) (u32 m) w) as (_ & ? & _)).
  assert (T w2 = T w) as E2 by (unfold w2; by rewrite obj_wr). apply HQ; try done.
  - split; rewrite ?E2, ?El; try done; [lia|]. split; [congruence|]. by exists m.
  - unfold hw_timers. by rewrite E2, El, Ev, C2, D2, Hd.
Qed.

(** The first timer's difference can be added to the second's. *)
Definition first_sum_ok (l : list virtual_timer) : Prop :=
  match l with t :: n :: _ => vt_delta n + vt_delta t < 2 ^ 32 | _ => True end.

Lemma stop_alarm_off w : dier (mm_wr (rTIM2 TIM_DIER) 0 w) = 0.
Proof. by destruct (tim_wr (rTIM2 TIM_DIER) 0 w) as (_ & _ & ? & _). Qed.

Lemma do_reset_ok L id w :
  timers_ok L w → vt_list (T w) = [] ∨ now w + 1 < L + 2 ^ 32 → first_sum_ok (vt_list (T w)) →
  wp (chVTDoResetI id) (λ _ w', ∃ n, now w <= n <= now w' ∧ now w' <= now w + 1
    ∧ timers_ok L w' ∧ hw_timers w' = do_reset id (u32 n) (hw_timers w)) w.
Proof.
  intros I Hr Hs. unfold chVTDoResetI. apply wp_bind. unfold read_obj. apply wp_gets.
  pose proof (to_last _ _ I) as EL. pose proof (to_le _ _ I) as HL. pose proof (to_deltas _ _ I) as Hok. pose proof (to_alarm _ _ I) as Ha.
  destruct (vt_list (T w)) as [|t l] eqn:El.
  { apply wp_ret. exists (now w). unfold do_reset. cbn [hw_timers vt_list]. rewrite El. split_and!; try done; lia. }
  destruct Hr as [|Hr]; [done|]. destruct Ha as [_ (m & Hm & Hdue)]. destruct (hw_armed w t l L I El) as [Dw Hw].
  pose proof (λ n, do_reset_deltas id n (hw_timers w)) as HD. rewrite Hw in HD |- *. specialize (λ n, HD n Hok).
  unfold do_reset in *. cbn [vt_list vt_lasttime alarm] in *. rewrite EL. destruct (decide (vt_id t = id)) as [Ei|Ei].
  2: { apply wp_set_timers. intros v Ev1 Ev2. exists (now w). cbn [vt_remove] in *. rewrite decide_False in * by done.
    destruct (relinked_ok L m v w t _ Ev1 Ev2 (HD 0) HL Dw Hm Hdue) as [I' HT']. rewrite now_set, HT'. split_and!; try done; lia. }
  destruct l as [|q l].
  - apply wp_bind, wp_set_timers. intros v Ev1 Ev2. unfold port_timer_stop_alarm, stStopAlarm, st_lld_stop_alarm. apply wp_wr.
    set (w1 := set_obj v w). set (w2 := mm_wr _ 0 w1). pose proof (now_wr (rTIM2 TIM_DIER) 0 w1) as N2. pose proof (clk_wr (rTIM2 TIM_DIER) 0 w1) as K2.
    fold w2 in N2, K2. pose proof (now_set v w) as N1. fold w1 in N1. pose proof (stop_alarm_off w1) as D2. fold w2 in D2.
    pose proof (now_spent 1 w1 w2 ltac:(lia) ltac:(lia)). assert (T w2 = v) as E2 by (unfold w2, w1; by rewrite obj_wr, obj_set).
    exists (now w). split_and!; [lia|lia|lia| |].
    + split; rewrite ?E2, ?Ev1, ?Ev2; try done; [lia|constructor].
    + unfold hw_timers. by rewrite E2, Ev1, Ev2, D2.
  - cbn in Hs. set (d := u32 (vt_delta q + vt_delta t)) in *.
    assert (0 <= vt_delta t < 2 ^ 32) as Ht by by apply Forall_cons_1 in Hok as [? _].
    assert (0 <= vt_delta q < 2 ^ 32) as Hq by by apply Forall_cons_1 in Hok as [_ [? _]%Forall_cons_1].
    assert (d = vt_delta q + vt_delta t) as Ed by (apply u32_id; lia).
    apply wp_bind, wp_set_timers. intros v Ev1 Ev2. set (w0 := set_obj v w). pose proof (now_set v w) as N0. fold w0 in N0.
    assert (deltas_ok (with_delta d q :: l)) as HD'.
    { pose proof (HD 0) as HD0. by destruct (d <=? u32 (0 - u32 L)). }
    assert (m <= L + vt_delta (with_delta d q) + 1) as Hm' by (cbn; lia).
    destruct (relinked_ok L m v w _ _ Ev1 Ev2 HD' HL Dw Hm' Hdue) as [I0 HT0]. fold w0 in I0, HT0.
    apply wp_bind, wp_time. intros w1 ->. set (w1 := (mm_rd _ w0).2).
    pose proof (tim_rd (rTIM2 TIM_CNT) w0) as E1. pose proof (clk_rd (rTIM2 TIM_CNT) w0) as K1. fold w1 in E1, K1.
    pose proof E1 as (N1 & C1 & D1 & F1). pose proof (now_spent 1 w0 w1 ltac:(lia) ltac:(lia)) as S1.
    assert (T w1 = v) as ET by (unfold w1, w0; by rewrite obj_rd, obj_set).
    rewrite (since_last (now w1) L) by lia. cbv zeta.
    destruct (Z.leb_spec d (now w1 - L)) as [Ln|Ln].
    + apply wp_ret. exists (now w1). rewrite (since_last (now w1) L), (proj2 (Z.leb_le d (now w1 - L))) by lia. split_and!; [lia|lia|lia| |].
      * destruct (due_elapse m w0 w1 E1 (due_set m v w Hdue)) as [Hd1 _].
        split; rewrite ?ET, ?Ev1, ?Ev2; try done; [lia|]. split; [unfold w0 in D1; rewrite dier_set in D1; congruence|]. by exists m.
      * unfold hw_timers. rewrite ET, Ev1, Ev2, D1, C1. unfold w0. by rewrite dier_set, ccr_set, Dw.
    + assert (u32 (u32 L + (now w1 - L) + safe_delta (d - (now w1 - L))) = u32 (now w1 + safe_delta (d - (now w1 - L)))) as EA.
      { rewrite <-Z.add_assoc, u32_add_l. f_equal. lia. }
      rewrite EA. pose proof (safe_delta_max (d - (now w1 - L))) as Es. assert (dier w1 = STM32_TIM_DIER_CC1IE) as D1'.
      { rewrite D1. unfold w0. by rewrite dier_set. }
      apply (wp_set_alarm L _ w1 (with_delta d q) l); try done; [by rewrite ET|by rewrite ET|lia|lia|cbn; lia|].
      intros w2 _ N2 K2 I2 HT2 _. pose proof (now_spent 2 w0 w2 ltac:(lia) ltac:(lia)).
      exists (now w1). rewrite (since_last (now w1) L), (proj2 (Z.leb_gt d (now w1 - L))) by lia. split_and!; [lia|lia|lia|done|].
      rewrite HT2, <-EA. reflexivity.
Qed.

(** ** The tick

    [P fired s] is what holds of the rest of the world, [s], once the callbacks of
    [fired] have run. A callback leaves the timers alone and takes at most [cb]
    ticks. *)

Section tick.
Context {S : Type} (seen : W → S) (P : list virtual_timer → S → Prop) (cb : Z) (call_timer : nat → nat → fw W unit).
Hypothesis seen_rd : ∀ r w, seen (mm_rd r w).2 = seen w.
Hypothesis seen_wr : ∀ r v w, seen (mm_wr r v w) = seen w.
Hypothesis cb_pos : 0 <= cb.
Hypothesis fires : ∀ fired t l v w w1,
  P fired (seen w) → vt_list (T w) = t :: l → vt_list v = l → seen w1 = seen (set_obj v w) → T w1 = v →
  wp (call_timer (vt_func t) (vt_par t)) (λ _ w', P (fired ++ [t]) (seen w') ∧ T w' = v ∧ elapse w1 w' ∧ now w' <= now w1 + cb) w1.

Definition alarm_on (l : list virtual_timer) w : Prop := dier w = match l with [] => 0 | _ => STM32_TIM_DIER_CC1IE end.

(** One timer fired: the links, the alarm of an empty list, the callback, the time. *)
Lemma wp_fire {A} L fired t l w (K : Z → fw W A) Q :
  P fired (seen w) → vt_list (T w) = t :: l → alarm_on (t :: l) w →
  (∀ w', P (fired ++ [t]) (seen w') → vt_list (T w') = l → vt_lasttime (T w') = u32 (L + vt_delta t) → alarm_on l w' →
     now w <= now w' <= now w + cb + 2 → wp (K (u32 (now w'))) Q w') →
  wp (set_timers l (u32 (u32 L + vt_delta t));; when (bool_decide (l = [])) port_timer_stop_alarm;;
      call_timer (vt_func t) (vt_par t);; now ← port_timer_get_time; K now) Q w.
Proof using All.
  intros HP El Ha HQ. apply wp_bind, wp_set_timers. intros v Ev1 Ev2. rewrite u32_add_l in Ev2. apply wp_bind.
  pose proof (now_set v w) as N0. pose proof (dier_set v w) as D0.
  pose proof (obj_set v w) as T0. set (w0 := set_obj v w) in *.
  assert (∀ w1, seen w1 = seen w0 → T w1 = v → alarm_on l w1 → now w <= now w1 <= now w + 1 →
    wp (call_timer (vt_func t) (vt_par t);; now ← port_timer_get_time; K now) Q w1) as Hgo.
  { intros w1 S1 T1 A1 N1. apply wp_bind. eapply wp_mono; [|by eapply (fires fired t l v w w1)].
    intros [] w2 (P2 & T2 & (N2 & _ & D2 & _) & C2). apply wp_bind, wp_time. intros w3 ->. set (w3 := (mm_rd _ w2).2).
    destruct (tim_rd (rTIM2 TIM_CNT) w2) as (N3 & _ & D3 & _). pose proof (clk_rd (rTIM2 TIM_CNT) w2) as K3. fold w3 in N3, D3, K3.
    pose proof (now_spent 1 w2 w3 ltac:(lia) ltac:(lia)). apply HQ.
    - unfold w3. by rewrite seen_rd.
    - unfold w3. by rewrite obj_rd, T2.
    - unfold w3. by rewrite obj_rd, T2.
    - unfold alarm_on in *. congruence.
    - lia. }
  destruct l as [|q l]; [rewrite bool_decide_eq_true_2 by done|rewrite bool_decide_eq_false_2 by done]; cbn [when].
  - unfold port_timer_stop_alarm, stStopAlarm, st_lld_stop_alarm. apply wp_wr.
    pose proof (now_wr (rTIM2 TIM_DIER) 0 w0) as N1. pose proof (clk_wr (rTIM2 TIM_DIER) 0 w0) as K1.
    pose proof (stop_alarm_off w0) as D1. set (w1 := mm_wr (rTIM2 TIM_DIER) 0 w0) in *.
    pose proof (now_spent 1 w0 w1 ltac:(lia) ltac:(lia)).
    apply Hgo; [unfold w1; by rewrite seen_wr|unfold w1; by rewrite obj_wr|done|lia].
  - apply wp_ret, Hgo; [done|done|unfold alarm_on in *; congruence|lia].
Qed.

(** The timers fired and those left, in a loop that started at time [a]. *)
Record ticked (L a : Z) (l fired rest : list virtual_timer) w : Prop := {
  td_split : l = fired ++ rest;
  td_seen : P fired (seen w);
  td_list : vt_list (T w) = rest;
  td_last : vt_lasttime (T w) = u32 (L + total fired);
  td_alarm : alarm_on rest w;
  td_time : a <= now w <= a + Z.of_nat (length fired) * (cb + 2);
  td_fired : L + total fired <= now w
}.

Lemma total_app l1 l2 : total (l1 ++ l2) = total l1 + total l2.
Proof. induction l1 as [|t l1 IH]; cbn; unfold total in *; lia. Qed.

Lemma wp_tick_loop L a l fired rest w fuel Q :
  deltas_ok l → a + Z.of_nat (length l) * (cb + 2) < L + 2 ^ 32 - 1 → (length rest < fuel)%nat → ticked L a l fired rest w →
  (∀ fired' rest' w', ticked L a l fired' rest' w' → (∀ t r, rest' = t :: r → now w' < L + total fired' + vt_delta t) →
     (∀ t, t ∈ rest' → t ∈ rest) → Q (u32 (now w')) w') →
  wp (tick_loop call_timer fuel (u32 (now w))) Q w.
Proof using All.
  intros Hok Hroom. revert fired rest w. induction fuel as [|fuel IH]; intros fired rest w Hf HT HQ; [lia|].
  pose proof HT as [T1 T2 T3 T4 T5 T6 T7]. cbn [tick_loop]. apply wp_bind. unfold read_obj. apply wp_gets. rewrite T3, T4.
  assert (Z.of_nat (length fired) * (cb + 2) <= Z.of_nat (length l) * (cb + 2)) as Hlen.
  { apply Z.mul_le_mono_nonneg_r; [lia|]. rewrite T1, length_app. lia. }
  assert (0 <= total fired) as Hnn by (apply total_nonneg; rewrite T1 in Hok; by apply Forall_app in Hok as [? _]).
  rewrite since_last by lia. destruct rest as [|t rest].
  { rewrite (proj2 (Z.leb_gt _ _)) by (unfold vt_sentinel; lia). apply wp_ret, (HQ fired []); done. }
  destruct (Z.leb_spec (vt_delta t) (now w - (L + total fired))) as [Lt|Lt].
  - eapply (wp_fire (L + total fired)); [exact T2|exact T3|exact T5|]. intros w' P' E1 E2 A' N'. cbn in Hf.
    apply (IH (fired ++ [t]) rest); [lia| |].
    + split; try done.
      * by rewrite T1, <-app_assoc.
      * rewrite E2, total_app. f_equal. cbn. lia.
      * rewrite length_app. cbn. lia.
      * rewrite total_app. cbn. lia.
    + intros fired' rest' w'' H1 H2 H3. apply (HQ fired' rest'); try done. intros x Hx. right. by apply H3.
  - apply wp_ret, (HQ fired (t :: rest)); [done| |done]. intros ? ? [= <- <-]. lia.
Qed.

(** After the loop the alarm is set for the first timer left, if there is one. *)
Lemma wp_tick_end L a l fired rest w Q :
  ticked L a l fired rest w → deltas_ok l → (∀ t r, rest = t :: r → now w < L + total fired + vt_delta t) →
  (∀ w', seen w' = seen w → vt_list (T w') = rest → now w <= now w' <= now w + 1 → timers_ok (L + total fired) w' → Q w') →
  wp (v ← read_obj;
      match vt_list v with
      | [] => ret tt
      | t :: _ => port_timer_set_alarm (u32 (u32 (now w) + safe_delta (u32 (vt_lasttime v + vt_delta t - u32 (now w)))))
      end) (λ _, Q) w.
Proof using All.
  intros [T1 T2 T3 T4 T5 T6 T7] Hok Hr HQ. apply wp_bind. unfold read_obj. apply wp_gets. rewrite T3, T4, T1 in *.
  destruct rest as [|t r].
  - apply wp_ret, HQ; [done|done|lia|]. split; rewrite ?T3; [done|done|constructor|done].
  - specialize (Hr t r eq_refl). apply Forall_app in Hok as [_ Hok]. assert (0 <= vt_delta t < 2 ^ 32) as Ht by by apply Forall_cons_1 in Hok as [? _].
    set (L' := L + total fired) in *.
    assert (u32 (u32 L' + vt_delta t - u32 (now w)) = L' + vt_delta t - now w) as ->.
    { rewrite u32_sub_r. replace (u32 L' + vt_delta t - now w) with (u32 L' + (vt_delta t - now w)) by lia. rewrite u32_add_l, u32_id; lia. }
    rewrite u32_add_l, safe_delta_max.
    apply (wp_set_alarm L' _ w t r); try done; [lia|lia|]. intros w' E' N' K' I' _ ->. apply HQ; [by rewrite seen_wr|by rewrite E'| |done].
    pose proof (now_spent 1 w _ ltac:(rewrite Z.mul_1_l; exact K') ltac:(lia)). lia.
Qed.

(** The interrupt of the timer fires the timers that have expired when it comes,
    and perhaps some that expire while it runs, and leaves the invariant. *)
Lemma wp_interrupt L w fuel :
  timers_ok L w → P [] (seen w) → (length (vt_list (T w)) < fuel)%nat →
  now w + 1 + Z.of_nat (length (vt_list (T w))) * (cb + 2) < L + 2 ^ 32 - 1 →
  wp (timer_interrupt call_timer fuel) (λ _ w', ∃ fired rest, vt_list (T w) = fired ++ rest ∧ vt_list (T w') = rest
    ∧ P fired (seen w') ∧ timers_ok (L + total fired) w'
    ∧ now w <= now w' <= now w + 2 + Z.of_nat (length fired) * (cb + 2)
    ∧ (cc1if w = true → ∀ t r, rest = t :: r → now w < L + total fired + vt_delta t)) w.
Proof using All.
  intros I HP Hf Hroom. pose proof I as [I1 I2 I3 I4]. unfold timer_interrupt, ST_HANDLER. apply wp_bind, wp_rd. rewrite sr_val.
  set (w1 := (mm_rd (rTIM2 TIM_SR) w).2). pose proof (tim_rd (rTIM2 TIM_SR) w) as E1. pose proof (clk_rd (rTIM2 TIM_SR) w) as K1. fold w1 in E1, K1.
  pose proof E1 as (N1 & C1 & D1 & F1). pose proof (now_spent 1 w w1 ltac:(lia) ltac:(lia)) as S1.
  assert (T w1 = T w ∧ seen w1 = seen w) as [T1 P1] by (unfold w1; by rewrite obj_rd, seen_rd).
  apply wp_when; intros Hflag.
  2: { exists [], (vt_list (T w)). change (total []) with 0. rewrite Z.add_0_r, T1, P1. split_and!; try done; [|cbn; lia|].
    - split; rewrite ?T1; try done; [lia|]. destruct (vt_list (T w)) as [|t l]; [congruence|].
      destruct I4 as [Dw (m & Hm & Hdue)]. split; [congruence|]. exists m. split; [done|]. by apply (due_elapse m w).
    - intros Hc. exfalso. rewrite Hc in F1. by rewrite F1 in Hflag. }
  apply wp_bind, wp_wr. set (w2 := mm_wr (rTIM2 TIM_SR) 0 w1). pose proof (now_wr (rTIM2 TIM_SR) 0 w1) as N2.
  pose proof (clk_wr (rTIM2 TIM_SR) 0 w1) as K2. destruct (tim_wr (rTIM2 TIM_SR) 0 w1) as (_ & _ & D2 & _). fold w2 in N2, K2, D2.
  unfold chVTDoTickI. apply wp_bind, wp_time. intros w3 ->. set (w3 := (mm_rd (rTIM2 TIM_CNT) w2).2).
  destruct (tim_rd (rTIM2 TIM_CNT) w2) as (N3 & _ & D3 & _). pose proof (clk_rd (rTIM2 TIM_CNT) w2) as K3. fold w3 in N3, D3, K3. cbn in D2.
  pose proof (now_spent 3 w w3 ltac:(lia) ltac:(lia)) as S3.
  assert (T w3 = T w ∧ seen w3 = seen w) as [T3 P3] by (unfold w3, w2; by rewrite obj_rd, obj_wr, seen_rd, seen_wr).
  assert (ticked L (now w3) (vt_list (T w)) [] (vt_list (T w)) w3) as HT.
  { split; rewrite ?T3, ?P3; try done; [by change (total []) with 0; rewrite Z.add_0_r| |cbn; lia|change (total []) with 0; lia].
    unfold alarm_on. rewrite D3, D2, D1. destruct (vt_list (T w)); [done|apply I4]. }
  apply wp_bind, (wp_tick_loop L (now w3) (vt_list (T w)) [] (vt_list (T w))); [done|lia|done|done|].
  intros fired rest w4 H4 Hr _. apply (wp_tick_end L (now w3) (vt_list (T w)) fired rest w4); [done..|].
  intros w5 P5 T5 N5 I5. pose proof (td_time _ _ _ _ _ _ H4). exists fired, rest. rewrite P5, (td_split _ _ _ _ _ _ H4).
  split_and!; try done; [apply H4|lia|lia|]. intros _ t r Er. specialize (Hr t r Er). lia.
Qed.

End tick.

End ops.

End Tickless.
