(* ===== verification/TickKernel.v ===== *)
(** * The kernel's time limits on the hardware counter

    The operations of Tickless over the kernel: the timers are those of the
    kernel's state, the only callback is the one that ends a wait. From the
    moment a limit is set to the thread's being ready, through the counter, the
    compare register, the interrupt and the scheduler. *)

From S2P Require Import Prelude SysTime Fw Mmio St VTimers Tickless Memory Kernel Sync Threads System Sched KInv KOps KWake Preempt.
From stdpp Require Import list relations.
Import SysTime Mmio St VTimers Kernel System KInv KOps.
Import Tickless.
#[local] Open Scope Z_scope.

Module TickKernel.

Section world.
Context {W : Type} `{!Obj W kernel}.

(** The timers in the kernel's state. *)
#[export] Instance kernel_timers : Obj W vtlist := {
  obj w := k_vtl (obj w : kernel);
  set_obj v w := set_obj (k_set_vtl v (obj w)) w
}.

(** A handler's kernel call, in the world. *)
Definition on_kernel {A} (m : fw kernel A) : fw W A := λ w,
  match m (obj w) with Ok (a, k) => Ok (a, set_obj k w) | Err e => Err e end.

(** [pass] is the time the callback takes. *)
Definition fn (pass : W → W) (f p : nat) : fw W unit := on_kernel (VTimers.call_timer f p);; modify pass.

End world.

Section kernel.
Variable idle : nat.
Context {W : Type} `{!Mmio W, !TimHw W, !TickClock W, !Obj W kernel, !ObjLaws W kernel, !TickObjLaws W kernel}.
Implicit Types (w : W) (L : Z).
Notation K w := (obj w : kernel).
Notation T w := (k_vtl (obj w : kernel)).
Notation kinv := (kinv idle).
Notation timers_ok := (timers_ok (W:=W)).

#[export] Instance kernel_timers_laws : ObjLaws W vtlist.
Proof. split; intros; cbn; by rewrite ?obj_set, ?obj_rd, ?obj_wr. Qed.
#[export] Instance kernel_timers_tick : TickObjLaws W vtlist.
Proof. split; intros; cbn; [apply clk_set|apply ccr_set|apply dier_set|apply cc1if_set]. Qed.

Variables (pass : W → W) (cb : Z).
Hypothesis cb_pos : 0 <= cb.
Hypothesis pass_ok : ∀ w, K (pass w) = K w ∧ elapse w (pass w) ∧ now (pass w) <= now w + cb.

Lemma ticked_snoc id ids k k1 k' : id ∉ ids → KWake.ticked idle ids k k1 → KWake.ticked idle [id] k1 k' → KWake.ticked idle (ids ++ [id]) k k'.
Proof.
  intros Hn [A1 A2 A3 A4 A5] [B1 B2 B3 B4 B5]. split; [done| |congruence| |].
  - intros me. by eapply evolve_trans.
  - intros x. rewrite B4, A4, elem_of_app. naive_solver.
  - intros x. rewrite B5, A5. destruct (decide (x ∈ [id])) as [Hx|Hx].
    + rewrite list_elem_of_singleton in Hx. subst x. rewrite decide_False by done. rewrite decide_True; [done|]. apply elem_of_app. right. by left.
    + destruct (decide (x ∈ ids)) as [Hi|Hi]; [rewrite decide_True by (apply elem_of_app; by left)|rewrite decide_False by (rewrite elem_of_app; naive_solver)]; done.
Qed.

(** The callback of a timer in the state the callbacks before it have left. *)
Lemma fn_fires k0 fired t l v w w1 :
  ¬ armed k0 (currp k0) → KWake.ticked idle (vt_id <$> fired) k0 (K w) →
  vt_list (T w) = t :: l → vt_list v = l → K w1 = k_set_vtl v (K w) →
  wp (fn pass (vt_func t) (vt_par t)) (λ _ w', KWake.ticked idle (vt_id <$> fired ++ [t]) k0 (K w') ∧ T w' = v
    ∧ elapse w1 w' ∧ now w' <= now w1 + cb) w1.
Proof using All.
  intros Ha HT El Ev Ek. pose proof HT as [H1 H2 H3 H4 H5].
  assert (¬ armed (K w) (currp (K w))) as Ha' by (rewrite H3, H4; by intros []).
  destruct (KWake.fire_one idle (K w) t l v H1 Ha' El Ev) as (k' & E & T' & V' & _).
  assert (vt_id t ∉ vt_id <$> fired) as Hn.
  { assert (armed (K w) (vt_id t)) as Hx by (unfold armed; rewrite El; by left). by apply H4 in Hx as []. }
  unfold fn, on_kernel. apply wp_bind. apply (wp_intro _ _ w1 tt (set_obj k' w1)); [by rewrite Ek, E|]. apply wp_modify.
  destruct (pass_ok (set_obj k' w1)) as (P1 & (P2 & P3 & P4 & P5) & P6). rewrite P1, !obj_set, fmap_app.
  assert (now (set_obj k' w1) = now w1) as N0 by (by rewrite !clk_now, clk_set). rewrite N0, ?ccr_set, ?dier_set, ?cc1if_set in *.
  split; [by eapply ticked_snoc|]. done.
Qed.

(** The interrupt, with what it does to the kernel's threads. *)
Lemma interrupt_ok L w fuel :
  kinv (K w) → ¬ armed (K w) (currp (K w)) → timers_ok L w → (length (vt_list (T w)) < fuel)%nat →
  now w + 1 + Z.of_nat (length (vt_list (T w))) * (cb + 2) < L + 2 ^ 32 - 1 →
  ∃ w' fired rest, timer_interrupt (fn pass) fuel w = Ok (tt, w') ∧ vt_list (T w) = fired ++ rest ∧ vt_list (T w') = rest
    ∧ KWake.ticked idle (vt_id <$> fired) (K w) (K w') ∧ timers_ok (L + total fired) w'
    ∧ now w <= now w' <= now w + 2 + Z.of_nat (length fired) * (cb + 2)
    ∧ (cc1if w = true → ∀ t r, rest = t :: r → now w < L + total fired + vt_delta t).
Proof using All.
  intros Hk Ha I Hf Hr.
  pose proof (wp_interrupt (λ w, K w) (λ fired k, KWake.ticked idle (vt_id <$> fired) (K w) k) cb (fn pass)) as H.
  destruct (wp_elim _ _ _ (H (λ r w, obj_rd r w) (λ r v w, obj_wr r v w) cb_pos
    (λ fired t l v w2 w1 H1 H2 H3 H4 _, fn_fires (K w) fired t l v w2 w1 Ha H1 H2 H3 ltac:(rewrite H4; cbn; apply obj_set)) L w fuel I
    (KWake.ticked_nil idle (K w) Hk) Hf Hr)) as ([] & w' & E & fired & rest & H1 & H2 & H3 & H4 & H5 & H6).
  by exists w', fired, rest.
Qed.

(** ** The limits, in ticks since the start *)

(** An overdue limit has the interrupt pending. *)
Lemma overdue_pending L w id e :
  timers_ok L w → Preempt.limit (K w) id e → L + e < now w → cc1if w = true ∧ dier w = STM32_TIM_DIER_CC1IE.
Proof.
  intros [_ _ Hok Ha] Hl He. unfold Preempt.limit in Hl. cbn in Ha, Hok. destruct (vt_list (T w)) as [|t l]; [by apply elem_of_nil in Hl|].
  destruct Ha as [Hd (m & Hm & Hdue)]. split; [|done]. destruct Hdue as [|[Hn _]]; [done|].
  apply Forall_cons_1 in Hok as [Ht Hok]. cbn [expiries] in Hl. apply elem_of_cons in Hl as [[= -> ->]|Hl]; [lia|].
  pose proof (Preempt.expiries_range _ _ _ _ Hok Hl). lia.
Qed.

Lemma elem_of_insert_time x y l : y ∈ insert_time x l ↔ y = x ∨ y ∈ l.
Proof.
  induction l as [|z l IH]; cbn [insert_time]; [by rewrite list_elem_of_singleton, elem_of_nil; naive_solver|].
  destruct (z.2 <? x.2); rewrite !elem_of_cons, ?IH; naive_solver.
Qed.

Lemma expiries_shift a b l : expiries (a + b) l = (λ x, (x.1, x.2 + b)) <$> expiries a l.
Proof.
  revert a. induction l as [|t l IH]; intros a; cbn [expiries fmap list_fmap]; [done|]. f_equal; [cbn; f_equal; lia|].
  rewrite <-IH. f_equal. lia.
Qed.

Definition since w : Z := elapsed (now w) (T w).

Lemma since_eq L w : timers_ok L w → now w < L + 2 ^ 32 → since w = now w - L.
Proof. intros I Hn. pose proof (to_le _ _ I) as HL. unfold since, elapsed. pose proof (to_last _ _ I) as E. cbn in E, HL. rewrite E, u32_sub_r. apply u32_id. lia. Qed.

(** A limit set is due as many ticks after the time read, at least two; the others stay. *)
Lemma set_expires L id delay w :
  timers_ok L w → 0 <= delay < 2 ^ 32 → vt_list (T w) = [] ∨ now w + 1 + Z.max delay 2 < L + 2 ^ 32 →
  wp (chVTDoSetI id delay WAKEUP id) (λ _ w', ∃ n L', now w <= n <= now w' ∧ now w' <= now w + 1 ∧ timers_ok L' w'
    ∧ (vt_list (T w) = [] ∨ L' = L) ∧ (vt_list (T w) = [] → L' = n)
    ∧ ∀ i m, Preempt.limit (K w') i (m - L') ↔ (i = id ∧ m = n + Z.max delay 2) ∨ Preempt.limit (K w) i (m - L)) w.
Proof using All.
  intros I Hd Hr. eapply wp_mono; [|apply (set_ok L id delay WAKEUP id w I Hd)]; [|destruct Hr; [by left|right; lia]].
  intros [] w' (n & Hn & Hn' & I' & E). eexists n, _. split_and!; [lia|lia|lia|exact I'| | |].
  { cbn. destruct (vt_list (T w)); [by left|by right]. }
  { cbn. by intros ->. }
  cbn [obj kernel_timers]. intros i m. unfold Preempt.limit. assert (vt_list (T w') = vt_list (do_set {| vt_id := id; vt_delta := 0; vt_func := WAKEUP; vt_par := id |} (u32 n) delay (hw_timers w))) as -> by by rewrite <-E.
  pose proof (to_last _ _ I) as EL. pose proof (to_le _ _ I) as HL. pose proof (to_deltas _ _ I) as Hok. cbn in EL, HL, Hok.
  set (t := {| vt_id := id; vt_delta := 0; vt_func := WAKEUP; vt_par := id |}).
  destruct (vt_list (T w)) as [|p l] eqn:El.
  - unfold do_set. cbn [hw_timers vt_list obj kernel_timers]. rewrite El. cbn [vt_list expiries]. change (if delay <? CH_CFG_ST_TIMEDELTA then CH_CFG_ST_TIMEDELTA else delay) with (safe_delta delay).
    rewrite safe_delta_max, list_elem_of_singleton, elem_of_nil. cbn. split; [intros [= -> E2]; left; split; [done|lia]|intros [[-> ->]|[]]; f_equal; lia].
  - destruct Hr as [|Hr]; [done|].
    assert (elapsed (u32 n) (hw_timers w) = n - L) as Ee by (unfold elapsed; cbn; rewrite EL; apply since_last; lia).
    destruct (set_expiry t (u32 n) delay (hw_timers w)) as [HS _]; [apply u32_range|done|cbn; by rewrite El|rewrite Ee; left; lia|].
    cbn [hw_timers vt_list obj kernel_timers] in HS. rewrite El, Ee in HS. destruct HS as (-> & _).
    rewrite elem_of_insert_time. split; (intros [Hx|Hx]; [left|by right]).
    + injection Hx as -> Hx. split; [done|lia].
    + destruct Hx as [-> ->]. cbn. f_equal. lia.
Qed.

(** Stopping a timer takes its limit away and leaves the others. *)
Lemma reset_expires L id w :
  timers_ok L w → vt_list (T w) = [] ∨ now w + 1 < L + 2 ^ 32 → sums_ok (vt_list (T w)) → NoDup (vt_id <$> vt_list (T w)) →
  wp (chVTDoResetI id) (λ _ w', now w <= now w' <= now w + 1 ∧ timers_ok L w'
    ∧ ∀ i e, Preempt.limit (K w') i e ↔ i ≠ id ∧ Preempt.limit (K w) i e) w.
Proof using All.
  intros I Hr Hs Hn. assert (first_sum_ok (vt_list (T w))) as Hf by (destruct (vt_list (T w)) as [|t [|q l]]; try done; cbn in *; lia).
  eapply wp_mono; [|exact (do_reset_ok L id w I Hr Hf)].
  intros [] w' (n & Hn1 & Hn2 & I' & E). split_and!; [lia|lia|done|]. intros i e. unfold Preempt.limit.
  assert (vt_list (T w') = vt_list (do_reset id (u32 n) (hw_timers w))) as -> by by rewrite <-E.
  destruct (reset_keeps_expiry id (u32 n) (hw_timers w) (to_deltas _ _ I) Hn) as [H _]. rewrite H by done.
  rewrite list_elem_of_filter. done.
Qed.

(** ** Runs *)

(** The time [vt_lasttime] stands for, while less than a turn has passed. *)
Definition base w : Z := now w - since w.

Definition expires (id : nat) (m : Z) w : Prop := Preempt.limit (K w) id (m - base w).

Lemma base_ok L w :
  timers_ok L w → vt_list (T w) = [] ∨ now w < L + 2 ^ 32 → timers_ok (base w) w ∧ (vt_list (T w) = [] ∨ base w = L).
Proof.
  intros I [E|Hn].
  - split; [|by left]. pose proof I as [I1 I2 I3 I4]. cbn in I1, I4. rewrite E in I4. split; cbn; rewrite ?E; [|unfold base, since, elapsed; pose proof (u32_range (now w - vt_lasttime (T w))); lia|constructor|done].
    unfold base, since, elapsed. rewrite u32_sub_r, I1. replace (now w - (now w - u32 L)) with (u32 L) by lia. by rewrite u32_idemp.
  - assert (base w = L) as -> by (unfold base; rewrite (since_eq L) by done; lia). split; [done|by right].
Qed.

Lemma expires_eq L w i m : vt_list (T w) = [] ∨ base w = L → expires i m w ↔ Preempt.limit (K w) i (m - L).
Proof. unfold expires, Preempt.limit. intros [->| ->]; [by rewrite !elem_of_nil|done]. Qed.

(** The operations of the kernel's calls, the interrupt, and what they rely on:
    that a limit fits the counter together with the time since the last tick, and
    that the interrupt is taken before the counter has gone a whole turn. *)
Inductive tcall := TSet (id : nat) (delay : Z) | TReset (id : nat) | TIrq (fuel : nat).

Definition exec (c : tcall) : fw W unit :=
  match c with
  | TSet id delay => chVTDoSetI id delay WAKEUP id
  | TReset id => chVTDoResetI id
  | TIrq fuel => timer_interrupt (fn pass) fuel
  end.

Definition legal (c : tcall) w : Prop :=
  let l := vt_list (T w) in
  match c with
  | TSet id delay => 0 <= delay < 2 ^ 32 ∧ (l = [] ∨ since w + 1 + Z.max delay 2 < 2 ^ 32)
  | TReset id => (l = [] ∨ since w + 1 < 2 ^ 32) ∧ sums_ok l ∧ NoDup (vt_id <$> l)
  | TIrq fuel => kinv (K w) ∧ ¬ armed (K w) (currp (K w)) ∧ (length l < fuel)%nat ∧ since w + 1 + Z.of_nat (length l) * (cb + 2) < 2 ^ 32 - 1
  end.

(** A call, or time going by while the kernel does other things. *)
Inductive tstep (allowed : tcall → Prop) : W → W → Prop :=
  | ts_call c w w' : allowed c → legal c w → exec c w = Ok (tt, w') → tstep allowed w w'
  | ts_other w w' : elapse w w' → vt_list (T w') = vt_list (T w) → vt_lasttime (T w') = vt_lasttime (T w) → vt_list (T w) = [] ∨ since w + (now w' - now w) < 2 ^ 32 → tstep allowed w w'.

(** What a call does to the limits of the threads, between [w] and [w']. *)
Definition limits_after (c : tcall) w w' : Prop :=
  match c with
  | TSet id delay => ∃ n, now w <= n <= now w + 1 ∧ ∀ i m, expires i m w' ↔ (i = id ∧ m = n + Z.max delay 2) ∨ expires i m w
  | TReset id => ∀ i m, expires i m w' ↔ i ≠ id ∧ expires i m w
  | TIrq _ => ∃ ids, KWake.ticked idle ids (K w) (K w')
      ∧ (∀ i m, i ∈ ids → expires i m w → m <= now w')
      ∧ (∀ i m, i ∉ ids → expires i m w → expires i m w')
      ∧ (cc1if w = true → ∀ i m, expires i m w → m <= now w → i ∈ ids)
  end.

Lemma call_ok c w :
  timers_ok (base w) w → legal c w → ∃ w', exec c w = Ok (tt, w') ∧ now w <= now w' ∧ timers_ok (base w') w' ∧ limits_after c w w'.
Proof using All.
  intros I Hl. assert (vt_list (T w) = [] ∨ now w < base w + 2 ^ 32) as Hb.
  { right. unfold base, since, elapsed. pose proof (u32_range (now w - vt_lasttime (T w))). lia. }
  destruct c as [id delay|id|fuel]; cbn [exec legal limits_after] in *.
  - destruct Hl as [Hd Hr]. destruct (wp_elim _ _ _ (set_expires (base w) id delay w I Hd ltac:(unfold base in *; destruct Hr; [by left|right; lia])))
      as ([] & w' & E & n & L' & H1 & H2 & H3 & H4 & H5 & H6).
    assert (now w' < L' + 2 ^ 32) as Hn by (unfold base in *; destruct H4 as [H4|H4], Hr as [Hr|Hr]; try (rewrite (H5 ltac:(done)) in *); lia).
    destruct (base_ok L' w' H3) as [H7 H8]; [by right|]. exists w'. split_and!; [done|lia|done|]. exists n. split; [lia|].
    intros i m. by rewrite (expires_eq L'), H6.
  - destruct Hl as (Hr & Hs & Hn). destruct (wp_elim _ _ _ (reset_expires (base w) id w I ltac:(unfold base in *; destruct Hr; [by left|right; lia]) Hs Hn))
      as ([] & w' & E & H1 & H2 & H3).
    destruct (base_ok (base w) w' H2) as [H4 H5].
    { destruct (vt_list (T w')) as [|t l] eqn:El; [by left|right]. destruct Hr as [Hr|Hr]; [|unfold base in *; lia].
      exfalso. destruct (proj1 (H3 (vt_id t) (0 + vt_delta t))) as [_ Hx]; [unfold Preempt.limit; rewrite El; left|].
      unfold Preempt.limit in Hx. rewrite Hr in Hx. by apply elem_of_nil in Hx. }
    exists w'. split_and!; [done|lia|done|]. intros i m. by rewrite (expires_eq (base w)), H3.
  - destruct Hl as (Hk & Ha & Hf & Hr). destruct (interrupt_ok (base w) w fuel Hk Ha I Hf ltac:(unfold base in *; lia))
      as (w' & fired & rest & E & H1 & H2 & H3 & H4 & H5 & H6).
    pose proof (to_deltas _ _ I) as Hok. cbn in Hok. rewrite H1 in Hok. apply Forall_app in Hok as [Hok1 Hok2].
    pose proof (total_nonneg fired Hok1). destruct (base_ok _ w' H4) as [H7 H8].
    { right. rewrite H1, length_app in Hr. unfold base in *. lia. }
    exists w'. split_and!; [done|lia|done|]. exists (vt_id <$> fired). pose proof Hk as [loc HI].
    pose proof (t_nodup _ _ (i_t _ _ _ _ _ HI)) as Hnd. rewrite H1, fmap_app, NoDup_app in Hnd. destruct Hnd as (_ & Hnd & _).
    split_and!; [done| | |].
    + intros i m Hi Hx. unfold expires, Preempt.limit in Hx. rewrite H1, Preempt.expiries_app in Hx. apply elem_of_app in Hx as [Hx|Hx].
      * pose proof (Preempt.expiries_range _ _ _ _ Hok1 Hx). pose proof (to_le _ _ H4). unfold base in *. lia.
      * destruct (Hnd i Hi). apply (Preempt.expiries_ids (0 + total fired)). by eexists.
    + intros i m Hi Hx. rewrite (expires_eq (base w + total fired)) by done. unfold expires, Preempt.limit in *. rewrite H1, Preempt.expiries_app in Hx.
      rewrite H2. apply elem_of_app in Hx as [Hx|Hx].
      * destruct Hi. apply (Preempt.expiries_ids 0). by eexists.
      * rewrite expiries_shift in Hx. apply list_elem_of_fmap in Hx as ([j e] & [= -> He] & Hx). cbn in He.
        replace (m - (base w + total fired)) with e by lia. done.
    + intros Hc i m Hx Hm. apply (Preempt.fired_ids (K w) fired rest (now w - base w) i (m - base w)); [done| |intros t l E'; specialize (H6 Hc t l E'); lia|done|lia].
      rewrite H1. by apply Forall_app.
Qed.

Lemma other_ok w w' :
  timers_ok (base w) w → elapse w w' → vt_list (T w') = vt_list (T w) → vt_lasttime (T w') = vt_lasttime (T w) → vt_list (T w) = [] ∨ since w + (now w' - now w) < 2 ^ 32 →
  timers_ok (base w') w' ∧ ∀ i m, expires i m w' ↔ expires i m w.
Proof using All.
  intros I HE ET EL Hr. pose proof HE as (Hn & _ & Hd & _). pose proof I as [I1 I2 I3 I4]. cbn in I1, I3, I4.
  assert (timers_ok (base w) w') as I'.
  { split; cbn; rewrite ?ET, ?EL; [done|lia|done|]. destruct (vt_list (T w)) as [|t l]; [congruence|]. destruct I4 as [Dw (m & Hm & Hdue)].
    split; [congruence|]. exists m. split; [done|]. by apply (due_elapse m w). }
  destruct (base_ok (base w) w' I') as [H1 H2]. { rewrite ET. unfold base. destruct Hr; [by left|right; lia]. }
  split; [done|]. intros i m. rewrite (expires_eq (base w)) by done. unfold expires, Preempt.limit. by rewrite ET.
Qed.

Lemma tstep_ok allowed w w' : timers_ok (base w) w → tstep allowed w w' → timers_ok (base w') w'.
Proof using All.
  intros I Hs. revert I. destruct Hs as [c w1 w2 _ Hl E|w1 w2 HE ET EL Hr]; intros I; [|by destruct (other_ok w1 w2 I HE ET EL Hr)].
  destruct (call_ok c w1 I Hl) as (w3 & E' & _ & I' & _). congruence.
Qed.

Lemma pending_ok id m w : timers_ok (base w) w → expires id m w → m < now w → cc1if w = true ∧ dier w = STM32_TIM_DIER_CC1IE.
Proof using All. intros I Hx Hm. apply (overdue_pending (base w) w id (m - base w)); [done|done|lia]. Qed.

(** C7 (invariant). No alarm is missed. From the start of the system on, in every
    run of calls that set and stop limits, interrupts and passing time, with time
    going by at every access: while a limit is set, the timer's interrupt is
    enabled, and as soon as the earliest limit is overdue by a tick the interrupt
    is pending; with none set it is disabled. Every call succeeds. *)
Theorem alarm_never_missed w0 w :
  vt_list (T w0) = [] → vt_lasttime (T w0) = 0 → dier w0 = 0 → rtc (tstep (λ _, True)) w0 w →
  (∀ id m, expires id m w → dier w = STM32_TIM_DIER_CC1IE ∧ (m < now w → cc1if w = true))
  ∧ (vt_list (T w) = [] → dier w = 0)
  ∧ ∀ c, legal c w → ∃ w', exec c w = Ok (tt, w').
Proof using All.
  intros El Ev Hd Hrun. assert (timers_ok (base w0) w0) as I.
  { split; cbn; rewrite ?El, ?Ev; [|unfold base, since, elapsed; pose proof (u32_range (now w0 - vt_lasttime (T w0))); lia|constructor|done].
    unfold base, since, elapsed. rewrite Ev, u32_sub_r. by replace (now w0 - (now w0 - 0)) with 0 by lia. }
  assert (timers_ok (base w) w) as I'. { clear El Ev Hd. induction Hrun as [|w1 w2 w3 Hs _ IH]; [done|]. by apply IH, (tstep_ok _ w1 w2 I Hs). }
  split_and!.
  - intros id m Hx. split; [|intros Hm; by destruct (pending_ok id m w I' Hx Hm)]. pose proof (to_alarm _ _ I') as Ha. cbn in Ha.
    unfold expires, Preempt.limit in Hx. destruct (vt_list (T w)); [by apply elem_of_nil in Hx|]. apply Ha.
  - intros E. pose proof (to_alarm _ _ I') as Ha. cbn in Ha. by rewrite E in Ha.
  - intros c Hl. destruct (call_ok c w I' Hl) as (w' & E & _). by exists w'.
Qed.

(** Runs in which the limit of [id] is neither stopped nor set again. *)
Definition keeps (id : nat) (c : tcall) : Prop := match c with TSet i _ | TReset i => i ≠ id | TIrq _ => True end.

Lemma keeps_limit id m w w' :
  timers_ok (base w) w → tstep (keeps id) w w' →
  (armed (K w) id → expires id m w) ∧ (¬ armed (K w) id → m <= now w) →
  (armed (K w') id → expires id m w') ∧ (¬ armed (K w') id → m <= now w').
Proof using All.
  intros I Hs [H1 H2]. assert (∀ w, armed (K w) id ↔ ∃ m, expires id m w) as Harm.
  { intros x. unfold armed, expires, Preempt.limit. rewrite (Preempt.expiries_ids 0). split; intros (e & He); [exists (e + base x)|eexists; exact He].
    by replace (e + base x - base x) with e by lia. }
  revert I H1 H2. destruct Hs as [c w1 w2 Hc Hl E|w1 w2 HE ET EL Hr]; intros I H1 H2.
  - destruct (call_ok c w1 I Hl) as (w3 & E' & Hn & _ & Ha). rewrite E in E'. injection E' as <-.
    destruct c as [i d|i|fuel]; cbn [keeps limits_after] in Hc, Ha.
    + destruct Ha as (n & _ & Ha). assert (armed (K w2) id ↔ armed (K w1) id) as Hx by (rewrite !Harm; setoid_rewrite Ha; naive_solver).
      rewrite Hx. split; [intros Hi; apply Ha; right; auto|intros Hi; specialize (H2 Hi); lia].
    + assert (armed (K w2) id ↔ armed (K w1) id) as Hx by (rewrite !Harm; setoid_rewrite Ha; naive_solver).
      rewrite Hx. split; [intros Hi; apply Ha; auto|intros Hi; specialize (H2 Hi); lia].
    + destruct Ha as (ids & [_ _ _ Hx _] & F1 & F2 & _). rewrite Hx. split; [intros [Hi Hn']; apply F2; auto|].
      intros Hno. assert (Decision (armed (K w1) id)) by (unfold armed; apply _). destruct (decide (armed (K w1) id)) as [Hi|Hi]; [|specialize (H2 Hi); lia].
      destruct (decide (id ∈ ids)) as [Hin|]; [|by destruct Hno]. by apply (F1 id); auto.
  - destruct (other_ok w1 w2 I HE ET EL Hr) as [_ Hx]. assert (armed (K w2) id ↔ armed (K w1) id) as Ha by (rewrite !Harm; by setoid_rewrite Hx).
    rewrite Ha, Hx. destruct HE as (Hn & _). split; [auto|]. intros Hi. specialize (H2 Hi). lia.
Qed.

(** C3 (liveness). Time limits are kept, from the call to the ready list. A limit
    of [delay] ticks set by a call is due that many ticks, at least two, after the
    time the call reads from the counter. In every later state, until the limit is
    stopped: its timer has not fired before then; and when it has not fired a tick
    after, the interrupt is pending, and serving it makes the thread ready with the
    message of a timeout, if it still waits. *)
Theorem limits_on_time id delay w0 w1 w :
  timers_ok (base w0) w0 → legal (TSet id delay) w0 → exec (TSet id delay) w0 = Ok (tt, w1) → ¬ armed (K w0) id →
  rtc (tstep (keeps id)) w1 w →
  ∃ m, now w0 + Z.max delay 2 <= m <= now w0 + 1 + Z.max delay 2
    ∧ (¬ armed (K w) id → m <= now w)
    ∧ (armed (K w) id → m < now w →
       cc1if w = true ∧ dier w = STM32_TIM_DIER_CC1IE
       ∧ ∀ fuel, legal (TIrq fuel) w → ∃ w', exec (TIrq fuel) w = Ok (tt, w') ∧ kinv (K w') ∧ ¬ armed (K w') id
           ∧ id ∈ queues (K w') QReady ∧ thd (K w') id = KWake.fired_thd (thd (K w) id)).
Proof using All.
  intros I Hl E Hna Hrun. destruct (call_ok _ _ I Hl) as (w2 & E' & Hn & I1 & (n & Hn' & Ha)). rewrite E in E'. injection E' as <-.
  exists (n + Z.max delay 2). split; [lia|]. set (m := n + Z.max delay 2) in *.
  assert (expires id m w1) as Hx by (apply Ha; by left).
  assert (timers_ok (base w) w ∧ ((armed (K w) id → expires id m w) ∧ (¬ armed (K w) id → m <= now w))) as (I' & H1 & H2).
  { assert ((armed (K w1) id → expires id m w1) ∧ (¬ armed (K w1) id → m <= now w1)) as J.
    { split; [done|]. intros []. unfold armed. apply (Preempt.expiries_ids 0). by eexists. }
    clear Hx Ha Hn Hn' E Hl I. induction Hrun as [|w1 w2 w3 Hs _ IH]; [done|]. apply IH; [by eapply tstep_ok|]. by eapply keeps_limit. }
  split; [done|]. intros Hi Hm. destruct (pending_ok id m w I' (H1 Hi) Hm) as [Hc Hd]. split_and!; [done|done|].
  intros fuel Hlf. destruct (call_ok _ _ I' Hlf) as (w' & E' & _ & _ & ids & HT & _ & _ & Hf). exists w'.
  assert (id ∈ ids) as Hin by (apply (Hf Hc id m); [auto|lia]). destruct HT as [T1 T2 T3 T4 T5].
  assert (thd (K w') id = KWake.fired_thd (thd (K w) id)) as Et by by rewrite T5, decide_True.
  split_and!; [done|done|by intros [_ ?]%T4| |done].
  apply (ready_queued idle); [done|]. rewrite Et. unfold KWake.fired_thd. by destruct (p_state (thd (K w) id)) eqn:Es; cbn; rewrite ?Es.
Qed.

End kernel.
End TickKernel.
