(* ===== verification/TickSim.v ===== *)
(** * A simulated system timer under the kernel

    A counter of cycles with the laws Tickless relies on, where an access takes a
    hundred cycles, and the witnesses of the theorems on time limits. *)

From S2P Require Import Prelude SysTime Fw Mmio St VTimers Tickless Memory Kernel KInv KOps KWake Preempt Safety TickKernel KSim.
From stdpp Require Import list relations.
Import SysTime Mmio St VTimers Kernel KInv Safety KSim.
Import Tickless TickKernel.
#[local] Open Scope Z_scope.

Module TickSim.

Record sim := { x_k : kernel; cycles : Z; x_ccr : Z; x_dier : Z; x_flag : bool }.

Definition ticks (w : sim) : Z := cycles w / per.

Definition spend (c : Z) (w : sim) : sim :=
  {| x_k := x_k w; cycles := cycles w + c; x_ccr := x_ccr w; x_dier := x_dier w;
     x_flag := x_flag w || crosses (x_ccr w) (ticks w) ((cycles w + c) / per) |}.

#[export] Instance sim_mmio : Mmio sim := {
  mm_rd r w :=
    let w' := spend 100 w in
    (match r with rTIM2 TIM_CNT => u32 (ticks w') | rTIM2 TIM_SR => if x_flag w' then 2 else 0 | _ => 0 end, w');
  mm_wr r v w := spend 100
    {| x_k := x_k w; cycles := cycles w;
       x_ccr := match r with rTIM2 TIM_CCR0 => v | _ => x_ccr w end;
       x_dier := match r with rTIM2 TIM_DIER => v | _ => x_dier w end;
       x_flag := match r with rTIM2 TIM_SR => x_flag w && negb (Z.land v TIM_SR_CC1IF =? 0) | _ => x_flag w end |}
}.
#[export] Instance sim_kernel : Obj sim kernel := {
  obj := x_k;
  set_obj k w := {| x_k := k; cycles := cycles w; x_ccr := x_ccr w; x_dier := x_dier w; x_flag := x_flag w |}
}.
#[export] Instance sim_laws : ObjLaws sim kernel.
Proof. by split. Qed.

Lemma spend_later c w : 0 <= c → ticks w <= (cycles w + c) / per.
Proof. intros Hc. unfold ticks. apply Z.div_le_mono; [reflexivity|lia]. Qed.

#[export] Instance sim_tim : TimHw sim.
Proof.
  refine {| now := ticks; ccr := x_ccr; dier := x_dier; cc1if := x_flag |}.
  - done.
  - intros w. cbn -[crosses]. by destruct (x_flag w || _).
  - intros r v w. cbn -[crosses Z.land]. split_and!; try done. apply (spend_later 100 w). lia.
Defined.

#[export] Instance sim_clock : TickClock sim.
Proof.
  refine {| clk := cycles |}.
  - done.
  - intros r w. cbn. unfold ACCESS_CYCLES. lia.
  - intros r v w. cbn. unfold ACCESS_CYCLES. lia.
  - intros r w. split_and!; try done. apply (spend_later 100 w). lia.
Defined.
#[export] Instance sim_clock_kernel : TickObjLaws sim kernel.
Proof. by split. Qed.

(** Callbacks take no time here. *)
Lemma pass_ok (w : sim) : x_k (id w) = x_k w ∧ elapse w (id w) ∧ now (id w) <= now w + 0.
Proof.
  split; [done|]. split; [|cbn; lia]. split_and!; try done. cbn -[crosses]. unfold crosses.
  pose proof (u32_range (x_ccr w - ticks w - 1)). rewrite (proj2 (Z.leb_gt _ _)) by lia. by rewrite orb_false_r.
Qed.

(** The main thread is about to sleep for ten ticks. *)
Definition awake : sim := {| x_k := s_k start; cycles := 0; x_ccr := 0; x_dier := 0; x_flag := false |}.
Definition armed_w : sim := match exec (W:=sim) id (TSet 1 10) awake with Ok (_, w) => w | Err _ => awake end.
(** It sleeps, and twelve ticks have passed. *)
Definition late : sim :=
  let w := spend (12 * per) armed_w in
  {| x_k := s_k (scene overslept); cycles := cycles w; x_ccr := x_ccr w; x_dier := x_dier w; x_flag := x_flag w |}.

(** The time limit of ten ticks set, and twelve ticks gone by. *)
Lemma awake_sets allowed : allowed (TSet 1 10) → tstep 0 (W:=sim) id 0 allowed awake armed_w.
Proof.
  intros Ha. apply (ts_call 0 id 0 _ (TSet 1 10)); [done| |vm_compute; reflexivity].
  split; [vm_compute; split; [discriminate|reflexivity]|by left].
Qed.

Lemma awake_none : vt_list (k_vtl (x_k awake)) = [].
Proof. vm_compute. reflexivity. Qed.

Lemma awake_timers : timers_ok (base awake) awake.
Proof.
  split; [vm_compute; reflexivity|vm_compute; discriminate| |]; cbn [obj kernel_timers sim_kernel]; rewrite awake_none.
  - constructor.
  - reflexivity.
Qed.

Lemma armed_late allowed : tstep 0 (W:=sim) id 0 allowed armed_w late.
Proof.
  apply ts_other; [|vm_compute; reflexivity..|right; vm_compute; reflexivity].
  split_and!; vm_compute; [discriminate|reflexivity..].
Qed.

Lemma late_legal : TickKernel.legal 0 (W:=sim) 0 (TIrq 2) late.
Proof.
  split; [apply overslept_inv|]. split; [apply overslept_inv; vm_compute; reflexivity|].
  split; [vm_compute; lia|vm_compute; reflexivity].
Qed.

Lemma alarm_never_missed_witness : cc1if late = true ∧ ∃ w', exec (W:=sim) id (TIrq 2) late = Ok (tt, w').
Proof.
  destruct (alarm_never_missed 0 (W:=sim) id 0 ltac:(done) pass_ok awake late) as (H1 & _ & H3).
  - vm_compute. reflexivity.
  - vm_compute. reflexivity.
  - reflexivity.
  - exact (rtc_l _ _ _ _ (awake_sets _ I) (rtc_once _ _ (armed_late _))).
  - split; [|exact (H3 (TIrq 2) late_legal)].
    apply (H1 1%nat 10); vm_compute; [left|reflexivity].
Defined.

Lemma limits_on_time_witness :
  cc1if late = true ∧ ∃ w', exec (W:=sim) id (TIrq 2) late = Ok (tt, w') ∧ 1%nat ∈ queues (x_k w') QReady.
Proof.
  destruct (limits_on_time 0 (W:=sim) id 0 ltac:(done) pass_ok 1 10 awake armed_w late) as (m & Hm & _ & H).
  - exact awake_timers.
  - split; [vm_compute; split; [discriminate|reflexivity]|left; reflexivity].
  - vm_compute. reflexivity.
  - vm_compute. intros H. inversion H.
  - exact (rtc_once _ _ (armed_late _)).
  - destruct H as (H1 & _ & H2).
    + vm_compute. left.
    + eapply Z.le_lt_trans; [apply Hm|]. vm_compute. reflexivity.
    + split; [exact H1|]. destruct (H2 2%nat late_legal) as (w' & E & _ & _ & Hq & _).
      exists w'. split; [exact E|exact Hq].
Defined.

End TickSim.
