(* ===== verification/Sampling.v ===== *)
(** * The samples on their way from the pins to the bus

    system_adc_sample of Adc.v over the converter's driver, its DMA stream and a
    converter that fills the application's buffer sample by sample, while the
    call that started the conversion copies the buffer. *)

From S2P Require Import Prelude CBuf Fw CanFrame CanDriver Platform Api Adc Mmio Dma AdcDrv AdcSpecs.
From stdpp Require Import list gmap relations.
Import Mmio Dma AdcDrv AdcSpecs.
#[local] Open Scope Z_scope.

Module Sampling.

(** ** The converter

    Sequences of conversions are numbered from 1. The laws hold while the
    converter is enabled, as [system_adc_init] leaves it, and the stream meets no
    bus error. *)
Class Converter (W : Type) `{!Mmio W, !LastWritten W} := {
  (* the samples converted of the sequence in progress *)
  conv : W → option nat;
  seqs : W → nat;
  (* transfer complete, of channel 1 of the DMA unit *)
  tc : W → bool;
  conv_rd r w : conv (mm_rd r w).2 = conv w;
  seqs_rd r w : seqs (mm_rd r w).2 = seqs w;
  tc_rd r w : tc (mm_rd r w).2 = tc w;
  conv_wr r v w : conv (mm_wr r v w) =
    if decide (r = rADC ADC_CR) then
      if any_bit ADC_CR_ADSTP v then None
      else match conv w with None => if any_bit ADC_CR_ADSTART v then Some 0%nat else None | c => c end
    else conv w;
  seqs_wr r v w : seqs (mm_wr r v w) =
    if decide (r = rADC ADC_CR) then
      match conv w with None => if negb (any_bit ADC_CR_ADSTP v) && any_bit ADC_CR_ADSTART v then S (seqs w) else seqs w | _ => seqs w end
    else seqs w;
  tc_wr r v w : tc (mm_wr r v w) =
    if decide (r = rDMA1 DMA_IFCR) then tc w && negb (any_bit (Z.lor 1 STM32_DMA_ISR_TCIF) v) else tc w;
  isr_tc w : any_bit STM32_DMA_ISR_TCIF (mm_rd (rDMA1 DMA_ISR) w).1 = tc w;
  isr_te w : any_bit STM32_DMA_ISR_TEIF (mm_rd (rDMA1 DMA_ISR) w).1 = false;
  ccr_val w : Z.ldiff (mm_rd (rDMA1 (CCR 1)) w).1 STM32_DMA_CR_EN = Z.ldiff (last_wr w (rDMA1 (CCR 1))) STM32_DMA_CR_EN;
  idle_cr w : conv w = None → any_bit ADC_CR_ADSTP (mm_rd (rADC ADC_CR) w).1 = false
}.
Class ConverterObj (W T : Type) `{Converter W, !Obj W T} := {
  conv_set x w : conv (set_obj x w) = conv w;
  seqs_set x w : seqs (set_obj x w) = seqs w;
  tc_set x w : tc (set_obj x w) = tc w
}.

(** The application's variables. *)
#[export] Instance globals_obj {W} `{!Platform.Platform W} : Obj W Platform.globals := {
  obj := Platform.G;
  set_obj := Platform.set_G
}.

Notation internal_samples := Platform.internal_samples.
Notation raw_samples := Platform.raw_samples.

Section hardware.
Context {W F P : Type} `{!Mmio W, !LastWritten W, !Converter W, !DmaHw W, !CoreHw W}.
Context `{!Platform.Platform W, !Obj W (ADCDriver unit), !Obj W (dma_vars F P)}.
(** The address of [internal_samples], and what sequence [n] measures on channel
    [c]. *)
Variables (buf : Z) (V : nat → nat → Z).
Implicit Types w : W.

Notation GV w := (obj w : Platform.globals).

(** The channels converted, in the order of the scan. *)
Definition scan w : list nat :=
  let cs := filter (λ c, Z.testbit (last_wr w (rADC ADC_CHSELR)) (Z.of_nat c) = true) (seq 0 19) in
  if Z.testbit (last_wr w (rADC ADC_CFGR1)) 2 then reverse cs else cs.

(** The stream is on, from the converter's data register to ascending addresses of
    half words. *)
Definition stream_moves w : bool :=
  let ccr := last_wr w (rDMA1 (CCR 1)) in
  Z.testbit ccr 0 && negb (Z.testbit ccr 4) && negb (Z.testbit ccr 6) && Z.testbit ccr 7
  && (Z.land (Z.shiftr ccr 8) 3 =? 1) && (Z.land (Z.shiftr ccr 10) 3 =? 1)
  && (last_wr w (rDMA1 (CPAR 1)) =? ADC1_DR) && Z.testbit (last_wr w (rADC ADC_CFGR1)) 0.

(** Where sample [j] goes: an index of the buffer, or some other place. *)
Definition slot w (j : nat) : option nat :=
  let a := last_wr w (rDMA1 (CMAR 1)) + 2 * Z.of_nat j - buf in
  if stream_moves w && (Z.of_nat j <? last_wr w (rDMA1 (CNDTR 1))) && (0 <=? a) && (a <? 8) && Z.even a
  then Some (Z.to_nat (a / 2)) else None.

(** One sample converted and moved. Nothing is known of the memory when it goes
    elsewhere than to the buffer. *)
Record converts w w' : Prop := {
  cv_next : ∃ j c, conv w = Some j ∧ scan w !! j = Some c
    ∧ conv w' = (if (S j <? length (scan w))%nat then Some (S j) else if Z.testbit (last_wr w (rADC ADC_CFGR1)) 13 then Some 0%nat else None)
    ∧ tc w' = tc w || (stream_moves w && (Z.of_nat (S j) =? last_wr w (rDMA1 (CNDTR 1))))
    ∧ match slot w j with
      | Some i => GV w' = Platform.with_internal (<[i := V (seqs w) c]> (internal_samples (GV w))) (GV w)
          ∧ (obj w' : ADCDriver unit) = obj w ∧ (obj w' : dma_vars F P) = obj w
      | None => True
      end;
  cv_seqs : seqs w' = seqs w;
  cv_last r : last_wr w' r = last_wr w r;
  cv_ie i : ie w' i = ie w i;
  cv_rcc r : rcc w' r = rcc w r;
  cv_irq n : irq_on w' n = irq_on w n
}.

(** ** The conversion group of system_ADC.c over the driver *)

Definition end_callback (b k : Z) : fw W unit :=
  if decide (b = buf) then internal ← Platform.global internal_samples; Adc.adccallback internal
  else throw OutOfBounds.

Definition adcgrpcfg1 (_ : unit) : ADCConversionGroup W := {|
  circular := Platform.circular Adc.adcgrpcfg1;
  num_channels := Platform.num_channels Adc.adcgrpcfg1;
  end_cb := Some end_callback;
  error_cb := Some (λ _, Adc.adcerrorcallback 0);
  cfgr1 := Platform.cfgr1 Adc.adcgrpcfg1;
  tr := Platform.tr Adc.adcgrpcfg1;
  smpr := Platform.smpr Adc.adcgrpcfg1;
  chselr := Platform.chselr Adc.adcgrpcfg1
|}.

(** The statements of [system_adc_sample]. *)
Definition sample_prog : list (fw W unit) :=
  [modify (Platform.adcStartConversion Adc.adcgrpcfg1 Adc.ADC_GRP1_BUF_DEPTH);
   Adc.copy_sample 0 3; Adc.copy_sample 1 2; Adc.copy_sample 2 1; Adc.copy_sample 3 0].

End hardware.

Section runs.
Context {W F P : Type} `{!Mmio W, !Obj W (ADCDriver unit), !Obj W (dma_vars F P), !Platform.Platform W}.
Context `{!ObjLaws W (ADCDriver unit), !ObjLaws W (dma_vars F P), !ObjLaws W Platform.globals}.
Context `{!Apart W (ADCDriver unit) (dma_vars F P), !Apart W (dma_vars F P) (ADCDriver unit)}.
Context `{!Apart W Platform.globals (dma_vars F P), !Apart W (dma_vars F P) Platform.globals}.
Context `{!Apart W Platform.globals (ADCDriver unit), !Apart W (ADCDriver unit) Platform.globals}.
Context `{!CoreHw W, !CoreObjLaws W (ADCDriver unit), !CoreObjLaws W (dma_vars F P), !CoreObjLaws W Platform.globals}.
Context `{!DmaHw W, !DmaObjLaws W (ADCDriver unit), !DmaObjLaws W (dma_vars F P), !DmaObjLaws W Platform.globals}.
Context `{!LastWritten W, !LastObjLaws W (ADCDriver unit), !LastObjLaws W Platform.globals}.
Context `{!Converter W, !ConverterObj W (ADCDriver unit), !ConverterObj W Platform.globals}.
Variables (polls fuel : nat) (Hpolls : (polls < fuel)%nat).
Context `{!AdcTiming W polls}.
Variables (rx_handler : F) (ADCD1_ptr : P) (invoke : F → option P → Z → fw W unit).
Variables (buf : Z) (V : nat → nat → Z).
Implicit Types w : W.

Notation D w := (obj w : ADCDriver unit).
Notation GV w := (obj w : Platform.globals).
Notation adc_inv := (adc_inv (G:=unit) rx_handler ADCD1_ptr).
Notation group := (adcgrpcfg1 buf).

(** The buffer is an array in memory; the handler behind the stream's pointer is
    the driver's; the application's call is the driver's. *)
Hypothesis buf_ok : 0 <= buf ∧ buf + 8 <= 2 ^ 32.
Hypothesis invoke_rx : ∀ flags, invoke rx_handler (Some ADCD1_ptr) flags = adc_lld_serve_rx_interrupt group fuel flags.
Hypothesis start_is : ∀ n w w',
  AdcDrv.adcStartConversion group tt buf n w = Ok (tt, w') → Platform.adcStartConversion Adc.adcgrpcfg1 n w = w'.

(** What the driver's accesses leave alone of the application and the converter. *)
Record still w w' : Prop := {
  st_globals : GV w' = GV w;
  st_seqs : seqs w' = seqs w;
  st_conv : conv w' = conv w
}.

Lemma still_refl w : still w w.
Proof. done. Qed.
Lemma still_trans w1 w2 w3 : still w1 w2 → still w2 w3 → still w1 w3.
Proof. intros [A1 A2 A3] [B1 B2 B3]. split; congruence. Qed.
Lemma still_set (d : ADCDriver unit) w : still w (set_obj d w).
Proof. split; [apply apart|apply seqs_set|apply conv_set]. Qed.

Lemma still_touched S w w' : ¬ S (rADC ADC_CR) → touched S w w' → still w w'.
Proof.
  intros HS T. split.
  - exact (touched_obj _ _ _ T).
  - apply (touched_keeps seqs S); [intros; apply seqs_rd| |done]. intros r v w1 Hr. rewrite seqs_wr. by rewrite decide_False by (by intros ->).
  - apply (touched_keeps conv S); [intros; apply conv_rd| |done]. intros r v w1 Hr. rewrite conv_wr. by rewrite decide_False by (by intros ->).
Qed.

Lemma tc_touched S w w' : ¬ S (rDMA1 DMA_IFCR) → touched S w w' → tc w' = tc w.
Proof. intros HS. apply (touched_keeps tc S); [intros; apply tc_rd|]. intros r v w1 Hr. rewrite tc_wr. by rewrite decide_False by (by intros ->). Qed.

Lemma last_touched S r w w' : ¬ S r → touched S w w' → last_wr w' r = last_wr w r.
Proof. intros HS. apply (touched_keeps (λ w, last_wr w r) S); [intros; apply last_wr_rd|]. intros r' v w1 Hr. rewrite last_wr_wr. by rewrite decide_False by (by intros ->). Qed.

(** ** Starting a conversion *)

Record programmed w : Prop := {
  pg_ccr : last_wr w (rDMA1 (CCR 1)) = Z.lor ADCD1_dmamode STM32_DMA_CR_EN;
  pg_cmar : last_wr w (rDMA1 (CMAR 1)) = buf;
  pg_cndtr : last_wr w (rDMA1 (CNDTR 1)) = 4;
  pg_cpar : last_wr w (rDMA1 (CPAR 1)) = ADC1_DR;
  pg_chselr : last_wr w (rADC ADC_CHSELR) = 0x2E0;
  pg_cfgr1 : last_wr w (rADC ADC_CFGR1) = ADC_CFGR1_DMAEN
}.

(** The channels in the order of the scan: IN5, IN6, IN7, IN9. *)
Definition chans : list nat := [5; 6; 7; 9]%nat.

Lemma scan_programmed w : programmed w → scan w = chans.
Proof. intros [_ _ _ _ E1 E2]. unfold scan. rewrite E1, E2. vm_compute. reflexivity. Qed.

Lemma slot_programmed w j : programmed w → (j < 4)%nat → slot buf w j = Some j ∧ stream_moves w = true.
Proof using All.
  intros [E1 E2 E3 E4 E5 E6] Hj. assert (stream_moves w = true) as Em.
  { unfold stream_moves. rewrite E1, E4, E6. vm_compute. reflexivity. }
  split; [|done]. unfold slot. rewrite Em, E2, E3. cbv zeta. replace (buf + 2 * Z.of_nat j - buf) with (2 * Z.of_nat j) by lia.
  destruct j as [|[|[|[|]]]]; [reflexivity..|lia].
Qed.

Lemma lor_en x y : Z.ldiff x STM32_DMA_CR_EN = Z.ldiff y STM32_DMA_CR_EN → Z.lor x STM32_DMA_CR_EN = Z.lor y STM32_DMA_CR_EN.
Proof.
  intros E. apply Z.bits_inj'. intros i Hi. apply (f_equal (λ z, Z.testbit z i)) in E. rewrite !Z.ldiff_spec in E. rewrite !Z.lor_spec.
  destruct (Z.testbit STM32_DMA_CR_EN i); [by rewrite !orb_true_r|]. rewrite !andb_true_r in E. by rewrite E.
Qed.

Ltac regs_tac :=
  repeat first
    [ rewrite last_wr_rd
    | rewrite last_wr_wr; first [rewrite decide_True by done | rewrite decide_False by done] ]; try done.

(** The last write of a start, when the converter is idle. *)
Lemma adstart_starts w :
  conv w = None → let w' := mm_wr (rADC ADC_CR) (Z.lor (mm_rd (rADC ADC_CR) w).1 ADC_CR_ADSTART) (mm_rd (rADC ADC_CR) w).2 in
  conv w' = Some 0%nat ∧ seqs w' = S (seqs w).
Proof.
  intros Ec. cbv zeta. rewrite conv_wr, seqs_wr, conv_rd, seqs_rd, Ec, !decide_True by done.
  pose proof (idle_cr w Ec) as Hs. set (v := (mm_rd (rADC ADC_CR) w).1) in *.
  assert (any_bit ADC_CR_ADSTP (Z.lor v ADC_CR_ADSTART) = false) as ->.
  { unfold any_bit in *. rewrite Z.land_lor_distr_l. change (Z.land ADC_CR_ADSTART ADC_CR_ADSTP) with 0. by rewrite Z.lor_0_r. }
  assert (any_bit ADC_CR_ADSTART (Z.lor v ADC_CR_ADSTART) = true) as ->; [|done].
  unfold any_bit. apply negb_true_iff, Z.eqb_neq. intros E. apply (f_equal (λ z, Z.testbit z 2)) in E.
  by rewrite Z.land_spec, Z.lor_spec, Z.testbit_0_l, orb_true_r in E.
Qed.

Lemma start_programs w :
  adc_inv w → dmamode (D w) = ADCD1_dmamode → conv w = None → tc w = false → last_wr w (rDMA1 (CPAR 1)) = ADC1_DR →
  wp (AdcDrv.adcStartConversion group tt buf Adc.ADC_GRP1_BUF_DEPTH) (λ _ w', programmed w'
    ∧ ie w' 1 = Z.lor STM32_DMA_CR_TCIE STM32_DMA_CR_TEIE ∧ GV w' = GV w ∧ seqs w' = S (seqs w) ∧ conv w' = Some 0%nat ∧ tc w' = false
    ∧ D w' = with_state ADC_ACTIVE (with_grpp (Some tt) (with_buffer buf 1 (D w)))) w.
Proof using All.
  intros I Em Ec Et Ep. unfold AdcDrv.adcStartConversion, adcStartConversionI. apply wp_bind, wp_upd_driver, wp_bind, wp_upd_driver, wp_bind, wp_upd_driver.
  rewrite !obj_set. set (d := with_state _ _). set (w0 := set_obj _ _).
  assert (D w0 = d) as D0 by apply obj_set.
  assert (still w w0) as S0 by (do 2 (eapply still_trans; [|apply still_set]); apply still_set).
  assert (tc w0 = false) as T0 by (unfold w0; by rewrite !tc_set).
  assert (last_wr w0 (rDMA1 (CPAR 1)) = ADC1_DR) as P0 by (unfold w0; by rewrite !last_wr_set).
  unfold adc_lld_start_conversion. apply wp_bind, wp_driver, wp_bind. rewrite D0. apply (wp_the_group _ tt); [by rewrite D0|].
  change (dmastp d) with (dmastp (D w)). rewrite (ai_stream _ _ _ I). change (samples d) with buf. change (depth d) with 1.
  change (dmamode d) with (dmamode (D w)). rewrite Em. unfold dmaStreamSetMemory0, dmaStreamSetTransactionSize, dmaStreamSetMode, dmaStreamEnable.
  change (u32 (num_channels (group tt) * 1)) with 4. change (Z.lor (Z.lor ADCD1_dmamode _) _) with ADCD1_dmamode.
  do 6 wp_step. set (w1 := mm_wr (rDMA1 (CNDTR _)) _ _). do 6 wp_step. set (w2 := mm_wr (rDMA1 (CCR _)) _ (mm_rd _ _).2).
  assert (last_wr w2 (rDMA1 (CCR 1)) = Z.lor ADCD1_dmamode STM32_DMA_CR_EN ∧ ie w2 1 = Z.lor STM32_DMA_CR_TCIE STM32_DMA_CR_TEIE) as [C2 I2].
  { split; [|exact (mode_ie 1 (u32 ADCD1_dmamode) w1)]. unfold w2. rewrite last_wr_wr, decide_True by done.
    apply lor_en. rewrite ccr_val, last_wr_wr, decide_True by done. done. }
  assert (last_wr w2 (rDMA1 (CMAR 1)) = buf ∧ last_wr w2 (rDMA1 (CNDTR 1)) = 4 ∧ last_wr w2 (rDMA1 (CPAR 1)) = ADC1_DR) as (M2 & N2 & P2).
  { unfold w2, w1. split_and!; regs_tac. apply u32_id. lia. }
  assert (touched (λ r, r ≠ rADC ADC_CR ∧ r ≠ rDMA1 DMA_IFCR) w0 w2) as H2 by (unfold w2, w1; touched_tac).
  do 14 wp_step. set (w3 := mm_wr (rADC ADC_CFGR1) _ _).
  assert (touched (λ r, is_adc r ∧ r ≠ rADC ADC_CR) w2 w3) as H3 by (unfold w3; touched_tac).
  assert (last_wr w3 (rADC ADC_CHSELR) = 0x2E0 ∧ last_wr w3 (rADC ADC_CFGR1) = ADC_CFGR1_DMAEN) as [Q3 R3] by (unfold w3; split; regs_tac).
  assert (touched (λ r, r ≠ rADC ADC_CR ∧ r ≠ rDMA1 DMA_IFCR) w0 w3) as H03.
  { eapply touched_trans; [exact H2|]. eapply touched_mono; [|exact H3]. intros r [Hr Hn]. split; [done|]. by intros ->. }
  assert (still w w3) as S3 by (eapply still_trans; [exact S0|]; eapply still_touched; [|exact H03]; by intros []).
  destruct (adstart_starts w3) as [C4 Q4]; [rewrite (st_conv _ _ S3); done|].
  wp_steps. set (w4 := mm_wr (rADC ADC_CR) _ _) in *.
  assert (touched (λ r, r = rADC ADC_CR) w3 w4) as H4 by (unfold w4; touched_tac).
  assert (∀ r, ¬ is_adc r → last_wr w4 r = last_wr w2 r) as L24.
  { intros r Hr. rewrite (last_touched (λ r, r = rADC ADC_CR) r w3 w4 ltac:(by intros ->) H4).
    refine (last_touched _ r w2 w3 _ H3). by intros []. }
  split_and!; [|..].
  - split; [by rewrite L24 by by intros []..| |].
    + rewrite <-Q3. by refine (last_touched (λ r, r = rADC ADC_CR) _ w3 w4 _ H4).
    + rewrite <-R3. by refine (last_touched (λ r, r = rADC ADC_CR) _ w3 w4 _ H4).
  - rewrite <-I2. assert (touched is_adc w2 w4) as T24.
    { eapply touched_trans; [eapply touched_mono; [|exact H3]; by intros r []|]. eapply touched_mono; [|exact H4]. by intros r ->. }
    exact (touched_adc_ie 1 w2 w4 T24).
  - rewrite <-(st_globals _ _ S3). exact (touched_obj _ _ _ H4).
  - by rewrite Q4, (st_seqs _ _ S3).
  - done.
  - rewrite (tc_touched (λ r, r = rADC ADC_CR) w3 w4 ltac:(done) H4). rewrite <-T0. refine (tc_touched _ w0 w3 _ H03). by intros [].
  - rewrite (touched_obj _ _ _ H4), (touched_obj _ _ _ H03). exact D0.
Qed.

(** ** The end of a conversion *)

Lemma tc_stays S w w' : touched S w w' → tc w = false → tc w' = false.
Proof.
  induction 1 as [|r w w' _ IH|r v w w' _ _ IH]; [done| |]; intros E; apply IH; rewrite ?tc_rd, ?tc_wr, ?E; [done|].
  by case_decide.
Qed.

(** A stop of the idle converter. *)
Lemma wp_stop_idle (Q : unit → W → Prop) w :
  dmastp (D w) = stream 0 → conv w = None → tc w = false →
  (∀ w', moved (T:=ADCDriver unit) (F:=F) (P:=P) w w' → ie w' 1 = 0 → still w w' → tc w' = false →
     last_wr w' (rDMA1 (CPAR 1)) = last_wr w (rDMA1 (CPAR 1)) → Q tt w') →
  wp (adc_lld_stop_conversion fuel) Q w.
Proof using All.
  intros Es Ec Et HQ. unfold adc_lld_stop_conversion. apply wp_bind, wp_driver, wp_bind, wp_dmaStreamDisable.
  rewrite Es. intros w1 T1 I1 _.
  assert (still w w1) as S1 by (refine (still_touched _ _ _ _ T1); by intros []).
  assert (∀ w', touched is_adc w1 w' → still w1 w' → Q tt w') as Hend.
  { intros w' T' S'. assert (touched (λ r, dma_only 1 r ∨ is_adc r) w w') as T.
    { eapply touched_trans; (eapply touched_mono; [|done]); naive_solver. }
    apply HQ.
    - refine (moved_touched _ _ _ _ T). intros r [[-> | ->]|Hr]; [done|done|]. destruct r; cbn in *; tauto.
    - by rewrite (touched_adc_ie _ _ _ T').
    - by eapply still_trans.
    - by apply (tc_stays _ _ _ T).
    - refine (last_touched _ _ _ _ _ T). by intros [[]|]. }
  unfold adc_lld_stop_adc. wp_steps. apply wp_when; intros _.
  2: { apply Hend; [touched_tac|]. apply (still_touched (λ _, False)); [tauto|touched_tac]. }
  wp_steps. set (w2 := mm_wr _ _ _). apply (wp_poll_touched polls); [apply cmd_settles; set_solver|done|].
  intros w3 T3. assert (touched is_adc w1 w2) as T2 by (unfold w2; touched_tac). apply Hend.
  { eapply touched_trans; [exact T2|]. by eapply touched_mono; [|exact T3]. }
  apply (still_trans _ w2); [|apply (still_touched (λ _, False)); [tauto|exact T3]].
  set (v := Z.lor _ ADC_CR_ADSTP) in w2. assert (any_bit ADC_CR_ADSTP v = true) as Hv.
  { unfold any_bit. apply negb_true_iff, Z.eqb_neq. intros E. apply (f_equal (λ z, Z.testbit z 4)) in E. unfold v in E.
    by rewrite Z.land_spec, Z.lor_spec, Z.testbit_0_l, orb_true_r in E. }
  assert (conv w1 = None) as C1 by (rewrite (st_conv _ _ S1); done). unfold w2. split.
  - by rewrite obj_wr, !obj_rd.
  - by rewrite seqs_wr, !seqs_rd, !conv_rd, C1, decide_True, Hv by done.
  - by rewrite conv_wr, decide_True, Hv, C1 by done.
Qed.

(** ** The invariant *)

(** What sequence [n] gives on a channel, zero before the first. *)
Definition got (n c : nat) : Z := match n with O => 0 | S _ => V n c end.

(** The buffer with [j] samples of sequence [n], the others of the one before. *)
Definition filled (j n : nat) : list Z := (V n <$> take j chans) ++ (got (n - 1) <$> drop j chans).

Record common w : Prop := {
  co_inv : adc_inv w;
  co_mode : dmamode (D w) = ADCD1_dmamode;
  co_cpar : last_wr w (rDMA1 (CPAR 1)) = ADC1_DR;
  co_raw : length (raw_samples (GV w)) = 4%nat
}.

Record idle w : Prop := {
  id_state : state (D w) = ADC_READY;
  id_conv : conv w = None;
  id_tc : tc w = false;
  id_internal : internal_samples (GV w) = got (seqs w) <$> chans
}.

(** [j] samples of the sequence in progress have been moved; with all four, the end
    has not been served. *)
Record busy (j : nat) w : Prop := {
  bu_state : state (D w) = ADC_ACTIVE;
  bu_group : grpp (D w) = Some tt;
  bu_buffer : samples (D w) = buf ∧ depth (D w) = 1;
  bu_prog : programmed w;
  bu_ie : ie w 1 = Z.lor STM32_DMA_CR_TCIE STM32_DMA_CR_TEIE;
  bu_seqs : (0 < seqs w)%nat;
  bu_j : (j <= 4)%nat;
  bu_conv : conv w = if decide (j = 4%nat) then None else Some j;
  bu_tc : tc w = bool_decide (j = 4%nat);
  bu_internal : internal_samples (GV w) = filled j (seqs w)
}.

(** Reads change nothing of this. *)
Lemma reads_keep w w' :
  touched (λ _, False) w w' → common w →
  common w' ∧ (idle w → idle w') ∧ (∀ j, busy j w → busy j w') ∧ GV w' = GV w ∧ seqs w' = seqs w.
Proof using All.
  intros T [C1 C2 C3 C4]. pose proof (touched_obj _ _ _ T : D w' = D w) as ED.
  pose proof (still_touched _ _ _ (λ x, x) T) as [EG EQ EC]. pose proof (tc_touched _ _ _ (λ x, x) T) as ET.
  assert (∀ r, last_wr w' r = last_wr w r) as EL by (intros r; exact (last_touched _ r _ _ (λ x, x) T)).
  assert (adc_inv w') as I'.
  { apply (ack_inv rx_handler ADCD1_ptr w w' C1). by eapply touched_mono; [|exact T]. }
  assert (ie w' 1 = ie w 1) as EI by exact (touched_ie _ 1 _ _ (λ _ _ x, x) T).
  split_and!; [by split; rewrite ?ED, ?EL, ?EG| | |done|done].
  - intros []. split; congruence.
  - intros j [B1 B2 [B3 B3'] [P1 P2 P3 P4 P5 P6] B5 B6 B7 B8 B9 B10]. split; try congruence; [split; congruence|split; rewrite EL; done].
Qed.

(** ** The interrupt of the stream *)

Lemma end_callback_nop (Q : unit → W → Prop) w k :
  internal_samples (GV w) ≠ [] →
  (∀ g, internal_samples g = internal_samples (GV w) → raw_samples g = raw_samples (GV w) → Q tt (set_obj g w)) →
  wp (end_callback buf buf k) Q w.
Proof.
  intros Hi HQ. unfold end_callback. rewrite decide_True by done. unfold Adc.adccallback, Platform.global, Platform.update.
  apply wp_bind, wp_gets. change (Platform.G w) with (GV w). destruct (internal_samples (GV w)) as [|x l] eqn:E; [done|].
  apply wp_bind, (wp_intro _ _ w x w); [done|]. apply wp_bind, wp_gets. change (Platform.G w) with (GV w). rewrite E.
  apply wp_bind, (wp_intro _ _ w (x :: l) w); [done|]. apply wp_modify.
  exact (HQ (Platform.with_internal (x :: l) (GV w)) eq_refl eq_refl).
Qed.

Lemma inv_globals (g : Platform.globals) w : adc_inv w → adc_inv (set_obj g w).
Proof.
  intros [I1 I2 I3 I4]. split; rewrite ?apart, ?ie_set; [done..|].
  by eapply claims_same; [exact I4|apply same_claims_set|].
Qed.

Lemma flags_bit b v : Z.land b STM32_DMA_ISR_MASK = b → any_bit b (Z.land (Z.shiftr v 0) STM32_DMA_ISR_MASK) = any_bit b v.
Proof. intros Hb. unfold any_bit. rewrite Z.shiftr_0_r, <-Z.land_assoc, (Z.land_comm STM32_DMA_ISR_MASK), Hb. done. Qed.

Lemma ready_frame w :
  wp (set_state ADC_READY;; set_grpp None) (λ _ w', D w' = with_grpp None (with_state ADC_READY (D w)) ∧ still w w' ∧ tc w' = tc w
    ∧ last_wr w' (rDMA1 (CPAR 1)) = last_wr w (rDMA1 (CPAR 1))) w.
Proof.
  apply wp_bind, wp_upd_driver, wp_upd_driver. rewrite !obj_set. split_and!; [done| | |].
  - eapply still_trans; apply still_set.
  - by rewrite !tc_set.
  - by rewrite !last_wr_set.
Qed.

(** The interrupt serves the end of the sequence: the driver is ready again. *)
Lemma serve_end flags w :
  common w → busy 4 w → any_bit STM32_DMA_ISR_TEIF flags = false → any_bit STM32_DMA_ISR_TCIF flags = true →
  ∀ w1, touched (λ r, r = rDMA1 DMA_IFCR) w w1 → tc w1 = false →
  wp (adc_lld_serve_rx_interrupt group fuel flags) (λ _ w', common w' ∧ idle w' ∧ raw_samples (GV w') = raw_samples (GV w) ∧ seqs w' = seqs w) w1.
Proof using All.
  intros [C1 C2 C3 C4] [B1 B2 [B3 B3'] _ _ B6 _ B8 _ B10] Ht Hc w1 T1 E1. rewrite decide_True in B8 by done.
  destruct (ack_inv rx_handler ADCD1_ptr w w1 C1 T1) as [I1 D1].
  pose proof (still_touched (λ r, r = rDMA1 DMA_IFCR) w w1 ltac:(done) T1) as S1.
  assert (last_wr w1 (rDMA1 (CPAR 1)) = ADC1_DR) as P1 by (rewrite <-C3; refine (last_touched _ _ _ _ _ T1); done).
  unfold adc_lld_serve_rx_interrupt. change (Z.lor STM32_DMA_ISR_TEIF STM32_DMA_ISR_DMEIF) with STM32_DMA_ISR_TEIF.
  rewrite Ht, Hc. apply wp_bind, wp_driver. rewrite D1, B2. unfold _adc_isr_full_code.
  apply wp_bind, (wp_the_group _ tt); [by rewrite D1|]. cbn [circular adcgrpcfg1]. change (Platform.circular Adc.adcgrpcfg1) with false. cbv iota.
  apply wp_bind, wp_stop_idle; [by rewrite D1; apply C1|by rewrite (st_conv _ _ S1)|done|]. intros w2 M2 I2 S2 T2 P2.
  pose proof (still_trans _ _ _ S1 S2) as S12. pose proof M2 as [D2 K2].
  apply wp_bind, (wp_the_group _ tt); [by rewrite D2, D1|]. cbn [end_cb adcgrpcfg1].
  apply wp_bind, wp_upd_driver. set (w3 := set_obj _ w2).
  assert (D w3 = with_state ADC_COMPLETE (D w)) as D3 by (unfold w3; by rewrite obj_set, D2, D1).
  assert (adc_inv w3) as I3.
  { apply (reported_inv rx_handler ADCD1_ptr ADC_COMPLETE w1); [done|by rewrite D1|done|done|by left]. }
  pose proof (still_trans _ _ _ S12 (still_set (with_state ADC_COMPLETE (D w2)) w2)) as S3. fold w3 in S3.
  apply wp_bind, wp_driver. rewrite D3. cbn [samples depth with_state]. rewrite B3.
  apply wp_bind, end_callback_nop.
  { rewrite (st_globals _ _ S3), B10. done. }
  intros g Eg Er. set (w4 := set_obj g w3). assert (D w4 = with_state ADC_COMPLETE (D w)) as D4 by (unfold w4; rewrite apart; exact D3).
  assert (adc_inv w4) as I4 by (apply inv_globals; exact I3).
  apply wp_bind, wp_get_state. rewrite D4. cbn [state with_state]. rewrite bool_decide_eq_true_2 by done. cbn [when].
  pose proof (wp_ready rx_handler ADCD1_ptr ADC_COMPLETE w4 (λ _ w', adc_inv w') I4 ltac:(by left) ltac:(left; by rewrite D4) ltac:(done)) as HI.
  rewrite D4, bool_decide_eq_true_2 in HI by done. cbn [when] in HI.
  eapply wp_mono; [|exact (wp_conj _ _ _ w4 HI (ready_frame w4))].
  intros [] w' (I' & D' & S' & T' & P'). rewrite D4 in D'.
  assert (seqs w4 = seqs w ∧ conv w4 = None ∧ tc w4 = false ∧ last_wr w4 (rDMA1 (CPAR 1)) = ADC1_DR) as (Q4 & N4 & T4 & P4).
  { unfold w4, w3. rewrite !seqs_set, !conv_set, !tc_set, !last_wr_set. rewrite (st_seqs _ _ S12), (st_conv _ _ S12). split_and!; congruence. }
  assert (GV w' = g) as G' by (rewrite (st_globals _ _ S'); apply obj_set).
  assert (raw_samples g = raw_samples (GV w)) as Er' by (rewrite Er, (st_globals _ _ S3); done).
  split_and!; [split|split| |].
  - done.
  - by rewrite D'.
  - congruence.
  - by rewrite G', Er'.
  - by rewrite D'.
  - by rewrite (st_conv _ _ S').
  - congruence.
  - rewrite G', Eg, (st_globals _ _ S3), B10, (st_seqs _ _ S'), Q4. destruct (seqs w); [lia|done].
  - by rewrite G'.
  - by rewrite (st_seqs _ _ S').
Qed.

(** The flags enabled are those of the end and of errors. *)
Lemma flags_enabled v e : e = 0 ∨ e = Z.lor STM32_DMA_CR_TCIE STM32_DMA_CR_TEIE → any_bit STM32_DMA_ISR_TEIF v = false →
  (Z.land (Z.land v STM32_DMA_ISR_MASK) e =? 0) = bool_decide (e = 0) || negb (any_bit STM32_DMA_ISR_TCIF v).
Proof.
  intros [-> | ->] Ht; [by rewrite Z.land_0_r, bool_decide_eq_true_2|]. rewrite bool_decide_eq_false_2 by done. cbn [orb].
  rewrite <-Z.land_assoc. change (Z.land STM32_DMA_ISR_MASK _) with (Z.lor STM32_DMA_ISR_TCIF STM32_DMA_ISR_TEIF).
  unfold any_bit in *. apply negb_false_iff, Z.eqb_eq in Ht. rewrite negb_involutive, Z.land_lor_distr_r, Ht, Z.lor_0_r. done.
Qed.

(** What the handler acknowledges. *)
Lemma ack_bit isr :
  any_bit STM32_DMA_ISR_TCIF isr = true →
  negb (any_bit (Z.lor 1 STM32_DMA_ISR_TCIF) (u32 (Z.shiftl (Z.land (Z.shiftr isr 0) STM32_DMA_ISR_MASK) 0))) = false.
Proof.
  rewrite Z.shiftr_0_r, Z.shiftl_0_r. unfold any_bit. rewrite !negb_true_iff, negb_involutive, !Z.eqb_neq. intros Hx E.
  apply Hx. apply Z.bits_inj'. intros i Hi. apply (f_equal (λ z, Z.testbit z i)) in E.
  rewrite !Z.land_spec, Z.testbit_0_l in *. unfold STM32_DMA_ISR_TCIF in *. destruct (decide (i = 1)) as [->|Hd].
  - unfold u32 in E. change 4294967296 with (2 ^ 32) in E. rewrite Z.mod_pow2_bits_low, Z.land_spec in E by lia.
    change (Z.testbit STM32_DMA_ISR_MASK 1) with true in E. change (Z.testbit (Z.lor 1 2) 1) with true in E.
    rewrite !andb_true_r in E. by rewrite E.
  - destruct (decide (i = 0)) as [->|]; [by rewrite andb_false_r|]. rewrite (Z.bits_above_log2 2) by (cbn; lia). apply andb_false_r.
Qed.

Lemma irq_ok w :
  common w → idle w ∨ (∃ j, busy j w) →
  wp (STM32_DMA1_CH1_HANDLER invoke) (λ _ w', common w' ∧ raw_samples (GV w') = raw_samples (GV w) ∧ seqs w' = seqs w
    ∧ (idle w ∨ busy 4 w → idle w') ∧ ∀ j, (j < 4)%nat → busy j w → busy j w') w.
Proof using All.
  intros C Hp. unfold STM32_DMA1_CH1_HANDLER, dmaServeInterrupt. apply wp_bind, wp_rd.
  set (isr := (mm_rd (rDMA1 DMA_ISR) w).1). set (w1 := (mm_rd (rDMA1 DMA_ISR) w).2). apply wp_bind, wp_rd.
  set (w2 := (mm_rd _ w1).2). change (shift (stream 0)) with 0. change (channel (stream 0)) with 1%nat in *.
  assert (touched (λ _, False) w w2) as T2 by (unfold w2, w1; touched_tac).
  destruct (reads_keep w w2 T2 C) as (C2 & H2 & K2 & G2 & Q2).
  pose proof (isr_te w) as Ht. pose proof (isr_tc w) as Hc. fold isr in Ht, Hc.
  assert (Z.land (Z.land (Z.shiftr isr 0) STM32_DMA_ISR_MASK) (mm_rd (rDMA1 (CCR 1)) w1).1 = Z.land (Z.land isr STM32_DMA_ISR_MASK) (ie w 1)) as ->.
  { rewrite Z.shiftr_0_r, <-(ie_rd (rDMA1 DMA_ISR)), <-ie_val. unfold ie_of. fold w1.
    apply Z.bits_inj'. intros k _. rewrite !Z.land_spec. destruct (Z.testbit STM32_DMA_ISR_MASK k); by rewrite ?andb_true_r, ?andb_false_r. }
  assert (idle w → ie w 1 = 0) as Ii by (intros Hi; apply (ai_quiet _ _ _ (co_inv _ C)); by rewrite (id_state _ Hi)).
  assert (ie w 1 = 0 ∨ ie w 1 = Z.lor STM32_DMA_CR_TCIE STM32_DMA_CR_TEIE) as He.
  { destruct Hp as [Hi|[j Hj]]; [left; auto|right; by apply (bu_ie j)]. }
  rewrite flags_enabled by done. apply wp_when; intros Hf.
  - apply negb_true_iff in Hf. apply orb_false_iff in Hf as [Hz%bool_decide_eq_false Hf%negb_false_iff]. rewrite Hf in Hc.
    assert (busy 4 w) as B4.
    { destruct Hp as [Hi|[j Hj]]; [by destruct Hz; auto|]. rewrite (bu_tc _ _ Hj) in Hc. symmetry in Hc.
      apply bool_decide_eq_true in Hc. by subst. }
    apply wp_bind, wp_wr. set (w3 := mm_wr _ _ w2).
    assert (touched (λ r, r = rDMA1 DMA_IFCR) w w3) as T3 by (unfold w3, w2, w1; touched_tac).
    destruct (ack_inv rx_handler ADCD1_ptr w w3 (co_inv _ C) T3) as [I3 _].
    destruct (ai_claim _ _ _ I3) as (c & Hcl & Ec). destruct (cl_func _ _ Hcl (stream 0)) as (r & Hr & Efn & Ep); [by left|].
    apply wp_bind, (wp_intro _ _ w3 r w3).
    { unfold get_redir, read_obj. rewrite (fw_bind_ok _ _ w3 (obj w3) w3) by done. by rewrite Hr. }
    change (selfindex (stream 0)) with 0%nat in *. rewrite (touched_obj _ _ _ T3 : D w3 = D w), (bu_state _ _ B4), decide_False in Ec by done.
    rewrite Ec in Efn, Ep.
    cbn [fst fmap option_fmap option_map] in Efn. rewrite Efn, (Ep _ eq_refl), invoke_rx.
    eapply wp_mono; [|apply (serve_end _ w C B4); [by rewrite flags_bit|by rewrite flags_bit|exact T3|]].
    + intros [] w' (C' & I' & R' & Q'). split_and!; [done|done|done|done|]. intros j Hj Bj. pose proof (bu_tc _ _ Bj) as Hx.
      rewrite (bu_tc _ _ B4) in Hx. symmetry in Hx. apply bool_decide_eq_true in Hx. lia.
    + unfold w3. rewrite tc_wr, decide_True by done. by rewrite ack_bit, andb_false_r by done.
  - rewrite G2. split_and!; [done|done|done| |auto]. intros [Hi|B4]; [auto|].
    apply negb_false_iff in Hf. apply orb_true_iff in Hf as [Hz%bool_decide_eq_true|Hf].
    + rewrite (bu_ie _ _ B4) in Hz. done.
    + rewrite (bu_tc _ _ B4) in Hc. rewrite Hc in Hf. done.
Qed.

(** ** Runs *)

(** The channels of the analog inputs 1 to 4: PB1, PA7, PA6, PA5. *)
Definition inputs : list nat := [9; 7; 6; 5]%nat.

(** [x] is what sequence [n] or the one before measures on [c]. *)
Definition recent (n c : nat) (x : Z) : Prop := x = V n c ∨ x = got (n - 1) c.

Definition raw_ok (n k : nat) (raw : list Z) : Prop :=
  ∀ i c, (i < k)%nat → inputs !! i = Some c → ∃ x, raw !! i = Some x ∧ recent n c x.

(** [k] statements of the sampling have been executed; between calls, all five. *)
Record sampled (k : nat) w : Prop := {
  sa_common : common w;
  sa_phase : idle w ∨ ∃ j, busy j w;
  sa_first : k = 0%nat → idle w;
  sa_raw : (0 < seqs w)%nat → raw_ok (seqs w) (k - 1) (raw_samples (GV w))
}.

Lemma copy_sample_runs i j x w :
  internal_samples (GV w) !! j = Some x → (i < length (raw_samples (GV w)))%nat →
  Adc.copy_sample i j w = Ok (tt, set_obj (Platform.with_raw (<[i := x]> (raw_samples (GV w))) (GV w)) w).
Proof.
  intros Hj Hi. apply brd_ok in Hj. unfold Adc.copy_sample, Platform.global.
  rewrite (fw_bind_ok _ _ w (internal_samples (GV w)) w) by done. rewrite (fw_bind_ok _ _ w x w) by (unfold lift; by rewrite Hj).
  rewrite (fw_bind_ok _ _ w (raw_samples (GV w)) w) by done.
  by rewrite (fw_bind_ok _ _ w (<[i := x]> (raw_samples (GV w))) w) by (unfold lift; by rewrite bwr_ok).
Qed.

(** A change of [raw_samples] only. *)
Lemma raw_set_ok raw w :
  length raw = 4%nat → common w →
  let w' := set_obj (Platform.with_raw raw (GV w)) w in
  common w' ∧ (idle w → idle w') ∧ (∀ j, busy j w → busy j w') ∧ raw_samples (GV w') = raw ∧ internal_samples (GV w') = internal_samples (GV w) ∧ seqs w' = seqs w.
Proof using All.
  intros Hl [C1 C2 C3 C4]. cbv zeta. set (w' := set_obj _ w).
  assert (D w' = D w) as ED by apply apart. assert (GV w' = Platform.with_raw raw (GV w)) as EG by apply obj_set.
  assert (seqs w' = seqs w) as EQ by apply seqs_set. assert (conv w' = conv w) as EC by apply conv_set.
  assert (tc w' = tc w) as ET by apply tc_set. assert (ie w' 1 = ie w 1) as EI by apply ie_set.
  assert (∀ r, last_wr w' r = last_wr w r) as EL by (intros; apply last_wr_set).
  assert (internal_samples (GV w') = internal_samples (GV w)) as EN by by rewrite EG.
  assert (raw_samples (GV w') = raw) as ER by by rewrite EG.
  split_and!; [|intros [H1 H2 H3 H4]|intros j [B1 B2 [B3 B3'] [P1 P2 P3 P4 P5 P6] B5 B6 B7 B8 B9 B10]|done|done|done].
  - split; [by apply inv_globals|by rewrite ED|by rewrite EL|by rewrite ER].
  - split; congruence.
  - split; try congruence; [split; congruence|split; rewrite EL; done].
Qed.

Lemma filled_next j n : (j < 4)%nat → (0 < n)%nat → ∃ c, chans !! j = Some c ∧ <[j := V n c]> (filled j n) = filled (S j) n.
Proof. intros Hj Hn. destruct j as [|[|[|[|]]]]; [eexists; split; reflexivity..|lia]. Qed.

(** Whatever the buffer holds when a sample is copied is recent. *)
Lemma buffer_recent w i c :
  idle w ∨ (∃ j, busy j w) → (0 < seqs w)%nat → inputs !! i = Some c →
  ∃ x, internal_samples (GV w) !! (3 - i)%nat = Some x ∧ recent (seqs w) c x.
Proof using All.
  intros Hp Hn Hc. assert (i < 4)%nat as Hi by exact (lookup_lt_Some _ _ _ Hc). assert (chans !! (3 - i)%nat = Some c) as Hch.
  { destruct i as [|[|[|[|]]]]; [exact Hc..|lia]. }
  destruct Hp as [I|[j B]].
  - exists (got (seqs w) c). rewrite (id_internal _ I), list_lookup_fmap, Hch. split; [done|]. left. destruct (seqs w); [lia|done].
  - rewrite (bu_internal _ _ B). pose proof (bu_j _ _ B). unfold filled, recent.
    destruct (decide (3 - i < j)%nat) as [Hl|Hl].
    + exists (V (seqs w) c). split; [|by left]. rewrite lookup_app_l by (rewrite length_fmap, length_take; cbn; lia).
      by rewrite list_lookup_fmap, lookup_take_lt, Hch by lia.
    + exists (got (seqs w - 1) c). split; [|by right].
      rewrite lookup_app_r, length_fmap, length_take by (rewrite length_fmap, length_take; cbn; lia).
      rewrite list_lookup_fmap, lookup_drop. replace (j + (3 - i - j `min` length chans))%nat with (3 - i)%nat by (cbn; lia). by rewrite Hch.
Qed.

(** What happens elsewhere: other threads, other drivers, other streams. *)
Record elsewhere w w' : Prop := {
  el_driver : AdcDrv.elsewhere (G:=unit) rx_handler ADCD1_ptr w w';
  el_globals : internal_samples (GV w') = internal_samples (GV w) ∧ raw_samples (GV w') = raw_samples (GV w);
  el_conv : conv w' = conv w ∧ seqs w' = seqs w ∧ tc w' = tc w;
  el_last r : is_adc r ∨ r ∈ rDMA1 <$> [CCR 1; CNDTR 1; CPAR 1; CMAR 1] → last_wr w' r = last_wr w r
}.

(** The world and how far the thread is in [system_adc_sample], which it calls when
    the driver is ready. Its statements, the converter, the interrupt and the rest
    of the system interleave. *)
Inductive step : W * nat → W * nat → Prop :=
  | step_call w : state (D w) = ADC_READY → step (w, 5%nat) (w, 0%nat)
  | step_stmt w w' k m : sample_prog !! k = Some m → m w = Ok (tt, w') → step (w, k) (w', S k)
  | step_convert w w' k : converts (F:=F) (P:=P) buf V w w' → step (w, k) (w', k)
  | step_irq w w' k : STM32_DMA1_CH1_HANDLER invoke w = Ok (tt, w') → step (w, k) (w', k)
  | step_elsewhere w w' k : elsewhere w w' → step (w, k) (w', k).

Lemma start_step w :
  common w → idle w →
  ∃ w', (modify (Platform.adcStartConversion Adc.adcgrpcfg1 Adc.ADC_GRP1_BUF_DEPTH) : fw W unit) w = Ok (tt, w')
    ∧ common w' ∧ busy 0 w' ∧ raw_samples (GV w') = raw_samples (GV w) ∧ internal_samples (GV w') = internal_samples (GV w) ∧ seqs w' = S (seqs w).
Proof using All.
  intros C I. destruct (wp_elim _ _ _ (wp_conj _ _ _ w (start_conversion_inv group rx_handler ADCD1_ptr tt buf Adc.ADC_GRP1_BUF_DEPTH w (co_inv _ C) ltac:(left; apply I))
    (start_programs w (co_inv _ C) (co_mode _ C) (id_conv _ I) (id_tc _ I) (co_cpar _ C)))) as ([] & w' & E & [I' _] & H1 & H2 & H3 & H4 & H5 & H6 & H7).
  exists w'. split; [unfold modify; by rewrite (start_is _ _ _ E)|]. split_and!; [..|by rewrite H3|by rewrite H3|done].
  - split; [done|by rewrite H7; apply C|apply H1|by rewrite H3; apply C].
  - split; rewrite ?H7; try done; [lia|lia|]. rewrite H3, H4, (id_internal _ I). unfold filled. cbn. by rewrite Nat.sub_0_r.
Qed.

Lemma copy_step k i w :
  (i < 4)%nat → k = S i → sampled k w →
  ∃ w', Adc.copy_sample i (3 - i) w = Ok (tt, w') ∧ sampled (S k) w'.
Proof using All.
  intros Hi -> [C Hp _ Hr]. 
  assert (∃ x, internal_samples (GV w) !! (3 - i)%nat = Some x ∧ ((0 < seqs w)%nat → ∀ c, inputs !! i = Some c → recent (seqs w) c x)) as (x & Hx & Hrec).
  { destruct (lookup_lt_is_Some_2 inputs i Hi) as [c Hc]. destruct (decide (0 < seqs w)%nat) as [Hn|Hn].
    - destruct (buffer_recent w i c Hp Hn Hc) as (x & Hx & Hrec). exists x. split; [done|]. intros _ c' Hc'. congruence.
    - assert (length (internal_samples (GV w)) = 4%nat) as Hl.
      { destruct Hp as [I|[j B]]; [by rewrite (id_internal _ I), length_fmap|]. pose proof (bu_seqs _ _ B). lia. }
      destruct (lookup_lt_is_Some_2 (internal_samples (GV w)) (3 - i)%nat) as [x Hx]; [lia|]. exists x. by split. }
  rewrite (copy_sample_runs i (3 - i) x w Hx) by (rewrite (co_raw _ C); done). eexists. split; [reflexivity|].
  destruct (raw_set_ok (<[i:=x]> (raw_samples (GV w))) w) as (C' & KI & KB & ER & _ & EQ); [by rewrite length_insert; apply C|done|].
  cbv zeta in *. split; [done| |lia|].
  - destruct Hp as [I|[j B]]; [left; auto|right; exists j; auto].
  - rewrite EQ, ER. intros Hn i' c Hi' Hc. cbn in Hi'. destruct (decide (i' = i)) as [->|Hd].
    + exists x. split; [|by apply Hrec]. apply list_lookup_insert_eq. by rewrite (co_raw _ C).
    + destruct (Hr Hn i' c) as (y & Hy & Hrc); [cbn; lia|done|]. exists y. by rewrite list_lookup_insert_ne.
Qed.

Lemma stmt_ok k m w :
  sampled k w → sample_prog !! k = Some m → ∃ w', m w = Ok (tt, w') ∧ sampled (S k) w'.
Proof using All.
  intros S Hm. destruct k as [|k].
  - injection Hm as <-. destruct S as [C _ HI _]. destruct (start_step w C (HI eq_refl)) as (w' & E & C' & B & _). exists w'. split; [done|].
    split; [done|by right; exists 0%nat|done|]. intros _ i c Hi. cbn in Hi. lia.
  - assert (k < 4)%nat as Hk by (pose proof (lookup_lt_Some _ _ _ Hm); cbn in *; lia).
    assert (m = Adc.copy_sample k (3 - k)) as -> by (destruct k as [|[|[|[|]]]]; [by injection Hm as <-..|lia]).
    by apply copy_step.
Qed.

Lemma sampled_keep k w w' :
  sampled k w → common w' → (idle w → idle w') → (∀ j, busy j w → idle w' ∨ ∃ j', busy j' w') → raw_samples (GV w') = raw_samples (GV w) → seqs w' = seqs w → sampled k w'.
Proof.
  intros [C Hp Hf Hr] C' HI HB ER EQ. split; [done| |auto|by rewrite ER, EQ]. destruct Hp as [I|[j B]]; [left; auto|eauto].
Qed.

Lemma convert_ok k w w' : sampled k w → converts (F:=F) (P:=P) buf V w w' → sampled k w'.
Proof using All.
  intros S [(j & c & Ej & Ec & Ej' & Et & Em) Q L Ie Rc Ir]. destruct S as [C Hp Hf Hr].
  assert (∃ j0, busy j0 w) as [j0 B].
  { destruct Hp as [I|]; [|done]. rewrite (id_conv _ I) in Ej. done. }
  rewrite (bu_conv _ _ B) in Ej. case_decide as Hj0; [done|]. injection Ej as ->. pose proof (bu_j _ _ B).
  pose proof (bu_prog _ _ B) as Pg. destruct (slot_programmed w j Pg) as [Es Ems]; [lia|].
  rewrite (scan_programmed w Pg) in *. rewrite Es in Em. destruct Em as (EG & ED & EV). rewrite (pg_cfgr1 _ Pg) in Ej'.
  rewrite Ems, (pg_cndtr _ Pg), (bu_tc _ _ B) in Et.
  assert (internal_samples (GV w') = filled (Datatypes.S j) (seqs w)) as EN.
  { rewrite EG. cbn [Platform.internal_samples Platform.with_internal]. rewrite (bu_internal _ _ B). destruct (filled_next j (seqs w)) as (c' & Hc' & <-); [lia|apply B|]. congruence. }
  assert (common w') as C'.
  { destruct C as [C1 C2 C3 C4]. split; [|by rewrite ED|by rewrite L|by rewrite EG].
    destruct C1 as [I1 I2 I3 I4]. split; rewrite ?ED, ?Ie; [done..|]. eapply claims_same; [exact I4| |done]. by split. }
  split; [done| |intros ->|].
  - right. exists (Datatypes.S j). destruct B as [B1 B2 [B3 B3'] [P1 P2 P3 P4 P5 P6] B5 B6 B7 B8 B9 B10]. split; rewrite ?ED, ?Ie, ?Q; try done.
    + split; by rewrite L.
    + lia.
    + rewrite Ej'. change (length chans) with 4%nat. destruct (Nat.ltb_spec (Datatypes.S j) 4); destruct (decide (Datatypes.S j = 4%nat)); try lia; [reflexivity|vm_compute; reflexivity].
    + rewrite Et, bool_decide_eq_false_2 by done. cbn [orb andb]. apply Bool.eq_iff_eq_true. rewrite bool_decide_eq_true, Z.eqb_eq. lia.
  - destruct (Hf eq_refl) as [HS _ _ _]. rewrite (bu_state _ _ B) in HS. done.
  - rewrite Q, EG. exact Hr.
Qed.

Lemma elsewhere_ok k w w' : sampled k w → elsewhere w w' → sampled k w'.
Proof using All.
  intros S [HD [EN ER] (EC & EQ & ET) EL]. pose proof S as [[C1 C2 C3 C4] Hp Hf Hr]. pose proof HD as (ED & EI & _).
  apply (sampled_keep k w w' S); [| | |done|done].
  - split; [by apply (elsewhere_inv rx_handler ADCD1_ptr w)|by rewrite ED| |by rewrite ER]. rewrite EL; [done|right; set_solver].
  - intros [H1 H2 H3 H4]. split; congruence.
  - intros j [B1 B2 [B3 B3'] [P1 P2 P3 P4 P5 P6] B5 B6 B7 B8 B9 B10]. right. exists j. split; try congruence; [split; congruence|].
    split; (rewrite EL; [done|]); first [by left|right; set_solver].
Qed.

Lemma irq_sampled k w :
  sampled k w → wp (STM32_DMA1_CH1_HANDLER invoke) (λ _ w', sampled k w' ∧ (tc w = true → state (D w') = ADC_READY)) w.
Proof using All.
  intros S. pose proof S as [C Hp _ _]. eapply wp_mono; [|exact (irq_ok w C Hp)].
  intros [] w' (C' & R' & Q' & HI & HB). split.
  - apply (sampled_keep k w); auto. intros j B. destruct (decide (j = 4%nat)) as [->|]; [left; auto|].
    right. exists j. apply HB; [|done]. pose proof (bu_j _ _ B). lia.
  - intros Ht. apply HI. right. destruct Hp as [I|[j B]]; [rewrite (id_tc _ I) in Ht; done|].
    rewrite (bu_tc _ _ B) in Ht. apply bool_decide_eq_true in Ht. by subst.
Qed.

Lemma step_sampled w k w' k' : sampled k w → step (w, k) (w', k') → sampled k' w'.
Proof using All.
  intros S Hs. inversion Hs; subst.
  - destruct S as [C Hp _ Hr]. split; [done|done| |intros _ i c Hi; cbn in Hi; lia].
    intros _. destruct Hp as [|[j B]]; [done|]. pose proof (bu_state _ _ B). congruence.
  - destruct (stmt_ok k m w S) as (w1 & E1 & S1); [done|]. congruence.
  - by eapply convert_ok.
  - pose proof (irq_sampled k' w S) as Hw. unfold wp in Hw. match goal with H : _ w = Ok _ |- _ => rewrite H in Hw end. apply Hw.
  - by eapply elsewhere_ok.
Qed.

(** The call as a whole. *)
Lemma sample_prog_ok w : Adc.system_adc_sample w = foldr (λ m k, m;; k) (ret tt) sample_prog w.
Proof.
  unfold Adc.system_adc_sample, sample_prog. cbn [foldr].
  do 4 (rewrite !fw_bind_eq; match goal with |- match ?m with _ => _ end = _ => destruct m as [[[] ?]|]; [|done] end).
  rewrite !fw_bind_eq. by match goal with |- ?m = _ => destruct m as [[[] ?]|] end.
Qed.

Lemma copies_run w a b c d :
  internal_samples (GV w) = [a; b; c; d] → length (raw_samples (GV w)) = 4%nat →
  ∃ w', foldr (λ m k, m;; k) (ret tt) (tail sample_prog) w = Ok (tt, w') ∧ raw_samples (GV w') = [d; c; b; a] ∧ seqs w' = seqs w.
Proof using All.
  intros Ei Er. destruct (raw_samples (GV w)) as [|r0 [|r1 [|r2 [|r3 [|]]]]] eqn:Eraw; try done. unfold sample_prog. cbn [foldr tail].
  assert (∀ w1 l i j x, internal_samples (GV w1) = [a; b; c; d] → raw_samples (GV w1) = l → [a; b; c; d] !! j = Some x → (i < length l)%nat →
    ∃ w2, Adc.copy_sample i j w1 = Ok (tt, w2) ∧ internal_samples (GV w2) = [a; b; c; d] ∧ raw_samples (GV w2) = <[i := x]> l ∧ seqs w2 = seqs w1) as Hcopy.
  { intros w1 l i j x E1 E2 Hj Hi. rewrite (copy_sample_runs i j x w1) by (rewrite ?E1, ?E2; done).
    eexists. split; [reflexivity|]. rewrite obj_set, seqs_set. cbn [Platform.internal_samples Platform.raw_samples Platform.with_raw]. by rewrite E2. }
  destruct (Hcopy w _ 0%nat 3%nat d Ei Eraw eq_refl ltac:(cbn; lia)) as (w1 & R1 & I1 & S1 & Q1).
  destruct (Hcopy w1 _ 1%nat 2%nat c I1 S1 eq_refl ltac:(cbn; lia)) as (w2 & R2 & I2 & S2 & Q2).
  destruct (Hcopy w2 _ 2%nat 1%nat b I2 S2 eq_refl ltac:(cbn; lia)) as (w3 & R3 & I3 & S3 & Q3).
  destruct (Hcopy w3 _ 3%nat 0%nat a I3 S3 eq_refl ltac:(cbn; lia)) as (w4 & R4 & I4 & S4 & Q4).
  exists w4. rewrite (fw_bind_ok _ _ _ _ _ R1), (fw_bind_ok _ _ _ _ _ R2), (fw_bind_ok _ _ _ _ _ R3), (fw_bind_ok _ _ _ _ _ R4).
  split; [done|]. split; [exact S4|congruence].
Qed.

Lemma sample_at_once w :
  common w → idle w → ∃ w', Adc.system_adc_sample w = Ok (tt, w') ∧ seqs w' = S (seqs w) ∧ raw_samples (GV w') = got (seqs w) <$> inputs.
Proof using All.
  intros C I. destruct (start_step w C I) as (w1 & E1 & C1 & B1 & R1 & N1 & Q1).
  rewrite (id_internal _ I) in N1. destruct (copies_run w1 _ _ _ _ N1) as (w2 & E2 & R2 & Q2); [apply C1|].
  exists w2. rewrite sample_prog_ok. unfold sample_prog. cbn [foldr]. rewrite (fw_bind_ok _ _ _ _ _ E1).
  split; [exact E2|]. split; [congruence|exact R2].
Qed.

Lemma recent_range n c x : (∀ n c, 0 <= V n c <= 4095) → recent n c x → 0 <= x <= 4095.
Proof. intros HV [->| ->]; [done|]. unfold got. destruct (n - 1)%nat; [lia|done]. Qed.

(** The bytes of a frame of millivolts. *)
Definition frame_bytes (raw : list Z) : list Z := concat ((λ s, [Adc.millivolts s mod 256; Adc.millivolts s / 256]) <$> raw).

Lemma frame_of_samples base raw stk :
  length raw = 4%nat → (∀ i, (i < 4)%nat → ∃ x, raw !! i = Some x ∧ 0 <= x <= 4095) → CanFrame.tx_wf stk → 0 <= base → base + 255 < 2 ^ 29 →
  ∃ f, Adc.sensor_frame base raw stk = Ok f ∧ Api.ext_frame f (base + 20) (frame_bytes raw).
Proof.
  intros Hl Hv Hs Hb1 Hb2. destruct raw as [|a [|b [|c [|d [|]]]]]; try done. apply Adc.sensor_frame_data; [done..|].
  apply Forall_lookup_2. intros i x Hx. destruct (Hv i) as (y & Hy & Hr); [exact (lookup_lt_Some _ _ _ Hx)|]. congruence.
Qed.

(** C6 (refinement). What goes out on the bus is what was on the pins. However the
    statements of the sampling, the conversions and transfers of the converter, the
    interrupt of its stream and the rest of the system interleave, every statement
    and every interrupt succeeds, the interrupt after the last transfer makes the
    driver ready for the next call, and when a call has ended, the sample of analog
    input [i] is what the converter measured on its pin in the sequence the call
    started or in the one before, and the frame built from the samples carries their
    millivolts. A call that nothing interrupts takes all four of the sequence
    before. *)
Theorem samples_follow_pins w0 w k :
  common w0 → idle w0 → seqs w0 = 0%nat → rtc step (w0, 5%nat) (w, k) →
  (∀ m, sample_prog !! k = Some m → ∃ w', m w = Ok (tt, w'))
  ∧ (∃ w', STM32_DMA1_CH1_HANDLER invoke w = Ok (tt, w') ∧ (tc w = true → state (D w') = ADC_READY))
  ∧ (k = 5%nat → state (D w) = ADC_READY →
     ∃ w', Adc.system_adc_sample w = Ok (tt, w') ∧ seqs w' = S (seqs w) ∧ raw_samples (GV w') = got (seqs w) <$> inputs)
  ∧ (k = 5%nat → (0 < seqs w)%nat →
     length (raw_samples (GV w)) = 4%nat
     ∧ (∀ i c, inputs !! i = Some c → ∃ x, raw_samples (GV w) !! i = Some x ∧ recent (seqs w) c x)
     ∧ ∀ base stk, (∀ n c, 0 <= V n c <= 4095) → CanFrame.tx_wf stk → 0 <= base → base + 255 < 2 ^ 29 →
         ∃ f, Adc.sensor_frame base (raw_samples (GV w)) stk = Ok f ∧ Api.ext_frame f (base + 20) (frame_bytes (raw_samples (GV w)))).
Proof using All.
  intros C I E Hrun. assert (sampled 5 w0) as S0 by (split; [done|by left|done|lia]).
  assert (sampled k w) as S.
  { clear C I E. remember (w0, 5%nat) as a eqn:Ea. remember (w, k) as b eqn:Eb. revert w0 S0 Ea.
    enough (∀ w0 k0, sampled k0 w0 → a = (w0, k0) → sampled k w) as Hg by (intros w0 S0 ->; by eapply Hg).
    induction Hrun as [a|a [w1 k1] b Hs _ IH]; intros w0 k0 S0 Ea; [congruence|]. subst a.
    apply (IH Eb w1 k1); [by eapply step_sampled|done]. }
  pose proof S as [C' Hp _ Hr]. split_and!.
  - intros m Hm. destruct (stmt_ok k m w S Hm) as (w' & E' & _). by exists w'.
  - destruct (wp_elim _ _ _ (irq_sampled k w S)) as ([] & w' & E' & _ & Ht). by exists w'.
  - intros _ Hst. assert (idle w) as I'.
    { destruct Hp as [|[j B]]; [done|]. pose proof (bu_state _ _ B). congruence. }
    by apply sample_at_once.
  - intros -> Hn. split; [apply C'|]. assert (∀ i c, inputs !! i = Some c → ∃ x, raw_samples (GV w) !! i = Some x ∧ recent (seqs w) c x) as Hraw.
    { intros i c Hc. apply (Hr Hn); [|done]. pose proof (lookup_lt_Some _ _ _ Hc). cbn in *. lia. }
    split; [done|]. intros base stk HV Hs Hb1 Hb2. apply frame_of_samples; [apply C'| |done..].
    intros i Hi. destruct (lookup_lt_is_Some_2 inputs i Hi) as [c Hc]. destruct (Hraw i c Hc) as (x & Hx & Hrec).
    exists x. split; [done|]. by apply (recent_range (seqs w) c).
Qed.

End runs.
End Sampling.
