(* ===== verification/SampleSim.v ===== *)
(** * A simulated converter under the application

    A world with the laws Sampling relies on, in which the converter's samples go
    where the stream is programmed to put them, and a run in which the
    conversions fall between the statements of [system_adc_sample]. *)

From S2P Require Import Prelude Fw CanFrame CanDriver Platform Api Adc AppSim Mmio Dma AdcDrv AdcSpecs AdcSim Sampling.
From stdpp Require Import list gmap relations.
Import Mmio Dma AdcDrv AdcSpecs Sampling.
#[local] Open Scope Z_scope.

Module SampleSim.

Record sim := {
  regs : reg → Z; vectors : Z → bool; adcd : ADCDriver unit; dmav : dma_vars unit unit;
  globs : Platform.globals; sequence : option nat; started : nat; complete : bool
}.

Notation commands := AdcSim.commands.

(** Commands take effect at once; an enabled converter is ready. *)
Definition sim_rd (r : reg) (w : sim) : Z * sim :=
  (if decide (r = rADC ADC_CR) then Z.ldiff (regs w r) commands
   else if decide (r = rADC ADC_ISR) then Z.land (regs w (rADC ADC_CR)) ADC_CR_ADEN
   else if decide (r = rDMA1 DMA_ISR) then if complete w then STM32_DMA_ISR_TCIF else 0
   else regs w r, w).

Definition sim_wr (r : reg) (v : Z) (w : sim) : sim :=
  {| regs := upd (regs w) r v;
     vectors := λ n, match r with
       | rNVIC (ISER i) => vectors w n || vector_in n i v
       | rNVIC (ICER i) => vectors w n && negb (vector_in n i v)
       | _ => vectors w n
       end;
     adcd := adcd w; dmav := dmav w; globs := globs w;
     sequence := if decide (r = rADC ADC_CR) then
         if any_bit ADC_CR_ADSTP v then None
         else match sequence w with None => if any_bit ADC_CR_ADSTART v then Some 0%nat else None | c => c end
       else sequence w;
     started := if decide (r = rADC ADC_CR) then
         match sequence w with None => if negb (any_bit ADC_CR_ADSTP v) && any_bit ADC_CR_ADSTART v then S (started w) else started w | _ => started w end
       else started w;
     complete := if decide (r = rDMA1 DMA_IFCR) then complete w && negb (any_bit (Z.lor 1 STM32_DMA_ISR_TCIF) v) else complete w |}.

#[export] Instance sim_mmio : Mmio sim := { mm_rd := sim_rd; mm_wr := sim_wr }.
#[export] Instance sim_adc : Obj sim (ADCDriver unit) := {
  obj := adcd;
  set_obj d w := {| regs := regs w; vectors := vectors w; adcd := d; dmav := dmav w; globs := globs w;
                    sequence := sequence w; started := started w; complete := complete w |}
}.
#[export] Instance sim_dma : Obj sim (dma_vars unit unit) := {
  obj := dmav;
  set_obj d w := {| regs := regs w; vectors := vectors w; adcd := adcd w; dmav := d; globs := globs w;
                    sequence := sequence w; started := started w; complete := complete w |}
}.
Definition set_globs (g : Platform.globals) (w : sim) : sim :=
  {| regs := regs w; vectors := vectors w; adcd := adcd w; dmav := dmav w; globs := g;
     sequence := sequence w; started := started w; complete := complete w |}.

#[export] Instance sim_core : CoreHw sim.
Proof.
  refine {| rcc := λ w r, regs w (rRCC r); irq_on := vectors |}.
  all: try done.
  intros r v w r'. cbn. unfold upd. destruct r; repeat case_decide; congruence.
Defined.
#[export] Instance sim_ie : DmaHw sim.
Proof.
  refine {| ie := λ w i, ie_of (regs w (rDMA1 (CCR i))) |}.
  all: try done.
  intros r v w i. cbn. unfold upd. destruct r as [|[]| | | | | | | | |]; repeat case_decide; congruence.
Defined.
#[export] Instance sim_last : LastWritten sim.
Proof.
  refine {| last_wr := regs |}.
  - intros. cbn. unfold upd. repeat case_decide; congruence.
  - done.
Defined.

#[export] Instance sim_timing : AdcTiming sim 0.
Proof.
  split.
  - intros w v m Hm. left. cbn. rewrite upd_eq. by apply AdcSim.commands_end.
  - intros w. left. cbn. rewrite decide_False, upd_eq by done. done.
Qed.
#[export] Instance sim_converter : Converter sim.
Proof.
  refine {| conv := sequence; seqs := started; tc := complete |}.
  all: try done.
  - intros w. cbn. by destruct (complete w).
  - intros w. cbn. by destruct (complete w).
  - intros w _. apply AdcSim.commands_end. by left.
Defined.


(** ** The application *)

(** [internal_samples] is at this address; sequence [n] measures [100 * n + c] on
    channel [c], up to full scale. *)
Definition buffer : Z := 0x20000100.
Definition measures (n c : nat) : Z := Z.min 4095 (Z.of_nat (100 * n + c)).

Definition platform (start : Platform.ADCConversionGroup → Z → sim → sim) : Platform.Platform sim := {|
  Platform.G := globs;
  Platform.set_G := set_globs;
  Platform.chVTGetSystemTimeX w := 0;
  Platform.chThdSleep t w := w;
  Platform.chThdShouldTerminateX w := false;
  Platform.chRegSetThreadName n w := w;
  Platform.chThdCreateStatic t w := w;
  Platform.chEvtRegister w := w;
  Platform.chEvtUnregister w := w;
  Platform.chEvtWaitAnyTimeout e t w := (0, w);
  Platform.can_start c := ret tt;
  Platform.can_transmit mb f t := ret 0;
  Platform.can_receive mb f t := ret (0, f);
  Platform.palSetPadMode p n m w := w;
  Platform.palSetGroupMode p n o m w := w;
  Platform.palReadPad p n w := 1;
  Platform.palClearPad p n w := w;
  Platform.set_register_bits r m w := w;
  Platform.adcStart w := w;
  Platform.adcStartConversion := start;
  Platform.sdStart s w := w;
  Platform.sdGet w := (0, w);
  Platform.wdgStart c w := w;
  Platform.wdgReset w := w;
  Platform.halInit w := w;
  Platform.chSysInit w := w;
  Platform.NVIC_SystemReset w := w;
  Platform.stack_tx w := AppSim.stk;
  Platform.stack_rx w := Api.rx_zero
|}.

(** The group is the same whatever the application's call does. *)
Definition sim_group : unit → ADCConversionGroup sim := adcgrpcfg1 (H:=platform (λ _ _ w, w)) buffer.

#[export] Instance sim_platform : Platform.Platform sim := platform (λ g n w,
  match AdcDrv.adcStartConversion sim_group tt buffer n w with Ok (_, w') => w' | Err _ => w end).

Lemma sim_start_is n w w' :
  AdcDrv.adcStartConversion (adcgrpcfg1 buffer) tt buffer n w = Ok (tt, w') → Platform.adcStartConversion Adc.adcgrpcfg1 n w = w'.
Proof. intros E. change (AdcDrv.adcStartConversion sim_group tt buffer n w = Ok (tt, w')) in E. cbn. by rewrite E. Qed.

Definition sim_invoke (f : unit) (p : option unit) (flags : Z) : fw sim unit :=
  adc_lld_serve_rx_interrupt (adcgrpcfg1 buffer) 1 flags.

#[export] Instance sim_laws1 : ObjLaws sim (ADCDriver unit).
Proof. by split. Qed.
#[export] Instance sim_laws2 : ObjLaws sim (dma_vars unit unit).
Proof. by split. Qed.
#[export] Instance sim_laws3 : ObjLaws sim Platform.globals.
Proof. by split. Qed.
#[export] Instance sim_apart12 : Apart sim (ADCDriver unit) (dma_vars unit unit).
Proof. by split. Qed.
#[export] Instance sim_apart21 : Apart sim (dma_vars unit unit) (ADCDriver unit).
Proof. by split. Qed.
#[export] Instance sim_apart13 : Apart sim (ADCDriver unit) Platform.globals.
Proof. by split. Qed.
#[export] Instance sim_apart31 : Apart sim Platform.globals (ADCDriver unit).
Proof. by split. Qed.
#[export] Instance sim_apart23 : Apart sim (dma_vars unit unit) Platform.globals.
Proof. by split. Qed.
#[export] Instance sim_apart32 : Apart sim Platform.globals (dma_vars unit unit).
Proof. by split. Qed.
#[export] Instance sim_core1 : CoreObjLaws sim (ADCDriver unit).
Proof. by split. Qed.
#[export] Instance sim_core2 : CoreObjLaws sim (dma_vars unit unit).
Proof. by split. Qed.
#[export] Instance sim_core3 : CoreObjLaws sim Platform.globals.
Proof. by split. Qed.
#[export] Instance sim_ie1 : DmaObjLaws sim (ADCDriver unit).
Proof. by split. Qed.
#[export] Instance sim_ie2 : DmaObjLaws sim (dma_vars unit unit).
Proof. by split. Qed.
#[export] Instance sim_ie3 : DmaObjLaws sim Platform.globals.
Proof. by split. Qed.
#[export] Instance sim_last1 : LastObjLaws sim (ADCDriver unit).
Proof. by split. Qed.
#[export] Instance sim_last3 : LastObjLaws sim Platform.globals.
Proof. by split. Qed.
#[export] Instance sim_conv1 : ConverterObj sim (ADCDriver unit).
Proof. by split. Qed.
#[export] Instance sim_conv3 : ConverterObj sim Platform.globals.
Proof. by split. Qed.

(** ** A run *)

(** One transfer. *)
Definition transfer (w : sim) : sim :=
  match sequence w, scan w !! default 0%nat (sequence w), slot buffer w (default 0%nat (sequence w)) with
  | Some j, Some c, Some i =>
    {| regs := regs w; vectors := vectors w; adcd := adcd w; dmav := dmav w;
       globs := Platform.with_internal (<[i := measures (started w) c]> (Platform.internal_samples (globs w))) (globs w);
       sequence := if (S j <? length (scan w))%nat then Some (S j) else if Z.testbit (regs w (rADC ADC_CFGR1)) 13 then Some 0%nat else None;
       started := started w;
       complete := complete w || (stream_moves w && (Z.of_nat (S j) =? regs w (rDMA1 (CNDTR 1)))) |}
  | _, _, _ => w
  end.

Definition may_transfer (w : sim) : bool :=
  match sequence w with
  | Some j => match scan w !! j, slot buffer w j with Some _, Some _ => true | _, _ => false end
  | None => false
  end.

Lemma transfer_converts w : may_transfer w = true → converts (F:=unit) (P:=unit) buffer measures w (transfer w).
Proof.
  unfold may_transfer, transfer. destruct (sequence w) as [j|] eqn:Ej; [|done]. change (default 0%nat (Some j)) with j.
  destruct (scan w !! j) as [c|] eqn:Ec; [|done]. destruct (slot buffer w j) as [i|] eqn:Es; [|done]. intros _.
  split; try done. exists j, c. rewrite Es. by split_and!.
Qed.

Notation sim_step := (step (F:=unit) (P:=unit) tt tt sim_invoke buffer measures).

Inductive action := ACall | AStmt | ATransfer | AIrq.

Definition act (a : action) (s : sim * nat) : option (sim * nat) :=
  let '(w, k) := s in
  match a with
  | ACall => if decide (state (adcd w) = ADC_READY ∧ k = 5%nat) then Some (w, 0%nat) else None
  | AStmt => match sample_prog !! k with
             | Some m => match m w with Ok (_, w') => Some (w', S k) | Err _ => None end
             | None => None
             end
  | ATransfer => if may_transfer w then Some (transfer w, k) else None
  | AIrq => match STM32_DMA1_CH1_HANDLER sim_invoke w with Ok (_, w') => Some (w', k) | Err _ => None end
  end.

Fixpoint play (l : list action) (s : sim * nat) : option (sim * nat) :=
  match l with
  | [] => Some s
  | a :: l => s' ← act a s; play l s'
  end.

Lemma act_steps a s s' : act a s = Some s' → sim_step s s'.
Proof.
  destruct s as [w k], a; cbn [act].
  - case_decide as Hd; [|done]. destruct Hd as [Hr ->]. intros [= <-]. by apply step_call.
  - destruct (sample_prog !! k) as [m|] eqn:Em; [|done]. destruct (m w) as [[[] w']|] eqn:E; [|done]. intros [= <-]. by eapply step_stmt.
  - destruct (may_transfer w) eqn:Em; [|done]. intros [= <-]. by apply step_convert, transfer_converts.
  - destruct (STM32_DMA1_CH1_HANDLER sim_invoke w) as [[[] w']|] eqn:E; [|done]. intros [= <-]. by apply step_irq.
Qed.

Lemma play_steps l s s' : play l s = Some s' → rtc sim_step s s'.
Proof.
  revert s. induction l as [|a l IH]; intros s; cbn [play]; [by intros [= <-]|].
  destruct (act a s) as [s1|] eqn:E; [|done]. cbn. intros Hp. eapply rtc_l; [by apply (act_steps a)|by apply IH].
Qed.

(** The converter was started with the driver. *)
Definition off : sim := {|
  regs := λ _, 0; vectors := λ _, false; adcd := adc_initial;
  dmav := {| dma_streams_mask := 0; _stm32_dma_isr_redir := replicate 5 {| dma_func := None; dma_param := None |} |};
  globs := Platform.initial_globals; sequence := None; started := 0; complete := false
|}.
Definition ready : sim := match AdcDrv.adcStart (F:=unit) (P:=unit) (G:=unit) tt tt 1 None off with Ok (_, w) => w | Err _ => off end.

Lemma ready_common : common (F:=unit) (P:=unit) tt tt ready.
Proof.
  assert (adc_inv (W:=sim) (G:=unit) (F:=unit) (P:=unit) tt tt off) as I.
  { apply initial_inv; [done| |done]. split; [done|done| | |done|].
    - intros s _. rewrite lookup_empty. unfold bit_of. by rewrite Z.testbit_0_l.
    - intros s Hs. exists {| dma_func := None; dma_param := None |}. rewrite lookup_empty. split_and!; [|done|done].
      apply lookup_replicate. split; [done|]. by apply stream_index.
    - intros s _. cbn. unfold Dma.busy, bit_of. cbn. by rewrite !andb_false_r. }
  destruct (wp_elim _ _ _ (adc_start_inv 0 1 ltac:(lia) sim_group tt tt None off I ltac:(by left))) as ([] & w' & E & I' & _).
  assert (ready = w') as -> by (unfold ready; by rewrite E).
  injection E as <-.
  split; [done|vm_compute; reflexivity..].
Qed.

(** In the second call the conversion is done after the first sample is copied. *)
Definition torn_run : list action :=
  [ACall; AStmt; ATransfer; ATransfer; AStmt; AStmt; ATransfer; ATransfer; AIrq; AStmt; AStmt;
   ACall; AStmt; AStmt; ATransfer; ATransfer; ATransfer; ATransfer; AStmt; AStmt; AStmt].
Definition torn : sim := match play torn_run (ready, 5%nat) with Some (w, _) => w | None => off end.

Lemma torn_reached : rtc sim_step (ready, 5%nat) (torn, 5%nat).
Proof.
  apply (play_steps torn_run). assert (∃ w, play torn_run (ready, 5%nat) = Some (w, 5%nat)) as [w E].
  { destruct (play torn_run (ready, 5%nat)) as [[w k]|] eqn:E.
    - exists w. assert (option_map snd (play torn_run (ready, 5%nat)) = Some 5%nat) as Hk by (vm_compute; reflexivity).
      rewrite E in Hk. cbn in Hk. congruence.
    - assert (bool_decide (is_Some (play torn_run (ready, 5%nat))) = true) as Hs by (vm_compute; reflexivity).
      rewrite E in Hs. done. }
  unfold torn. by rewrite E.
Qed.

Lemma torn_raw : Platform.raw_samples (obj torn) = [109; 207; 206; 205].
Proof. vm_compute. reflexivity. Qed.
(** The first input is from sequence 1, the others are from sequence 2. *)
Lemma torn_mixes :
  rtc sim_step (ready, 5%nat) (torn, 5%nat)
  ∧ Platform.raw_samples (obj torn) = [measures 1 9; measures 2 7; measures 2 6; measures 2 5].
Proof. split; [exact torn_reached|exact torn_raw]. Qed.
Lemma torn_complete : tc torn = true.
Proof. vm_compute. reflexivity. Qed.
Lemma torn_second : seqs torn = 2%nat.
Proof. vm_compute. reflexivity. Qed.
Lemma ready_first : seqs ready = 0%nat.
Proof. vm_compute. reflexivity. Qed.
Lemma ready_idle : idle measures ready.
Proof. split; vm_compute; reflexivity. Qed.
Lemma measures_range n c : 0 <= measures n c <= 4095.
Proof. unfold measures. lia. Qed.
Lemma buffer_range : 0 <= buffer ∧ buffer + 8 <= 2 ^ 32.
Proof. split; vm_compute; discriminate. Qed.

Lemma samples_follow_pins_witness :
  Platform.raw_samples (obj torn) = [109; 207; 206; 205]
  ∧ (∃ w', STM32_DMA1_CH1_HANDLER sim_invoke torn = Ok (tt, w') ∧ state (obj w' : ADCDriver unit) = ADC_READY)
  ∧ ∃ f, Adc.sensor_frame 0xE4600 (Platform.raw_samples (obj torn)) AppSim.stk = Ok f
      ∧ Api.ext_frame f (0xE4600 + 20) (frame_bytes (Platform.raw_samples (obj torn))).
Proof.
  split; [exact torn_raw|].
  destruct (samples_follow_pins 0 1 ltac:(lia) tt tt sim_invoke buffer measures buffer_range (λ _, eq_refl) sim_start_is
    ready torn 5 ready_common ready_idle ready_first torn_reached) as (_ & (w' & E & H1) & _ & HF).
  split; [exists w'; split; [exact E|exact (H1 torn_complete)]|]. destruct (HF eq_refl) as (_ & _ & H); [rewrite torn_second; lia|].
  exact (H 0xE4600 AppSim.stk measures_range AppSim.stk_wf ltac:(lia) ltac:(lia)).
Defined.

End SampleSim.
