(* ===== verification/CanApp.v ===== *)
(** * From the bus to the settings

    The receive worker of Api.v over the CAN driver of CanDriver.v: frames arrive,
    the interrupt handler signals the worker's event, the worker takes the frames
    and applies the configuration messages among them. *)

From S2P Require Import Prelude Streams SysTime Fw CanFrame CanDriver Platform Logging Api Mmio.
From stdpp Require Import relations.
Import SysTime CanFrame CanDriver Platform Logging Api.

Module CanApp.

(** The application's receive is the driver's; its globals are no registers and no
    variable of the driver. *)
Class CanPlatform (W : Type) `{CanHw W} `{CanObj W} `{Osal W can_queue can_event} `{Platform W} := {
  receive_is f w : can_receive CAN_ANY_MAILBOX f TIME_IMMEDIATE w = canReceive 1 CAN_ANY_MAILBOX f TIME_IMMEDIATE w;
  G_wr r v w : G (can_wr r v w) = G w;
  G_drv d w : G (set_CAND1 d w) = G w;
  G_dequeue q m w : G (osalThreadDequeueAllI q m w) = G w;
  G_broadcast e f w : G (osalEventBroadcastFlagsI e f w) = G w
}.

Section runs.
Context {W : Type} `{L : CanLaws W fifo requests event} `{PL : PlatformLaws W} `{!CanPlatform W} `{BaseSequentialStream W} {accepted : W → list Z}.
Implicit Types w : W.

(** The receive side of the controller and its driver. *)
Definition rx_side w : list CAN_FIFOMailBox * list CAN_FIFOMailBox * Z * bool * CANDriver :=
  (fifo 0 w, fifo 1 w, can_rd w IER, event w, CAND1 w).

Context (quiet : ∀ g v, StreamLaws W (λ w, G w = g ∧ rx_side w = v) accepted (λ _, None)).
Context (rx_set_G : ∀ g w, rx_side (set_G g w) = rx_side w).

Lemma rx_side_same w w' : rx_side w' = rx_side w → same_rx (fifo:=fifo) (event:=event) w w' ∧ CAND1 w' = CAND1 w.
Proof.
  intros [= E0 E1 EI EE ED]. split; [|done]. split; [|done]. intros j Hj. split; [|unfold fmpie; by rewrite EI].
  assert (j = 0%nat ∨ j = 1%nat) as [-> | ->] by lia; done.
Qed.

(** ** The frame taken *)

(** The FIFO and the mailbox the next receive takes. *)
Definition next w : option (nat * CAN_FIFOMailBox) :=
  match fifo 0 w, fifo 1 w with
  | m :: _, _ => Some (0%nat, m)
  | [], m :: _ => Some (1%nat, m)
  | [], [] => None
  end.

Lemma frames_receive i f : Mmio.frames G (receive_from i f : fw W CANRxFrame).
Proof.
  unfold receive_from, pending, set_bits, rd, wr. Mmio.frames_tac; apply G_wr.
Qed.

(** A receive takes the head of its FIFO and leaves the globals and the other FIFO
    alone; with nothing there it changes nothing. *)
Lemma receive_next buf w :
  state (CAND1 w) ≠ CAN_SLEEP →
  match next w with
  | None => can_receive CAN_ANY_MAILBOX buf TIME_IMMEDIATE w = Ok ((MSG_TIMEOUT, buf), w)
  | Some (i, m) => ∃ w', can_receive CAN_ANY_MAILBOX buf TIME_IMMEDIATE w = Ok ((MSG_OK, rx_decode m buf), w')
      ∧ (i < 2)%nat ∧ fifo i w = m :: fifo i w' ∧ (∀ j, (j < 2)%nat → j ≠ i → fifo j w' = fifo j w) ∧ G w' = G w
  end.
Proof using All.
  intros Hs. rewrite receive_is. pose proof (canReceive_spec 0 w buf Hs) as Hspec. unfold queued in Hspec.
  assert (∀ i m l, (i < 2)%nat → fifo i w = m :: l → (i = 1%nat → fifo 0 w = []) →
    ∃ w', canReceive 1 CAN_ANY_MAILBOX buf TIME_IMMEDIATE w = Ok ((MSG_OK, rx_decode m buf), w')
      ∧ (i < 2)%nat ∧ fifo i w = m :: fifo i w' ∧ (∀ j, (j < 2)%nat → j ≠ i → fifo j w' = fifo j w) ∧ G w' = G w) as Htake.
  { intros i m l Hi Ei H0'. destruct (receive_from_spec i w m l buf Hi Ei) as (w' & E & Hf & Hj & _).
    exists w'. split; [|rewrite Hf; split_and!; [done|done|by intros j Hj2 Hne; apply Hj|exact (frames_receive i buf w _ w' E)]].
    assert (queued w ≠ []) as Hq by (unfold queued; destruct i as [|[|]]; [by rewrite Ei|by rewrite Ei; destruct (fifo 0 w)|lia]).
    unfold canReceive. rewrite (fw_bind_ok _ _ w MSG_OK w) by by apply wait_rx_spec.
    change (MSG_OK =? MSG_OK)%Z with true. cbv iota. rewrite (fw_bind_ok _ _ w (rx_decode m buf) w'); [done|].
    unfold can_lld_receive. cbn [Z.eqb CAN_ANY_MAILBOX]. rewrite (fw_bind_ok _ _ _ _ _ (pending_spec 0 w ltac:(lia))).
    destruct i as [|[|]]; [|rewrite (H0' eq_refl); rewrite bool_decide_false by naive_solver|lia].
    - by rewrite Ei, bool_decide_true.
    - rewrite (fw_bind_ok _ _ _ _ _ (pending_spec 1 w ltac:(lia))). by rewrite Ei, bool_decide_true. }
  unfold next. destruct (fifo 0 w) as [|m l] eqn:E0; [destruct (fifo 1 w) as [|m l] eqn:E1|].
  - exact Hspec.
  - destruct (Htake 1%nat m l ltac:(lia) E1 ltac:(done)) as (w' & E & Hi & Hf & Hj & HG). exists w'. by split_and!.
  - destruct (Htake 0%nat m l ltac:(lia) E0 ltac:(done)) as (w' & E & Hi & Hf & Hj & HG). exists w'. by split_and!.
Qed.

(** ** Runs *)

(** What the worker's messages set and what its handling reads; the other globals
    hold samples and the state of the start-up. *)
Definition settings (g : globals) : Z * Z * bool * Z :=
  (g_can_base_address g, update_rate_hz g, g_provisioned g, logging_level g).

Lemma settings_config b f g g' : settings g = settings g' → settings (apply_config b f g) = settings (apply_config b f g').
Proof. unfold settings, apply_config. intros [= E1 E2 E3 E4]. destruct (is_config b f), (1 <=? rx_DLC f)%Z; cbn; congruence. Qed.

Lemma settings_fixed g g' : settings g = settings g' → g_can_base_address g = g_can_base_address g' ∧ logging_level g = logging_level g'.
Proof. by intros [= -> _ _ ->]. Qed.

(** Between statements the worker waits for its event, is about to receive into
    [buf], or has received [f]. *)
Inductive worker := Waiting (buf : CANRxFrame) | Draining (buf : CANRxFrame) | Handling (f : CANRxFrame).

(** The world, the frames taken and the frames that have arrived, with their FIFOs.
    A statement of the worker is one step: its receive holds the system lock, and the
    handling of a frame touches what neither arrivals nor the handler touch. *)
Record run_state := { st_worker : worker; st_world : W; taken : list (nat * CAN_FIFOMailBox); arrived : list (nat * CAN_FIFOMailBox) }.

Definition handle (f : CANRxFrame) : fw W bool := log_CAN_rx_message (cstr CAN_LOG_PFX) f;; dispatch_can_rx f.

Inductive step : run_state → run_state → Prop :=
  | step_arrives p w w' T A i m :
      (i < 2)%nat → fifo_wf m → fifo i w' = fifo i w ++ [m] → (∀ j, j ≠ i → fifo j w' = fifo j w) →
      can_rd w' IER = can_rd w IER → event w' = event w → CAND1 w' = CAND1 w → G w' = G w →
      step {| st_worker := p; st_world := w; taken := T; arrived := A |}
           {| st_worker := p; st_world := w'; taken := T; arrived := A ++ [(i, m)] |}
  | step_interrupt p w w' T A :
      STM32_CAN1_UNIFIED_HANDLER w = Ok (tt, w') →
      step {| st_worker := p; st_world := w; taken := T; arrived := A |} {| st_worker := p; st_world := w'; taken := T; arrived := A |}
  | step_event buf w w' T A :
      event w = true → event w' = false → (∀ i, fifo i w' = fifo i w) → can_rd w' IER = can_rd w IER → CAND1 w' = CAND1 w → G w' = G w →
      step {| st_worker := Waiting buf; st_world := w; taken := T; arrived := A |}
           {| st_worker := Draining buf; st_world := w'; taken := T; arrived := A |}
  | step_take buf f w w' T A :
      can_receive CAN_ANY_MAILBOX buf TIME_IMMEDIATE w = Ok ((MSG_OK, f), w') →
      step {| st_worker := Draining buf; st_world := w; taken := T; arrived := A |}
           {| st_worker := Handling f; st_world := w'; taken := T ++ option_list (next w); arrived := A |}
  | step_handle f b w w' T A :
      handle f w = Ok (b, w') →
      step {| st_worker := Handling f; st_world := w; taken := T; arrived := A |}
           {| st_worker := Draining f; st_world := w'; taken := T; arrived := A |}
  | step_empty buf f msg w w' T A :
      can_receive CAN_ANY_MAILBOX buf TIME_IMMEDIATE w = Ok ((msg, f), w') → msg ≠ MSG_OK →
      step {| st_worker := Draining buf; st_world := w; taken := T; arrived := A |}
           {| st_worker := Waiting f; st_world := w'; taken := T; arrived := A |}
  | step_other p w w' T A :
      same_rx (fifo:=fifo) (event:=event) w w' → state (CAND1 w') ≠ CAN_SLEEP → settings (G w') = settings (G w) →
      step {| st_worker := p; st_world := w; taken := T; arrived := A |} {| st_worker := p; st_world := w'; taken := T; arrived := A |}.

(** The inner loop of the worker, statement by statement. *)
Lemma drain_steps fuel buf w :
  drain (S fuel) buf w = (r ← can_receive CAN_ANY_MAILBOX buf TIME_IMMEDIATE;
    if ((r : Z * CANRxFrame).1 =? MSG_OK)%Z then handle r.2;; drain fuel r.2 else ret r.2) w.
Proof.
  cbn [drain]. rewrite !fw_bind_eq. destruct (can_receive _ _ _ w) as [[[msg f] w1]|]; [|done]. cbn [fst snd].
  destruct (msg =? MSG_OK)%Z; [|done]. unfold handle. rewrite !fw_bind_eq. by destruct (log_CAN_rx_message _ _ w1) as [[[] w2]|].
Qed.

(** ** The invariant *)

Section from.
(** The globals at the start. *)
Variable G0 : globals.
Hypothesis level0 : logging_level G0 = logging_level_info.
Hypothesis base0 : (0 <= g_can_base_address G0)%Z ∧ (g_can_base_address G0 + 255 < 2 ^ 29)%Z.

Definition applied (T : list (nat * CAN_FIFOMailBox)) : globals := foldl (apply_mailbox (g_can_base_address G0)) G0 T.*2.

Lemma applied_keeps T : g_can_base_address (applied T) = g_can_base_address G0 ∧ logging_level (applied T) = logging_level G0.
Proof.
  unfold applied. induction T as [|x T [IH1 IH2]] using rev_ind; [done|]. rewrite fmap_app, foldl_app. cbn [fmap list_fmap foldl].
  unfold apply_mailbox at 1 3. by rewrite !(proj1 (apply_config_keeps _ _ _)), !(proj2 (apply_config_keeps _ _ _)).
Qed.

Lemma applied_snoc T x b : rx_wf b → apply_config (g_can_base_address G0) (rx_decode x.2 b) (applied T) = applied (T ++ [x]).
Proof. intros Hb. unfold applied. rewrite fmap_app, foldl_app. cbn. by apply apply_mailbox_decode. Qed.

(** The frames of one FIFO. *)
Definition of_fifo (j : nat) (l : list (nat * CAN_FIFOMailBox)) : list CAN_FIFOMailBox := (base.filter (λ x, x.1 = j) l).*2.

#[local] Arguments of_fifo : simpl never.
#[local] Arguments applied : simpl never.

Lemma of_fifo_snoc j l i m : of_fifo j (l ++ [(i, m)]) = of_fifo j l ++ if decide (i = j) then [m] else [].
Proof. unfold of_fifo. rewrite filter_app, fmap_app. f_equal. rewrite filter_cons. cbn. by case_decide. Qed.

Definition phase_of (p : worker) : phase := match p with Waiting _ => CanDriver.Waiting | _ => CanDriver.Draining end.

(** Where the globals stand: the frame in hand has not been applied. *)
Definition globals_ok (p : worker) (T : list (nat * CAN_FIFOMailBox)) (g : globals) : Prop :=
  match p with
  | Handling f => ∃ T0 x b, T = T0 ++ [x] ∧ rx_wf b ∧ fifo_wf x.2 ∧ f = rx_decode x.2 b ∧ settings g = settings (applied T0)
  | Waiting buf | Draining buf => rx_wf buf ∧ settings g = settings (applied T)
  end.

Record ok (s : run_state) : Prop := {
  ok_rx : rx_inv (fifo:=fifo) (event:=event) (phase_of (st_worker s), st_world s);
  ok_wf j : (j < 2)%nat → Forall fifo_wf (fifo j (st_world s));
  ok_order j : (j < 2)%nat → of_fifo j (arrived s) = of_fifo j (taken s) ++ fifo j (st_world s);
  ok_globals : globals_ok (st_worker s) (taken s) (G (st_world s))
}.

Lemma handle_ok f w :
  rx_wf f → g_can_base_address (G w) = g_can_base_address G0 → logging_level (G w) = logging_level G0 →
  ∃ b w', handle f w = Ok (b, w') ∧ G w' = apply_config (g_can_base_address G0) f (G w) ∧ rx_side w' = rx_side w.
Proof using All.
  intros Hf Hb Hl. rewrite level0 in Hl. unfold handle. rewrite (fw_bind_ok _ _ w tt w).
  2: { unfold log_CAN_rx_message. rewrite (fw_bind_ok _ _ _ _ _ eq_refl). cbv beta. by rewrite Hl. }
  destruct (dispatch_step rx_side quiet rx_set_G f w) as (b & w' & E & HG & Hr); rewrite ?Hb; try done; [apply base0|apply base0|].
  rewrite Hb in HG. by exists b, w'.
Qed.

Lemma frames_handler : Mmio.frames G (STM32_CAN1_UNIFIED_HANDLER : fw W unit).
Proof using All.
  unfold STM32_CAN1_UNIFIED_HANDLER, can_lld_tx_handler, can_lld_rx_handler, can_lld_sce_handler, broadcast, dequeue_all, set_state, clr_bits, rd, wr.
  Mmio.frames_tac; first [apply G_wr|apply G_drv|apply G_dequeue|apply G_broadcast].
Qed.

(** What a step leaves of the FIFOs and the globals. *)
Lemma ok_same p T A w w' :
  ok {| st_worker := p; st_world := w; taken := T; arrived := A |} → rx_inv (fifo:=fifo) (event:=event) (phase_of p, w') →
  (∀ j, (j < 2)%nat → fifo j w' = fifo j w) → settings (G w') = settings (G w) →
  ok {| st_worker := p; st_world := w'; taken := T; arrived := A |}.
Proof.
  intros [I1 I2 I3 I4] HR HF HG. cbn in *. split; cbn; [done| | |by destruct p; cbn in *; rewrite HG]; intros j Hj; rewrite HF by done; auto.
Qed.

Lemma globals_keep p T g : globals_ok p T g → g_can_base_address g = g_can_base_address G0 ∧ logging_level g = logging_level G0.
Proof.
  assert (∀ T0, settings g = settings (applied T0) → g_can_base_address g = g_can_base_address G0 ∧ logging_level g = logging_level G0) as Hk.
  { intros T0 [-> ->]%settings_fixed. apply applied_keeps. }
  destruct p; cbn; [intros [_ E]|intros [_ E]|intros (T0 & x & b & _ & _ & _ & _ & E)]; by eapply Hk.
Qed.

(** The receive of a frame. *)
Lemma take_ok buf f w w' T A :
  ok {| st_worker := Draining buf; st_world := w; taken := T; arrived := A |} →
  can_receive CAN_ANY_MAILBOX buf TIME_IMMEDIATE w = Ok ((MSG_OK, f), w') →
  ok {| st_worker := Handling f; st_world := w'; taken := T ++ option_list (next w); arrived := A |}.
Proof using All.
  intros [I1 I2 I3 [I4 I5]] E. cbn in *. pose proof (receive_next buf w (inv_awake _ I1)) as Hn.
  destruct (next w) as [[i m]|] eqn:En; [|by rewrite Hn in E]. destruct Hn as (w1 & E1 & Hi & Hf & Hj & HG).
  rewrite E in E1. injection E1 as -> <-. change (option_list (Some (i, m))) with [(i, m)]. split; cbn.
  - rewrite receive_is in E. exact (wstep_inv _ _ (frame_taken 0 buf _ w w' E) I1).
  - intros j Hj2. destruct (decide (j = i)) as [->|]; [|rewrite Hj; auto]. pose proof (I2 i Hj2) as Hw. rewrite Hf in Hw. by apply Forall_cons_1 in Hw as [_ ?].
  - intros j Hj2. rewrite I3, of_fifo_snoc by done. destruct (decide (i = j)) as [->|]; [by rewrite Hf, <-app_assoc|]. rewrite app_nil_r. by rewrite Hj.
  - exists T, (i, m), buf. split_and!; [done|done| |done|by rewrite HG]. pose proof (I2 i Hi) as Hw. rewrite Hf in Hw. by apply Forall_cons_1 in Hw as [? _].
Qed.

(** Nothing left to receive. *)
Lemma empty_ok buf f msg w w' T A :
  ok {| st_worker := Draining buf; st_world := w; taken := T; arrived := A |} →
  can_receive CAN_ANY_MAILBOX buf TIME_IMMEDIATE w = Ok ((msg, f), w') → msg ≠ MSG_OK →
  ok {| st_worker := Waiting f; st_world := w'; taken := T; arrived := A |}.
Proof using All.
  intros [I1 I2 I3 [I4 I5]] E Hm. cbn in *. pose proof (receive_next buf w (inv_awake _ I1)) as Hn.
  destruct (next w) as [[i m]|] eqn:En.
  - destruct Hn as (w1 & E1 & _). rewrite E in E1. by injection E1 as -> _ _.
  - rewrite E in Hn. injection Hn as -> -> ->. split; cbn; try done.
    rewrite receive_is in E. exact (wstep_inv _ _ (queue_empty 0 buf _ _ w w E Hm) I1).
Qed.

Lemma step_ok s s' : ok s → step s s' → ok s'.
Proof using All.
  intros I Hs. destruct Hs as [p w w' T A i m Hi Hm Hf Hj He Hev Hd HG|p w w' T A Hh|buf w w' T A Hev Hev' Hf He Hd HG
    |buf f w w' T A E|f b w w' T A E|buf f msg w w' T A E Hm|p w w' T A Hs Ha HG].
  - pose proof I as [I1 I2 I3 I4]. cbn in *. split; cbn.
    + exact (wstep_inv _ _ (frame_arrives _ w w' i m Hi Hf Hj He Hev Hd) I1).
    + intros j Hj2. destruct (decide (j = i)) as [->|]; [|rewrite Hj; auto]. rewrite Hf. apply Forall_app_2; [by apply I2|by apply Forall_singleton].
    + intros j Hj2. rewrite of_fifo_snoc, I3 by done. destruct (decide (i = j)) as [->|]; [by rewrite Hf, app_assoc|]. by rewrite app_nil_r, Hj.
    + by rewrite HG.
  - destruct (handler_spec w) as (w1 & Hh1 & Hf & _). rewrite Hh in Hh1. injection Hh1 as <-.
    apply (ok_same p T A w w' I); [|by intros j Hj; apply Hf|by rewrite (frames_handler w tt w' Hh)].
    exact (wstep_inv _ _ (interrupt _ w w' Hh) (ok_rx _ I)).
  - pose proof I as [I1 I2 I3 I4]. cbn in *. split; cbn; try (intros j Hj; rewrite Hf); [|auto|auto|by rewrite HG].
    exact (wstep_inv _ _ (event_taken w w' Hev Hev' Hf He Hd) I1).
  - by eapply take_ok.
  - pose proof I as [I1 I2 I3 I4]. cbn in *. destruct (globals_keep (Handling f) T (G w) I4) as [Hb Hl].
    destruct I4 as (T0 & x & b0 & -> & Hb0 & Hx & -> & HG0).
    destruct (handle_ok (rx_decode x.2 b0) w) as (b1 & w1 & E1 & HG & Hside); [by apply rx_decode_wf|done|done|].
    rewrite E in E1. injection E1 as _ <-. destruct (rx_side_same w w' Hside) as [Hsame Hd].
    split; cbn; [|intros j Hj; rewrite (proj1 (proj1 Hsame j Hj)); auto..|].
    + exact (wstep_inv _ _ (other_code CanDriver.Draining w w' Hsame ltac:(rewrite Hd; exact (inv_awake _ I1))) I1).
    + split; [by apply rx_decode_wf|]. rewrite HG, <-(applied_snoc T0 x b0 Hb0). by apply settings_config.
  - by eapply empty_ok.
  - pose proof I as [I1 I2 I3 I4]. cbn in *. apply (ok_same p T A w w' I); [|by intros j Hj; apply Hs|done].
    exact (wstep_inv _ _ (other_code _ w w' Hs Ha) I1).
Qed.

(** The frames taken and applied: all but the one in hand. *)
Definition handled (s : run_state) : list (nat * CAN_FIFOMailBox) :=
  match st_worker s with Handling _ => removelast (taken s) | _ => taken s end.

(** C4 (refinement). The settings follow the bus. From a start with empty FIFOs and
    their interrupts on, in every run in which frames arrive, the interrupt
    handler runs, the worker wakes, takes and handles frames and other code
    transmits, stores samples or uses the rest of the driver: each FIFO's frames are taken once, in the order of their arrival;
    the settings (base address, rate, provisioned flag and log level) are those the
    messages handled give, applied in order; the worker's next statement and the
    interrupt succeed. When the worker waits while
    a frame is queued, its event is pending or the interrupt is on that makes it
    so; so once it waits with neither, every frame that has arrived has been
    handled. *)
Theorem settings_follow_bus w0 buf s :
  state (CAND1 w0) ≠ CAN_SLEEP → (∀ j, (j < 2)%nat → fmpie j w0 = true ∧ fifo j w0 = []) → rx_wf buf → G w0 = G0 →
  rtc step {| st_worker := Waiting buf; st_world := w0; taken := []; arrived := [] |} s →
  let w := st_world s in
  (∀ j, (j < 2)%nat → of_fifo j (arrived s) = of_fifo j (taken s) ++ fifo j w)
  ∧ settings (G w) = settings (applied (handled s))
  ∧ match st_worker s with
    | Waiting _ => ∀ i, (i < 2)%nat → fifo i w ≠ [] → event w = true
        ∨ fmpie i w = true ∧ ∃ w', STM32_CAN1_UNIFIED_HANDLER w = Ok (tt, w') ∧ event w' = true
    | Draining buf => ∃ r w', can_receive CAN_ANY_MAILBOX buf TIME_IMMEDIATE w = Ok (r, w')
    | Handling f => ∃ b w', handle f w = Ok (b, w')
    end
  ∧ (∃ w', STM32_CAN1_UNIFIED_HANDLER w = Ok (tt, w')).
Proof using All.
  intros Hs Hf Hb HG Hrun. assert (ok {| st_worker := Waiting buf; st_world := w0; taken := []; arrived := [] |}) as I0.
  { split; cbn; [split; cbn; [done|by intros j Hj _; apply Hf|intros j Hj E; by rewrite (proj1 (Hf j Hj)) in E]| | |by rewrite HG].
    - intros j Hj. by rewrite (proj2 (Hf j Hj)).
    - intros j Hj. by rewrite (proj2 (Hf j Hj)). }
  assert (ok s) as I. { clear Hs Hf Hb HG. induction Hrun as [|s1 s2 s3 H12 _ IH]; [done|]. by eapply IH, step_ok. }
  clear I0 Hrun. destruct (handler_spec (st_world s)) as (w1 & Hh & _ & Hev & _). destruct s as [p w T A]. pose proof I as [I1 I2 I3 I4]. cbn in *.
  split_and!; [exact I3| | |by exists w1].
  - destruct p as [b|b|f]; cbn in *; [apply I4|apply I4|]. destruct I4 as (T0 & x & b & -> & _ & _ & _ & I4).
    unfold handled. cbn. by rewrite removelast_last.
  - destruct p as [b|b|f].
    + intros i Hi Hne. destruct (fmpie i w) eqn:Em; [|destruct (inv_known _ I1 i Hi Em) as [|Hd]; [by left|done]].
      right. split; [done|]. exists w1. split; [done|]. rewrite Hev, bool_decide_true; [done|]. unfold queued.
      intros [E0 E1]%app_nil. destruct i as [|[|]]; [done|done|lia].
    + pose proof (receive_next b w (inv_awake _ I1)) as Hn. destruct (next w) as [[i m]|]; [|by eexists _, _].
      destruct Hn as (w' & E & _). by eexists _, _.
    + destruct (globals_keep (Handling f) T (G w) I4) as [Hb1 Hl1]. destruct I4 as (T0 & x & b0 & _ & Hb0 & Hx & -> & _).
      destruct (handle_ok (rx_decode x.2 b0) w) as (b1 & w' & E & _); [by apply rx_decode_wf|done|done|]. by exists b1, w'.
Qed.

End from.
End runs.
End CanApp.
