(* ===== verification/CanAppSim.v ===== *)
(** * The receive worker on the simulated controller

    The controller of CanSim.v beside the application's platform of AppSim.v: a
    concrete world for the theorem of CanApp.v, and its witness. *)

From S2P Require Import Prelude Fw Streams SysTime CanFrame CanDriver Platform Logging Api CanSim AppSim CanApp.
From stdpp Require Import relations.
Import SysTime CanFrame CanDriver Platform Logging Api CanApp.

Module CanAppSim.

Definition world : Type := CanSim.world * AppSim.world.

Definition on_bus (f : CanSim.world → CanSim.world) (w : world) : world := (f w.1, w.2).
Definition on_app (f : AppSim.world → AppSim.world) (w : world) : world := (w.1, f w.2).
Definition app_call {A} (m : fw AppSim.world A) : fw world A := λ w,
  match m w.2 with Ok (a, v) => Ok (a, (w.1, v)) | Err e => Err e end.

#[global] Instance sim_hw : CanHw world := {
  can_rd w := can_rd w.1; can_wr r v := on_bus (can_wr r v); hw_call c := on_bus (hw_call c)
}.
#[global] Instance sim_obj : CanObj world := { CAND1 w := CAND1 w.1; set_CAND1 d := on_bus (set_CAND1 d) }.
#[global] Instance sim_osal : Osal world can_queue can_event := {
  osalThreadQueueObjectInit q := on_bus (osalThreadQueueObjectInit q);
  osalEventObjectInit e := on_bus (osalEventObjectInit e);
  osalThreadEnqueueTimeoutS q t w := let r := osalThreadEnqueueTimeoutS q t w.1 in (r.1, (r.2, w.2));
  osalThreadDequeueAllI q m := on_bus (osalThreadDequeueAllI q m);
  osalEventBroadcastFlagsI e f := on_bus (osalEventBroadcastFlagsI e f);
  osalThreadSleepS t := on_bus (osalThreadSleepS t);
  osalOsRescheduleS := on_bus osalOsRescheduleS
}.

(** The application's calls of the CAN driver are the driver's functions. *)
#[global] Instance sim_platform : Platform world := {
  G w := G w.2;
  set_G g := on_app (set_G g);
  chVTGetSystemTimeX w := chVTGetSystemTimeX w.2;
  chThdSleep t := on_app (chThdSleep t);
  chThdShouldTerminateX w := chThdShouldTerminateX w.2;
  chRegSetThreadName n := on_app (chRegSetThreadName n);
  chThdCreateStatic t := on_app (chThdCreateStatic t);
  chEvtRegister := on_app chEvtRegister;
  chEvtUnregister := on_app chEvtUnregister;
  chEvtWaitAnyTimeout e t w := (if CanSim.ev w.1 then 1 else 0, on_bus (CanSim.set_event false) w)%Z;
  can_start := canStart 1;
  can_transmit := canTransmit 1;
  can_receive := canReceive 1;
  palSetPadMode p n m := on_app (palSetPadMode p n m);
  palSetGroupMode p n o m := on_app (palSetGroupMode p n o m);
  palReadPad p n w := palReadPad p n w.2;
  palClearPad p n := on_app (palClearPad p n);
  set_register_bits r m := on_app (set_register_bits r m);
  adcStart := on_app adcStart;
  adcStartConversion g n := on_app (adcStartConversion g n);
  sdStart s := on_app (sdStart s);
  sdGet w := let r := sdGet w.2 in (r.1, (w.1, r.2));
  wdgStart c := on_app (wdgStart c);
  wdgReset := on_app wdgReset;
  halInit := on_app halInit;
  chSysInit := on_app chSysInit;
  NVIC_SystemReset := on_app NVIC_SystemReset;
  stack_tx w := stack_tx w.2;
  stack_rx w := stack_rx w.2
}.

#[global] Instance sim_stream : BaseSequentialStream world := {
  stream_write w bs := match stream_write w.2 bs with Ok (v, n) => Ok ((w.1, v), n) | Err e => Err e end;
  stream_read w n := match stream_read w.2 n with Ok (v, bs) => Ok ((w.1, v), bs) | Err e => Err e end;
  stream_put w b := match stream_put w.2 b with Ok (v, m) => Ok ((w.1, v), m) | Err e => Err e end;
  stream_get w := match stream_get w.2 with Ok (v, m) => Ok ((w.1, v), m) | Err e => Err e end
}.

Definition fifo (i : nat) (w : world) : list CAN_FIFOMailBox := CanSim.fifo i w.1.
Definition requests (w : world) : list (Z * CAN_TxMailBox) := CanSim.reqs w.1.
Definition event (w : world) : bool := CanSim.ev w.1.

#[global] Instance sim_laws : CanLaws world fifo requests event.
Proof.
  pose proof CanSim.sim_laws as L. split; intros.
  - by apply (fifo_level w.1 i).
  - by apply (fifo_head w.1 i m l).
  - by apply (fifo_release w.1 i j).
  - by apply (fifo_wr w.1 i r v).
  - by apply (ier_wr w.1 v m).
  - by apply (ier_other w.1 r v).
  - by apply (tsr_code w.1).
  - by apply (tx_request w.1 mb a b c d).
  - by apply (drv_wr w.1 r v).
  - by apply (event_wr w.1 r v).
  - by apply (set_drv w.1 d).
  - by apply (dequeue_frame w.1 q m).
  - by apply (broadcast_frame w.1 e f).
  - unfold osalThreadEnqueueTimeoutS, sim_osal. rewrite (enqueue_immediate w.1 q). by destruct w.
Qed.

#[global] Instance sim_platform_laws : PlatformLaws world.
Proof. split; intros; try done; [apply (stack_tx_wf w.2)|apply (stack_rx_wf w.2)]. Qed.

#[global] Instance sim_can_platform : CanPlatform world.
Proof. by split. Qed.

Lemma writes_quiet g v : StreamLaws world (λ w, G w = g ∧ rx_side (fifo:=fifo) (event:=event) w = v) (λ w, AppSim.sim_out w.2) (λ _, None).
Proof. split; [|done]. intros s b Hs _ _. eexists. split; [reflexivity|]. split_and!; [exact (proj1 Hs)|exact (proj2 Hs)|done|done]. Qed.

Lemma sim_rx_set_G g w : rx_side (fifo:=fifo) (event:=event) (set_G g w) = rx_side (fifo:=fifo) (event:=event) w.
Proof. done. Qed.

(** ** A run *)

(** Two configuration messages arrive, the second while the first is handled. *)
Definition arrive (m : CAN_FIFOMailBox) (w : world) : world :=
  on_bus (λ v, {| CanSim.regs := CanSim.regs v; CanSim.raw := λ j, if decide (j = 0%nat) then CanSim.raw v 0 ++ [m] else CanSim.raw v j;
    CanSim.busy0 := CanSim.busy0 v; CanSim.busy1 := CanSim.busy1 v; CanSim.busy2 := CanSim.busy2 v;
    CanSim.reqs := CanSim.reqs v; CanSim.ev := CanSim.ev v; CanSim.drv := CanSim.drv v |}) w.

Definition after {A} (m : fw world A) (w : world) : world := match m w with Ok (_, w') => w' | Err _ => w end.

Definition m1 := CanSim.frame 7.
Definition m2 := CanSim.frame 9.
Definition rx1 := rx_decode m1 CanSim.rx0.
Definition rx2 := rx_decode m2 rx1.
Definition receive (f : CANRxFrame) : fw world (Z * CANRxFrame) := can_receive CAN_ANY_MAILBOX f TIME_IMMEDIATE.

Definition w0 : world := (CanSim.w0, AppSim.w_of initial_globals []).
Definition w1 := arrive m1 w0.
Definition w2 := after STM32_CAN1_UNIFIED_HANDLER w1.
Definition w3 := on_bus (CanSim.set_event false) w2.
Definition w4 := after (receive CanSim.rx0) w3.
Definition w5 := arrive m2 w4.
Definition w6 := after (handle rx1) w5.
Definition w7 := after (receive rx1) w6.
Definition w8 := after (handle rx2) w7.
Definition all := [(0%nat, m1); (0%nat, m2)].

Definition at_start := {| st_worker := Waiting CanSim.rx0; st_world := w0; taken := []; arrived := [] |}.
Definition at_end := {| st_worker := Waiting rx2; st_world := w8; taken := all; arrived := all |}.

Lemma arrive_other m j w : j ≠ 0%nat → fifo j (arrive m w) = fifo j w.
Proof. intros Hj. unfold fifo, CanSim.fifo, arrive. cbn. by rewrite decide_False. Qed.

Lemma take_step buf f w w' T A x :
  next (fifo:=fifo) w = Some x → receive buf w = Ok ((MSG_OK, f), w') →
  step (fifo:=fifo) (event:=event) {| st_worker := Draining buf; st_world := w; taken := T; arrived := A |}
    {| st_worker := Handling f; st_world := w'; taken := T ++ [x]; arrived := A |}.
Proof. intros Hn E. change [x] with (option_list (Some x)). rewrite <-Hn. by apply step_take. Qed.

Lemma run : rtc (step (fifo:=fifo) (event:=event)) at_start at_end.
Proof.
  eapply (rtc_l _ _ {| st_worker := Waiting CanSim.rx0; st_world := w1; taken := []; arrived := [(0%nat, m1)] |}).
  { eapply (step_arrives _ w0 w1 [] []); try done; [lia|by intros j; apply arrive_other]. }
  eapply (rtc_l _ _ {| st_worker := Waiting CanSim.rx0; st_world := w2; taken := []; arrived := [(0%nat, m1)] |}).
  { apply step_interrupt. by vm_compute. }
  eapply (rtc_l _ _ {| st_worker := Draining CanSim.rx0; st_world := w3; taken := []; arrived := [(0%nat, m1)] |}).
  { apply step_event; by vm_compute. }
  eapply (rtc_l _ _ {| st_worker := Handling rx1; st_world := w4; taken := [(0%nat, m1)]; arrived := [(0%nat, m1)] |}).
  { apply (take_step _ _ w3 w4 [] _ (0%nat, m1)); by vm_compute. }
  eapply (rtc_l _ _ {| st_worker := Handling rx1; st_world := w5; taken := [(0%nat, m1)]; arrived := all |}).
  { eapply (step_arrives _ w4 w5 _ [(0%nat, m1)]); try done; [lia|by intros j; apply arrive_other]. }
  eapply (rtc_l _ _ {| st_worker := Draining rx1; st_world := w6; taken := [(0%nat, m1)]; arrived := all |}).
  { apply (step_handle rx1 true). by vm_compute. }
  eapply (rtc_l _ _ {| st_worker := Handling rx2; st_world := w7; taken := all; arrived := all |}).
  { apply (take_step _ _ w6 w7 [(0%nat, m1)] _ (0%nat, m2)); by vm_compute. }
  eapply (rtc_l _ _ {| st_worker := Draining rx2; st_world := w8; taken := all; arrived := all |}).
  { apply (step_handle rx2 true). by vm_compute. }
  apply rtc_once. apply (step_empty _ _ MSG_TIMEOUT); [by vm_compute|done].
Qed.

Lemma start_ready : ∀ j, (j < 2)%nat → CanDriver.fmpie j w0 = true ∧ fifo j w0 = [].
Proof. intros [|[|j]] Hj; [by vm_compute..|lia]. Qed.
Lemma start_level : logging_level initial_globals = logging_level_info.
Proof. done. Qed.
Lemma start_base : (0 <= g_can_base_address initial_globals)%Z ∧ (g_can_base_address initial_globals + 255 < 2 ^ 29)%Z.
Proof. vm_compute. split; [discriminate|done]. Qed.
Lemma rx0_wf : rx_wf CanSim.rx0.
Proof. constructor; cbn; try lia; by repeat constructor. Qed.
Lemma end_settings : settings (applied initial_globals all) = (0xE4600, 9, true, 1)%Z.
Proof. by vm_compute. Qed.

Lemma settings_follow_bus_witness : settings (G (st_world at_end)) = (0xE4600, 9, true, 1)%Z.
Proof.
  rewrite <-end_settings. exact (proj1 (proj2 (settings_follow_bus (requests:=requests) (accepted:=λ w, AppSim.sim_out w.2) writes_quiet sim_rx_set_G
    initial_globals start_level start_base w0 CanSim.rx0 at_end ltac:(discriminate) start_ready rx0_wf eq_refl run))).
Defined.

End CanAppSim.
